(* ===== verification/_CoqProject ===== *)
-Q . S2P
Prelude.v
CxxString.v
Platform.v
PathUtil.v
ThriftUtils.v
IndexImpl.v
RangeIndex.v
TypedIndex.v
Posix.v
Storage.v
LogManager.v
IndexInfo.v
RangeIndexWrapper.v
IndexManager.v
IndexSpec.v
KVStore.v
Namespace.v
FileSystem.v
IndexNamespace.v
MTHashMap.v
PartitionManager.v
ServerMap.v
MasterController.v
Restart.v
ComplexQuery.v
QueryAst.v
Client.v
QuerySearch.v
Fuse.v
ClientIndex.v
Connections.v
Cluster.v
IndexController.v
Lifecycle.v
LocalCluster.v
LocalMasterd.v
ClusterIndex.v
ClusterSearch.v
Searchable.v
ClusterFiles.v
ClusterVsfs.v
Interference.v
ClusterFuse.v
MountSpec.v
LocalFiles.v
Mounted.v
Api.v
Commands.v
CommandHelp.v
FuseMain.v
UnitTests.v
