(* ===== verification/Prelude.v ===== *)
(** * A verification of VSFS, the Versatile Searchable File System

    VSFS is a distributed file system whose files are found by the values of
    named, ordered indices.  Its sources are C++ (src/vsfs/): master servers
    (masterd/) keep the namespaces of files and indices in a key/value store,
    index servers (indexd/) keep the indices in memory, clients (client/) route
    every request by hashing paths onto two rings of servers, and a FUSE file
    system (fuse/), a C++ API (api/cpp/) and a command line tool (ui/cli/) are
    built on the client.  This library translates these parts into Rocq
    definitions and proves what makes them correct.  The names are those of the
    sources, with an underscore or a prefix where Rocq needs one.

    ** How the code is modelled

    - A class is a [Record] of its fields; a method is a function that takes and
      returns the object.  A [std::map] or an [unordered_map] is a [gmap]; where
      the sources iterate over it, [std::map] is read in the order of its keys
      ([sorted_map] below), and the order of an [unordered_map] is either a
      parameter ([MTHashMap]) or irrelevant to the theorem.
    - [vobla::Status] is an error value, [OK] or [Err code message].  A function
      that fills an output parameter returns it beside the status.
    - [run A] is the result of code that may end the process: a failed glog
      [CHECK], an uncaught exception, or undefined behaviour the model tracks
      is [Fatal].  [late A] (in [Client]) adds code that may not return: [None]
      when the bound on the turns of an unbounded loop is used up.  The bounded
      functions are [Client.create] and its relatives (the retry loops of
      [add_subfile] and [remove_subfile] do not count refusals as retries),
      [find_index] (the walk to the root) and [print_index_info] (the depth of
      a listing).  The theorems say which bound is enough: one turn for
      [cluster_refines_filesystem] and [mounted_vsfs_is_file_system], and where
      indices are looked up ([update_finds_nearest_index],
      [cluster_refines_indices], [cluster_is_searchable_file_system]) more than
      the number of path components.  All other loops are structural or carry a
      proof of termination ([leveldb_loops_exact],
      [iteration_visits_every_entry_once], [query_parser_terminates]).
    - Integers are [Z] with the width of the source written out where it matters
      ([wrap_uint64], [in_int64], [wrap_int32], [wrap_to]); signed overflow is
      [Fatal].
    - A remote call is a function of the class [ClusterRpc] or [IndexRpc] on the
      state of the cluster; its outcome is a reply, a refusal or a transport
      exception.  [Cluster] and [ClusterIndex] implement the classes by the
      handlers of the servers.
    - A method that holds its object's mutex throughout is one step.  Several
      clients of one index are sequences of steps ([wrapper_step],
      [typed_step], [fuse_step]); updates that the index server hands to
      several threads are applied in an arbitrary order ([update_all]).
    - Code outside src/ (vobla, Boost, Thrift, LevelDB, POSIX, getopt) is a type
      class of operations; what the sources rely on is a second class with the
      suffix [Spec], the documented behaviour.  Each has an instance ([Reference]
      in [Platform], [ReferenceOs] in [Posix], the in-memory store in [KVStore])
      in which the examples run.

    ** The files and the code they model

    - [Prelude], [CxxString], [Platform], [Posix]: results, ordered iteration,
      [std::string], and the interfaces of foreign code.
    - [PathUtil] (common/path_util.cpp), [ThriftUtils] (rpc/thrift_utils.cpp):
      layout of index paths, hashes, and errors across an RPC.
    - [IndexImpl], [RangeIndex], [TypedIndex] (index/): the map from keys to
      objects, the range index over twelve key types, typed access to range and
      hash indices.
    - [LogManager] (common/log_manager.h), [IndexInfo] (index/index_info.cpp),
      [RangeIndexWrapper], [IndexManager], [IndexController] (indexd/): the
      update log, one index with its log, the index server and its process.
    - [KVStore] (common/leveldb_store.cpp), [Namespace], [IndexNamespace],
      [MTHashMap], [PartitionManager], [MasterController] (masterd/) and
      [ServerMap] (common/server_map.cpp): the master server.  [Restart]
      (masterd/masterd.cpp): a new process on the stores of an old one.
    - [ComplexQuery] (common/complex_query.cpp, posix_path.cpp), [QueryAst]
      (query/ast.cpp): the query language.  [QuerySearch] follows the text of a
      query through the client to an index.
    - [Client], [ClientIndex] (client/vsfs_rpc_client.cpp): the client.
      [Connections] (rpc/rpc_client.h, rpc_client_factory.h): the connections it
      opens and closes around each call.
    - [Lifecycle] (masterd/master_controller.cpp, indexd/index_controller.cpp,
      the daemons): the threads of the two servers and their states, as a step
      relation with several callers of [stop].
    - [LocalCluster], [LocalMasterd] (testing/local_vsfs_cluster.cpp,
      masterd/testing/local_masterd_cluster.cpp): starting a cluster on one
      machine, as step relations of its servers.
    - [Storage] (common/file.cpp and the storage managers), [Fuse] (fuse/),
      [FuseMain] (fuse/vsfs.cpp), [Api] (api/cpp/), [Commands] and
      [CommandHelp] (ui/cli/): what is built on the client.
    - [Cluster], [ClusterIndex], [ClusterFuse]: clients and servers together.
    - [IndexSpec], [FileSystem]: the specifications of a cluster, a map from
      partitions to indices and a tree of files; [ClusterSearch],
      [ClusterFiles]: the simulations.  [Interference]: a client whose calls
      alternate with those of others.
    - [Searchable]: the specification of the whole, a tree with indices on its
      directories, and programs that use it; [ClusterVsfs]: masters and index
      servers together simulate it.
    - [MountSpec]: the specification of a mounted file system, the tree with the
      bytes of its files, links and open handles, and programs that use it;
      [LocalFiles]: the files of the object store behind it; [Mounted]: the FUSE
      process on masters and an object store simulates it.
    - [UnitTests]: the cases of the repository's gtest files, evaluated on the
      model.

    The components meet at interfaces: the tables of the master are proved
    against [KeyValueStore], which [LevelDBStore] and the test store implement;
    the index server against [RangeIndexInterface], which [RangeIndexObject]
    implements; FUSE and the API against [StorageManager], with two
    implementations; the tools against [VSFSClient].

    ** What the theorems show

    - The whole system.  [cluster_is_searchable_file_system]: for a client whose
      program makes and removes files, directories and indices, updates the
      indices and searches them, any number of masters and index servers are one searchable
      file system, while masters may crash and restart.
      [mounted_vsfs_is_file_system]: from the start of the FUSE process on, any
      program that uses the mount sees one file system with contents, links and
      handles.  [cluster_refines_indices]: any sequence of index updates and
      searches of a client answers what one map of indices answers.
      [cluster_refines_filesystem]: any sequence of file and directory calls
      answers, errors included, what one tree answers, although each path has
      its own master, and masters may crash and restart in between;
      [restarted_master_answers_alike] says what a restart keeps and that a
      primary forgets the servers that joined it; [failed_unlink_of_directory_orphans_it] shows why the
      contract of the callers is needed.  [create_is_atomic]: with other
      clients' calls in between, [create] takes effect at its first call.
      [fuse_file_roundtrip]: a file written through FUSE is read back by its
      path, and no call hangs or dies.  [query_text_exact]: the text of a query
      selects the keys its conditions describe.
    - Servers and connections.  [stop_shuts_down_server],
      [server_threads_are_safe], [cluster_starts_complete],
      [first_index_server_serves_all] (a server that joins an empty ring gets
      all partitions), [session_closes_connections],
      [connections_are_transparent].
    - Refinements.  Index: [search_sees_acknowledged_updates] (the logged index
      is the index with all acknowledged updates applied), [apply_replay].
      Recovery: [namespace_crash_recovery], [index_namespace_recovery]
      (restarting from the store restores the tables),
      [log_file_is_flushed_prefix].  [sharded_map_refines_map] and
      [object_store_refines_map] relate the sharded map and the object store
      to one plain map; [client_routes_like_primary] the client's ring to the
      primary's; [hash_index_agrees_with_range_index] the two kinds of index.
    - Invariants and safety.  [manager_never_aborts], [fuse_handles_invariant],
      [ids_and_paths_correspond], [range_index_type_invariant],
      [file_closes_once].
    - Function of the operations, with their errors.  [range_query_exact],
      [typed_access_exact], [split_partitions], [find_nearest_index],
      [update_finds_nearest_index], [reorder_requests_exact],
      [failed_calls_change_nothing], [failed_create_index_rolls_back],
      [join_position_in_range].
    - Text.  [query_print_parse], [query_result_link].

    Some lemmas record where the code differs from what it means to do, for
    example [flush_drops_unmerged_updates], [restart_reuses_object_ids],
    [create_in_missing_directory_hangs], [older_search_resurrects_removed_record],
    [write_fragments_overwrite], [file_destroy_retries],
    [unaligned_masters_mix_files], [removed_directory_keeps_its_index],
    [removed_index_is_still_searched], [removed_file_is_found_without_path] and
    [debug_becomes_mount_point].  The
    theorems above either describe these situations as they are, or are about
    runs outside them, as their hypotheses say.

    ** What is not modelled

    The network loop of the Thrift servers and the serialisation of messages;
    the event loop and the splitting of options of libfuse and of getopt; glog
    messages; the mocks of the tests, the constructor that injects them, and the
    Python bindings (api/py/), which only forward to the C++ API.  Several
    threads inside one method without a lock are not interleaved below the
    level of method calls.  NaN keys, for which [std::map] promises nothing, are
    outside the model.

    The simulations run one call after the other.  [Mounted] is about the object
    store: with the POSIX storage manager the directories are made a second
    time in the local file system, whose errors leave the two trees different.
    The programs of [Searchable] make indices on directories below the root
    only: for the root itself the client makes a directory whose path begins
    with two slashes.  Index servers keep their indices in memory and do not
    restart. *)

From stdpp Require Export base tactics numbers list relations gmap strings sorting pretty.

(** ** Fatal outcomes

    A C++ function that evaluates a failing glog [CHECK] (or runs into
    undefined behaviour that the model tracks, such as reading a destroyed
    object) has no result: the process is gone.  [run] separates those runs
    from the ones that return. *)
Inductive run (A : Type) : Type :=
  | Done (a : A)
  | Fatal (why : string).
Arguments Done {A} a.
Arguments Fatal {A} why.

#[export] Instance run_ret : MRet run := λ A a, Done a.
#[export] Instance run_bind : MBind run := λ A B f m,
  match m with Done a => f a | Fatal why => Fatal why end.
#[export] Instance run_fmap : FMap run := λ A B f m,
  match m with Done a => Done (f a) | Fatal why => Fatal why end.

(** glog's [CHECK(b)]. *)
Definition check (b : bool) (why : string) : run () :=
  if b then Done () else Fatal why.

Declare Scope vsfs_scope.
Delimit Scope vsfs_scope with vsfs.
Notation "'CHECK' b 'ELSE' why ;; e" := (mbind (λ _ : (), e) (check b why))
  (at level 100, b at level 50, why at level 50, e at level 200,
   right associativity) : vsfs_scope.
Open Scope vsfs_scope.

(** ** Iteration over [std::map] and [std::set]

    The ordered containers are finite maps and sets whose iteration order is
    the order of the keys. *)
Section sorted.
Context {K : Type} (R : relation K) `{!RelDecision R} `{Countable K}.

Definition key_le {A} (p q : K * A) : Prop := R p.1 q.1.

#[export] Instance key_le_dec {A} : RelDecision (key_le (A:=A)).
Proof. intros p q. unfold key_le. apply _. Defined.

Definition sorted_elements (s : gset K) : list K := merge_sort R (elements s).

Definition sorted_map {A} (m : gmap K A) : list (K * A) :=
  merge_sort key_le (map_to_list m).

(** [for (auto it = m.lower_bound(k); it != m.end(); ++it)] *)
Fixpoint drop_while {A} (P : A → bool) (l : list A) : list A :=
  match l with
  | [] => []
  | x :: l' => if P x then drop_while P l' else l
  end.

Fixpoint take_while {A} (P : A → bool) (l : list A) : list A :=
  match l with
  | [] => []
  | x :: l' => if P x then x :: take_while P l' else []
  end.

Definition from_lower_bound {A} (k : K) (m : gmap K A) : list (K * A) :=
  drop_while (λ p, negb (bool_decide (R k p.1))) (sorted_map m).
End sorted.

Arguments sorted_elements {K} R {_ _ _} s.
Arguments sorted_map {K} R {_ _ _ A} m.
Arguments from_lower_bound {K} R {_ _ _ A} k m.

(** ** Automation *)

Create HintDb vsfs.
Create HintDb vsfs_map.

(** [case_all] destructs the conditions of the goal one after another, the way
    the code tests them. *)
Ltac case_all :=
  repeat (case_match || case_decide || case_bool_decide); simplify_eq/=.

(** [run_inv H] inverts a successful run of a chain of [CHECK]s and calls. *)
Ltac run_inv H :=
  repeat first
    [ progress simplify_eq/=
    | match type of H with
      | mbind _ ?m = Done _ => destruct m eqn:?; simpl in H
      | match ?m with _ => _ end = _ => destruct m eqn:?; simpl in H
      end ].

(** [map_solve] decides lookups in updated maps. *)
Ltac map_solve :=
  repeat (rewrite lookup_insert || rewrite lookup_delete);
  repeat case_decide; simplify_map_eq; eauto with vsfs_map.

(** ** Generic lemmas *)

Lemma run_bind_Done {A B} (f : A → run B) (m : run A) b :
  (m ≫= f) = Done b ↔ ∃ a, m = Done a ∧ f a = Done b.
Proof. destruct m; simpl; split; [eauto|intros (? & [= <-] & ?); done|done|by intros (? & ? & _)]. Qed.

Lemma check_Done b why : check b why = Done () ↔ b = true.
Proof. by destruct b. Qed.

Section sorted_lemmas.
Context {K : Type} (R : relation K) `{!RelDecision R, !Total R, !Transitive R}.
Context `{Countable K}.

Lemma elem_of_sorted_elements (s : gset K) x : x ∈ sorted_elements R s ↔ x ∈ s.
Proof.
  unfold sorted_elements.
  by rewrite (merge_sort_Permutation R (elements s)), elem_of_elements.
Qed.

Lemma sorted_elements_singleton (x : K) : sorted_elements R ({[x]} : gset K) = [x].
Proof.
  apply Permutation_singleton_r. unfold sorted_elements.
  by rewrite (merge_sort_Permutation R), elements_singleton.
Qed.

Lemma NoDup_sorted_elements (s : gset K) : NoDup (sorted_elements R s).
Proof.
  unfold sorted_elements. rewrite (merge_sort_Permutation R (elements s)).
  apply NoDup_elements.
Qed.

#[export] Instance key_le_total {A} : Total (key_le R (A:=A)).
Proof. intros p q. apply (total R). Qed.
#[export] Instance key_le_trans {A} : Transitive (key_le R (A:=A)).
Proof. intros p q r. unfold key_le. by etrans. Qed.

Lemma sorted_map_Permutation {A} (m : gmap K A) : sorted_map R m ≡ₚ map_to_list m.
Proof. apply merge_sort_Permutation. Qed.

Lemma sorted_map_singleton {A} (k : K) (v : A) : sorted_map R ({[k := v]} : gmap K A) = [(k, v)].
Proof. apply Permutation_singleton_r. by rewrite sorted_map_Permutation, map_to_list_singleton. Qed.

Lemma elem_of_sorted_map {A} (m : gmap K A) k v :
  (k, v) ∈ sorted_map R m ↔ m !! k = Some v.
Proof. by rewrite sorted_map_Permutation, elem_of_map_to_list. Qed.

Lemma StronglySorted_sorted_map {A} (m : gmap K A) :
  StronglySorted (key_le R) (sorted_map R m).
Proof. apply StronglySorted_merge_sort; apply _. Qed.

Lemma NoDup_sorted_map_fst {A} (m : gmap K A) : NoDup (sorted_map R m).*1.
Proof. rewrite sorted_map_Permutation. apply NoDup_fst_map_to_list. Qed.

Lemma length_sorted_map {A} (m : gmap K A) : length (sorted_map R m) = size m.
Proof. rewrite sorted_map_Permutation. apply length_map_to_list. Qed.

Lemma length_from_lower_bound {A} k (m : gmap K A) :
  length (from_lower_bound R k m) ≤ size m.
Proof.
  rewrite <-length_sorted_map. unfold from_lower_bound.
  induction (sorted_map R m) as [|x l IH]; [done|]. simpl. case_match; simpl; lia.
Qed.

Lemma list_to_map_sorted_map {A} (m : gmap K A) :
  list_to_map (sorted_map R m) = m.
Proof.
  rewrite (list_to_map_proper (sorted_map R m) (map_to_list m)).
  - apply list_to_map_to_list.
  - apply NoDup_sorted_map_fst.
  - apply sorted_map_Permutation.
Qed.

(** Iterating over a map when one key only counts. *)
Lemma sorted_map_bind_one {A B} (m : gmap K A) (k : K) (f : K * A → list B) :
  (∀ k' v, m !! k' = Some v → k' ≠ k → f (k', v) = []) →
  sorted_map R m ≫= f = match m !! k with Some v => f (k, v) | None => [] end.
Proof.
  intros Hf. pose proof (NoDup_sorted_map_fst m) as Hnd.
  assert (∀ k' v, (k', v) ∈ sorted_map R m ↔ m !! k' = Some v) as Hin by apply elem_of_sorted_map.
  assert (∀ l, (∀ k' v, (k', v) ∈ l → k' ≠ k → f (k', v) = []) → k ∉ l.*1 → l ≫= f = []) as Hnone.
  { induction l as [|[k' v] l IH]; intros Hl Hk; [done|]. simpl in *.
    apply not_elem_of_cons in Hk as [Hk Hk']. rewrite (Hl k' v); [|left|done]. simpl.
    apply IH; [|done]. intros. eapply Hl; [by right|done]. }
  destruct (m !! k) as [v|] eqn:Hm; last first.
  { apply Hnone; [intros k' v Hkv; by apply Hf, Hin|].
    intros ([k' v]&->&Hkv)%list_elem_of_fmap. apply Hin in Hkv. simpl in *. congruence. }
  apply Hin in Hm as Hm'. apply list_elem_of_split in Hm' as (l1&l2&Hl).
  rewrite Hl in Hnd, Hin |- *. rewrite fmap_app, fmap_cons in Hnd.
  apply NoDup_app in Hnd as (Hnd1&Hnd&[Hnd2 _]%NoDup_cons). simpl in *.
  rewrite bind_app, bind_cons, (Hnone l1), (Hnone l2), app_nil_r; [done|..].
  - intros k' v' Hk'. apply Hf, Hin. apply elem_of_app. right. by right.
  - done.
  - intros k' v' Hk'. apply Hf, Hin. apply elem_of_app. by left.
  - intros Hk. apply (Hnd _ Hk). left.
Qed.
End sorted_lemmas.

(** Positions of a list picked by a property of the elements. *)
Lemma positions_bind {A B} (l : list A) n (Q : nat → Prop) `{∀ i, Decision (Q i)}
    (P : A → Prop) `{∀ x, Decision (P x)} (f : nat → B) (g : A → B) :
  (∀ i x, l !! i = Some x → (Q (n + i) ↔ P x) ∧ f (n + i) = g x) →
  f <$> filter Q (seq n (length l)) = l ≫= λ x, if decide (P x) then [g x] else [].
Proof.
  revert n. induction l as [|x l IH]; intros n Hl; [done|].
  rewrite bind_cons. change (seq n (length (x :: l))) with (n :: seq (S n) (length l)).
  destruct (Hl 0 x) as [HQ Hf]; [done|]. rewrite Nat.add_0_r in HQ, Hf.
  rewrite filter_cons, <-(IH (S n)).
  - destruct (decide (P x)) as [Hp|Hp].
    + rewrite decide_True by by apply HQ. simpl. by rewrite Hf.
    + rewrite decide_False; [done|]. by rewrite HQ.
  - intros i y Hy. specialize (Hl (S i) y Hy). by rewrite <-Nat.add_succ_comm in Hl.
Qed.

Lemma elem_of_take_while {A} (P : A → bool) l x :
  x ∈ take_while P l → x ∈ l ∧ P x = true.
Proof.
  induction l as [|y l IH]; simpl; [by intros ?%elem_of_nil|].
  destruct (P y) eqn:?; [|by intros ?%elem_of_nil].
  rewrite !elem_of_cons. intros [->|[]%IH]; auto.
Qed.

(** The shape of every [lower_bound] scan that stops at the first key out of
    range: over a sorted list it visits exactly the elements in range. *)
Lemma scan_filter {A} (R : relation A) (below inside : A → bool) l :
  StronglySorted R l →
  (∀ x y, R x y → below y = true → below x = true) →
  (∀ x y, R x y → below x = false → inside x = false → inside y = false) →
  take_while inside (drop_while below l)
  = filter (λ x, below x = false ∧ inside x = true) l.
Proof.
  intros Hs Hb Hi. induction Hs as [|x l Hs IH Hx]; [done|].
  rewrite Forall_forall in Hx. simpl. rewrite filter_cons.
  destruct (below x) eqn:Hbx.
  - rewrite decide_False by naive_solver. apply IH.
  - simpl. destruct (inside x) eqn:Hix.
    + rewrite decide_True by done. f_equal. rewrite <-IH.
      destruct l as [|y l]; [done|]. simpl.
      destruct (below y) eqn:Hby; [|done].
      rewrite (Hb x y) in Hbx; [done| |done]. apply Hx. left.
    + rewrite decide_False by naive_solver. symmetry.
      apply elem_of_nil_inv. intros y [[_ Hy1] Hy2]%list_elem_of_filter.
      rewrite (Hi x y) in Hy1 by auto. done.
Qed.

Lemma mapM_take {A B} (f : A → option B) l k n :
  mapM f l = Some k → mapM f (take n l) = Some (take n k).
Proof. intros Hk%mapM_Some_1. by apply mapM_Some_2, Forall2_take. Qed.

Lemma mapM_app {A B} (f : A → option B) l1 l2 :
  mapM f (l1 ++ l2) = k1 ← mapM f l1; k2 ← mapM f l2; Some (k1 ++ k2).
Proof.
  induction l1 as [|x l1 IH]; simpl; [by destruct (mapM f l2)|].
  destruct (f x); simpl; [|done]. rewrite IH.
  destruct (mapM f l1); simpl; [|done]. by destruct (mapM f l2).
Qed.

(** Invariants of a step relation, by induction on the run. *)
Lemma rtc_invariant {A} (R : relation A) (P : A → Prop) x y :
  (∀ a b, P a → R a b → P b) → P x → rtc R x y → P y.
Proof. intros Hstep Hx. induction 1; eauto. Qed.

Lemma drop_while_all {A} (P : A → bool) l : (∀ x, x ∈ l → P x = true) → drop_while P l = [].
Proof.
  induction l as [|x l IH]; intros Hl; [done|]. simpl. rewrite (Hl x) by left.
  apply IH. intros y Hy. apply Hl. by right.
Qed.

(** A sorted list whose elements of one kind all come first. *)
Lemma sorted_split {A} (R : relation A) (P : A → bool) l :
  StronglySorted R l →
  (∀ x y, x ∈ l → y ∈ l → R x y → P y = true → P x = true) →
  l = filter (λ x, P x = true) l ++ filter (λ x, P x = false) l.
Proof.
  induction 1 as [|x l Hs IH Hx]; intros HP; [done|].
  destruct (P x) eqn:Hpx.
  - rewrite filter_cons_True, filter_cons_False by congruence. simpl. f_equal. apply IH.
    intros y z ??. apply HP; by right.
  - rewrite filter_cons_False, filter_cons_True by congruence. rewrite Forall_forall in Hx.
    assert (filter (λ y, P y = true) l = []) as Hnil.
    { apply elem_of_nil_inv. intros y [Hy Hl]%list_elem_of_filter.
      rewrite (HP x y) in Hpx; [done|left|by right|by apply Hx|done]. }
    rewrite Hnil in *. simpl in *. f_equal. apply IH.
    intros y z ??. apply HP; by right.
Qed.

Lemma NoDup_fst_filter {A B} (P : A * B → Prop) `{∀ x, Decision (P x)} (l : list (A * B)) :
  NoDup l.*1 → NoDup (filter P l).*1.
Proof.
  induction l as [|x l IH]; [done|]. rewrite fmap_cons, NoDup_cons. intros [Hx Hl].
  rewrite filter_cons. case_decide; [|auto]. rewrite fmap_cons, NoDup_cons.
  split; [|auto]. intros (y&Hxy&[_ Hy]%list_elem_of_filter)%list_elem_of_fmap.
  apply Hx. rewrite Hxy. by apply list_elem_of_fmap_2.
Qed.

Lemma StronglySorted_filter {A} (R : relation A) (P : A → Prop) `{∀ x, Decision (P x)} l :
  StronglySorted R l → StronglySorted R (filter P l).
Proof.
  induction 1 as [|x l Hs IH Hx]; [constructor|]. rewrite filter_cons.
  case_decide; [|done]. constructor; [done|].
  rewrite Forall_forall in Hx. apply Forall_forall.
  intros y [_ Hy]%list_elem_of_filter. by apply Hx.
Qed.

Lemma sorted_last_le {A} (l : list (Z * A)) x y :
  StronglySorted (key_le Z.le) l → last l = Some x → y ∈ l → (y.1 ≤ x.1)%Z.
Proof.
  intros Hs Hx Hy. apply last_Some in Hx as [l' ->].
  apply elem_of_app in Hy as [Hy|Hy%list_elem_of_singleton]; [|by subst].
  induction l' as [|z l' IH]; [by apply elem_of_nil in Hy|].
  simpl in Hs. inversion_clear Hs as [|? ? Hs' Hz]. apply elem_of_cons in Hy as [->|Hy]; [|auto].
  rewrite Forall_forall in Hz. apply (Hz x). apply elem_of_app. right. by apply list_elem_of_singleton.
Qed.

(** Filling a map from a list with distinct keys. *)
Lemma foldl_insert {K A} `{Countable K} (l : list (K * A)) (m : gmap K A) :
  NoDup l.*1 → foldl (λ m p, <[p.1:=p.2]> m) m l = list_to_map l ∪ m.
Proof.
  revert m. induction l as [|[k v] l IH]; intros m Hnd; simpl in *.
  { by rewrite (left_id_L ∅ (∪)). }
  apply NoDup_cons in Hnd as [Hk Hnd]. rewrite IH by done.
  rewrite <-insert_union_l, insert_union_r; [done|]. by apply not_elem_of_list_to_map_1.
Qed.

Lemma map_to_list_disj_union {K A} `{Countable K} (m1 m2 : gmap K A) :
  m1 ##ₘ m2 → map_to_list (m1 ∪ m2) ≡ₚ map_to_list m1 ++ map_to_list m2.
Proof.
  intros Hd. apply NoDup_Permutation.
  - apply NoDup_map_to_list.
  - apply NoDup_app. split_and!; [apply NoDup_map_to_list| |apply NoDup_map_to_list].
    intros [k v] H1%elem_of_map_to_list H2%elem_of_map_to_list. by eapply map_disjoint_spec.
  - intros [k v]. rewrite elem_of_app, !elem_of_map_to_list. by apply lookup_union_Some.
Qed.
