(* ===== verification/CxxString.v ===== *)
(** * [std::string] operations

    The search, slicing and ordering functions of [std::string] (and of
    [boost::algorithm]) that the sources call, on Rocq's [string].  A search
    returns [option nat]: [None] is [string::npos]. *)

From S2P Require Import Prelude.
From Stdlib Require Import Ascii.

(** [s.empty()] *)
Definition str_empty (s : string) : bool :=
  match s with EmptyString => true | _ => false end.

(** The first position whose character satisfies [p]. *)
Fixpoint find_if (p : ascii → bool) (s : string) : option nat :=
  match s with
  | EmptyString => None
  | String c s' => if p c then Some 0 else S <$> find_if p s'
  end.

(** [s.substr(pos)], for [pos <= s.size()]. *)
Fixpoint str_drop (n : nat) (s : string) : string :=
  match n, s with
  | S n', String _ s' => str_drop n' s'
  | _, _ => s
  end.

(** [s.substr(0, n)]. *)
Fixpoint str_take (n : nat) (s : string) : string :=
  match n, s with
  | S n', String c s' => String c (str_take n' s')
  | _, _ => EmptyString
  end.

(** [s.substr(pos, n)], for [pos <= s.size()]. *)
Definition substr (pos n : nat) (s : string) : string := str_take n (str_drop pos s).

Definition find_if_from (p : ascii → bool) (pos : nat) (s : string) : option nat :=
  (λ i, pos + i) <$> find_if p (str_drop pos s).

(** [s.find(c, pos)] *)
Definition find_char (c : ascii) (pos : nat) (s : string) : option nat :=
  find_if_from (λ x, bool_decide (x = c)) pos s.

Fixpoint str_mem (c : ascii) (set : string) : bool :=
  match set with
  | EmptyString => false
  | String x set' => if bool_decide (x = c) then true else str_mem c set'
  end.

(** [s.find_first_of(set, pos)] and [s.find_first_not_of(set, pos)] *)
Definition find_first_of (set : string) (pos : nat) (s : string) : option nat :=
  find_if_from (λ x, str_mem x set) pos s.
Definition find_first_not_of (set : string) (pos : nat) (s : string) : option nat :=
  find_if_from (λ x, negb (str_mem x set)) pos s.

(** [s.find_last_of(c)] *)
Fixpoint find_last_of (c : ascii) (s : string) : option nat :=
  match s with
  | EmptyString => None
  | String x s' =>
      match find_last_of c s' with
      | Some i => Some (S i)
      | None => if bool_decide (x = c) then Some 0 else None
      end
  end.

(** [boost::starts_with(s, prefix)] *)
Fixpoint starts_with (prefix s : string) : bool :=
  match prefix, s with
  | EmptyString, _ => true
  | String c p, String x s' => if bool_decide (c = x) then starts_with p s' else false
  | String _ _, EmptyString => false
  end.

(** [s.find(pattern)] *)
Fixpoint find_str (pattern s : string) : option nat :=
  if starts_with pattern s then Some 0
  else match s with
       | EmptyString => None
       | String _ s' => S <$> find_str pattern s'
       end.

(** The last character, if any. *)
Fixpoint last_char (s : string) : option ascii :=
  match s with
  | EmptyString => None
  | String c EmptyString => Some c
  | String _ s' => last_char s'
  end.

(** [boost::trim_copy] *)
Fixpoint trim_left (s : string) : string :=
  match s with
  | EmptyString => EmptyString
  | String c s' => if Ascii.is_space c then trim_left s' else s
  end.
Fixpoint trim_right (s : string) : string :=
  match s with
  | EmptyString => EmptyString
  | String c s' =>
      match trim_right s' with
      | EmptyString => if Ascii.is_space c then EmptyString else String c EmptyString
      | t => String c t
      end
  end.
Definition trim_copy (s : string) : string := trim_right (trim_left s).

(** [c] does not occur in [s]. *)
Definition no_char (c : ascii) (s : string) : Prop := find_if (λ x, bool_decide (x = c)) s = None.

#[export] Instance no_char_dec c s : Decision (no_char c s).
Proof. unfold no_char. apply _. Defined.

(** [std::to_string] on an integer *)
Definition to_string (z : Z) : string := pretty z.

Definition slash : ascii := "/"%char.

(** ** Lemmas *)

Lemma str_app_nil_r s : s +:+ "" = s.
Proof. induction s as [|c s IH]; [done|]. simpl. unfold String.app in *; simpl; by rewrite IH. Qed.

Lemma str_app_cons c s t : String c s +:+ t = String c (s +:+ t).
Proof. done. Qed.
Lemma str_app_nil_l t : "" +:+ t = t.
Proof. done. Qed.
Lemma str_app_assoc (s t u : string) : (s +:+ t) +:+ u = s +:+ t +:+ u.
Proof. induction s as [|c s IH]; [done|]. rewrite !str_app_cons. by rewrite IH. Qed.

Create Rewrite HintDb str.
#[export] Hint Rewrite str_app_cons str_app_nil_l str_app_nil_r str_app_assoc : str.
Ltac str_simpl := autorewrite with str in *; simpl in *.

Lemma str_length_app s t :
  String.length (s +:+ t) = String.length s + String.length t.
Proof. induction s as [|c s IH]; [done|]. rewrite str_app_cons. simpl. by rewrite IH. Qed.

Lemma str_drop_app s t : str_drop (String.length s) (s +:+ t) = t.
Proof. by induction s as [|c s IH]; [|rewrite str_app_cons]. Qed.
Lemma str_take_app s t : str_take (String.length s) (s +:+ t) = s.
Proof. induction s as [|c s IH]; [by destruct t|]. rewrite str_app_cons; simpl. by rewrite IH. Qed.
Lemma str_drop_add n m s : str_drop (n + m) s = str_drop m (str_drop n s).
Proof. revert s; induction n as [|n IH]; intros [|c s]; simpl; try done. by destruct m. Qed.
Lemma str_take_drop n s : str_take n s +:+ str_drop n s = s.
Proof. revert s; induction n as [|n IH]; intros [|c s]; simpl; try done.
  rewrite str_app_cons. by rewrite IH. Qed.
Lemma str_take_ge n s : String.length s ≤ n → str_take n s = s.
Proof. revert n; induction s as [|c s IH]; intros [|n] ?; simpl in *; try done; [lia|].
  rewrite IH; [done|lia]. Qed.
Lemma str_length_take n s : String.length (str_take n s) = n `min` String.length s.
Proof. revert n; induction s as [|c s IH]; intros [|n]; simpl; try done. by rewrite IH. Qed.
Lemma str_length_drop n s : String.length (str_drop n s) = String.length s - n.
Proof. revert n; induction s as [|c s IH]; intros [|n]; simpl; try done. Qed.

Lemma find_if_Some p s i :
  find_if p s = Some i ↔
  ∃ c t, s = str_take i s +:+ String c t ∧ String.length (str_take i s) = i
         ∧ p c = true ∧ find_if p (str_take i s) = None.
Proof.
  revert i. induction s as [|c s IH]; intros i; simpl.
  { split; [done|]. by intros (?&?&H&_); destruct i. }
  destruct (p c) eqn:Hp.
  - split.
    + intros [= <-]. exists c, s. by simpl.
    + intros (c'&t&H1&H2&H3&H4). destruct i as [|i]; [done|]. simpl in H4. by rewrite Hp in H4.
  - rewrite fmap_Some. setoid_rewrite IH. split.
    + intros (j&(c'&t&H1&H2&H3&H4)&->). exists c', t. simpl. rewrite Hp, H4, H2.
      rewrite str_app_cons, <-H1. done.
    + intros (c'&t&H1&H2&H3&H4). destruct i as [|i]; simpl in *.
      { injection H1 as -> ->. congruence. }
      rewrite Hp in H4. rewrite str_app_cons in H1.
      exists i. split; [|done]. exists c', t.
      injection H1 as H1. injection H2 as H2. rewrite fmap_None in H4. auto.
Qed.

Lemma find_if_None_app p s t :
  find_if p s = None → find_if p (s +:+ t) = (λ i, String.length s + i) <$> find_if p t.
Proof.
  induction s as [|c s IH]; intros Hs; [by rewrite str_app_nil_l; destruct (find_if p t)|].
  rewrite str_app_cons; simpl in *. destruct (p c); [done|].
  rewrite IH; [|by destruct (find_if p s)]. by destruct (find_if p t).
Qed.

Lemma find_if_length p s i : find_if p s = Some i → i < String.length s.
Proof.
  revert i. induction s as [|c s IH]; simpl; [done|]. intros i.
  destruct (p c); [naive_solver lia|]. intros (j&?%IH&->)%fmap_Some. lia.
Qed.

Lemma find_if_from_bounds p pos s i :
  find_if_from p pos s = Some i → pos ≤ i < String.length s.
Proof.
  unfold find_if_from. intros (j&Hj%find_if_length&->)%fmap_Some.
  rewrite str_length_drop in Hj. lia.
Qed.

Lemma starts_with_spec p s : starts_with p s = true ↔ ∃ t, s = p +:+ t.
Proof.
  revert s. induction p as [|c p IH]; intros s; simpl; [naive_solver|].
  destruct s as [|x s]; [naive_solver|].
  case_bool_decide; subst; [rewrite IH|]; setoid_rewrite str_app_cons; naive_solver.
Qed.

Lemma find_str_cons pat c s :
  find_str pat (String c s)
  = if starts_with pat (String c s) then Some 0 else S <$> find_str pat s.
Proof. done. Qed.

Lemma starts_with_refl_app p t : starts_with p (p +:+ t) = true.
Proof. apply starts_with_spec. eauto. Qed.

Lemma no_char_cons c x s : no_char c (String x s) ↔ x ≠ c ∧ no_char c s.
Proof.
  unfold no_char; simpl. case_bool_decide; subst; [naive_solver|].
  rewrite fmap_None. naive_solver.
Qed.
Lemma no_char_app c s t : no_char c (s +:+ t) ↔ no_char c s ∧ no_char c t.
Proof.
  induction s as [|x s IH].
  - rewrite str_app_nil_l. unfold no_char at 2. naive_solver.
  - rewrite str_app_cons, !no_char_cons, IH. naive_solver.
Qed.

Lemma find_last_of_None c s : find_last_of c s = None → no_char c s.
Proof.
  induction s as [|x s IH]; [done|]. simpl. rewrite no_char_cons.
  destruct (find_last_of c s); [done|]. case_bool_decide; [done|]. auto.
Qed.

Lemma find_last_of_Some c s i :
  find_last_of c s = Some i →
  ∃ t, s = str_take i s +:+ String c t ∧ no_char c t ∧ String.length (str_take i s) = i.
Proof.
  revert i. induction s as [|x s IH]; intros i; [done|]. simpl.
  destruct (find_last_of c s) as [j|] eqn:Hj.
  - intros [= <-]. destruct (IH j) as (t&Hs&Ht&Hlen); [done|]. exists t. simpl.
    rewrite str_app_cons, <-Hs, Hlen. done.
  - case_bool_decide; [|done]. intros [= <-]. subst. exists s.
    split_and!; [done|by apply find_last_of_None|done].
Qed.

(** Two splits of a string at a separator, the second one at the last. *)
Lemma split_at_last c q r s t :
  q +:+ String c r = s +:+ String c t → no_char c t → q = s ∨ ∃ r', s = q +:+ String c r'.
Proof.
  revert s. induction q as [|x q IH]; intros [|y s]; rewrite ?str_app_nil_l, ?str_app_cons.
  - by left.
  - intros [= -> ->] _. right. by exists s.
  - intros [= -> <-]. rewrite no_char_app, no_char_cons. by intros (_&[]&_).
  - intros [= -> Heq] Ht. destruct (IH s Heq Ht) as [->|(r'&->)]; [by left|].
    right. by exists r'.
Qed.

Lemma split_last_unique c q r s t :
  q +:+ String c r = s +:+ String c t → no_char c r → no_char c t → q = s ∧ r = t.
Proof.
  intros E Hr Ht. destruct (split_at_last _ _ _ _ _ E Ht) as [->|(r'&->)].
  - split; [done|]. apply (inj (String.append s)) in E. by injection E.
  - rewrite str_app_assoc in E. apply (inj (String.append q)) in E. injection E as ->.
    rewrite no_char_app, no_char_cons in Hr. by destruct Hr as (_&[]&_).
Qed.

(** *** The lexicographic order *)

Lemma string_le_cons c s d t :
  String.le (String c s) (String d t) ↔
  (N_of_ascii c < N_of_ascii d)%N ∨ (c = d ∧ String.le s t).
Proof.
  unfold String.le, String.leb. simpl.
  destruct (Ascii.compare c d) eqn:Hc.
  - apply Ascii.compare_eq_iff in Hc as ->. split; [auto|].
    intros [?|[_ ?]]; [lia|done].
  - apply N.compare_lt_iff in Hc. naive_solver.
  - apply N.compare_gt_iff in Hc. split; [done|]. intros [?|[-> _]]; lia.
Qed.

Lemma string_le_nil_r s : String.le s "" → s = "".
Proof. by destruct s. Qed.

Lemma starts_with_le p s : starts_with p s = true → String.le p s.
Proof.
  intros [t ->]%starts_with_spec. induction p as [|c p IH].
  - rewrite str_app_nil_l. by destruct t.
  - rewrite str_app_cons, string_le_cons. auto.
Qed.

(** The strings with a given prefix are contiguous in the order. *)
Lemma starts_with_convex p x y :
  String.le p x → String.le x y → starts_with p y = true → starts_with p x = true.
Proof.
  intros Hpx Hxy [t ->]%starts_with_spec. revert x Hpx Hxy.
  induction p as [|c p IH]; intros x Hpx Hxy; [done|].
  rewrite str_app_cons in Hxy. destruct x as [|d x].
  { by apply string_le_nil_r in Hpx. }
  rewrite string_le_cons in Hpx, Hxy. simpl.
  destruct Hpx as [?|[-> ?]], Hxy as [?|[? ?]]; subst; try lia.
  rewrite bool_decide_eq_true_2 by done. auto.
Qed.

(** The scan of an ordered map over the keys with a given prefix. *)
Lemma prefix_scan {A} (m : gmap string A) (root : string) :
  take_while (λ p, starts_with root p.1) (from_lower_bound String.le root m)
  = filter (λ p, starts_with root p.1 = true) (sorted_map String.le m).
Proof.
  unfold from_lower_bound. rewrite (scan_filter (key_le String.le)).
  - apply list_filter_iff. intros [x ?]; simpl. rewrite negb_false_iff, bool_decide_eq_true.
    split; [naive_solver|]. eauto using starts_with_le.
  - apply StronglySorted_sorted_map; apply _.
  - intros [x ?] [y ?]; unfold key_le; simpl. rewrite !negb_true_iff, !bool_decide_eq_false.
    intros Hxy Hy Hx. apply Hy. by etrans.
  - intros [x ?] [y ?]; unfold key_le; simpl. rewrite negb_false_iff, bool_decide_eq_true.
    intros Hxy Hx Hn. apply not_true_is_false. intros Hy.
    rewrite (starts_with_convex root x y) in Hn; done.
Qed.

(** ** Printed numbers *)

Lemma pretty_N_char_cases (P : ascii → Prop) :
  P "0"%char → P "1"%char → P "2"%char → P "3"%char → P "4"%char →
  P "5"%char → P "6"%char → P "7"%char → P "8"%char → P "9"%char →
  ∀ d, (d < 10)%N → P (pretty_N_char d).
Proof.
  intros. assert (d = 0 ∨ d = 1 ∨ d = 2 ∨ d = 3 ∨ d = 4 ∨ d = 5 ∨ d = 6 ∨ d = 7
    ∨ d = 8 ∨ d = 9)%N as Hc by lia.
  by repeat destruct Hc as [->|Hc]; subst.
Qed.

Lemma digit_not (c : ascii) :
  str_mem c "0123456789" = false → ∀ d, (d < 10)%N → bool_decide (pretty_N_char d = c) = false.
Proof.
  intros Hc d Hd. apply bool_decide_eq_false. revert d Hd.
  apply (pretty_N_char_cases (λ x, x ≠ c)); by intros <-.
Qed.

Lemma find_if_pretty_N_go p x s :
  (∀ d, (d < 10)%N → p (pretty_N_char d) = false) → find_if p s = None →
  find_if p (pretty_N_go x s) = None.
Proof.
  intros Hp. revert s. induction (N.lt_wf_0 x) as [x _ IH]; intros s Hs.
  assert (x = 0 ∨ 0 < x)%N as [->|Hx] by lia; [by rewrite pretty_N_go_0|].
  rewrite pretty_N_go_step by done. apply IH; [by apply N.div_lt|]. simpl.
  by rewrite Hp, Hs by (apply N.mod_lt; lia).
Qed.

Lemma find_if_to_string p z :
  (∀ d, (d < 10)%N → p (pretty_N_char d) = false) → p "-"%char = false →
  find_if p (to_string z) = None.
Proof.
  intros Hp Hm. assert (∀ x, find_if p (pretty (Npos x)) = None) as Hx.
  { intros x. unfold pretty, pretty_N. rewrite decide_False by done. by apply find_if_pretty_N_go. }
  destruct z as [|x|x]; unfold to_string; simpl.
  - by rewrite (Hp 0%N eq_refl : p "0"%char = false).
  - apply Hx.
  - rewrite Hm, str_app_nil_l. pose proof (Hx x) as E. unfold pretty, pretty_positive. by rewrite E.
Qed.

(** A printed number holds no character other than digits and a sign. *)
Lemma to_string_no_char c z : str_mem c "-0123456789" = false → no_char c (to_string z).
Proof.
  intros Hc. unfold no_char. apply find_if_to_string.
  - apply digit_not. simpl in Hc. by case_bool_decide.
  - apply bool_decide_eq_false. by intros <-.
Qed.

Lemma pretty_N_go_nonempty x s : s ≠ "" → pretty_N_go x s ≠ "".
Proof.
  revert s. induction (N.lt_wf_0 x) as [x _ IH]; intros s Hs.
  assert (x = 0 ∨ 0 < x)%N as [->|Hx] by lia; [by rewrite pretty_N_go_0|].
  rewrite pretty_N_go_step by done. by apply IH; [apply N.div_lt|].
Qed.

Lemma to_string_nonempty z : to_string z ≠ "".
Proof.
  destruct z as [|x|x]; [done| |done]. unfold to_string, pretty, pretty_Z, pretty, pretty_positive,
    pretty, pretty_N. rewrite decide_False, pretty_N_go_step by done.
  by apply pretty_N_go_nonempty.
Qed.
