(* ===== verification/Platform.v ===== *)
(** * The platform the sources build on

    Machine integers, POSIX constants, [vobla::Status] as an error value, and
    the interfaces of the code outside src/ (vobla, Boost, Thrift, LevelDB's
    key order) as type classes: operations in one class, the documented
    behaviour the sources rely on in a second one.  A reference instance of
    each class closes the file; it is used by concrete examples only. *)

From S2P Require Import Prelude CxxString.
From Stdlib Require Import Ascii SpecFloat.

(** ** Machine integers *)

Definition int64_min : Z := -2 ^ 63.
Definition int64_max : Z := 2 ^ 63 - 1.
Definition in_int64 (z : Z) : bool := bool_decide (int64_min ≤ z ≤ int64_max)%Z.

(** Two's complement reduction to 64 signed and unsigned bits. *)
Definition wrap_int64 (z : Z) : Z := (z + 2 ^ 63) mod 2 ^ 64 - 2 ^ 63.
Definition wrap_uint64 (z : Z) : Z := z mod 2 ^ 64.

Definition wrap_int32 (z : Z) : Z := (z + 2 ^ 31) mod 2 ^ 32 - 2 ^ 31.
Definition wrap_uint32 (z : Z) : Z := z mod 2 ^ 32.

(** Signed arithmetic: overflow is undefined. *)
Definition int64_ret (z : Z) : run Z :=
  if in_int64 z then Done z else Fatal "signed overflow".

(** ** Doubles: IEEE-754 binary64 values *)

Abbreviation double := spec_float (only parsing).
Definition double_of_int64 (z : Z) : double := binary_normalize 53 1024 z 0 false.

(** The cast [(int64_t) d] truncates; it is undefined for values out of range,
    where the model returns 0. *)
Definition int64_of_double (d : double) : Z :=
  match d with
  | S754_finite s m e =>
      let a := Z.shiftl (Zpos m) e in
      let v := if s then Z.opp a else a in
      if in_int64 v then v else 0%Z
  | _ => 0%Z
  end.

#[export] Instance double_eq_dec : EqDecision double.
Proof. solve_decision. Defined.
#[export] Program Instance double_countable : Countable double :=
  inj_countable
    (λ d, match d with
          | S754_zero s => inl (inl s) | S754_infinity s => inl (inr s)
          | S754_nan => inr (inl ()) | S754_finite s m e => inr (inr (s, m, e))
          end)
    (λ x, Some match x with
          | inl (inl s) => S754_zero s | inl (inr s) => S754_infinity s
          | inr (inl _) => S754_nan | inr (inr (s, m, e)) => S754_finite s m e
          end) _.
Next Obligation. by intros []. Qed.

(** ** errno and file modes (Linux) *)

Definition ENOENT : Z := 2.
Definition EEXIST : Z := 17.
Definition ENOTDIR : Z := 20.
Definition EISDIR : Z := 21.
Definition EINVAL : Z := 22.
Definition ENOTEMPTY : Z := 39.

Definition S_IFMT : Z := 61440.   (* 0170000 *)
Definition S_IFDIR : Z := 16384.  (* 0040000 *)
Definition S_IFREG : Z := 32768.  (* 0100000 *)
Definition S_ISDIR (mode : Z) : bool := bool_decide (Z.land mode S_IFMT = S_IFDIR).

(** ** [vobla::Status]

    The value a fallible call returns: [Status::OK], [Status(code, message)] or
    [Status::system_error(errno)]. *)
Inductive Status : Type :=
  | OK
  | Err (code : Z) (message : string)
  | SystemError (errno : Z).

#[export] Instance Status_eq_dec : EqDecision Status.
Proof. solve_decision. Defined.

(** [status.ok()] *)
Definition ok (s : Status) : bool :=
  match s with
  | OK => true
  | Err code _ => Z.eqb code 0
  | SystemError _ => false
  end.

(** libc's [strerror] and the fields of [Status::system_error]. *)
Class VoblaStatus := {
  strerror : Z → string;
  system_error_code : Z → Z;
}.
Class VoblaStatusSpec `{VoblaStatus} : Prop := {
  system_error_code_spec e : system_error_code e = (- e)%Z;
}.

Definition error_of `{VoblaStatus} (s : Status) : Z :=
  match s with OK => 0%Z | Err c _ => c | SystemError e => system_error_code e end.
Definition message_of `{VoblaStatus} (s : Status) : string :=
  match s with OK => "" | Err _ m => m | SystemError e => strerror e end.

(** ** vobla's MD5 digest: sixteen bytes *)
Class MD5 := md5_digest : string → list Z.
Class MD5Spec `{MD5} : Prop := {
  md5_length s : length (md5_digest s) = 16;
  md5_bytes s : Forall (λ b, 0 ≤ b < 256)%Z (md5_digest s);
}.

(** ** [boost::filesystem::path], on POSIX *)
Class BoostFilesystem := {
  fs_append : string → string → string;  (** [(p / q).string()] *)
  fs_parent_path : string → string;      (** [path(p).parent_path().string()] *)
  fs_filename : string → string;         (** [path(p).filename().string()] *)
  fs_is_absolute : string → bool;        (** [path(p).is_absolute()] *)
}.

(** A directory path in the form the namespace uses: not empty, not ending
    with a slash, and not starting with two (POSIX leaves those to the
    implementation, and Boost reads them as a network name). *)
Definition plain_dir (d : string) : Prop :=
  d ≠ "" ∧ last_char d ≠ Some slash ∧ starts_with "//" d = false.
#[export] Instance plain_dir_dec d : Decision (plain_dir d).
Proof. unfold plain_dir. apply _. Defined.

(** A file name: not empty, no slash. *)
Definition plain_name (n : string) : Prop := n ≠ "" ∧ no_char slash n.
#[export] Instance plain_name_dec d : Decision (plain_name d).
Proof. unfold plain_name. apply _. Defined.

Class BoostFilesystemSpec `{BoostFilesystem} : Prop := {
  fs_append_dir d n : plain_dir d → plain_name n → fs_append d n = d +:+ "/" +:+ n;
  fs_append_slash d n :
    last_char d = Some slash → plain_name n → fs_append d n = d +:+ n;
  fs_parent_path_dir d n : plain_dir d → plain_name n → fs_parent_path (d +:+ "/" +:+ n) = d;
  fs_parent_path_root n : plain_name n → fs_parent_path ("/" +:+ n) = "/";
  fs_filename_dir d n : plain_dir d → plain_name n → fs_filename (d +:+ "/" +:+ n) = n;
  fs_filename_root n : plain_name n → fs_filename ("/" +:+ n) = n;
  fs_is_absolute_spec p : fs_is_absolute p = starts_with "/" p;
}.

(** ** [boost::lexical_cast<T>(string)]; [None] is [bad_lexical_cast] *)
Class LexicalCast (T : Type) := lexical_cast : string → option T.

(** ** Thrift serialisation of the generated structures *)
Class ThriftCodec (A : Type) := {
  thrift_write : A → string;
  thrift_read : string → option A;
}.
Class ThriftCodecSpec (A : Type) `{ThriftCodec A} : Prop := {
  thrift_read_write a : thrift_read (thrift_write a) = Some a;
  thrift_write_nonempty a : thrift_write a ≠ "";
}.

(** ** [vobla::ConsistentHashMap<HashValueType, V>] *)
Class ConsistentHashMap (R V : Type) := {
  ch_new : R;
  ch_insert : R → Z → V → Status * R;
  ch_remove : R → Z → Status * R;
  ch_has_key : R → Z → bool;
  ch_get : R → Z → Status * option V;
  ch_num_nodes : R → nat;
  ch_get_partitions : R → list Z;
  ch_get_values : R → list V;
  ch_entries : R → list (Z * V);         (** iteration from [begin()] *)
  ch_succ_by_value : R → V → option V;
  ch_get_max_range : R → Status * option (Z * Z);
}.

(** The node in charge of a point of the ring: the one with the greatest
    position not beyond the point, the last one for the points before every
    position. *)
Definition ring_owner {V} (m : gmap Z V) (h : Z) : option V :=
  let l := sorted_map Z.le m in
  match last (filter (λ p, (p.1 ≤ h)%Z) l) with
  | Some p => Some p.2
  | None => snd <$> last l
  end.

Class ConsistentHashMapSpec (R V : Type) `{ConsistentHashMap R V} := {
  ch_view : R → gmap Z V;
  ch_new_spec : ch_view ch_new = ∅;
  ch_insert_spec r k v :
    ch_view r !! k = None →
    ∃ r', ch_insert r k v = (OK, r') ∧ ch_view r' = <[k:=v]> (ch_view r);
  ch_remove_spec r k :
    is_Some (ch_view r !! k) →
    ∃ r', ch_remove r k = (OK, r') ∧ ch_view r' = delete k (ch_view r);
  ch_remove_absent r k :
    ch_view r !! k = None →
    ∃ s, ch_remove r k = (s, r) ∧ ok s = false;
  ch_has_key_spec r k : ch_has_key r k = bool_decide (is_Some (ch_view r !! k));
  ch_get_spec r h v :
    ring_owner (ch_view r) h = Some v → ch_get r h = (OK, Some v);
  ch_get_empty r h :
    ch_view r = ∅ → ∃ s, ch_get r h = (s, None) ∧ ok s = false;
  ch_num_nodes_spec r : ch_num_nodes r = size (ch_view r);
  ch_entries_spec r : ch_entries r = sorted_map Z.le (ch_view r);
  ch_get_partitions_spec r : ch_get_partitions r = (sorted_map Z.le (ch_view r)).*1;
  ch_get_values_spec r : ch_get_values r = (sorted_map Z.le (ch_view r)).*2;
}.

(** ** Lemmas on the ring *)

Lemma ring_owner_singleton {V} (k : Z) (v : V) h : ring_owner {[k := v]} h = Some v.
Proof.
  unfold ring_owner. rewrite sorted_map_singleton, filter_cons. by destruct (decide _).
Qed.

Lemma ring_owner_elem {V} (m : gmap Z V) h v :
  ring_owner m h = Some v → ∃ k, m !! k = Some v.
Proof.
  unfold ring_owner. case_match eqn:Hl; intros Hv.
  - destruct p as [k x]. simplify_eq/=. apply last_Some_elem_of in Hl.
    apply list_elem_of_filter in Hl as [_ Hl]. exists k.
    by apply (elem_of_sorted_map Z.le) in Hl.
  - apply fmap_Some in Hv as ([k x]&Hl'&->). apply last_Some_elem_of in Hl'.
    exists k. by apply (elem_of_sorted_map Z.le) in Hl'.
Qed.

Lemma ring_owner_total {V} (m : gmap Z V) h :
  m ≠ ∅ → is_Some (ring_owner m h).
Proof.
  intros Hm. unfold ring_owner. case_match eqn:Hl; [done|].
  rewrite fmap_is_Some, last_is_Some. intros Hn.
  apply Hm. apply map_to_list_empty_iff. apply Permutation_nil.
  by rewrite <-(sorted_map_Permutation Z.le), Hn.
Qed.

(** The owner of a point is at the greatest position not above the point, and
    at the greatest position of all for the points below every position. *)
Lemma ring_owner_spec {V} (m : gmap Z V) h :
  m ≠ ∅ →
  ∃ k v, ring_owner m h = Some v ∧ m !! k = Some v ∧
    ∀ k', is_Some (m !! k') →
      if decide (k ≤ h)%Z then (k' ≤ h → k' ≤ k)%Z else (h < k' ≤ k)%Z.
Proof.
  intros Hm. unfold ring_owner. set (l := sorted_map Z.le m).
  assert (StronglySorted (key_le Z.le) l) as Hs by (apply StronglySorted_sorted_map; apply _).
  assert (∀ k v, (k, v) ∈ l ↔ m !! k = Some v) as Hl.
  { intros k v. apply (elem_of_sorted_map Z.le). }
  destruct (last (filter (λ p, (p.1 ≤ h)%Z) l)) as [[k v]|] eqn:Hlast.
  - pose proof (last_Some_elem_of _ _ Hlast) as [Hk Hin]%list_elem_of_filter. simpl in Hk.
    exists k, v. split_and!; [done|by apply Hl|]. intros k' [v' Hk'%Hl].
    rewrite decide_True by done. intros Hle.
    apply (sorted_last_le (filter (λ p, (p.1 ≤ h)%Z) l) (k, v) (k', v')); [|done|].
    + by apply StronglySorted_filter.
    + by apply list_elem_of_filter.
  - apply last_None in Hlast.
    destruct (last l) as [[k v]|] eqn:Hl'.
    2:{ apply last_None in Hl'. destruct Hm. apply map_to_list_empty_iff, Permutation_nil.
        by rewrite <-(sorted_map_Permutation Z.le), <-Hl'. }
    pose proof (last_Some_elem_of _ _ Hl') as Hin.
    assert (∀ k' v', (k', v') ∈ l → (h < k')%Z) as Habove.
    { intros k' v' Hin'. apply Z.lt_nge. intros Hle.
      assert ((k', v') ∈ filter (λ p : Z * V, (p.1 ≤ h)%Z) l) as Hf by by apply list_elem_of_filter.
      rewrite Hlast in Hf. by apply elem_of_nil in Hf. }
    exists k, v. split_and!; [done|by apply Hl|]. intros k' [v' Hk'%Hl].
    rewrite decide_False by (specialize (Habove k v Hin); lia).
    split; [by eapply Habove|]. by apply (sorted_last_le l (k, v) (k', v')).
Qed.

(** The owner is the only node with that position. *)
Lemma ring_owner_unique {V} (m : gmap Z V) h k v :
  m !! k = Some v →
  (∀ k', is_Some (m !! k') →
     if decide (k ≤ h)%Z then (k' ≤ h → k' ≤ k)%Z else (h < k' ≤ k)%Z) →
  ring_owner m h = Some v.
Proof.
  intros Hk Hbest. destruct (ring_owner_spec m h) as (k0&v0&->&Hk0&Hbest0).
  { intros ->. by rewrite lookup_empty in Hk. }
  assert (k = k0) as ->; [|congruence].
  specialize (Hbest k0 ltac:(by eauto)). specialize (Hbest0 k ltac:(by eauto)).
  repeat case_decide; lia.
Qed.

Lemma ring_owner_fmap {V U} (f : V → U) (m : gmap Z V) h :
  ring_owner (f <$> m) h = f <$> ring_owner m h.
Proof.
  destruct (decide (m = ∅)) as [->|Hne]; [by rewrite fmap_empty|].
  destruct (ring_owner_spec m h Hne) as (k&v&->&Hk&Hbest). simpl.
  apply (ring_owner_unique _ _ k).
  - by rewrite lookup_fmap, Hk.
  - intros k' Hk'. rewrite lookup_fmap, fmap_is_Some in Hk'. by apply Hbest.
Qed.

(** Two points have the same owner when no position lies between them. *)
Lemma ring_owner_between {V} (m : gmap Z V) a b :
  (∀ k, is_Some (m !! k) → (k ≤ a ↔ k ≤ b)%Z) → ring_owner m a = ring_owner m b.
Proof.
  intros Hab. destruct (decide (m = ∅)) as [->|Hne]; [done|].
  destruct (ring_owner_spec m a Hne) as (k&v&->&Hk&Hbest). symmetry.
  apply (ring_owner_unique _ _ k); [done|]. intros k' Hk'.
  pose proof (Hab k ltac:(by eauto)). pose proof (Hab k' Hk'). specialize (Hbest k' Hk').
  repeat case_decide; lia.
Qed.

(** ** Reference instances *)

Module Reference.
(** Lexical path operations on POSIX paths. *)
Definition append (p q : string) : string :=
  if str_empty q then p
  else if str_empty p then q
  else if bool_decide (last_char p = Some slash) then p +:+ q
  else p +:+ "/" +:+ q.
Definition parent_path (p : string) : string :=
  match find_last_of slash p with
  | None => ""
  | Some 0 => "/"
  | Some i => str_take i p
  end.
Definition filename (p : string) : string :=
  match find_last_of slash p with
  | None => p
  | Some i => str_drop (S i) p
  end.
#[export] Instance filesystem : BoostFilesystem := {
  fs_append := append; fs_parent_path := parent_path;
  fs_filename := filename; fs_is_absolute := starts_with "/";
}.

Lemma find_last_of_no_char c s : no_char c s → find_last_of c s = None.
Proof.
  induction s as [|x s IH]; [done|]. rewrite no_char_cons. intros [Hx Hs].
  simpl. by rewrite IH, bool_decide_eq_false_2.
Qed.
Lemma find_last_of_app c s t :
  no_char c t → find_last_of c (s +:+ String c t) = Some (String.length s).
Proof.
  intros Ht. induction s as [|x s IH].
  - rewrite str_app_nil_l. simpl. by rewrite find_last_of_no_char, bool_decide_eq_true_2.
  - rewrite str_app_cons. simpl. by rewrite IH.
Qed.
Lemma str_drop_app_cons s c t : str_drop (S (String.length s)) (s +:+ String c t) = t.
Proof. by induction s as [|x s IH]; [|rewrite str_app_cons]. Qed.

#[export] Instance filesystem_spec : BoostFilesystemSpec.
Proof.
  split; simpl.
  - intros d n (Hd&Hl&_) [Hn _]. unfold append.
    destruct n; [done|]. destruct d; [done|]. simpl str_empty. cbv iota.
    by rewrite bool_decide_eq_false_2.
  - intros d n Hl [Hn _]. unfold append. destruct n; [done|]. destruct d; [done|].
    simpl str_empty. cbv iota. by rewrite bool_decide_eq_true_2.
  - intros d n (Hd&_&_) [Hn Hs]. unfold parent_path.
    change ("/" +:+ n) with (String slash n). rewrite find_last_of_app by done.
    destruct d as [|x d]; [done|]. by rewrite str_take_app.
  - intros n [_ Hs]. unfold parent_path. change ("/" +:+ n) with ("" +:+ String slash n).
    by rewrite find_last_of_app.
  - intros d n (Hd&_&_) [Hn Hs]. unfold filename.
    change ("/" +:+ n) with (String slash n). rewrite find_last_of_app by done.
    apply str_drop_app_cons.
  - intros n [_ Hs]. unfold filename. change ("/" +:+ n) with ("" +:+ String slash n).
    by rewrite find_last_of_app.
  - done.
Qed.

#[export] Instance status : VoblaStatus := {
  strerror e := "errno " +:+ to_string e; system_error_code e := (- e)%Z;
}.
#[export] Instance status_spec : VoblaStatusSpec.
Proof. by split. Qed.

(** A digest that tells short strings apart. *)
Fixpoint bytes_of (s : string) : list Z :=
  match s with
  | EmptyString => []
  | String c s' => Z.of_N (N_of_ascii c) :: bytes_of s'
  end.
Definition digest (s : string) : list Z := take 16 (bytes_of s ++ replicate 16 0%Z).
#[export] Instance md5 : MD5 := digest.
#[export] Instance md5_spec : MD5Spec.
Proof.
  split; unfold md5_digest, md5, digest; intros s.
  - rewrite length_take, length_app, length_replicate. lia.
  - apply Forall_take, Forall_app. split; [|by apply Forall_replicate].
    induction s as [|c s IH]; simpl; constructor; [|done].
    pose proof (N_ascii_bounded c). lia.
Qed.

(** Serialisation of a countable type as a tag and a string of bits. *)
Fixpoint pos_bits (p : positive) : string :=
  match p with
  | xH => "h"
  | xO p => String "0" (pos_bits p)
  | xI p => String "1" (pos_bits p)
  end.
Fixpoint bits_pos (s : string) : option positive :=
  match s with
  | EmptyString => None
  | String c s' =>
      if bool_decide (c = "h"%char) then (if str_empty s' then Some xH else None)
      else if bool_decide (c = "0"%char) then xO <$> bits_pos s'
      else if bool_decide (c = "1"%char) then xI <$> bits_pos s'
      else None
  end.
Lemma bits_pos_bits p : bits_pos (pos_bits p) = Some p.
Proof. by induction p as [p IH|p IH|]; simpl; rewrite ?IH. Qed.
Definition codec A `{Countable A} : ThriftCodec A := {|
  thrift_write a := String "x" (pos_bits (encode a));
  thrift_read s := p ← bits_pos (str_drop 1 s); decode p;
|}.
Lemma codec_spec A `{Countable A} : ThriftCodecSpec A (H:=codec A).
Proof.
  split; simpl; intros a.
  - rewrite bits_pos_bits. simpl. apply decode_encode.
  - done.
Qed.

(** A ring kept as an ordered map. *)
#[export] Instance ring V : ConsistentHashMap (gmap Z V) V := {
  ch_new := ∅;
  ch_insert r k v := (OK, <[k:=v]> r);
  ch_remove r k :=
    match r !! k with Some _ => (OK, delete k r) | None => (Err (-1) "no such key", r) end;
  ch_has_key r k := bool_decide (is_Some (r !! k));
  ch_get r h :=
    match ring_owner r h with Some v => (OK, Some v) | None => (Err (-1) "empty", None) end;
  ch_num_nodes r := size r;
  ch_get_partitions r := (sorted_map Z.le r).*1;
  ch_get_values r := (sorted_map Z.le r).*2;
  ch_entries r := sorted_map Z.le r;
  ch_succ_by_value r v := None;
  ch_get_max_range r := (Err (-1) "not supported", None);
}.
#[export] Instance ring_spec V : ConsistentHashMapSpec (gmap Z V) V.
Proof.
  refine {| ch_view r := r |}; simpl; try done; try by eauto.
  - intros r k [v Hv]. rewrite Hv. eauto.
  - intros r k Hk. rewrite Hk. eauto.
  - intros r h v Hv. by rewrite Hv.
  - intros r h ->. exists (Err (-1) "empty"). done.
Defined.
End Reference.
