(* ===== verification/PathUtil.v ===== *)
(** * [vsfs::PathUtil] (common/path_util.cpp)

    The hash of a path, and the layout of index and partition paths
    ([<root>/.vsfs/<name>] and [<root>/.vsfs/<name>/<separator>]). *)

From S2P Require Import Prelude CxxString Platform.
From Stdlib Require Import Ascii.

(** [memcpy] of bytes into an integer on a little-endian machine. *)
Fixpoint le_combine (l : list Z) : Z :=
  match l with
  | [] => 0
  | b :: l' => b + 256 * le_combine l'
  end%Z.

Section path_util.
Context `{MD5, BoostFilesystem}.

(** [PathUtil::path_to_hash]: the first eight bytes of the digest. *)
Definition path_to_hash (path : string) : Z :=
  wrap_int64 (le_combine (take 8 (md5_digest path))).

(** [PathUtil::index_path] *)
Definition index_path (root name : string) : string :=
  fs_append (fs_append root ".vsfs") name.

(** [PathUtil::partition_path] *)
Definition partition_path (root name : string) (sep : Z) : string :=
  fs_append (fs_append (fs_append root ".vsfs") name) (to_string sep).
End path_util.

Definition kVsfsDir : string := "/.vsfs/".

(** [PathUtil::split_index_path]: [None] when the function returns false,
    otherwise the values of [*root] and [*name]. *)
Definition split_index_path (path : string) : option (string * string) :=
  match find_str kVsfsDir path with
  | None => None
  | Some pos =>
      if bool_decide (String.length path ≤ pos + String.length kVsfsDir) then None
      else
        let root := str_take pos path in
        let name := str_drop (pos + String.length kVsfsDir) path in
        Some (if str_empty root then "/" else root, name)
  end.

(** A root directory under which no path component is [.vsfs]. *)
Definition index_root (root : string) : Prop :=
  root = "/" ∨ (plain_dir root ∧ find_str kVsfsDir (root +:+ "/") = None).

#[export] Instance index_root_dec root : Decision (index_root root).
Proof. unfold index_root. apply _. Defined.

(** ** Properties *)

Lemma wrap_int64_range z : (int64_min ≤ wrap_int64 z ≤ int64_max)%Z.
Proof.
  unfold wrap_int64, int64_min, int64_max.
  pose proof (Z.mod_pos_bound (z + 2 ^ 63) (2 ^ 64)). lia.
Qed.

Lemma wrap_int64_id z : (int64_min ≤ z ≤ int64_max)%Z → wrap_int64 z = z.
Proof.
  unfold wrap_int64, int64_min, int64_max. intros Hz.
  rewrite Z.mod_small by lia. lia.
Qed.

Lemma le_combine_bound l :
  Forall (λ b, 0 ≤ b < 256)%Z l → (0 ≤ le_combine l < 256 ^ Z.of_nat (length l))%Z.
Proof.
  induction 1 as [|b l Hb Hl IH]; [done|]. simpl length. simpl le_combine.
  rewrite Nat2Z.inj_succ, Z.pow_succ_r by lia. lia.
Qed.

Lemma le_combine_inj l1 l2 :
  Forall (λ b, 0 ≤ b < 256)%Z l1 → Forall (λ b, 0 ≤ b < 256)%Z l2 →
  length l1 = length l2 → le_combine l1 = le_combine l2 → l1 = l2.
Proof.
  intros H1. revert l2. induction H1 as [|b1 l1 Hb1 Hl1 IH];
    intros [|b2 l2] H2 Hlen Heq; try done.
  inversion_clear H2 as [|?? Hb2 Hl2]. simpl in *.
  assert (b1 = b2 ∧ le_combine l1 = le_combine l2) as [-> ?] by lia.
  f_equal. apply IH; auto.
Qed.

Lemma wrap_int64_inj x y :
  (0 ≤ x < 2 ^ 64)%Z → (0 ≤ y < 2 ^ 64)%Z → wrap_int64 x = wrap_int64 y → x = y.
Proof.
  unfold wrap_int64. intros Hx Hy Heq.
  assert ((x + 2 ^ 63) mod 2 ^ 64 = (y + 2 ^ 63) mod 2 ^ 64)%Z as Hm by lia.
  rewrite 2!Z.mod_eq in Hm by lia.
  assert (0 ≤ (x + 2 ^ 63) / 2 ^ 64 ≤ 1)%Z by (split; [apply Z.div_pos; lia|];
    apply Z.lt_succ_r, Z.div_lt_upper_bound; lia).
  assert (0 ≤ (y + 2 ^ 63) / 2 ^ 64 ≤ 1)%Z by (split; [apply Z.div_pos; lia|];
    apply Z.lt_succ_r, Z.div_lt_upper_bound; lia).
  lia.
Qed.

(** Searching for the separator in [root/.vsfs/name]. *)
Lemma find_str_vsfs_dir root t :
  find_str kVsfsDir (root +:+ "/") = None →
  find_str kVsfsDir (root +:+ kVsfsDir +:+ t) = Some (String.length root).
Proof.
  induction root as [|c root IH]; [done|].
  rewrite !str_app_cons. intros Hn.
  assert (starts_with kVsfsDir (String c (root +:+ "/")) = false ∧
          find_str kVsfsDir (root +:+ "/") = None) as [Hs Hn'].
  { rewrite find_str_cons in Hn. destruct (starts_with _ _); [done|].
    by apply fmap_None in Hn. }
  rewrite find_str_cons.
  replace (starts_with kVsfsDir (String c (root +:+ kVsfsDir +:+ t))) with false.
  { by rewrite IH. }
  symmetry. apply not_true_is_false. intros Ht. apply not_true_iff_false in Hs.
  apply Hs. clear -Ht. unfold kVsfsDir in *.
  (* the pattern only overlaps itself on its last slash *)
  destruct root as [|c1 [|c2 [|c3 [|c4 [|c5 [|c6 root]]]]]];
    simpl in Ht |- *; repeat (case_bool_decide; [|done]); try done; by subst.
Qed.

Section path_util_properties.
Context `{BoostFilesystemSpec}.

Lemma plain_name_vsfs : plain_name ".vsfs".
Proof. by split. Qed.

(** The layout of an index path, from the two-step append. *)
Lemma index_path_layout root name :
  index_root root → plain_name name →
  index_path root name = (if decide (root = "/") then "" else root) +:+ kVsfsDir +:+ name.
Proof.
  intros Hroot Hname. unfold index_path.
  destruct Hroot as [->|[Hr _]].
  - rewrite decide_True by done.
    rewrite (fs_append_slash "/" ".vsfs") by auto using plain_name_vsfs.
    rewrite (fs_append_dir "/.vsfs"); [done|by split|done].
  - rewrite decide_False by (intros ->; by destruct Hr as (_&Hr&_)).
    rewrite (fs_append_dir root) by auto using plain_name_vsfs.
    rewrite fs_append_dir; [|split_and!|done].
    + unfold kVsfsDir. by rewrite str_app_assoc.
    + destruct Hr as (?&_). by destruct root.
    + destruct Hr as (?&_). clear. induction root as [|c root IH]; [done|].
      rewrite str_app_cons. simpl. by destruct (root +:+ _) eqn:E; [destruct root|].
    + destruct Hr as (Hne&Hl&Hs). destruct root as [|a [|b root]]; [done|..|done].
      simpl in *. case_bool_decide; [|done]. by subst.
Qed.

(** Splitting the path of an index gives back the directory it was
    created on and its name, for every directory that has no [.vsfs]
    component of its own (the root directory included). *)
Theorem split_index_path_roundtrip root name :
  index_root root → plain_name name →
  split_index_path (index_path root name) = Some (root, name).
Proof.
  intros Hroot Hname. rewrite index_path_layout by done.
  set (d := if decide (root = "/") then "" else root).
  assert (find_str kVsfsDir (d +:+ "/") = None) as Hd.
  { subst d. destruct Hroot as [->|[? ?]]; [done|]. by case_decide. }
  unfold split_index_path. rewrite find_str_vsfs_dir by done.
  rewrite bool_decide_eq_false_2; last first.
  { rewrite !str_length_app. destruct Hname as [Hn _]. destruct name; [done|]. simpl. lia. }
  rewrite str_take_app, str_drop_add, str_drop_app, (str_drop_app kVsfsDir).
  subst d. case_decide; [by subst|].
  destruct Hroot as [?|[(?&_) _]]; [done|]. by destruct root.
Qed.
End path_util_properties.

Section witnesses.
Import Reference.

Lemma split_index_path_roundtrip_witness :
  split_index_path (index_path "/home/john" "energy") = Some ("/home/john", "energy").
Proof.
  apply (split_index_path_roundtrip "/home/john" "energy"); vm_compute.
  - right. repeat split; discriminate.
  - split; [discriminate|reflexivity].
Defined.

End witnesses.
