(* ===== verification/ThriftUtils.v ===== *)
(** * RPC conventions (rpc/thrift_utils.cpp)

    A server handler turns a failed [Status] into the Thrift exception
    [RpcInvalidOp]; any other outcome is the handler's return value. *)

From S2P Require Import Prelude CxxString Platform.

Record RpcInvalidOp := { what : Z; why : string }.

(** The outcome of a handler that does not crash the server. *)
Inductive rpc (A : Type) : Type :=
  | Return (a : A)
  | Throw (e : RpcInvalidOp).
Arguments Return {A} a.
Arguments Throw {A} e.

Section thrift_utils.
Context `{VoblaStatus}.

(** [ThriftUtils::status_to_rpc_invalid_op] *)
Definition status_to_rpc_invalid_op (status : Status) : RpcInvalidOp :=
  {| what := error_of status; why := message_of status |}.

(** [ThriftUtils::check_status], with the value to return on success. *)
Definition check_status {A} (status : Status) (a : A) : rpc A :=
  if ok status then Return a else Throw (status_to_rpc_invalid_op status).

(** The [Status] a client rebuilds from an exception:
    [Status(ouch.what, ouch.why)]. *)
Definition status_of_exception (e : RpcInvalidOp) : Status := Err (what e) (why e).
End thrift_utils.

(** ** Properties *)

Section properties.
Context `{VoblaStatusSpec}.

(** An error crosses the RPC boundary unchanged.  A failed status is
    always thrown, and what the client rebuilds from the exception has the
    same code and message and is a failure again, provided system errors
    have a non-zero number. *)
Theorem status_survives_rpc {A} (status : Status) (a : A) :
  (∀ e, status = SystemError e → e ≠ 0%Z) →
  match check_status status a with
  | Return _ => ok status = true
  | Throw e =>
      ok status = false ∧ ok (status_of_exception e) = false ∧
      error_of (status_of_exception e) = error_of status ∧
      message_of (status_of_exception e) = message_of status
  end.
Proof.
  intros Hs. unfold check_status. destruct (ok status) eqn:Hok; [done|].
  split_and!; try done. destruct status as [|c m|e]; simpl in *; [done..|].
  rewrite system_error_code_spec. specialize (Hs e eq_refl).
  apply Z.eqb_neq. lia.
Qed.
End properties.

Section witnesses.
Import Reference.

Lemma status_survives_rpc_witness :
  match check_status (SystemError ENOENT) 5%Z with
  | Return _ => False
  | Throw e => error_of (status_of_exception e) = (-2)%Z
  end.
Proof.
  pose proof (status_survives_rpc (SystemError ENOENT) 5%Z) as Hw.
  assert (∀ e, SystemError ENOENT = SystemError e → e ≠ 0%Z) as He.
  { intros e [= <-]. discriminate. }
  specialize (Hw He). simpl in Hw |- *. destruct Hw as (_&_&Hw&_). exact Hw.
Defined.

End witnesses.
