(* ===== verification/IndexImpl.v ===== *)
(** * [vsfs::index::internal::IndexImpl] (index/index_impl.h)

    The storage shared by [RangeIndex] and [HashIndex]: a map from a key to the
    set of the objects indexed under it.  Every public function takes the
    index's mutex for its whole body, so one call is one step. *)

From S2P Require Import Prelude CxxString Platform.

(** [RpcIndexUpdateOpCode] and [RpcIndexRecordUpdateOp] (rpc/vsfs.thrift) *)
Inductive RpcIndexUpdateOpCode := UNKNOWN | INSERT | UPDATE | REMOVE.
Record RpcIndexRecordUpdateOp := {
  op : RpcIndexUpdateOpCode;
  key : string;
  value : string;
}.

#[export] Instance RpcIndexUpdateOpCode_eq_dec : EqDecision RpcIndexUpdateOpCode.
Proof. solve_decision. Defined.
#[export] Instance RpcIndexRecordUpdateOp_eq_dec : EqDecision RpcIndexRecordUpdateOp.
Proof. solve_decision. Defined.

Section index_impl.
Context {K : Type} `{Countable K}.
(** [lexical_cast] to the key type and to [ObjectId]. *)
Context {key_cast : LexicalCast K} {oid_cast : LexicalCast Z}.
(** The declaration [KeyType key = 0], which converts a null pointer when the
    key type is [std::string]. *)
Context (key_zero : run K).


(** [insert(key, obj_id)]: [index_[key].insert(obj_id)] *)
Definition insert (k : K) (obj_id : Z) (index_ : gmap K (gset Z)) : gmap K (gset Z) :=
  <[k := {[obj_id]} ∪ default ∅ (index_ !! k)]> index_.

(** [insert_string_val(key, value)] *)
Definition insert_string_val (key value : string) (index_ : gmap K (gset Z)) : run (Status * gmap K (gset Z)) :=
  _ ← key_zero;
  match lexical_cast key : option K, lexical_cast value : option Z with
  | Some insert_key, Some obj_id => Done (OK, insert insert_key obj_id index_)
  | _, _ => Done (Err (- EINVAL) "IndexImpl::insert_string_val: bad cast", index_)
  end.

(** [erase_with_lock(key, obj_id)]: a key whose set becomes empty is removed. *)
Definition erase_with_lock (k : K) (obj_id : Z) (index_ : gmap K (gset Z)) : gmap K (gset Z) :=
  match index_ !! k with
  | Some obj_ids =>
      let obj_ids' := obj_ids ∖ {[obj_id]} in
      if decide (obj_ids' = ∅) then delete k index_ else <[k := obj_ids']> index_
  | None => index_
  end.

(** [erase(key, obj_id)] and [erase(key)] *)
Definition erase (k : K) (obj_id : Z) (index_ : gmap K (gset Z)) : gmap K (gset Z) :=
  erase_with_lock k obj_id index_.
Definition erase_key (k : K) (index_ : gmap K (gset Z)) : gmap K (gset Z) := delete k index_.

(** [erase_string_val(key, value)] *)
Definition erase_string_val (key value : string) (index_ : gmap K (gset Z)) : run (Status * gmap K (gset Z)) :=
  _ ← key_zero;
  match lexical_cast key : option K with
  | None => Done (Err (- EINVAL) "IndexImpl::erase_string_val: bad cast", index_)
  | Some erase_k =>
      if str_empty value then Done (OK, erase_key erase_k index_)
      else match lexical_cast value : option Z with
           | None => Done (Err (- EINVAL) "IndexImpl::erase_string_val: bad cast", index_)
           | Some erase_value => Done (OK, erase_with_lock erase_k erase_value index_)
           end
  end.

(** [apply(updates)]: the updates take effect one by one until the first that
    cannot be applied. *)
Fixpoint apply (updates : list RpcIndexRecordUpdateOp) (index_ : gmap K (gset Z))
  : run (Status * gmap K (gset Z)) :=
  match updates with
  | [] => Done (OK, index_)
  | update :: updates' =>
      _ ← key_zero;
      match lexical_cast (key update) : option K,
            lexical_cast (value update) : option Z with
      | Some k, Some obj_id =>
          match op update with
          | INSERT | UPDATE => apply updates' (insert k obj_id index_)
          | REMOVE => apply updates' (erase_with_lock k obj_id index_)
          | UNKNOWN => Done (Err (- EINVAL) "Unknown op.", index_)
          end
      | _, _ => Done (Err (- EINVAL) "IndexImpl::apply: bad cast.", index_)
      end
  end.

(** [operator==], [clear()] *)
Definition eqb (index_ rhs : gmap K (gset Z)) : bool := bool_decide (index_ = rhs).
Definition clear (index_ : gmap K (gset Z)) : gmap K (gset Z) := ∅.

(** [empty()], [num_keys()], [size()] *)
Definition is_empty (index_ : gmap K (gset Z)) : bool := bool_decide (index_ = ∅).
Definition num_keys (index_ : gmap K (gset Z)) : nat := size index_.
Definition index_size (index_ : gmap K (gset Z)) : nat := sum_list_with (λ p, size p.2) (map_to_list index_).

(** [search(key, results)]: appends the objects of one key. *)
Definition search (k : K) (results : list Z) (index_ : gmap K (gset Z)) : list Z :=
  match index_ !! k with
  | Some files => results ++ elements files
  | None => results
  end.

(** [split(other)]; [all_obj_ids[median_pos]] is out of range on an empty index.
    [nth_element] puts the element of rank [total_size / 2] at its place. *)
Definition all_obj_ids (index_ : gmap K (gset Z)) : list Z :=
  map_to_list index_ ≫= λ p, elements p.2.
Definition median_of (index_ : gmap K (gset Z)) : option Z :=
  merge_sort Z.le (all_obj_ids index_) !! (index_size index_ / 2)%nat.
Definition moved (median : Z) (index_ : gmap K (gset Z)) : gmap K (gset Z) :=
  omap (λ ids : gset Z,
          let moved_obj_ids := filter (λ o, (median ≤ o)%Z) ids in
          if decide (moved_obj_ids = ∅) then None else Some moved_obj_ids) index_.
Definition erase_ids (k : K) (ids : gset Z) (index_ : gmap K (gset Z)) : gmap K (gset Z) :=
  let rest := default ∅ (index_ !! k) ∖ ids in
  if decide (rest = ∅) then delete k index_ else <[k := rest]> index_.
Definition split (index_ other : gmap K (gset Z)) : run (Z * gmap K (gset Z) * gmap K (gset Z)) :=
  CHECK is_empty other ELSE "CHECK(other->empty())";;
  match median_of index_ with
  | None => Fatal "all_obj_ids[median_pos] out of range"
  | Some median =>
      let other' := moved median index_ in
      let index' := foldl (λ m p, erase_ids p.1 p.2 m) index_ (map_to_list other') in
      Done (median, index', other')
  end.
End index_impl.

(** ** Abstract view: the set of indexed (key, object) pairs *)

Definition has {K} `{Countable K} (m : gmap K (gset Z)) (k : K) (o : Z) : Prop :=
  ∃ s, m !! k = Some s ∧ o ∈ s.

(** Representation invariant: no key is kept without objects. *)
Definition index_wf {K} `{Countable K} (m : gmap K (gset Z)) : Prop :=
  map_Forall (λ _ s, s ≠ ∅) m.

(** A decoded update: insertion ([true]) or removal of a pair. *)
Definition decode_op {K} {key_cast : LexicalCast K} {oid_cast : LexicalCast Z} (u : RpcIndexRecordUpdateOp)
  : option (bool * K * Z) :=
  k ← lexical_cast (key u); o ← lexical_cast (value u);
  match op u with
  | INSERT | UPDATE => Some (true, k, o)
  | REMOVE => Some (false, k, o)
  | UNKNOWN => None
  end.

Definition exec_op {K} `{Countable K} (m : gmap K (gset Z)) (d : bool * K * Z) : gmap K (gset Z) :=
  match d with
  | (true, k, o) => insert k o m
  | (false, k, o) => erase_with_lock k o m
  end.

(** What the last update on a pair says of it. *)
Definition verdict {K} `{EqDecision K} (ds : list (bool * K * Z)) (k : K) (o : Z) : option bool :=
  last ((λ d : bool * K * Z, d.1.1) <$> filter (λ d : bool * K * Z, d.1.2 = k ∧ d.2 = o) ds).

(** ** Membership after each operation *)

Section index_lemmas.
Context {K : Type} `{Countable K}.
Implicit Types (m : gmap K (gset Z)) (k : K) (o : Z).

Lemma has_insert m k o k' o' :
  has (insert k o m) k' o' ↔ (k' = k ∧ o' = o) ∨ has m k' o'.
Proof.
  unfold has, insert. setoid_rewrite lookup_insert. case_decide as Hk.
  - subst. split.
    + intros (s&[= <-]&Ho). destruct (m !! k') as [s|] eqn:Hm; set_solver.
    + intros Hd. eexists. split; [done|].
      destruct Hd as [[_ ->]|(s&->&?)]; set_solver.
  - naive_solver.
Qed.

Lemma has_erase m k o k' o' :
  has (erase_with_lock k o m) k' o' ↔ has m k' o' ∧ ¬ (k' = k ∧ o' = o).
Proof.
  unfold has, erase_with_lock. destruct (m !! k) as [s|] eqn:Hm.
  2:{ split; [|naive_solver]. intros (s&Hs&?). split; [eauto|].
      intros [-> ->]. congruence. }
  case_decide as He.
  - setoid_rewrite lookup_delete. case_decide; subst.
    + split; [naive_solver|]. intros [(s'&Hs'&Ho) Hn]. simplify_eq. set_solver.
    + naive_solver.
  - setoid_rewrite lookup_insert. case_decide; subst.
    + rewrite Hm. split; [intros (s'&[= <-]&Ho)|intros [(s'&[= <-]&Ho) Hn]].
      * split; [exists s|]; set_solver.
      * eexists; split; [done|]. set_solver.
    + naive_solver.
Qed.

Lemma has_erase_key m k k' o' :
  has (erase_key k m) k' o' ↔ has m k' o' ∧ k' ≠ k.
Proof. unfold has, erase_key. setoid_rewrite lookup_delete. case_decide; naive_solver. Qed.

Lemma has_exec m d k o :
  has (exec_op m d) k o ↔
  if decide (d.1.2 = k ∧ d.2 = o) then d.1.1 = true else has m k o.
Proof.
  destruct d as [[[] k'] o']; simpl; rewrite ?has_insert, ?has_erase; case_decide; naive_solver.
Qed.

Lemma verdict_snoc (ds : list (bool * K * Z)) d k o :
  verdict (ds ++ [d]) k o
  = if decide (d.1.2 = k ∧ d.2 = o) then Some d.1.1 else verdict ds k o.
Proof.
  unfold verdict. rewrite filter_app, filter_cons, filter_nil.
  case_decide; [|by rewrite app_nil_r]. rewrite fmap_app; simpl. by rewrite last_snoc.
Qed.

Lemma verdict_app (ds1 ds2 : list (bool * K * Z)) k o :
  verdict (ds1 ++ ds2) k o =
  match verdict ds2 k o with Some b => Some b | None => verdict ds1 k o end.
Proof.
  induction ds2 as [|d ds2 IH] using rev_ind; [by rewrite app_nil_r|].
  rewrite app_assoc, !verdict_snoc. by case_decide.
Qed.

(** After a batch, the last update on a pair decides it. *)
Lemma has_foldl (ds : list (bool * K * Z)) m k o :
  has (foldl exec_op m ds) k o ↔
  match verdict ds k o with Some b => b = true | None => has m k o end.
Proof.
  induction ds as [|d ds IH] using rev_ind; [done|].
  rewrite foldl_snoc, has_exec, verdict_snoc. case_decide; [done|]. apply IH.
Qed.

(** *** The representation invariant *)

Lemma index_wf_empty : index_wf (∅ : gmap K (gset Z)).
Proof. apply map_Forall_empty. Qed.
Lemma index_wf_insert m k o : index_wf m → index_wf (insert k o m).
Proof. intros Hm. unfold insert. apply map_Forall_insert_2; [set_solver|done]. Qed.
Lemma index_wf_erase m k o : index_wf m → index_wf (erase_with_lock k o m).
Proof.
  intros Hm. unfold erase_with_lock. case_match; [|done].
  case_decide; [by apply map_Forall_delete|by apply map_Forall_insert_2].
Qed.
Lemma index_wf_erase_key m k : index_wf m → index_wf (erase_key k m).
Proof. apply map_Forall_delete. Qed.
Lemma index_wf_foldl (ds : list (bool * K * Z)) m :
  index_wf m → index_wf (foldl exec_op m ds).
Proof.
  revert m. induction ds as [|[[[] k] o] ds IH]; intros m Hm; simpl; [done|..];
    apply IH; [by apply index_wf_insert|by apply index_wf_erase].
Qed.

(** Under the invariant an index is determined by its pairs. *)
Lemma index_ext m1 m2 :
  index_wf m1 → index_wf m2 → (∀ k o, has m1 k o ↔ has m2 k o) → m1 = m2.
Proof.
  intros W1 W2 Hh. apply map_eq. intros k.
  destruct (m1 !! k) as [s1|] eqn:E1, (m2 !! k) as [s2|] eqn:E2; [f_equal|..|done].
  - apply set_eq. intros o. specialize (Hh k o). unfold has in Hh.
    rewrite E1, E2 in Hh. naive_solver.
  - exfalso. destruct (set_choose_L s1) as [o Ho]; [by eapply W1|].
    destruct (proj1 (Hh k o)) as (?&?&?); [by exists s1|]. congruence.
  - exfalso. destruct (set_choose_L s2) as [o Ho]; [by eapply W2|].
    destruct (proj2 (Hh k o)) as (?&?&?); [by exists s2|]. congruence.
Qed.

(** Replaying a prefix of a history before the history changes nothing. *)
Lemma foldl_replay (ds1 ds2 : list (bool * K * Z)) m :
  index_wf m →
  foldl exec_op (foldl exec_op m ds1) (ds1 ++ ds2) = foldl exec_op m (ds1 ++ ds2).
Proof.
  intros Hm. apply index_ext; eauto using index_wf_foldl.
  intros k o.
  rewrite (has_foldl (ds1 ++ ds2) (foldl exec_op m ds1)), (has_foldl (ds1 ++ ds2) m).
  rewrite verdict_app. destruct (verdict ds2 k o); [done|].
  destruct (verdict ds1 k o) eqn:Hv; [done|]. by rewrite has_foldl, Hv.
Qed.

Lemma elem_of_search m k results o :
  o ∈ search k results m ↔ o ∈ results ∨ has m k o.
Proof.
  unfold search, has. destruct (m !! k) as [s|].
  - rewrite elem_of_app, elem_of_elements. naive_solver.
  - naive_solver.
Qed.

Lemma elem_of_all_obj_ids m o : o ∈ all_obj_ids m ↔ ∃ k, has m k o.
Proof.
  unfold all_obj_ids, has. rewrite list_elem_of_bind. split.
  - intros ([k s]&Ho&Hk). rewrite elem_of_map_to_list in Hk. simpl in *.
    exists k, s. split; [done|]. by apply elem_of_elements in Ho.
  - intros (k&s&Hk&Ho). exists (k, s). simpl.
    by rewrite elem_of_elements, elem_of_map_to_list.
Qed.

Lemma index_size_length m : index_size m = length (all_obj_ids m).
Proof.
  unfold index_size, all_obj_ids. induction (map_to_list m) as [|p l IH]; [done|].
  rewrite bind_cons, length_app. simpl. by rewrite IH.
Qed.
End index_lemmas.

#[export] Hint Resolve index_wf_empty index_wf_insert index_wf_erase
  index_wf_erase_key index_wf_foldl : vsfs.

(** ** Batches of updates *)

Section apply_lemmas.
Context {K : Type} `{Countable K} {key_cast : LexicalCast K} {oid_cast : LexicalCast Z}.
Context (key_zero : run K).
Implicit Types (m : gmap K (gset Z)).

(** [apply] executes the longest prefix of decodable updates, and reports
    success when that is all of them. *)
Lemma apply_spec ups m :
  is_Some (match key_zero with Done z => Some z | Fatal _ => None end) →
  ∃ s ds n,
    apply key_zero ups m = Done (s, foldl exec_op m ds) ∧
    mapM decode_op (take n ups) = Some ds ∧
    (ok s = true → s = OK ∧ n = length ups) ∧
    (ok s = false → ∃ u, ups !! n = Some u ∧ decode_op (K:=K) u = None).
Proof.
  intros [z Hz]. destruct key_zero as [z'|]; [|done]. clear z Hz.
  revert m. induction ups as [|u ups IH]; intros m.
  { by exists OK, [], 0. }
  simpl. unfold decode_op at 2.
  destruct (lexical_cast (key u)) as [k|] eqn:Hk; last first.
  { eexists _, [], 0. split_and!; [done..|]. intros _. exists u.
    unfold decode_op. by rewrite Hk. }
  destruct (lexical_cast (value u)) as [o|] eqn:Ho; last first.
  { eexists _, [], 0. split_and!; [done..|]. intros _. exists u.
    unfold decode_op. by rewrite Hk; simpl; rewrite Ho. }
  assert (decode_op u = match op u with INSERT | UPDATE => Some (true, k, o)
    | REMOVE => Some (false, k, o) | UNKNOWN => None end) as Hd.
  { unfold decode_op. by rewrite Hk; simpl; rewrite Ho. }
  assert (∀ m' b, decode_op u = Some (b, k, o) → m' = exec_op m (b, k, o) →
    ∃ s ds n, apply (Done z') ups m' = Done (s, foldl exec_op m ds) ∧
    mapM decode_op (take n (u :: ups)) = Some ds ∧
    (ok s = true → s = OK ∧ n = length (u :: ups)) ∧
    (ok s = false → ∃ u', (u :: ups) !! n = Some u' ∧ decode_op (K:=K) u' = None)) as Hgo.
  { intros m' b Hb ->. destruct (IH (exec_op m (b, k, o))) as (s&ds&n&E1&E2&E3&E4).
    exists s, ((b, k, o) :: ds), (S n). rewrite E1. split_and!; [done|..].
    - simpl. by rewrite Hb; simpl; rewrite E2.
    - intros Hs. destruct (E3 Hs) as [-> ->]. done.
    - intros Hs. destruct (E4 Hs) as (u'&?&?). eauto. }
  destruct (op u) eqn:Hop; [|by apply (Hgo _ true)..|by apply (Hgo _ false)].
  eexists _, [], 0. split_and!; [done..|]. intros _. by exists u.
Qed.

Lemma apply_OK z ups m m' :
  key_zero = Done z →
  apply key_zero ups m = Done (OK, m') →
  ∃ ds, mapM decode_op ups = Some ds ∧ m' = foldl exec_op m ds.
Proof.
  intros Hz Ha. destruct (apply_spec ups m) as (s&ds&n&E1&E2&E3&_); [rewrite Hz; eauto|].
  rewrite E1 in Ha. simplify_eq. destruct E3 as [_ ->]; [done|].
  rewrite firstn_all in E2. eauto.
Qed.

Lemma apply_decoded z ups ds m :
  key_zero = Done z → mapM decode_op ups = Some ds →
  apply key_zero ups m = Done (OK, foldl exec_op m ds).
Proof.
  intros Hz Hd. destruct (apply_spec ups m) as (s&ds'&n&E1&E2&E3&E4); [rewrite Hz; eauto|].
  destruct (ok s) eqn:Hs.
  - destruct E3 as [-> ->]; [done|]. rewrite firstn_all in E2. by simplify_eq.
  - exfalso. destruct E4 as (u&Hu&Hn); [done|].
    apply mapM_Some in Hd. destruct (Forall2_lookup_l _ _ _ _ _ Hd Hu) as (d&_&Hd').
    congruence.
Qed.

(** Applying a batch again, followed by later updates. *)
Lemma apply_again ups1 ups2 m m1 m2 :
  index_wf m →
  apply key_zero ups1 m = Done (OK, m1) →
  apply key_zero (ups1 ++ ups2) m1 = Done (OK, m2) →
  apply key_zero (ups1 ++ ups2) m = Done (OK, m2).
Proof.
  intros Hm E1 E2. destruct key_zero as [z|why] eqn:Hz.
  - rewrite <-Hz in *.
    destruct (apply_OK z _ _ _ Hz E1) as (ds1&Hd1&->).
    destruct (apply_OK z _ _ _ Hz E2) as (ds&Hd&->).
    rewrite (apply_decoded z _ ds) by done.
    rewrite mapM_app, Hd1 in Hd. simpl in Hd.
    destruct (mapM decode_op ups2) as [ds2|]; simplify_eq/=.
    by rewrite foldl_replay.
  - destruct ups1 as [|u ups1]; [|done]. simpl in *. by simplify_eq.
Qed.
Definition apply_prefixes (ups : list RpcIndexRecordUpdateOp) (ns : list nat) m
    : run (Status * gmap K (gset Z)) :=
  foldl (λ r n, '(_, m) ← r; apply key_zero (take n ups) m) (Done (OK, m)) ns.

Lemma apply_prefixes_decoded z ups ds ns m :
  key_zero = Done z → mapM decode_op ups = Some ds → index_wf m → StronglySorted le ns →
  apply_prefixes ups ns m = Done (OK, foldl exec_op m (take (default 0 (last ns)) ds)).
Proof.
  intros Hz Hd Hm. unfold apply_prefixes.
  induction ns as [|n ns IH] using rev_ind; intros Hs; [done|].
  rewrite foldl_app, IH by (by eapply StronglySorted_app_1_l). simpl.
  rewrite (apply_decoded z _ (take n ds)), last_snoc by (done || by apply mapM_take). simpl.
  assert (default 0 (last ns) ≤ n) as Hle.
  { destruct (last ns) as [x|] eqn:Hx; simpl; [|lia].
    eapply (StronglySorted_app_1_elem_of le ns [n]); [done| |by left].
    by apply last_Some_elem_of. }
  rewrite <-(Nat.sub_add (default 0 (last ns)) n Hle), Nat.add_comm, <-take_take_drop.
  by rewrite foldl_replay.
Qed.

(** C21: replaying log entries is harmless.  If a list of updates can be applied
    to a well-formed index at all, then applying growing prefixes of it any
    number of times, each to the result of the one before, and the whole list
    at the end, succeeds and gives the index that applying the list once gives. *)
Theorem apply_replay ups ns m m' :
  index_wf m → apply key_zero ups m = Done (OK, m') → StronglySorted le ns →
  Forall (λ n, n ≤ length ups) ns →
  apply_prefixes ups (ns ++ [length ups]) m = Done (OK, m').
Proof.
  intros Hm Ha Hs Hns. destruct key_zero as [z|why] eqn:Hz.
  - rewrite <-Hz in Ha. destruct (apply_OK z _ _ _ Hz Ha) as (ds&Hd&->).
    rewrite (apply_prefixes_decoded z _ ds); [|done..|].
    + rewrite last_snoc. simpl. by rewrite (length_mapM _ _ _ Hd), firstn_all.
    + apply StronglySorted_app_2; [|done|repeat constructor].
      intros x y Hx ->%list_elem_of_singleton. by eapply Forall_forall in Hns.
  - destruct ups as [|u ups]; [|done]. simplify_eq/=.
    unfold apply_prefixes. generalize (ns ++ [0]). clear. intros ns.
    induction ns as [|n ns IH]; simpl; [done|]. by rewrite take_nil.
Qed.
End apply_lemmas.

(** ** Splitting an index *)

Section split_lemmas.
Context {K : Type} `{Countable K}.
Implicit Types (m : gmap K (gset Z)) (k : K) (o : Z).

Lemma has_erase_ids m k ids k' o' :
  has (erase_ids k ids m) k' o' ↔ has m k' o' ∧ ¬ (k' = k ∧ o' ∈ ids).
Proof.
  unfold has, erase_ids. case_decide as Hr.
  - setoid_rewrite lookup_delete. case_decide; [subst|naive_solver].
    split; [naive_solver|]. intros [(s&Hs&Ho) Hn]. rewrite Hs in Hr. set_solver.
  - setoid_rewrite lookup_insert. case_decide; [subst|naive_solver].
    destruct (m !! k') as [s|] eqn:Hm; simpl in *; [|set_solver].
    split; [intros (s'&[= <-]&Ho)|intros [(s'&[= <-]&Ho) Hn]].
    + split; [exists s|]; set_solver.
    + eexists. split; [done|]. set_solver.
Qed.

Lemma index_wf_erase_ids m k ids : index_wf m → index_wf (erase_ids k ids m).
Proof.
  intros Hm. unfold erase_ids.
  case_decide; [by apply map_Forall_delete|by apply map_Forall_insert_2].
Qed.

Lemma foldl_erase_ids (l : list (K * gset Z)) m :
  (index_wf m → index_wf (foldl (λ m p, erase_ids p.1 p.2 m) m l)) ∧
  ∀ k o, has (foldl (λ m p, erase_ids p.1 p.2 m) m l) k o ↔
         has m k o ∧ ¬ ∃ ids, (k, ids) ∈ l ∧ o ∈ ids.
Proof.
  revert m. induction l as [|[k0 ids0] l IH]; intros m; simpl.
  { split; [done|]. intros k o. set_solver. }
  destruct (IH (erase_ids k0 ids0 m)) as [IHw IHh]. split.
  { intros Hm. by apply IHw, index_wf_erase_ids. }
  intros k o. rewrite IHh, has_erase_ids. setoid_rewrite elem_of_cons.
  set_solver.
Qed.

Lemma has_moved median m k o : has (moved median m) k o ↔ has m k o ∧ (median ≤ o)%Z.
Proof.
  unfold has, moved. rewrite lookup_omap. destruct (m !! k) as [s|]; simpl; [|naive_solver].
  case_decide as Hs.
  - split; [naive_solver|]. intros [(s'&[= <-]&Ho) Hle]. set_solver.
  - split.
    + intros (s'&[= <-]&Ho). apply elem_of_filter in Ho as [? ?]. eauto.
    + intros [(s'&[= <-]&Ho) Hle]. eexists. split; [done|]. by apply elem_of_filter.
Qed.

Lemma index_wf_moved median m : index_wf (moved median m).
Proof.
  intros k s Hs. unfold moved in Hs. rewrite lookup_omap in Hs.
  destruct (m !! k); simpl in Hs; [|done]. case_decide; by simplify_eq.
Qed.

Lemma median_of_total m : index_wf m → m ≠ ∅ → is_Some (median_of m).
Proof.
  intros Hm Hne. unfold median_of. apply lookup_lt_is_Some.
  rewrite (merge_sort_Permutation Z.le), index_size_length.
  assert (0 < length (all_obj_ids m)).
  { destruct (map_choose m Hne) as (k&s&Hk).
    destruct (set_choose_L s) as [o Ho]; [by eapply Hm|].
    assert (o ∈ all_obj_ids m) as Hin by (apply elem_of_all_obj_ids; exists k, s; auto).
    destruct (all_obj_ids m); [by apply elem_of_nil in Hin|simpl; lia]. }
  apply Nat.div_lt; lia.
Qed.

End split_lemmas.

Section witnesses.


Lemma apply_replay_witness :
  let lc : LexicalCast Z := λ s, if bool_decide (s = "7") then Some 7%Z else Some 1%Z in
  let ups := [{| op := INSERT; key := "7"; value := "1" |};
              {| op := REMOVE; key := "7"; value := "1" |};
              {| op := INSERT; key := "7"; value := "7" |}] in
  apply_prefixes (Done 0%Z) ups [1; 1; 2; 3] (∅ : gmap Z (gset Z))
  = Done (OK, {[7%Z := {[7%Z]}]}).
Proof.
  intros lc ups.
  apply (apply_replay (Done 0%Z) ups [1; 1; 2] ∅);
    [apply index_wf_empty|reflexivity|repeat constructor|repeat constructor].
Defined.

End witnesses.
