(* ===== verification/RangeIndex.v ===== *)
(** * Range indices (index/range_index.h, range_index.cpp)

    [RangeIndex<Key>] orders its keys and answers range queries.  The virtual
    interface of the range indices is the class [RangeIndexInterface]; the
    index manager is written against it, and the twelve instantiations of the
    template, as built by [create_range_index], implement it.

    Floating-point keys: [std::map] identifies keys that compare equal, so the
    model keeps one representative of the two zeros ([float_key]).  A NaN key
    breaks the strict weak order [std::map] requires and is outside the model. *)

From S2P Require Import Prelude CxxString Platform IndexImpl.
From Stdlib Require Import SpecFloat.

(** [RpcRangeQuery] (rpc/vsfs.thrift) *)
Record RpcRangeQuery := {
  q_index_path : string;
  q_name : string;
  q_lower : string;
  q_lower_open : bool;
  q_upper : string;
  q_upper_open : bool;
}.

(** ** [RangeIndex<Key>] *)

Section range_index.
Context {K : Type} `{Countable K}.
(** The order of [std::map<Key, ...>]. *)
Context (le : relation K) `{!RelDecision le}.
Context {key_cast : LexicalCast K}.
(** [numeric_limits<Key>::min()] and [::max()] *)
Context (limit_min limit_max : K).

(** The scan of [search(lower, lower_open, upper, upper_open, results)]:
    it starts at [upper_bound] or [lower_bound] and stops at the first key
    beyond [upper]. *)
Definition before (lower : K) (lower_open : bool) (k : K) : bool :=
  if lower_open then bool_decide (le k lower) else negb (bool_decide (le lower k)).
Definition beyond (upper : K) (upper_open : bool) (k : K) : bool :=
  negb (bool_decide (le k upper)) || (upper_open && bool_decide (le upper k)).
Definition search_range (lower : K) (lower_open : bool) (upper : K) (upper_open : bool)
    (results : list Z) (index_ : gmap K (gset Z)) : list Z :=
  let start := drop_while (λ p, before lower lower_open p.1) (sorted_map le index_) in
  results ++ (take_while (λ p, negb (beyond upper upper_open p.1)) start ≫= λ p, elements p.2).

(** [search(const RpcRangeQuery&, results)] *)
Definition bound_of (s : string) (limit : K) : option K :=
  if str_empty s then Some limit else lexical_cast s.
Definition search_query (query : RpcRangeQuery) (results : list Z)
    (index_ : gmap K (gset Z)) : Status * list Z :=
  match bound_of (q_lower query) limit_min, bound_of (q_upper query) limit_max with
  | Some lower, Some upper =>
      (OK, search_range lower (q_lower_open query) upper (q_upper_open query) results index_)
  | _, _ => (Err (-1) "Failed to parse upper and lower value of range query.", results)
  end.
End range_index.

(** [approx_bytes()]: the size of the assumed red-black tree nodes, eight bytes
    of key and of value, three pointers and a colour byte. *)
Definition kElementSize : nat := 8 + 8 + 3 * 8 + 1.
Definition approx_bytes {K} `{Countable K} (index_ : gmap K (gset Z)) : nat :=
  size index_ * kElementSize.

(** ** The virtual interface *)

Class RangeIndexInterface (I : Type) := {
  ri_apply : list RpcIndexRecordUpdateOp → I → run (Status * I);
  ri_search : RpcRangeQuery → I → Status * list Z;
  ri_size : I → nat;
  create_range_index : Z → option I;
}.

(** What the index manager relies on. *)
Class RangeIndexInterfaceSpec (I : Type) `{RangeIndexInterface I} := {
  ri_wf : I → Prop;
  (** Indices whose updates never terminate the process. *)
  ri_safe : I → Prop;
  ri_safe_apply ups i : ri_safe i → ∃ s i', ri_apply ups i = Done (s, i') ∧ ri_safe i';
  ri_create_wf t i : create_range_index t = Some i → ri_wf i;
  ri_apply_wf ups i s i' : ri_wf i → ri_apply ups i = Done (s, i') → ri_wf i';
  ri_apply_nil i : ri_apply [] i = Done (OK, i);
  ri_apply_ok ups i s i' : ri_apply ups i = Done (s, i') → ok s = true → s = OK;
  ri_apply_app ups1 ups2 i i' :
    ri_apply (ups1 ++ ups2) i = Done (OK, i') ↔
    ∃ i1, ri_apply ups1 i = Done (OK, i1) ∧ ri_apply ups2 i1 = Done (OK, i');
  ri_apply_replay ups1 ups2 i i1 i2 :
    ri_wf i → ri_apply ups1 i = Done (OK, i1) →
    ri_apply (ups1 ++ ups2) i1 = Done (OK, i2) →
    ri_apply (ups1 ++ ups2) i = Done (OK, i2);
  ri_apply_stable ups1 ups2 i i1 i2 :
    ri_apply ups1 i = Done (OK, i1) → ri_apply ups2 i = Done (OK, i2) →
    ∃ i3, ri_apply ups2 i1 = Done (OK, i3);
}.

(** ** The instantiations of the template *)

(** [TypeIDs] of vobla's traits; their numbers are not part of the sources. *)
Inductive TypeID :=
  | CHAR | INT8 | UINT8 | INT16 | UINT16 | INT32 | UINT32 | INT64 | UINT64
  | FLOAT | DOUBLE | STRING.
Class TypeIDs := type_id_of_int : Z → option TypeID.

(** [boost::lexical_cast] to each key type. *)
Class KeyCasts := {
  cast_int : TypeID → string → option Z;
  cast_float : TypeID → string → option double;
  cast_string : string → option string;
}.

Definition int_limits (t : TypeID) : Z * Z :=
  match t with
  | CHAR | INT8 => (- 2 ^ 7, 2 ^ 7 - 1)
  | UINT8 => (0, 2 ^ 8 - 1)
  | INT16 => (- 2 ^ 15, 2 ^ 15 - 1)
  | UINT16 => (0, 2 ^ 16 - 1)
  | INT32 => (- 2 ^ 31, 2 ^ 31 - 1)
  | UINT32 => (0, 2 ^ 32 - 1)
  | UINT64 => (0, 2 ^ 64 - 1)
  | _ => (int64_min, int64_max)
  end%Z.

(** For the floating-point types [numeric_limits::min()] is the smallest
    positive normal number. *)
Definition float_limits (t : TypeID) : double * double :=
  match t with
  | FLOAT => (S754_finite false 8388608 (-149), S754_finite false 16777215 104)
  | _ => (S754_finite false 4503599627370496 (-1074), S754_finite false 9007199254740991 971)
  end.

Definition double_le (x y : double) : Prop := SFleb x y = true.
#[export] Instance double_le_dec : RelDecision double_le.
Proof. intros x y. unfold double_le. apply _. Defined.

(** The representative of a floating-point key: the two zeros are one key. *)
Definition float_key (d : double) : double :=
  match d with S754_zero _ => S754_zero false | _ => d end.
Definition cast_float_key `{KeyCasts} (t : TypeID) : LexicalCast double :=
  λ s, float_key <$> cast_float t s.

(** [KeyType key = 0] *)
Definition null_string : run string := Fatal "std::string(nullptr)".

Inductive RangeIndexObject :=
  | IntIndex (t : TypeID) (m : gmap Z (gset Z))
  | FloatIndex (t : TypeID) (m : gmap double (gset Z))
  | StringIndex (m : gmap string (gset Z)).

Section instances.
Context `{TypeIDs, KeyCasts}.

#[local] Instance cast_object_id : LexicalCast Z := cast_int INT64.

(** [RangeIndexInterface::create_range_index] *)
Definition create_object (key_type : Z) : option RangeIndexObject :=
  match type_id_of_int key_type with
  | Some STRING => Some (StringIndex ∅)
  | Some ((FLOAT | DOUBLE) as t) => Some (FloatIndex t ∅)
  | Some t => Some (IntIndex t ∅)
  | None => None
  end.

Definition apply_object (ups : list RpcIndexRecordUpdateOp) (i : RangeIndexObject)
  : run (Status * RangeIndexObject) :=
  match i with
  | IntIndex t m =>
      '(s, m') ← apply (key_cast:=cast_int t) (Done 0%Z) ups m;
      Done (s, IntIndex t m')
  | FloatIndex t m =>
      '(s, m') ← apply (key_cast:=cast_float_key t) (Done (S754_zero false)) ups m;
      Done (s, FloatIndex t m')
  | StringIndex m =>
      '(s, m') ← apply (key_cast:=cast_string) null_string ups m;
      Done (s, StringIndex m')
  end.

Definition search_object (q : RpcRangeQuery) (i : RangeIndexObject) : Status * list Z :=
  match i with
  | IntIndex t m =>
      search_query Z.le (key_cast:=cast_int t) (int_limits t).1 (int_limits t).2 q [] m
  | FloatIndex t m =>
      search_query double_le (key_cast:=cast_float_key t) (float_limits t).1 (float_limits t).2 q [] m
  | StringIndex m =>
      search_query String.le (key_cast:=cast_string) "" "" q [] m
  end.

Definition size_object (i : RangeIndexObject) : nat :=
  match i with
  | IntIndex _ m => index_size m
  | FloatIndex _ m => index_size m
  | StringIndex m => index_size m
  end.

#[export] Instance range_index_object : RangeIndexInterface RangeIndexObject := {
  ri_apply := apply_object;
  ri_search := search_object;
  ri_size := size_object;
  create_range_index := create_object;
}.
End instances.

(** ** Range queries *)

Section range_lemmas.
Context {K : Type} `{Countable K}.
Context (le : relation K) `{!RelDecision le, !PartialOrder le, !Total le}.
Context {key_cast : LexicalCast K} (limit_min limit_max : K).
Implicit Types (m : gmap K (gset Z)) (k : K) (o : Z).

(** The keys a query selects. *)
Definition in_range (lower : K) (lower_open : bool) (upper : K) (upper_open : bool) (k : K) : Prop :=
  le lower k ∧ (lower_open = true → k ≠ lower) ∧
  le k upper ∧ (upper_open = true → k ≠ upper).

Lemma not_before lower lo k :
  before le lower lo k = false ↔ le lower k ∧ (lo = true → k ≠ lower).
Proof.
  unfold before. destruct lo.
  - rewrite bool_decide_eq_false. split.
    + intros Hn. split; [by destruct (total le lower k)|]. by intros _ ->.
    + intros [? Hne] ?. apply Hne; [done|]. by apply (anti_symm le).
  - rewrite negb_false_iff, bool_decide_eq_true. naive_solver.
Qed.

Lemma not_beyond upper uo k :
  beyond le upper uo k = false ↔ le k upper ∧ (uo = true → k ≠ upper).
Proof.
  unfold beyond. rewrite orb_false_iff, negb_false_iff, bool_decide_eq_true, andb_false_iff,
    bool_decide_eq_false. split.
  - intros [? [->|Hn]]; [done|]. split; [done|]. by intros _ ->.
  - intros [? Hne]. split; [done|]. destruct uo; [right|by left].
    intros ?. apply Hne; [done|]. by apply (anti_symm le).
Qed.

Lemma elem_of_search_range m lower lo upper uo results o :
  o ∈ search_range le lower lo upper uo results m ↔
  o ∈ results ∨ ∃ k, has m k o ∧ in_range lower lo upper uo k.
Proof.
  unfold search_range. rewrite elem_of_app. apply or_iff_compat_l.
  rewrite (scan_filter (key_le le)).
  - rewrite list_elem_of_bind. setoid_rewrite list_elem_of_filter. unfold has, in_range.
    setoid_rewrite negb_true_iff. setoid_rewrite not_before. setoid_rewrite not_beyond.
    split.
    + intros ([k s]&Ho&Hr&Hs). apply (elem_of_sorted_map le) in Hs.
      apply elem_of_elements in Ho. simpl in *. naive_solver.
    + intros (k&(s&Hs&Ho)&Hr). exists (k, s). simpl.
      rewrite elem_of_elements, (elem_of_sorted_map le). naive_solver.
  - apply StronglySorted_sorted_map; apply _.
  - intros [x ?] [y ?]; unfold key_le, before; simpl. destruct lo.
    + rewrite !bool_decide_eq_true. intros ??. by etrans.
    + rewrite !negb_true_iff, !bool_decide_eq_false. intros ? Hn ?. apply Hn. by etrans.
  - intros [x ?] [y ?]; unfold key_le; simpl. intros Hxy _. rewrite !negb_false_iff.
    intros Hx. apply not_false_iff_true. rewrite not_beyond. intros [Hy Hne].
    apply not_false_iff_true in Hx. apply Hx. apply not_beyond.
    split; [by etrans|]. intros ? ->. apply Hne; [done|]. by apply (anti_symm le).
Qed.

End range_lemmas.

(** ** The instantiations meet the interface *)

Section instance_lemmas.
Context `{TypeIDs, KeyCasts}.

(** The laws of a batch, for one key type. *)
Section one_key_type.
Context {K : Type} `{Countable K} {key_cast : LexicalCast K} {oid_cast : LexicalCast Z}.
Context (z : run K).
Implicit Types (m : gmap K (gset Z)).

Lemma apply_app ups1 ups2 m m' :
  apply z (ups1 ++ ups2) m = Done (OK, m') ↔
  ∃ m1, apply z ups1 m = Done (OK, m1) ∧ apply z ups2 m1 = Done (OK, m').
Proof.
  revert m. induction ups1 as [|u ups1 IH]; intros m; simpl; [naive_solver|].
  destruct z; simpl; [|naive_solver].
  repeat case_match; try naive_solver; apply IH.
Qed.

Lemma apply_wf ups m s m' :
  index_wf m → apply z ups m = Done (s, m') → index_wf m'.
Proof.
  revert m. induction ups as [|u ups IH]; intros m Hm Ha; simpl in Ha; [by simplify_eq|].
  destruct z; [|done]. simpl in Ha.
  repeat case_match; simplify_eq; eauto using index_wf_insert, index_wf_erase.
Qed.

Lemma apply_ok ups m s m' : apply z ups m = Done (s, m') → ok s = true → s = OK.
Proof.
  revert m. induction ups as [|u ups IH]; intros m Ha Hs; simpl in Ha; [by simplify_eq|].
  destruct z; [|done]. simpl in Ha. repeat case_match; simplify_eq; eauto.
Qed.

Lemma apply_total ups m :
  (∃ k, z = Done k) → ∃ s m', apply z ups m = Done (s, m').
Proof.
  intros [k Hz]. rewrite Hz. revert m. induction ups as [|u ups IH]; intros m; simpl; [by eauto|].
  repeat case_match; eauto.
Qed.

Lemma apply_stable ups1 ups2 m m1 m2 :
  apply z ups1 m = Done (OK, m1) → apply z ups2 m = Done (OK, m2) →
  ∃ m3, apply z ups2 m1 = Done (OK, m3).
Proof.
  intros _ H2. destruct z as [k|] eqn:Hz.
  - rewrite <-Hz in *. destruct (apply_OK z k _ _ _ Hz H2) as (ds&Hd&_).
    eexists. by apply (apply_decoded z k).
  - destruct ups2; [by eexists|done].
Qed.
End one_key_type.

Definition object_wf (i : RangeIndexObject) : Prop :=
  match i with
  | IntIndex _ m => index_wf m
  | FloatIndex _ m => index_wf m
  | StringIndex m => index_wf m
  end.

Definition object_safe (i : RangeIndexObject) : Prop :=
  match i with StringIndex _ => False | _ => True end.

Ltac object_cases :=
  unfold apply_object in *;
  repeat match goal with
         | H : mbind _ ?e = Done _ |- _ => destruct e as [[? ?]|] eqn:?; simplify_eq/=
         end.

#[export] Instance range_index_object_spec : RangeIndexInterfaceSpec RangeIndexObject.
Proof.
  refine {| ri_wf := object_wf; ri_safe := object_safe |}; simpl.
  - intros ups [t m|t m|m] Hs; simpl in *; [..|done].
    + destruct (apply_total (Done 0%Z) (key_cast:=cast_int t) (oid_cast:=cast_object_id) ups m)
        as (s&m'&->); by eauto.
    + destruct (apply_total (Done (S754_zero false)) (key_cast:=cast_float_key t)
        (oid_cast:=cast_object_id) ups m) as (s&m'&->); by eauto.
  - intros t i. unfold create_object. case_match; [|done].
    case_match; intros; simplify_eq/=; apply index_wf_empty.
  - intros ups [] s i' Hw Ha; simpl in *; object_cases; by eapply apply_wf.
  - by intros [].
  - intros ups [] s i' Ha Hs; simpl in *; object_cases; by eapply apply_ok.
  - intros ups1 ups2 [t m|t m|m] i'; simpl; (split;
      [ intros Ha; object_cases;
        match goal with E : apply _ (_ ++ _) _ = _ |- _ =>
          apply apply_app in E as (m1&E1&E2) end;
        eexists; rewrite E1; split; [done|]; simpl; by rewrite E2
      | intros (i1&E1&E2); object_cases;
        match goal with E1 : apply _ ups1 _ = Done (OK, ?m1), E2 : apply _ ups2 ?m1 = _ |- _ =>
          rewrite (proj2 (apply_app _ _ _ _ _) (ex_intro _ m1 (conj E1 E2))); done end ]).
  - intros ups1 ups2 [t m|t m|m] i1 i2 Hw E1 E2; simpl in *; object_cases;
      erewrite apply_again by done; done.
  - intros ups1 ups2 [t m|t m|m] i1 i2 E1 E2; simpl in *; object_cases;
      match goal with H1 : apply _ ups1 _ = Done (OK, ?m1), H2 : apply _ ups2 _ = _ |- _ =>
        destruct (apply_stable _ _ _ _ _ _ H1 H2) as [m3 ->]; eauto end.
Defined.

(** A range index on [double] keys treats a missing lower bound as the
    smallest positive normal number, because that is what
    [numeric_limits<double>::min()] is: a file indexed under -1.0 is not
    found by a query without bounds. *)
Theorem unbounded_double_query_misses_negatives name :
  let minus_one := S754_finite true 4503599627370496 (-52) in
  let m : gmap double (gset Z) := {[ minus_one := {[ 42%Z ]} ]} in
  let q := {| q_index_path := name; q_name := name; q_lower := ""; q_lower_open := false;
              q_upper := ""; q_upper_open := false |} in
  has m minus_one 42%Z ∧ search_object q (FloatIndex DOUBLE m) = (OK, []).
Proof.
  intros minus_one m q. split.
  - exists {[ 42%Z ]}. split; [by apply lookup_singleton_Some|set_solver].
  - vm_compute. reflexivity.
Qed.

(** Every update of a range index on string keys terminates the process
    before it looks at the key, whatever the update. *)
Theorem string_index_update_is_fatal u ups m :
  ∃ why, apply_object (u :: ups) (StringIndex m) = Fatal why.
Proof. by eexists. Qed.
End instance_lemmas.

