(* ===== verification/TypedIndex.v ===== *)
(** * Typed access to indices (index/range_index.h, index/hash_index.h, .cpp)

    The templates [insert<K>], [erase<K>] and [search<K>] of the two index
    interfaces pass a key through a [void*].  [RangeIndexInterface] checks the
    size of the key type only, and the index reads the bytes as its own key
    type; [HashIndexInterface] checks the type.  A hash index is the same
    [IndexImpl] on an [unordered_map]. *)

From S2P Require Import Prelude CxxString Platform IndexImpl RangeIndex.
From Stdlib Require Import SpecFloat.

#[export] Instance TypeID_eq_dec : EqDecision TypeID.
Proof. solve_decision. Defined.

(** A key of a C++ type. *)
Inductive Key := IntKey (z : Z) | FloatKey (d : double) | StringKey (s : string).

(** The bytes of a [float] or [double], and the size of a [std::string]. *)
Class ObjectRepresentation := {
  float_bits : TypeID → double → Z;
  float_of_bits : TypeID → Z → double;
  sizeof_string : nat;
}.

Section typed.
Context `{ObjectRepresentation}.

Definition sizeof (t : TypeID) : nat :=
  match t with
  | CHAR | INT8 | UINT8 => 1
  | INT16 | UINT16 => 2
  | INT32 | UINT32 | FLOAT => 4
  | INT64 | UINT64 | DOUBLE => 8
  | STRING => sizeof_string
  end.

(** The value of type [t] with the same bits as [z]. *)
Definition wrap_to (t : TypeID) (z : Z) : Z :=
  let '(lo, hi) := int_limits t in (lo + (z - lo) mod (hi - lo + 1))%Z.

(** [*static_cast<Key*>(key)] when [key] points to a value of type [t] and
    [Key] is the type [t'] of the same size. *)
Definition read_int (t' : TypeID) (t : TypeID) (k : Key) : run Z :=
  match k with
  | IntKey z => Done (wrap_to t' z)
  | FloatKey d => Done (wrap_to t' (float_bits t d))
  | StringKey _ => Fatal "a std::string read as a number"
  end.
Definition read_float (t' : TypeID) (t : TypeID) (k : Key) : run double :=
  match k with
  | IntKey z => Done (float_key (float_of_bits t' z))
  | FloatKey d => Done (float_key (if decide (t = t') then d else float_of_bits t' (float_bits t d)))
  | StringKey _ => Fatal "a std::string read as a number"
  end.
Definition read_string (k : Key) : run string :=
  match k with
  | StringKey s => Done s
  | _ => Fatal "a number read as a std::string"
  end.

(** *** [RangeIndex] *)

Definition range_type (i : RangeIndexObject) : TypeID :=
  match i with IntIndex t _ | FloatIndex t _ => t | StringIndex _ => STRING end.

(** An operation on the map of an index, at the key the index reads. *)
Definition with_key {A} (t : TypeID) (k : Key) (i : RangeIndexObject)
    (f : ∀ K `{Countable K}, K → gmap K (gset Z) → gmap K (gset Z) * A) : run (RangeIndexObject * A) :=
  CHECK bool_decide (sizeof (range_type i) = sizeof t) ELSE "CHECK_EQ(sizeof(Key), key_size)";;
  match i with
  | IntIndex t' m => k ← read_int t' t k; let '(m, a) := f _ k m in Done (IntIndex t' m, a)
  | FloatIndex t' m => k ← read_float t' t k; let '(m, a) := f _ k m in Done (FloatIndex t' m, a)
  | StringIndex m => k ← read_string k; let '(m, a) := f _ k m in Done (StringIndex m, a)
  end.

Definition range_insert (t : TypeID) (k : Key) (obj_id : Z) (i : RangeIndexObject) :=
  fst <$> with_key t k i (λ K _ _ k m, (insert k obj_id m, ())).
Definition range_erase_key (t : TypeID) (k : Key) (i : RangeIndexObject) :=
  fst <$> with_key t k i (λ K _ _ k m, (erase_key k m, ())).
Definition range_erase (t : TypeID) (k : Key) (obj_id : Z) (i : RangeIndexObject) :=
  fst <$> with_key t k i (λ K _ _ k m, (erase k obj_id m, ())).
Definition range_search_key (t : TypeID) (k : Key) (results : list Z) (i : RangeIndexObject) :=
  snd <$> with_key t k i (λ K _ _ k m, (m, search k results m)).

(** [search(lower, upper, results)]: both ends included. *)
Definition range_search_keys (t : TypeID) (lower upper : Key) (results : list Z) (i : RangeIndexObject)
    : run (list Z) :=
  CHECK bool_decide (sizeof (range_type i) = sizeof t) ELSE "CHECK_EQ(sizeof(Key), key_size)";;
  match i with
  | IntIndex t' m =>
      lo ← read_int t' t lower; hi ← read_int t' t upper;
      Done (search_range Z.le lo false hi false results m)
  | FloatIndex t' m =>
      lo ← read_float t' t lower; hi ← read_float t' t upper;
      Done (search_range double_le lo false hi false results m)
  | StringIndex m =>
      lo ← read_string lower; hi ← read_string upper;
      Done (search_range String.le lo false hi false results m)
  end.

(** [num_keys()], [empty()], [clear()] *)
Definition range_num_keys (i : RangeIndexObject) : nat :=
  match i with
  | IntIndex _ m => num_keys m
  | FloatIndex _ m => num_keys m
  | StringIndex m => num_keys m
  end.
Definition range_empty (i : RangeIndexObject) : bool :=
  match i with IntIndex _ m => is_empty m | FloatIndex _ m => is_empty m | StringIndex m => is_empty m end.
Definition range_clear (i : RangeIndexObject) : RangeIndexObject :=
  match i with
  | IntIndex t m => IntIndex t (clear m)
  | FloatIndex t m => FloatIndex t (clear m)
  | StringIndex m => StringIndex (clear m)
  end.

(** [operator==] compares indices of one instantiation: the key types and the
    contents. *)
Definition range_eqb (i rhs : RangeIndexObject) : bool :=
  match i, rhs with
  | IntIndex t m, IntIndex t' m' => bool_decide (t = t') && eqb m m'
  | FloatIndex t m, FloatIndex t' m' => bool_decide (t = t') && eqb m m'
  | StringIndex m, StringIndex m' => eqb m m'
  | _, _ => false
  end.

(** [insert_string_val] and [erase_string_val] of one index. *)
Section string_values.
Context `{KeyCasts}.
#[local] Instance cast_id : LexicalCast Z := cast_int INT64.

Definition range_insert_string_val (key value : string) (i : RangeIndexObject) : run (Status * RangeIndexObject) :=
  match i with
  | IntIndex t m =>
      '(s, m) ← insert_string_val (key_cast:=cast_int t) (Done 0%Z) key value m; Done (s, IntIndex t m)
  | FloatIndex t m =>
      '(s, m) ← insert_string_val (key_cast:=cast_float_key t) (Done (S754_zero false)) key value m;
      Done (s, FloatIndex t m)
  | StringIndex m =>
      '(s, m) ← insert_string_val (key_cast:=cast_string) null_string key value m; Done (s, StringIndex m)
  end.
Definition range_erase_string_val (key value : string) (i : RangeIndexObject) : run (Status * RangeIndexObject) :=
  match i with
  | IntIndex t m =>
      '(s, m) ← erase_string_val (key_cast:=cast_int t) (Done 0%Z) key value m; Done (s, IntIndex t m)
  | FloatIndex t m =>
      '(s, m) ← erase_string_val (key_cast:=cast_float_key t) (Done (S754_zero false)) key value m;
      Done (s, FloatIndex t m)
  | StringIndex m =>
      '(s, m) ← erase_string_val (key_cast:=cast_string) null_string key value m; Done (s, StringIndex m)
  end.
End string_values.

(** *** [HashIndex] *)

Inductive HashIndexObject :=
  | HashInt (t : TypeID) (m : gmap Z (gset Z))
  | HashFloat (t : TypeID) (m : gmap double (gset Z))
  | HashString (m : gmap string (gset Z)).

Definition hash_type (i : HashIndexObject) : TypeID :=
  match i with HashInt t _ | HashFloat t _ => t | HashString _ => STRING end.

(** [create_hash_index]; [None] is a null pointer. *)
Definition create_hash_index `{TypeIDs} (key_type : Z) : option HashIndexObject :=
  match type_id_of_int key_type with
  | Some STRING => Some (HashString ∅)
  | Some ((FLOAT | DOUBLE) as t) => Some (HashFloat t ∅)
  | Some t => Some (HashInt t ∅)
  | None => None
  end.

Definition hash_with_key {A} (t : TypeID) (k : Key) (i : HashIndexObject)
    (f : ∀ K `{Countable K}, K → gmap K (gset Z) → gmap K (gset Z) * A) : run (HashIndexObject * A) :=
  CHECK bool_decide (t = hash_type i) ELSE "CHECK_EQ(TypeToInt<K>::value(), key_type())";;
  match i, k with
  | HashInt t' m, IntKey k => let '(m, a) := f _ k m in Done (HashInt t' m, a)
  | HashFloat t' m, FloatKey k => let '(m, a) := f _ (float_key k) m in Done (HashFloat t' m, a)
  | HashString m, StringKey k => let '(m, a) := f _ k m in Done (HashString m, a)
  | _, _ => Fatal "a key that is not of its type"
  end.

(** The virtual functions behind the typed interface. *)
Definition insert_internal (obj_id : Z) K `{Countable K} (k : K) (m : gmap K (gset Z)) :=
  (insert k obj_id m, ()).
Definition erase_key_internal K `{Countable K} (k : K) (m : gmap K (gset Z)) := (erase_key k m, ()).
Definition erase_internal (obj_id : Z) K `{Countable K} (k : K) (m : gmap K (gset Z)) :=
  (erase k obj_id m, ()).
Definition search_internal (results : list Z) K `{Countable K} (k : K) (m : gmap K (gset Z)) :=
  (m, search k results m).

Definition hash_insert (t : TypeID) (k : Key) (obj_id : Z) (i : HashIndexObject) :=
  fst <$> hash_with_key t k i (insert_internal obj_id).
Definition hash_erase_key (t : TypeID) (k : Key) (i : HashIndexObject) :=
  fst <$> hash_with_key t k i erase_key_internal.
Definition hash_erase (t : TypeID) (k : Key) (obj_id : Z) (i : HashIndexObject) :=
  fst <$> hash_with_key t k i (erase_internal obj_id).
Definition hash_search (t : TypeID) (k : Key) (results : list Z) (i : HashIndexObject) :=
  snd <$> hash_with_key t k i (search_internal results).
Definition hash_apply `{KeyCasts} (ups : list RpcIndexRecordUpdateOp) (i : HashIndexObject)
    : run (Status * HashIndexObject) :=
  match i with
  | HashInt t m =>
      '(s, m) ← apply (key_cast:=cast_int t) (oid_cast:=cast_object_id) (Done 0%Z) ups m;
      Done (s, HashInt t m)
  | HashFloat t m =>
      '(s, m) ← apply (key_cast:=cast_float_key t) (oid_cast:=cast_object_id) (Done (S754_zero false)) ups m;
      Done (s, HashFloat t m)
  | HashString m =>
      '(s, m) ← apply (key_cast:=cast_string) (oid_cast:=cast_object_id) null_string ups m;
      Done (s, HashString m)
  end.
Definition hash_eqb (i rhs : HashIndexObject) : bool :=
  match i, rhs with
  | HashInt t m, HashInt t' m' => bool_decide (t = t') && eqb m m'
  | HashFloat t m, HashFloat t' m' => bool_decide (t = t') && eqb m m'
  | HashString m, HashString m' => eqb m m'
  | _, _ => false
  end.
Definition hash_empty (i : HashIndexObject) : bool :=
  match i with HashInt _ m => is_empty m | HashFloat _ m => is_empty m | HashString m => is_empty m end.
End typed.

(** ** The type invariant *)

Definition is_int (t : TypeID) : Prop := t ≠ FLOAT ∧ t ≠ DOUBLE ∧ t ≠ STRING.
Definition int_fits (t : TypeID) (z : Z) : Prop := ((int_limits t).1 ≤ z ≤ (int_limits t).2)%Z.

(** A key that a variable of C++ type [t] can hold, other than NaN and the
    negative zero. *)
Definition key_fits (t : TypeID) (k : Key) : Prop :=
  match k with
  | IntKey z => is_int t ∧ int_fits t z
  | FloatKey d => (t = FLOAT ∨ t = DOUBLE) ∧ float_key d = d
  | StringKey _ => t = STRING
  end.

(** An integer index holds keys of its type only, and no key without files. *)
Definition object_typed (i : RangeIndexObject) : Prop :=
  object_wf i ∧
  match i with
  | IntIndex t m => is_int t ∧ map_Forall (λ k _, int_fits t k) m
  | FloatIndex t m => (t = FLOAT ∨ t = DOUBLE) ∧ map_Forall (λ k _, float_key k = k) m
  | StringIndex _ => True
  end.

(** [lexical_cast] to an integer type fails on a number that does not fit. *)
Class KeyCastsSpec `{KeyCasts} : Prop :=
  cast_int_fits t s z : cast_int t s = Some z → int_fits t z.

(** What a client can do to a range index. *)
Inductive typed_step `{ObjectRepresentation, TypeIDs, KeyCasts} : relation RangeIndexObject :=
  | step_insert t k o i i' : range_insert t k o i = Done i' → typed_step i i'
  | step_erase_key t k i i' : range_erase_key t k i = Done i' → typed_step i i'
  | step_erase t k o i i' : range_erase t k o i = Done i' → typed_step i i'
  | step_apply ups s i i' : apply_object ups i = Done (s, i') → typed_step i i'
  | step_clear i : typed_step i (range_clear i).

(** The pairs of an index, by typed key. *)
Definition object_has (i : RangeIndexObject) (k : Key) (o : Z) : Prop :=
  match i, k with
  | IntIndex _ m, IntKey z => has m z o
  | FloatIndex _ m, FloatKey d => has m d o
  | StringIndex m, StringKey s => has m s o
  | _, _ => False
  end.

Section map_lemmas.
Context {K : Type} `{Countable K} (P : K → Prop).
Implicit Types (m : gmap K (gset Z)).

Lemma keys_insert m k o :
  P k → map_Forall (λ k _, P k) m → map_Forall (λ k _, P k) (insert k o m).
Proof. intros. unfold insert. by apply map_Forall_insert_2. Qed.

Lemma keys_erase m k o :
  map_Forall (λ k _, P k) m → map_Forall (λ k _, P k) (erase_with_lock k o m).
Proof.
  intros Hm. unfold erase_with_lock. case_match eqn:E; [|done].
  case_decide; [by apply map_Forall_delete|].
  apply map_Forall_insert_2; [|done]. by eapply (Hm k).
Qed.

Lemma keys_erase_key m k :
  map_Forall (λ k _, P k) m → map_Forall (λ k _, P k) (erase_key k m).
Proof. apply map_Forall_delete. Qed.

Lemma keys_apply {key_cast : LexicalCast K} {oid_cast : LexicalCast Z} z ups m s m' :
  (∀ s k, lexical_cast s = Some k → P k) →
  apply z ups m = Done (s, m') → map_Forall (λ k _, P k) m → map_Forall (λ k _, P k) m'.
Proof.
  intros Hc. revert m. induction ups as [|u ups IH]; intros m Ha Hm; simpl in Ha; [by simplify_eq|].
  destruct z; [|done]. simpl in Ha.
  repeat case_match; simplify_eq; eauto using keys_insert, keys_erase.
Qed.
End map_lemmas.

#[export] Hint Resolve keys_insert keys_erase keys_erase_key : vsfs.

Lemma wrap_to_fits t z : int_fits t (wrap_to t z).
Proof.
  unfold int_fits, wrap_to. destruct (int_limits t) as [lo hi] eqn:E; simpl.
  assert (lo ≤ hi)%Z by (destruct t; vm_compute in E; injection E as <- <-; lia).
  pose proof (Z.mod_pos_bound (z - lo) (hi - lo + 1)). lia.
Qed.

Lemma wrap_to_id t z : int_fits t z → wrap_to t z = z.
Proof.
  unfold int_fits, wrap_to. destruct (int_limits t) as [lo hi]; simpl. intros ?.
  rewrite Z.mod_small by lia. lia.
Qed.

Lemma float_key_idem d : float_key (float_key d) = float_key d.
Proof. by destruct d. Qed.

#[export] Hint Resolve wrap_to_fits float_key_idem : vsfs.

Section typed_lemmas.
Context `{ObjectRepresentation}.

(** An operation on the map of the index that keeps the invariant of a map
    keeps the invariant of the index. *)
Lemma with_key_typed {A} t k i i' a
    (f : ∀ K `{Countable K}, K → gmap K (gset Z) → gmap K (gset Z) * A) :
  (∀ K `{Countable K} (P : K → Prop) k m, index_wf m → P k → map_Forall (λ k _, P k) m →
     index_wf (f K k m).1 ∧ map_Forall (λ k _, P k) (f K k m).1) →
  object_typed i → with_key t k i (@f) = Done (i', a) →
  object_typed i' ∧ range_type i' = range_type i.
Proof.
  intros Hf [Hw Hi] Hk. unfold with_key in Hk. apply run_bind_Done in Hk as ([]&_&Hk).
  destruct i as [t' m|t' m|m]; simpl in *; apply run_bind_Done in Hk as (x&Hx&Hk).
  - destruct Hi as [Ht Hm]. assert (int_fits t' x) as Hp.
    { unfold read_int in Hx. destruct k; simplify_eq; apply wrap_to_fits. }
    destruct (Hf Z _ _ _ _ m Hw Hp Hm) as [? ?].
    destruct (f Z _ _ x m) as [m' a'] eqn:E; simplify_eq/=. done.
  - destruct Hi as [Ht Hm]. assert (float_key x = x) as Hp.
    { unfold read_float in Hx. destruct k; simplify_eq; apply float_key_idem. }
    destruct (Hf double _ _ (λ x, float_key x = x) _ m Hw Hp Hm) as [? ?].
    destruct (f double _ _ x m) as [m' a'] eqn:E; simplify_eq/=. done.
  - destruct (Hf string _ _ (λ _, True) x m Hw I) as [? _]; [by intros ???|].
    destruct (f string _ _ x m) as [m' a'] eqn:E; simplify_eq/=. done.
Qed.

Context `{TypeIDs, KeyCasts, !KeyCastsSpec}.

Lemma create_typed n i : create_object n = Some i → object_typed i.
Proof.
  unfold create_object. repeat case_match; intros; simplify_eq; unfold object_typed, is_int; simpl;
    split_and!; try done; first [by left | by right | auto using index_wf_empty, map_Forall_empty].
Qed.

Lemma typed_step_typed i i' :
  object_typed i → typed_step i i' → object_typed i' ∧ range_type i' = range_type i.
Proof.
  intros Hi Hs. destruct Hs as [t k o i i' E|t k i i' E|t k o i i' E|ups s i i' E|i].
  1-3: unfold range_insert, range_erase_key, range_erase in E; match goal with _ : _ <$> ?r = Done _ |- _ =>
         destruct r as [[? []]|] eqn:E'; simplify_eq/= end;
       eapply with_key_typed; [|exact Hi|exact E']; simpl; auto with vsfs.
  - destruct i as [t m|t m|m]; simpl in *; run_inv E; destruct Hi as [Hw Hi]; simpl in *;
      (split; [split|]; simpl; [by eapply apply_wf|try done|done]).
    + destruct Hi as [? Hm]. split; [done|]. eapply keys_apply; [|done..]. apply cast_int_fits.
    + destruct Hi as [? Hm]. split; [done|]. eapply keys_apply; [|done..].
      intros s' d Hd. unfold lexical_cast, cast_float_key in Hd.
      apply fmap_Some in Hd as (?&_&->). auto with vsfs.
  - destruct Hi as [Hw Hi]. split; [|by destruct i].
    destruct i; simpl in *; (split; [apply index_wf_empty|]); destruct_and?; try done;
      (split; [done|apply map_Forall_empty]).
Qed.


(** *** Access with a key of the index's own type *)

Lemma with_own_key {A} t k i
    (f : ∀ K `{Countable K}, K → gmap K (gset Z) → gmap K (gset Z) * A) :
  range_type i = t → object_typed i → key_fits t k →
  with_key t k i (@f) =
  match i, k with
  | IntIndex t m, IntKey z => let '(m, a) := f Z z m in Done (IntIndex t m, a)
  | FloatIndex t m, FloatKey d => let '(m, a) := f double d m in Done (FloatIndex t m, a)
  | StringIndex m, StringKey s => let '(m, a) := f string s m in Done (StringIndex m, a)
  | _, _ => Fatal "unreachable"
  end.
Proof.
  intros <- Hi Hk. unfold with_key. rewrite bool_decide_eq_true_2 by done. simpl.
  destruct Hi as [_ Hi].
  destruct i as [t m|t m|m], k as [z|d|s]; simpl in *; unfold is_int in *;
    try by (destruct_and?; destruct_or?; congruence).
  - by rewrite wrap_to_id by apply Hk.
  - rewrite decide_True by done. simpl. by destruct Hk as [_ ->].
Qed.

(** C28: typed access with a key of the index's own type.  An insertion adds
    exactly the given pair, the two removals take out exactly the pair and
    exactly the key, and a point query answers exactly the files of the key;
    none of them terminates the process. *)
Theorem typed_access_exact t k o i :
  range_type i = t → object_typed i → key_fits t k →
  (∃ i', range_insert t k o i = Done i' ∧
     ∀ k' o', object_has i' k' o' ↔ (k' = k ∧ o' = o) ∨ object_has i k' o') ∧
  (∃ i', range_erase t k o i = Done i' ∧
     ∀ k' o', object_has i' k' o' ↔ object_has i k' o' ∧ ¬ (k' = k ∧ o' = o)) ∧
  (∃ i', range_erase_key t k i = Done i' ∧
     ∀ k' o', object_has i' k' o' ↔ object_has i k' o' ∧ k' ≠ k) ∧
  (∃ found, range_search_key t k [] i = Done found ∧
     ∀ o', o' ∈ found ↔ object_has i k o').
Proof.
  intros Ht Hi Hk. unfold range_insert, range_erase, range_erase_key, range_search_key.
  rewrite !(with_own_key t k i) by done. destruct Hi as [_ Hi].
  destruct i as [t' m|t' m|m], k as [z|d|s]; simpl in *; subst; unfold is_int in *;
    try (destruct_and?; destruct_or?; congruence); clear Hk Hi;
    (split_and!; eexists; (split; [done|]));
    try (intros [] o'; simpl; rewrite ?has_insert, ?has_erase, ?has_erase_key; naive_solver);
    intros o'; rewrite elem_of_search; set_solver.
Qed.

(** Access with a key of another type.  A hash index compares the types
    and refuses.  A range index compares the sizes only: it refuses a key of
    another size, and reads an integer key of the same size as the integer of
    its own type with the same bits, so that the files end up under another
    key than the caller's when the value does not fit. *)
Theorem mistyped_access t k o i h z t' m :
  (t ≠ hash_type h → ∃ why, hash_insert t k o h = Fatal why ∧ hash_search t k [] h = Fatal why) ∧
  (sizeof (range_type i) ≠ sizeof t →
     ∃ why, range_insert t k o i = Fatal why ∧ range_search_key t k [] i = Fatal why) ∧
  (sizeof t' = sizeof t →
     range_insert t (IntKey z) o (IntIndex t' m) = Done (IntIndex t' (insert (wrap_to t' z) o m))).
Proof.
  unfold hash_insert, hash_search, hash_with_key, range_insert, range_search_key, with_key.
  split_and!; intros Ht; simpl.
  - rewrite bool_decide_eq_false_2 by done. simpl. eauto.
  - rewrite bool_decide_eq_false_2 by done. simpl. eauto.
  - by rewrite bool_decide_eq_true_2 by done.
Qed.

(** *** Hash indices and range indices *)

(** The hash index with the contents of a range index. *)
Definition hash_of (i : RangeIndexObject) : HashIndexObject :=
  match i with
  | IntIndex t m => HashInt t m
  | FloatIndex t m => HashFloat t m
  | StringIndex m => HashString m
  end.

Lemma hash_with_own_key {A} t k i
    (f : ∀ K `{Countable K}, K → gmap K (gset Z) → gmap K (gset Z) * A) :
  range_type i = t → object_typed i → key_fits t k →
  hash_with_key t k (hash_of i) (@f) = (λ p, (hash_of p.1, p.2)) <$> with_key t k i (@f).
Proof.
  intros Ht Hi Hk. rewrite (with_own_key t k i) by done. unfold hash_with_key.
  rewrite bool_decide_eq_true_2 by (subst; by destruct i). destruct Hi as [_ Hi].
  destruct i as [t' m|t' m|m], k as [z|d|s]; simpl in *; subst; unfold is_int in *;
    try by (destruct_and?; destruct_or?; congruence).
  - by destruct (f Z _ _ z m).
  - destruct Hk as [_ ->]. by destruct (f double _ _ d m).
  - by destruct (f string _ _ s m).
Qed.

(** C29: a hash index and a range index of the same key type are the same
    store.  They are created for the same key types, react alike to a batch of
    updates, with the same status, and to typed insertions and removals, and
    answer the same point queries. *)
Theorem hash_index_agrees_with_range_index n ups t k o i :
  range_type i = t → object_typed i → key_fits t k →
  create_hash_index n = hash_of <$> create_object n ∧
  hash_apply ups (hash_of i) = (λ p, (p.1, hash_of p.2)) <$> apply_object ups i ∧
  hash_insert t k o (hash_of i) = hash_of <$> range_insert t k o i ∧
  hash_erase_key t k (hash_of i) = hash_of <$> range_erase_key t k i ∧
  hash_erase t k o (hash_of i) = hash_of <$> range_erase t k o i ∧
  hash_search t k [] (hash_of i) = range_search_key t k [] i ∧
  hash_empty (hash_of i) = range_empty i.
Proof.
  intros Ht Hi Hk. split_and!.
  - unfold create_hash_index, create_object. by repeat case_match.
  - destruct i as [t' m|t' m|m]; simpl.
    + by destruct (apply _ _ m) as [[? ?]|].
    + by destruct (apply _ _ m) as [[? ?]|].
    + by destruct (apply _ _ m) as [[? ?]|].
  - unfold hash_insert, range_insert. rewrite hash_with_own_key by done. by destruct (with_key _ _ _ _).
  - unfold hash_erase_key, range_erase_key. rewrite hash_with_own_key by done. by destruct (with_key _ _ _ _).
  - unfold hash_erase, range_erase. rewrite hash_with_own_key by done. by destruct (with_key _ _ _ _).
  - unfold hash_search, range_search_key. rewrite hash_with_own_key by done. by destruct (with_key _ _ _ _).
  - by destruct i.
Qed.
(** *** Single records as text *)

(** A batch of one insertion is [insert_string_val], and a batch of one removal
    is [erase_string_val] of a value that is given, but for the message of the
    error. *)
Lemma single_record_batch (ks vs : string) (i : RangeIndexObject) :
  let one op := {| op := op; key := ks; value := vs |} in
  (range_insert_string_val ks vs i = match apply_object [one INSERT] i with
   | Done (s, i') => Done (if ok s then OK else Err (- EINVAL) "IndexImpl::insert_string_val: bad cast", i')
   | Fatal why => Fatal why
   end) ∧
  (str_empty vs = false →
   range_erase_string_val ks vs i = match apply_object [one REMOVE] i with
   | Done (s, i') => Done (if ok s then OK else Err (- EINVAL) "IndexImpl::erase_string_val: bad cast", i')
   | Fatal why => Fatal why
   end).
Proof.
  unfold range_insert_string_val, range_erase_string_val, apply_object, insert_string_val, erase_string_val.
  split; [|intros Hvs]; destruct i; simpl; rewrite ?Hvs; unfold cast_id, cast_object_id; repeat case_match;
    simplify_eq/=; try done.
Qed.

End typed_lemmas.

Section witnesses.

(** A platform whose conversions know the number 100 only. *)
#[local] Instance test_representation : ObjectRepresentation := {|
  float_bits _ _ := 0%Z; float_of_bits _ _ := S754_zero false; sizeof_string := 32 |}.
#[local] Instance test_types : TypeIDs := λ n, if bool_decide (n = 1%Z) then Some INT8 else None.
#[local] Instance test_casts : KeyCasts := {|
  cast_int t s :=
    if bool_decide (s = "100")
    then Some 100%Z
    else None;
  cast_float _ _ := None;
  cast_string s := Some s |}.
#[local] Instance test_casts_spec : KeyCastsSpec.
Proof.
  intros t s z. simpl. case_bool_decide; [|done]. intros [= <-].
  destruct t; vm_compute; split; discriminate.
Qed.


Lemma typed_access_exact_witness :
  let i := IntIndex INT8 ∅ in
  ∃ i', range_insert INT8 (IntKey 100%Z) 7%Z i = Done i' ∧
    ∀ k' o', object_has i' k' o' ↔ (k' = IntKey 100%Z ∧ o' = 7%Z) ∨ object_has i k' o'.
Proof.
  intros i. apply (typed_access_exact INT8 (IntKey 100%Z) 7%Z i); [reflexivity| |].
  - exact (create_typed 1%Z i eq_refl).
  - vm_compute. repeat split; discriminate.
Defined.

Lemma mistyped_access_witness :
  range_insert UINT8 (IntKey 200%Z) 7%Z (IntIndex INT8 ∅)
  = Done (IntIndex INT8 (insert (-56)%Z 7%Z ∅)).
Proof.
  exact (proj2 (proj2 (mistyped_access UINT8 (IntKey 200%Z) 7%Z (IntIndex INT8 ∅) (HashString ∅)
    200%Z INT8 ∅)) eq_refl).
Defined.

Lemma hash_index_agrees_with_range_index_witness :
  let i := IntIndex INT8 {[ 100%Z := {[ 7%Z ]} ]} in
  hash_search INT8 (IntKey 100%Z) [] (hash_of i) = Done [7%Z].
Proof.
  intros i.
  destruct (hash_index_agrees_with_range_index 1%Z [] INT8 (IntKey 100%Z) 7%Z i)
    as (_&_&_&_&_&E&_); [reflexivity| | |].
  - split; [apply (map_Forall_singleton (λ _ s, s ≠ ∅)); discriminate|].
    split; [vm_compute; repeat split; discriminate|].
    apply (map_Forall_singleton (λ k _, int_fits INT8 k)). vm_compute. split; discriminate.
  - vm_compute. repeat split; discriminate.
  - rewrite E. vm_compute. reflexivity.
Defined.

End witnesses.
