(* ===== verification/Posix.v ===== *)
(** * The operating system below VSFS

    The system calls the storage managers and the FUSE layer make, and
    [boost::filesystem::create_directories].  They are not code of VSFS: the
    class [Posix] has one function per call on the state of the system, which
    returns a value or an [errno]; [PosixSpec] states what their manual pages
    promise of regular files, descriptors and symbolic links.  The calls of
    other processes are outside the model: the laws relate the state before
    and after one call of this process.

    The instance of [Reference] shows that the laws can hold, and runs the
    examples. *)

From S2P Require Import Prelude CxxString Platform.
From Stdlib Require Import Strings.Byte.

Abbreviation bytes := (list byte).

Inductive sysret (A : Type) :=
  | Ret (a : A)
  | Errno (e : Z).
Arguments Ret {A} a.
Arguments Errno {A} e.

(** [struct stat], the fields VSFS uses. *)
Record Stat := {
  st_dev : Z; st_ino : Z; st_mode : Z; st_nlink : Z; st_uid : Z; st_gid : Z; st_rdev : Z;
  st_size : Z; st_blksize : Z; st_blocks : Z; st_atime : Z; st_mtime : Z; st_ctime : Z;
}.

Definition EBADF : Z := 9.
Definition EMFILE : Z := 24.
Definition S_IFLNK : Z := 40960.  (* 0120000 *)
Definition S_ISLNK (mode : Z) : bool := bool_decide (Z.land mode S_IFMT = S_IFLNK).
Definition O_CREAT : Z := 64.
Definition O_TRUNC : Z := 512.
Definition O_APPEND : Z := 1024.
Definition has_flag (flags f : Z) : bool := negb (bool_decide (Z.land flags f = 0%Z)).

(** [StatVfs] is [struct statvfs], which VSFS passes through. *)
Class Posix (OS : Type) := {
  StatVfs : Type;
  errno : OS → Z;   (** as an earlier call left it *)
  sys_open : string → Z → option Z → OS → sysret Z * OS;
  sys_close : Z → OS → sysret () * OS;
  sys_dup : Z → OS → sysret Z * OS;
  sys_pread : Z → Z → Z → OS → sysret bytes * OS;
  sys_pwrite : Z → bytes → Z → OS → sysret Z * OS;
  sys_fsync : Z → OS → sysret () * OS;
  sys_fstat : Z → OS → sysret Stat * OS;
  sys_ioctl : Z → Z → OS → sysret () * OS;
  sys_fcntl_lock : Z → Z → OS → sysret () * OS;
  sys_flock : Z → Z → OS → sysret () * OS;
  sys_unlink : string → OS → sysret () * OS;
  sys_mkdir : string → Z → OS → sysret () * OS;
  sys_rmdir : string → OS → sysret () * OS;
  sys_symlink : string → string → OS → sysret () * OS;
  sys_readlink : string → Z → OS → sysret string * OS;
  sys_stat : string → OS → sysret Stat * OS;
  sys_statvfs : string → OS → sysret StatVfs * OS;
  create_directories : string → OS → Z * OS;   (** the value of the error code *)
  ec_message : Z → string;
}.

(** ** What the calls promise *)

(** Directories, symbolic links and other files by their canonical path: the
    absolute path without symbolic links, [.], [..] or doubled slashes.  A
    descriptor refers to a file and carries its open flags. *)
Record OsView := {
  os_dirs : gset string;
  os_links : gmap string string;
  os_files : gmap string Z;
  os_fds : gmap Z (Z * Z);
  os_data : gmap Z bytes;
}.

Definition set_dirs d v := {| os_dirs := d; os_links := os_links v; os_files := os_files v;
  os_fds := os_fds v; os_data := os_data v |}.
Definition set_links l v := {| os_dirs := os_dirs v; os_links := l; os_files := os_files v;
  os_fds := os_fds v; os_data := os_data v |}.
Definition set_files f v := {| os_dirs := os_dirs v; os_links := os_links v; os_files := f;
  os_fds := os_fds v; os_data := os_data v |}.
Definition set_fds f v := {| os_dirs := os_dirs v; os_links := os_links v; os_files := os_files v;
  os_fds := f; os_data := os_data v |}.
Definition set_data d v := {| os_dirs := os_dirs v; os_links := os_links v; os_files := os_files v;
  os_fds := os_fds v; os_data := d |}.

(** [p] is the canonical path of a name in a directory. *)
Definition child_of (v : OsView) (p : string) : Prop :=
  ∃ d n, p = d +:+ "/" +:+ n ∧ d ∈ os_dirs v ∧ plain_dir d ∧ plain_name n ∧ n ≠ "." ∧ n ≠ "..".
(** ... that is not a directory, and not a symbolic link either. *)
Definition entry_of (v : OsView) (p : string) : Prop := child_of v p ∧ p ∉ os_dirs v.
Definition plain_at (v : OsView) (p : string) : Prop := entry_of v p ∧ os_links v !! p = None.

Lemma plain_at_ext v v' p :
  os_dirs v' = os_dirs v → os_links v' = os_links v → plain_at v p → plain_at v' p.
Proof. intros Hd Hl. unfold plain_at, entry_of, child_of. by rewrite Hd, Hl. Qed.

(** A file number that nothing refers to. *)
Definition unused (v : OsView) (i : Z) : Prop :=
  os_data v !! i = None ∧ (∀ p, os_files v !! p ≠ Some i) ∧ ∀ fd fl, os_fds v !! fd ≠ Some (i, fl).

(** The contents after writing [buf] at an offset; a gap is filled with zeros. *)
Definition splice (data : bytes) (off : nat) (buf : bytes) : bytes :=
  take off (data ++ replicate (off - length data) x00) ++ buf ++ drop (off + length buf) data.

(** A call that leaves the descriptors alone. *)
Definition keeps_fds {OS A} (view : OS → OsView) (call : OS → A * OS) : Prop :=
  ∀ os, os_fds (view (call os).2) = os_fds (view os).
(** A call that changes nothing. *)
Definition reads_only {OS A} (view : OS → OsView) (call : OS → A * OS) : Prop :=
  ∀ os, view (call os).2 = view os.
(** A call that reports errors by the positive numbers of [errno.h]. *)
Definition sets_errno {OS A} (call : OS → sysret A * OS) : Prop :=
  ∀ os e os', call os = (Errno e, os') → (0 < e)%Z.

Class PosixSpec (OS : Type) `{Posix OS} := {
  os_view : OS → OsView;
  (** Calls that look, and calls that lock. *)
  sys_pread_reads fd n off : reads_only os_view (sys_pread fd n off);
  sys_fsync_reads fd : reads_only os_view (sys_fsync fd);
  sys_fstat_reads fd : reads_only os_view (sys_fstat fd);
  sys_fcntl_lock_reads fd cmd : reads_only os_view (sys_fcntl_lock fd cmd);
  sys_flock_reads fd op : reads_only os_view (sys_flock fd op);
  sys_readlink_reads p n : reads_only os_view (sys_readlink p n);
  sys_stat_reads p : reads_only os_view (sys_stat p);
  sys_statvfs_reads p : reads_only os_view (sys_statvfs p);
  (** Only open, dup and close change the descriptors. *)
  sys_pwrite_fds fd buf off : keeps_fds os_view (sys_pwrite fd buf off);
  sys_ioctl_fds fd cmd : keeps_fds os_view (sys_ioctl fd cmd);
  sys_unlink_fds p : keeps_fds os_view (sys_unlink p);
  sys_mkdir_fds p mode : keeps_fds os_view (sys_mkdir p mode);
  sys_rmdir_fds p : keeps_fds os_view (sys_rmdir p);
  sys_symlink_fds target p : keeps_fds os_view (sys_symlink target p);
  sys_open_errno p fl md : sets_errno (sys_open p fl md);
  sys_close_errno fd : sets_errno (sys_close fd);
  sys_fsync_errno fd : sets_errno (sys_fsync fd);
  sys_fstat_errno fd : sets_errno (sys_fstat fd);
  sys_fcntl_lock_errno fd cmd : sets_errno (sys_fcntl_lock fd cmd);
  sys_flock_errno fd op : sets_errno (sys_flock fd op);
  sys_unlink_errno p : sets_errno (sys_unlink p);
  sys_symlink_errno target p : sets_errno (sys_symlink target p);
  sys_readlink_errno p n : sets_errno (sys_readlink p n);
  sys_stat_errno p : sets_errno (sys_stat p);
  sys_statvfs_errno p : sets_errno (sys_statvfs p);
  (** open(2), whatever the path names: a descriptor that was not in use. *)
  sys_open_fds p fl md (os os' : OS) fd :
    sys_open p fl md os = (Ret fd, os') →
    (0 ≤ fd < 2 ^ 31)%Z ∧ os_fds (os_view os) !! fd = None ∧
    ∃ x, os_fds (os_view os') = <[fd := x]> (os_fds (os_view os));
  (** On the path of a file or of nothing: the descriptor is for that file or
      for a new one. *)
  sys_open_spec p fl md (os os' : OS) fd :
    plain_at (os_view os) p → sys_open p fl md os = (Ret fd, os') →
    ((∃ i, os_files (os_view os) !! p = Some i ∧
        os_view os' =
          set_fds (<[fd := (i, fl)]> (os_fds (os_view os)))
            (if has_flag fl O_TRUNC then set_data (<[i := []]> (os_data (os_view os))) (os_view os)
             else os_view os)) ∨
     (os_files (os_view os) !! p = None ∧ has_flag fl O_CREAT = true ∧
      ∃ i, unused (os_view os) i ∧
        os_view os' =
          set_files (<[p := i]> (os_files (os_view os)))
            (set_fds (<[fd := (i, fl)]> (os_fds (os_view os)))
              (set_data (<[i := []]> (os_data (os_view os))) (os_view os)))));
  sys_open_error p fl md (os os' : OS) e :
    sys_open p fl md os = (Errno e, os') → os_view os' = os_view os;
  (** close(2): the state of the descriptor after an error is unspecified. *)
  sys_close_spec fd (os os' : OS) :
    sys_close fd os = (Ret (), os') →
    is_Some (os_fds (os_view os) !! fd) ∧
    os_view os' = set_fds (delete fd (os_fds (os_view os))) (os_view os);
  sys_close_error fd (os os' : OS) e :
    sys_close fd os = (Errno e, os') →
    os_view os' = os_view os ∨ os_view os' = set_fds (delete fd (os_fds (os_view os))) (os_view os);
  sys_dup_spec fd (os os' : OS) fd' :
    sys_dup fd os = (Ret fd', os') →
    (0 ≤ fd' < 2 ^ 31)%Z ∧ os_fds (os_view os) !! fd' = None ∧
    ∃ x, os_fds (os_view os) !! fd = Some x ∧
      os_view os' = set_fds (<[fd' := x]> (os_fds (os_view os))) (os_view os);
  sys_dup_error fd (os os' : OS) e : sys_dup fd os = (Errno e, os') → os_view os' = os_view os;
  (** pread(2): the bytes of the file from the offset on, perhaps fewer than
      asked for, but none only if there are none. *)
  sys_pread_spec fd n off (os os' : OS) bs :
    (0 ≤ n)%Z → (0 ≤ off)%Z → sys_pread fd n off os = (Ret bs, os') →
    os_view os' = os_view os ∧
    ∃ i fl data, os_fds (os_view os) !! fd = Some (i, fl) ∧
      os_data (os_view os) !! i = Some data ∧
      bs `prefix_of` take (Z.to_nat n) (drop (Z.to_nat off) data) ∧
      (bs = [] → take (Z.to_nat n) (drop (Z.to_nat off) data) = []);
  sys_pread_error fd n off (os os' : OS) e :
    sys_pread fd n off os = (Errno e, os') → (0 < e)%Z ∧ os_view os' = os_view os;
  (** fstat(2) and stat(2): the size of a regular file. *)
  sys_fstat_spec fd (os os' : OS) st :
    sys_fstat fd os = (Ret st, os') →
    ∃ i fl data, os_fds (os_view os) !! fd = Some (i, fl) ∧ os_data (os_view os) !! i = Some data ∧
      st_size st = Z.of_nat (length data);
  sys_stat_spec p (os os' : OS) st :
    plain_at (os_view os) p → sys_stat p os = (Ret st, os') →
    ∃ i data, os_files (os_view os) !! p = Some i ∧ os_data (os_view os) !! i = Some data ∧
      st_size st = Z.of_nat (length data);
  (** pwrite(2): a prefix of the buffer is written; with [O_APPEND] it goes to
      the end of the file. *)
  sys_pwrite_spec fd buf off (os os' : OS) n :
    (0 ≤ off)%Z → sys_pwrite fd buf off os = (Ret n, os') →
    (0 ≤ n ≤ Z.of_nat (length buf))%Z ∧
    ∃ i fl data, os_fds (os_view os) !! fd = Some (i, fl) ∧
      os_data (os_view os) !! i = Some data ∧
      os_view os' =
        set_data (<[i := splice data (if has_flag fl O_APPEND then length data else Z.to_nat off)
                           (take (Z.to_nat n) buf)]> (os_data (os_view os))) (os_view os);
  sys_pwrite_error fd buf off (os os' : OS) e :
    sys_pwrite fd buf off os = (Errno e, os') → (0 < e)%Z ∧ os_view os' = os_view os;
  (** unlink(2): the name of a file or a symbolic link goes, the file stays
      while it is open. *)
  sys_unlink_spec p (os os' : OS) :
    entry_of (os_view os) p → sys_unlink p os = (Ret (), os') →
    os_view os' = set_links (delete p (os_links (os_view os)))
                    (set_files (delete p (os_files (os_view os))) (os_view os));
  sys_unlink_error p (os os' : OS) e :
    sys_unlink p os = (Errno e, os') → os_view os' = os_view os;
  sys_symlink_spec target p (os os' : OS) :
    entry_of (os_view os) p → sys_symlink target p os = (Ret (), os') →
    os_links (os_view os) !! p = None ∧ os_files (os_view os) !! p = None ∧
    os_view os' = set_links (<[p := target]> (os_links (os_view os))) (os_view os);
  sys_symlink_error target p (os os' : OS) e :
    sys_symlink target p os = (Errno e, os') → os_view os' = os_view os;
  (** readlink(2): the target, cut to the size of the buffer. *)
  sys_readlink_spec p n (os os' : OS) s :
    (0 ≤ n)%Z → entry_of (os_view os) p → sys_readlink p n os = (Ret s, os') →
    os_view os' = os_view os ∧
    ∃ target, os_links (os_view os) !! p = Some target ∧ s = str_take (Z.to_nat n) target;
  (** Error codes are [errno] values. *)
  create_directories_code p (os os' : OS) ec : create_directories p os = (ec, os') → (0 ≤ ec)%Z;
  create_directories_spec p (os os' : OS) :
    child_of (os_view os) p → os_links (os_view os) !! p = None →
    create_directories p os = (0%Z, os') →
    os_view os' = set_dirs ({[p]} ∪ os_dirs (os_view os)) (os_view os);
}.

Section laws.
Context {OS : Type} `{PosixSpec OS}.

Lemma reads_only_fds {A} (call : OS → A * OS) : reads_only os_view call → keeps_fds os_view call.
Proof. intros Hc os. by rewrite Hc. Qed.
Lemma sys_pread_fds fd n off : keeps_fds os_view (sys_pread fd n off).
Proof. apply reads_only_fds, sys_pread_reads. Qed.
Lemma sys_fsync_fds fd : keeps_fds os_view (sys_fsync fd).
Proof. apply reads_only_fds, sys_fsync_reads. Qed.
Lemma sys_fstat_fds fd : keeps_fds os_view (sys_fstat fd).
Proof. apply reads_only_fds, sys_fstat_reads. Qed.
Lemma sys_fcntl_lock_fds fd cmd : keeps_fds os_view (sys_fcntl_lock fd cmd).
Proof. apply reads_only_fds, sys_fcntl_lock_reads. Qed.
Lemma sys_flock_fds fd op : keeps_fds os_view (sys_flock fd op).
Proof. apply reads_only_fds, sys_flock_reads. Qed.
Lemma sys_readlink_fds p n : keeps_fds os_view (sys_readlink p n).
Proof. apply reads_only_fds, sys_readlink_reads. Qed.
Lemma sys_stat_fds p : keeps_fds os_view (sys_stat p).
Proof. apply reads_only_fds, sys_stat_reads. Qed.
Lemma sys_statvfs_fds p : keeps_fds os_view (sys_statvfs p).
Proof. apply reads_only_fds, sys_statvfs_reads. Qed.
End laws.

(** ** A system in which the laws hold *)

Module ReferenceOs.

(** A number above those of a list. *)
Definition above (l : list Z) : Z := (1 + foldr Z.max 0 l)%Z.
Lemma above_fresh l x : x ∈ l → (x < above l)%Z.
Proof. unfold above. induction 1; simpl; lia. Qed.
Lemma above_nonneg l : (0 ≤ above l)%Z.
Proof. unfold above. induction l; simpl; lia. Qed.

Definition new_fd (v : OsView) : Z := above (elements (dom (os_fds v))).
Definition new_ino (v : OsView) : Z :=
  above (elements (dom (os_data v)) ++ (map_to_list (os_files v)).*2 ++ (map_to_list (os_fds v)).*2.*1).

Lemma new_fd_fresh v : (0 ≤ new_fd v)%Z ∧ os_fds v !! new_fd v = None.
Proof.
  split; [apply above_nonneg|]. apply not_elem_of_dom. intros Hin.
  apply elem_of_elements, above_fresh in Hin. unfold new_fd in Hin. lia.
Qed.

Lemma new_ino_unused v : unused v (new_ino v).
Proof.
  assert (∀ x, x ∈ elements (dom (os_data v)) ++ (map_to_list (os_files v)).*2
    ++ (map_to_list (os_fds v)).*2.*1 → x ≠ new_ino v) as Hf.
  { intros x Hx%above_fresh. unfold new_ino. lia. }
  setoid_rewrite elem_of_app in Hf. setoid_rewrite elem_of_app in Hf. split_and!.
  - apply not_elem_of_dom. intros Hd. eapply Hf; [|done]. left. by apply elem_of_elements.
  - intros p Hp. eapply Hf; [|done]. right; left.
    apply list_elem_of_fmap. exists (p, new_ino v). by rewrite elem_of_map_to_list.
  - intros fd fl Hfd. eapply Hf; [|done]. right; right.
    apply list_elem_of_fmap. exists (new_ino v, fl). split; [done|].
    apply list_elem_of_fmap. exists (fd, (new_ino v, fl)). by rewrite elem_of_map_to_list.
Qed.

Definition stat_of (v : OsView) (i : Z) : Stat :=
  {| st_dev := 0; st_ino := i; st_mode := S_IFREG; st_nlink := 1; st_uid := 0; st_gid := 0; st_rdev := 0;
     st_size := Z.of_nat (length (default [] (os_data v !! i))); st_blksize := 4096; st_blocks := 0;
     st_atime := 0; st_mtime := 0; st_ctime := 0 |}.

Definition open_ (p : string) (fl : Z) (md : option Z) (v : OsView) : sysret Z * OsView :=
  if bool_decide (2 ^ 31 ≤ new_fd v)%Z then (Errno EMFILE, v) else
  match os_files v !! p with
  | Some i =>
      (Ret (new_fd v), set_fds (<[new_fd v := (i, fl)]> (os_fds v))
         (if has_flag fl O_TRUNC then set_data (<[i := []]> (os_data v)) v else v))
  | None =>
      if has_flag fl O_CREAT then
        (Ret (new_fd v), set_files (<[p := new_ino v]> (os_files v))
           (set_fds (<[new_fd v := (new_ino v, fl)]> (os_fds v))
             (set_data (<[new_ino v := []]> (os_data v)) v)))
      else (Errno ENOENT, v)
  end.
Definition on_fd {A} (fd : Z) (v : OsView) (f : Z → Z → bytes → sysret A * OsView) : sysret A * OsView :=
  match os_fds v !! fd with
  | None => (Errno EBADF, v)
  | Some (i, fl) => match os_data v !! i with None => (Errno EBADF, v) | Some data => f i fl data end
  end.

#[export] Instance os : Posix OsView := {|
  StatVfs := ();
  errno _ := 0%Z;
  sys_open := open_;
  sys_close fd v :=
    match os_fds v !! fd with
    | Some _ => (Ret (), set_fds (delete fd (os_fds v)) v)
    | None => (Errno EBADF, v)
    end;
  sys_dup fd v :=
    if bool_decide (2 ^ 31 ≤ new_fd v)%Z then (Errno EMFILE, v) else
    match os_fds v !! fd with
    | Some x => (Ret (new_fd v), set_fds (<[new_fd v := x]> (os_fds v)) v)
    | None => (Errno EBADF, v)
    end;
  sys_pread fd n off v :=
    on_fd fd v (λ i fl data, (Ret (take (Z.to_nat n) (drop (Z.to_nat off) data)), v));
  sys_pwrite fd buf off v :=
    on_fd fd v (λ i fl data, (Ret (Z.of_nat (length buf)),
      set_data (<[i := splice data (if has_flag fl O_APPEND then length data else Z.to_nat off) buf]>
        (os_data v)) v));
  sys_fsync fd v := (Ret (), v);
  sys_fstat fd v := on_fd fd v (λ i _ _, (Ret (stat_of v i), v));
  sys_ioctl fd cmd v := (Errno EINVAL, v);
  sys_fcntl_lock fd cmd v := (Ret (), v);
  sys_flock fd op v := (Ret (), v);
  sys_unlink p v :=
    match os_files v !! p, os_links v !! p with
    | None, None => (Errno ENOENT, v)
    | _, _ => (Ret (), set_links (delete p (os_links v)) (set_files (delete p (os_files v)) v))
    end;
  sys_mkdir p mode v := (Ret (), set_dirs ({[p]} ∪ os_dirs v) v);
  sys_rmdir p v := (Ret (), set_dirs (os_dirs v ∖ {[p]}) v);
  sys_symlink target p v :=
    match os_links v !! p, os_files v !! p with
    | None, None => (Ret (), set_links (<[p := target]> (os_links v)) v)
    | _, _ => (Errno EEXIST, v)
    end;
  sys_readlink p n v :=
    match os_links v !! p with
    | Some target => (Ret (str_take (Z.to_nat n) target), v)
    | None => (Errno EINVAL, v)
    end;
  sys_stat p v :=
    match os_files v !! p with
    | Some i => match os_data v !! i with Some _ => (Ret (stat_of v i), v) | None => (Errno ENOENT, v) end
    | None => (Errno ENOENT, v)
    end;
  sys_statvfs p v := (Ret (), v);
  create_directories p v := (0%Z, set_dirs ({[p]} ∪ os_dirs v) v);
  ec_message ec := "error " +:+ to_string ec;
|}.

Ltac os_cases H :=
  simpl in H; unfold open_, on_fd in H; repeat (case_bool_decide || case_match); simplify_eq/=.

#[export] Instance os_spec : PosixSpec OsView.
Proof.
  refine {| os_view v := v |}.
  all: try by (intros; intros v; simpl; unfold on_fd; by repeat case_match).
  all: try by (intros; intros v e v' E; os_cases E; by vm_compute).
  - intros p fl md v v' fd E. os_cases E; destruct (new_fd_fresh v); split_and!; try done; try lia; eauto.
  - intros p fl md v v' fd _ E. os_cases E;
      first [by left; eauto | right; eauto using new_ino_unused].
  - intros p fl md v v' e E. by os_cases E.
  - intros fd v v' E. by os_cases E.
  - intros fd v v' e E. os_cases E. auto.
  - intros fd v v' fd' E. os_cases E. destruct (new_fd_fresh v). split_and!; eauto; lia.
  - intros fd v v' e E. by os_cases E.
  - intros fd n off v v' bs _ _ E. os_cases E. naive_solver.
  - intros fd n off v v' e E. by os_cases E.
  - intros fd v v' st E. os_cases E. do 3 eexists. split_and!; [done..|].
    by match goal with H : os_data _ !! _ = Some _ |- _ => rewrite H end.
  - intros p v v' st _ E. os_cases E. do 2 eexists. split_and!; [done..|].
    by match goal with H : os_data _ !! _ = Some _ |- _ => rewrite H end.
  - intros fd buf off v v' n _ E. os_cases E; (split; [lia|]);
      rewrite Nat2Z.id, firstn_all; do 3 eexists; split_and!; try done.
    all: by match goal with H : has_flag _ _ = _ |- _ => rewrite H end.
  - intros fd buf off v v' e E. by os_cases E.
  - intros p v v' _ E. by os_cases E.
  - intros p v v' e E. by os_cases E.
  - intros t p v v' _ E. by os_cases E.
  - intros t p v v' e E. by os_cases E.
  - intros p n v v' s _ _ E. os_cases E. eauto.
  - intros p v v' ec E. by os_cases E.
  - intros p v v' _ _ E. by injection E as <-.
Defined.
End ReferenceOs.
