(* ===== verification/Storage.v ===== *)
(** * File objects and storage managers (common/file.cpp,
    common/posix_file_handler.cpp, common/storage_manager.h,
    common/object_storage_manager.cpp, common/posix_storage_manager.cpp)

    A [File] owns a [PosixFileHandler], which owns a descriptor.  A storage
    manager decides where in the local file system the data of a VSFS file
    lives: [PosixStorageManager] mirrors the path under a base directory,
    [ObjectStorageManager] spreads the object ids over numbered
    subdirectories.  [StorageManager] is the interface the FUSE layer calls,
    [StorageManagerSpec] what it relies on. *)

From S2P Require Import Prelude CxxString Platform Posix.
From Stdlib Require Import Ascii Strings.Byte.

(** ** [PosixFileHandler] and [File] *)

Record PosixFileHandler := { fd_ : Z }.
Record File := { file_handler_ : option PosixFileHandler }.

#[export] Instance PosixFileHandler_eq_dec : EqDecision PosixFileHandler.
Proof. solve_decision. Defined.
#[export] Instance File_eq_dec : EqDecision File.
Proof. solve_decision. Defined.

(** [new File(new PosixFileHandler(this, fd))] *)
Definition new_file (fd : Z) : File := {| file_handler_ := Some {| fd_ := fd |} |}.

Section file.
Context {OS : Type} `{Posix OS}.

(** [PosixFileHandler::close], [~PosixFileHandler] *)
Definition handler_close (h : PosixFileHandler) (os : OS) : Status * PosixFileHandler * OS :=
  match sys_close (fd_ h) os with
  | (Ret _, os) => (OK, {| fd_ := -1 |}, os)
  | (Errno e, os) => (SystemError e, h, os)
  end.
Definition handler_destroy (h : PosixFileHandler) (os : OS) : OS :=
  if bool_decide (0 ≤ fd_ h)%Z then (handler_close h os).2 else os.

Definition handler_read (h : PosixFileHandler) (nbytes offset : Z) (os : OS) : sysret bytes * OS :=
  sys_pread (fd_ h) nbytes offset os.
Definition handler_write (h : PosixFileHandler) (buf : bytes) (offset : Z) (os : OS) : sysret Z * OS :=
  sys_pwrite (fd_ h) buf offset os.

(** [File::close]: the handler is kept when it cannot be closed. *)
Definition file_close (f : File) (os : OS) : Status * File * OS :=
  match file_handler_ f with
  | None => (OK, f, os)
  | Some h =>
      let '(status, h, os) := handler_close h os in
      if ok status then (status, {| file_handler_ := None |}, handler_destroy h os)
      else (status, {| file_handler_ := Some h |}, os)
  end.

(** [~File]: closes the file, then destroys the handler if there still is one. *)
Definition file_destroy (f : File) (os : OS) : OS :=
  let '(_, f, os) := file_close f os in
  match file_handler_ f with None => os | Some h => handler_destroy h os end.

(** [File(File&& rhs)]: the new file, and what is left of [rhs]. *)
Definition file_move (rhs : File) : File * File := (rhs, {| file_handler_ := None |}).

(** [None] is the result -1 without a system call. *)
Definition file_read (f : File) (count offset : Z) (os : OS) : option (sysret bytes) * OS :=
  match file_handler_ f with
  | Some h => let '(r, os) := handler_read h count offset os in (Some r, os)
  | None => (None, os)
  end.
Definition file_write (f : File) (buf : bytes) (offset : Z) (os : OS) : option (sysret Z) * OS :=
  match file_handler_ f with
  | Some h => let '(r, os) := handler_write h buf offset os in (Some r, os)
  | None => (None, os)
  end.
Definition file_fd (f : File) : Z :=
  match file_handler_ f with Some h => fd_ h | None => (-1)%Z end.
End file.

(** ** The interface of the storage managers *)

(** The two overloads of [open] are one operation with an optional mode. *)
Class StorageManager (M OS : Type) `{Posix OS} := {
  sm_init : M → OS → Status * OS;
  sm_destroy : M → Status;
  sm_open : M → string → Z → Z → option Z → OS → run (Status * option File * OS);
  sm_unlink : M → string → Z → OS → run (Status * OS);
  sm_mkdir : M → string → Z → OS → run (Status * OS);
  sm_rmdir : M → string → OS → run (Status * OS);
  sm_readlink : M → string → Z → Z → OS → run (Status * string * OS);
  sm_getattr : M → string → Z → OS → run (Status * option Stat * OS);
  sm_statfs : M → OS → Status * option StatVfs * OS;
  sm_symlink : M → string → string → Z → OS → run (Status * OS);
}.

Section calls.
Context {OS : Type} `{Posix OS}.

(** [if (ret == -1) return Status::system_error(errno); return Status::OK;] *)
Definition status_of {A} (r : sysret A * OS) : Status * OS :=
  match r with (Ret _, os) => (OK, os) | (Errno e, os) => (SystemError e, os) end.
Definition value_of {A} (r : sysret A * OS) : Status * option A * OS :=
  match r with (Ret a, os) => (OK, Some a, os) | (Errno e, os) => (SystemError e, None, os) end.

Definition open_at (local_path : string) (flags : Z) (mode : option Z) (os : OS)
    : Status * option File * OS :=
  match sys_open local_path flags mode os with
  | (Ret fd, os) => (OK, Some (new_file fd), os)
  | (Errno e, os) => (SystemError e, None, os)
  end.
Definition readlink_at (local_path : string) (size : Z) (os : OS) : Status * string * OS :=
  match sys_readlink local_path size os with
  | (Ret s, os) => (OK, s, os)
  | (Errno e, os) => (SystemError e, "", os)
  end.
End calls.

(** ** [PosixStorageManager] *)

Record PosixStorageManager := { posix_base_path_ : string }.

Definition posix_translate_path (m : PosixStorageManager) (path : string) : string :=
  posix_base_path_ m +:+ path.

Section posix.
Context {OS : Type} `{Posix OS}.

Definition posix_open (m : PosixStorageManager) (path : string) (obj_id flags : Z) (mode : option Z)
    (os : OS) : run (Status * option File * OS) :=
  Done (open_at (posix_translate_path m path) flags mode os).
Definition posix_unlink (m : PosixStorageManager) (path : string) (obj_id : Z) (os : OS)
    : run (Status * OS) :=
  Done (status_of (sys_unlink (posix_translate_path m path) os)).
Definition posix_mkdir (m : PosixStorageManager) (path : string) (mode : Z) (os : OS)
    : run (Status * OS) :=
  Done (status_of (sys_mkdir (posix_translate_path m path) mode os)).
Definition posix_rmdir (m : PosixStorageManager) (path : string) (os : OS) : run (Status * OS) :=
  Done (status_of (sys_rmdir (posix_translate_path m path) os)).
Definition posix_readlink (m : PosixStorageManager) (path : string) (obj_id size : Z) (os : OS)
    : run (Status * string * OS) :=
  Done (readlink_at (posix_translate_path m path) size os).
Definition posix_getattr (m : PosixStorageManager) (path : string) (obj_id : Z) (os : OS)
    : run (Status * option Stat * OS) :=
  Done (value_of (sys_stat (posix_translate_path m path) os)).
Definition posix_statfs (m : PosixStorageManager) (os : OS) : Status * option StatVfs * OS :=
  value_of (sys_statvfs (posix_base_path_ m) os).
Definition posix_symlink (m : PosixStorageManager) (fpath link_path : string) (obj_id : Z) (os : OS)
    : run (Status * OS) :=
  Done (status_of (sys_symlink fpath (posix_translate_path m link_path) os)).

#[export] Instance posix_storage_manager : StorageManager PosixStorageManager OS := {|
  sm_init _ os := (OK, os);
  sm_destroy _ := OK;
  sm_open := posix_open;
  sm_unlink := posix_unlink;
  sm_mkdir := posix_mkdir;
  sm_rmdir := posix_rmdir;
  sm_readlink := posix_readlink;
  sm_getattr := posix_getattr;
  sm_statfs := posix_statfs;
  sm_symlink := posix_symlink;
|}.
End posix.

(** ** [ObjectStorageManager] *)

Record ObjectStorageManager := { base_path_ : string; num_subdirs_ : Z }.

Section object.
Context {OS : Type} `{Posix OS, BoostFilesystem}.

(** The loop of [init]. *)
Fixpoint init_subdirs (base : string) (i : Z) (left : nat) (os : OS) : Status * OS :=
  match left with
  | 0 => (OK, os)
  | S left' =>
      let '(ec, os) := create_directories (fs_append base (to_string i)) os in
      if (0 <? ec)%Z then (Err ec (ec_message ec), os)
      else init_subdirs base (i + 1) left' os
  end.
Definition object_init (m : ObjectStorageManager) (os : OS) : Status * OS :=
  init_subdirs (base_path_ m) 0 (Z.to_nat (num_subdirs_ m)) os.

(** [num_subdirs_] is an [int]; a remainder by zero ends the process. *)
Definition translate_path (m : ObjectStorageManager) (obj_id : Z) : run string :=
  CHECK negb (bool_decide (wrap_uint64 (num_subdirs_ m) = 0%Z)) ELSE "division by zero";;
  let subdir_num := (wrap_uint64 obj_id mod wrap_uint64 (num_subdirs_ m))%Z in
  Done (fs_append (fs_append (base_path_ m) (to_string subdir_num)) (to_string obj_id)).

Definition object_open (m : ObjectStorageManager) (path : string) (obj_id flags : Z) (mode : option Z)
    (os : OS) : run (Status * option File * OS) :=
  local_path ← translate_path m obj_id; Done (open_at local_path flags mode os).
Definition object_unlink (m : ObjectStorageManager) (path : string) (obj_id : Z) (os : OS)
    : run (Status * OS) :=
  local_path ← translate_path m obj_id; Done (status_of (sys_unlink local_path os)).
Definition object_readlink (m : ObjectStorageManager) (path : string) (oid size : Z) (os : OS)
    : run (Status * string * OS) :=
  local_path ← translate_path m oid; Done (readlink_at local_path size os).
Definition object_getattr (m : ObjectStorageManager) (path : string) (obj_id : Z) (os : OS)
    : run (Status * option Stat * OS) :=
  local_path ← translate_path m obj_id; Done (value_of (sys_stat local_path os)).
Definition object_statfs (m : ObjectStorageManager) (os : OS) : Status * option StatVfs * OS :=
  value_of (sys_statvfs (base_path_ m) os).
Definition object_symlink (m : ObjectStorageManager) (fpath link_path : string) (link_obj_id : Z)
    (os : OS) : run (Status * OS) :=
  local_path ← translate_path m link_obj_id; Done (status_of (sys_symlink fpath local_path os)).

(** [mkdir] and [rmdir]: the store has no directories. *)
#[export] Instance object_storage_manager : StorageManager ObjectStorageManager OS := {|
  sm_init := object_init;
  sm_destroy _ := OK;
  sm_open := object_open;
  sm_unlink := object_unlink;
  sm_mkdir _ _ _ os := Done (OK, os);
  sm_rmdir _ _ os := Done (OK, os);
  sm_readlink := object_readlink;
  sm_getattr := object_getattr;
  sm_statfs := object_statfs;
  sm_symlink := object_symlink;
|}.
End object.

(** ** What the managers promise *)

(** Every operation on the data of a file is a system call at one place, and
    files with different paths and different ids live at different places. *)
Class StorageManagerSpec (M OS : Type) `{StorageManager M OS} := {
  sm_valid : M → Prop;
  sm_location : M → string → Z → string;
  sm_open_spec m path oid flags mode os : sm_valid m →
    sm_open m path oid flags mode os = Done (open_at (sm_location m path oid) flags mode os);
  sm_unlink_spec m path oid os : sm_valid m →
    sm_unlink m path oid os = Done (status_of (sys_unlink (sm_location m path oid) os));
  sm_readlink_spec m path oid size os : sm_valid m →
    sm_readlink m path oid size os = Done (readlink_at (sm_location m path oid) size os);
  sm_getattr_spec m path oid os : sm_valid m →
    sm_getattr m path oid os = Done (value_of (sys_stat (sm_location m path oid) os));
  sm_symlink_spec m fpath path oid os : sm_valid m →
    sm_symlink m fpath path oid os = Done (status_of (sys_symlink fpath (sm_location m path oid) os));
  sm_mkdir_spec m path mode os : sm_valid m →
    (∃ s, sm_mkdir m path mode os = Done (s, os)) ∨
    ∃ p, sm_mkdir m path mode os = Done (status_of (sys_mkdir p mode os));
  sm_rmdir_spec m path os : sm_valid m →
    (∃ s, sm_rmdir m path os = Done (s, os)) ∨
    ∃ p, sm_rmdir m path os = Done (status_of (sys_rmdir p os));
  sm_statfs_spec m os : sm_valid m → ∃ p, sm_statfs m os = value_of (sys_statvfs p os);
  sm_location_inj m path path' oid oid' : sm_valid m →
    path ≠ path' → oid ≠ oid' → sm_location m path oid ≠ sm_location m path' oid';
}.

#[export] Instance posix_storage_manager_spec {OS} `{!Posix OS} :
  StorageManagerSpec PosixStorageManager OS.
Proof.
  refine {| sm_valid _ := True; sm_location m path _ := posix_translate_path m path |}; try done.
  1-3: simpl; unfold posix_mkdir, posix_rmdir, posix_statfs; eauto.
  intros m path path' _ _ _ Hne _ E. apply Hne. unfold posix_translate_path in E.
  by apply (inj (String.append (posix_base_path_ m))) in E.
Defined.

Section object_lemmas.
Context {OS : Type} `{!Posix OS, !BoostFilesystem, !BoostFilesystemSpec}.

(** A directory path on which [operator/] is concatenation. *)
Definition object_valid (m : ObjectStorageManager) : Prop :=
  plain_dir (base_path_ m) ∧ (0 < num_subdirs_ m < 2 ^ 31)%Z.
Definition object_location (m : ObjectStorageManager) (oid : Z) : string :=
  base_path_ m +:+ "/" +:+ to_string (wrap_uint64 oid mod num_subdirs_ m) +:+ "/" +:+ to_string oid.

Lemma to_string_plain z :
  plain_name (to_string z) ∧ to_string z ≠ "." ∧ to_string z ≠ "..".
Proof.
  assert (no_char "."%char (to_string z)) as Hdot by by apply to_string_no_char.
  split_and!; [split|..].
  - apply to_string_nonempty.
  - by apply to_string_no_char.
  - intros E. by rewrite E in Hdot.
  - intros E. by rewrite E in Hdot.
Qed.

Lemma no_slash_end n : n ≠ "" → no_char slash n → ∀ d, last_char (d +:+ n) ≠ Some slash.
Proof.
  intros Hn Hs d. induction d as [|x d IH]; rewrite ?str_app_nil_l, ?str_app_cons.
  - clear Hn. induction n as [|x n IH]; [done|]. apply no_char_cons in Hs as [Hx Hs].
    destruct n; simpl in *; [by intros [= ->]|by apply IH].
  - simpl. destruct (d +:+ n) eqn:E; [|done]. by destruct d, n.
Qed.

(** The numbered subdirectories of the base directory. *)
Definition subdir (m : ObjectStorageManager) (k : Z) : string :=
  base_path_ m +:+ "/" +:+ to_string k.

Lemma subdir_plain m k : plain_dir (base_path_ m) → plain_dir (subdir m k).
Proof.
  intros (Hd&Hl&H2). unfold subdir. destruct (to_string_plain k) as [[Hn Hs] _]. split_and!.
  - by destruct (base_path_ m).
  - rewrite <-str_app_assoc. by apply no_slash_end.
  - destruct (base_path_ m) as [|a [|b d]]; [done| |done].
    rewrite str_app_cons, str_app_nil_l. simpl. repeat case_bool_decide; subst; try done.
Qed.

Lemma translate_path_location m oid :
  object_valid m → translate_path m oid = Done (object_location m oid).
Proof.
  intros [Hb Hn]. unfold translate_path, object_location.
  assert (wrap_uint64 (num_subdirs_ m) = num_subdirs_ m) as ->
    by (apply Z.mod_small; lia).
  rewrite bool_decide_eq_false_2 by lia. simpl. f_equal.
  destruct (to_string_plain (wrap_uint64 oid mod num_subdirs_ m)) as [Hk _].
  destruct (to_string_plain oid) as [Ho _].
  rewrite (fs_append_dir _ _ Hb Hk). fold (subdir m (wrap_uint64 oid mod num_subdirs_ m)).
  rewrite (fs_append_dir _ _ (subdir_plain m _ Hb) Ho). unfold subdir. by rewrite !str_app_assoc.
Qed.

Lemma object_location_inj m oid oid' : object_location m oid = object_location m oid' → oid = oid'.
Proof.
  unfold object_location. intros E. change ("/" +:+ to_string ?z) with (String slash (to_string z)) in E.
  rewrite <-!str_app_assoc in E.
  apply split_last_unique in E as [_ E]; [by apply (inj pretty) in E|by apply to_string_no_char..].
Qed.

#[export] Instance object_storage_manager_spec : StorageManagerSpec ObjectStorageManager OS.
Proof.
  refine {| sm_valid := object_valid; sm_location m _ oid := object_location m oid |}.
  1-5: intros; simpl; unfold object_open, object_unlink, object_readlink, object_getattr, object_symlink;
    by rewrite translate_path_location.
  1-3: simpl; unfold object_statfs; eauto.
  intros m path path' oid oid' _ _ Hne E. by apply Hne, (object_location_inj m).
Defined.

Lemma object_location_form m oid :
  object_valid m →
  ∃ k, (0 ≤ k < num_subdirs_ m)%Z ∧ object_location m oid = subdir m k +:+ "/" +:+ to_string oid.
Proof.
  intros [_ Hn]. exists (wrap_uint64 oid mod num_subdirs_ m)%Z. split.
  - apply Z.mod_pos_bound. lia.
  - unfold subdir, object_location. by rewrite !str_app_assoc.
Qed.

(** *** Properties of the object store *)

(** The object store gives every object a place of its own.  For every
    object id, a negative one too, [translate_path] returns a path
    [<base>/<k>/<id>] with [k] one of the subdirectories numbered below
    [num_subdirs_], and no two ids share a path. *)
Theorem object_locations m oid oid' :
  object_valid m →
  ∃ k p, translate_path m oid = Done p ∧ (0 ≤ k < num_subdirs_ m)%Z ∧
    p = subdir m k +:+ "/" +:+ to_string oid ∧
    (oid ≠ oid' → translate_path m oid' ≠ Done p).
Proof.
  intros Hm. destruct (object_location_form m oid Hm) as (k&Hk&Hp).
  exists k, (object_location m oid). split_and!; [by apply translate_path_location|lia|lia|done|].
  intros Hne. rewrite translate_path_location by done. intros [= E].
    by apply Hne, (object_location_inj m).
Qed.

Context `{!PosixSpec OS}.

Lemma subdir_child (os : OS) m k :
  plain_dir (base_path_ m) → base_path_ m ∈ os_dirs (os_view os) → child_of (os_view os) (subdir m k).
Proof.
  intros Hb Hin. destruct (to_string_plain k) as (?&?&?).
  by exists (base_path_ m), (to_string k).
Qed.

Lemma init_subdirs_spec m left (os os' : OS) i :
  plain_dir (base_path_ m) → base_path_ m ∈ os_dirs (os_view os) →
  (∀ k, os_links (os_view os) !! subdir m k = None) → (0 ≤ i)%Z →
  init_subdirs (base_path_ m) i left os = (OK, os') →
  (∀ p, p ∈ os_dirs (os_view os') ↔
     p ∈ os_dirs (os_view os) ∨ ∃ k, (i ≤ k < i + Z.of_nat left)%Z ∧ p = subdir m k) ∧
  os_view os' = set_dirs (os_dirs (os_view os')) (os_view os).
Proof.
  intros Hb. revert i os. induction left as [|left IH]; intros i os Hin Hl Hi Hr; simpl in Hr.
  { injection Hr as <-. split; [|by destruct (os_view os)].
    intros p. split; [by left|]. intros [?|(k&?&_)]; [done|lia]. }
  destruct (to_string_plain i) as [Hn _]. rewrite (fs_append_dir _ _ Hb Hn) in Hr.
  fold (subdir m i) in Hr. destruct (create_directories (subdir m i) os) as [ec os1] eqn:Hc.
  destruct (Z.ltb_spec 0 ec) as [|Hec]; [done|].
  assert (ec = 0%Z) as -> by (apply create_directories_code in Hc; lia).
  pose proof (create_directories_spec _ _ _ (subdir_child os m i Hb Hin) (Hl i) Hc) as H1.
  apply IH in Hr as [R1 R2]; [|rewrite H1; set_solver|by rewrite H1|lia]. split.
  - intros p. rewrite R1, H1. simpl. rewrite elem_of_union, elem_of_singleton. split.
    + intros [[->|?]|(k&?&->)]; [right; exists i; split; [lia|done]|by left|].
      right. exists k. split; [lia|done].
    + intros [?|(k&Hk&->)]; [by left; right|].
      destruct (decide (k = i)) as [->|]; [by left; left|]. right. exists k. split; [lia|done].
  - by rewrite R2, H1.
Qed.

Lemma object_location_not_subdir m oid k : object_valid m → object_location m oid ≠ subdir m k.
Proof.
  intros Hm. destruct (object_location_form m oid Hm) as (j&_&->). unfold subdir. rewrite !str_app_assoc.
  intros E. apply (inj (String.append _)), (inj (String.append _)) in E.
  destruct (to_string_plain k) as [[_ Hk] _]. rewrite <-E in Hk.
  revert Hk. rewrite !no_char_app. intros (_&Hs&_). by apply no_char_cons in Hs as [? _].
Qed.

(** After a successful [init] of the object store every object has a
    place: the directory of the path [translate_path] gives it exists, the
    path names neither a directory nor a link, and no file, descriptor or
    data has changed.  The base directory must exist, and neither a link below
    it nor a directory at that path. *)
Theorem object_init_prepares m (os os' : OS) oid :
  object_valid m → base_path_ m ∈ os_dirs (os_view os) →
  (∀ p, os_links (os_view os) !! (base_path_ m +:+ "/" +:+ p) = None) →
  object_location m oid ∉ os_dirs (os_view os) →
  object_init m os = (OK, os') →
  ∃ p, translate_path m oid = Done p ∧ plain_at (os_view os') p ∧
    os_files (os_view os') = os_files (os_view os) ∧ os_fds (os_view os') = os_fds (os_view os) ∧
    os_data (os_view os') = os_data (os_view os).
Proof.
  intros Hm Hb Hl Hd Hi. pose proof Hm as [Hp Hn].
  destruct (init_subdirs_spec m _ _ _ _ Hp Hb (λ k, Hl (to_string k)) (Z.le_refl 0) Hi) as [H1 H3].
  destruct (object_location_form m oid) as (k&Hk&Hloc); [done|].
  exists (object_location m oid).
  split_and!; [by apply translate_path_location| |by rewrite H3..]. destruct (to_string_plain oid) as (?&?&?).
  split; [split|].
  - exists (subdir m k), (to_string oid). split_and!; try done; [|by apply subdir_plain].
    apply H1. right. exists k. split; [lia|done].
  - rewrite H1. intros [?|(j&_&E)]; [done|]. by apply (object_location_not_subdir m oid j).
  - rewrite Hloc, H3. unfold subdir. rewrite !str_app_assoc. apply Hl.
Qed.
End object_lemmas.

(** ** File objects *)

Section file_lemmas.
Context {OS : Type} `{!Posix OS, !PosixSpec OS}.

Lemma file_close_ok fd (os os' : OS) :
  sys_close fd os = (Ret (), os') →
  file_close (new_file fd) os = (OK, {| file_handler_ := None |}, os').
Proof. intros Hc. unfold file_close, new_file, handler_close. simpl. by rewrite Hc. Qed.

(** C36: a file closes its descriptor once.  When the system closes the
    descriptor, [close] returns [OK] and gives the descriptor back; after
    that a second [close] and the destructor make no system call, and reads
    and writes are refused without one.  A file that is destroyed without
    having been closed gives its descriptor back too. *)
Theorem file_closes_once fd buf n off (os os' : OS) :
  sys_close fd os = (Ret (), os') →
  ∃ f, file_close (new_file fd) os = (OK, f, os') ∧
    os_fds (os_view os') = delete fd (os_fds (os_view os)) ∧
    file_close f os' = (OK, f, os') ∧ file_destroy f os' = os' ∧ file_fd f = (-1)%Z ∧
    file_read f n off os' = (None, os') ∧ file_write f buf off os' = (None, os') ∧
    file_destroy (new_file fd) os = os'.
Proof.
  intros Hc. eexists. split; [by apply file_close_ok|].
  split; [by destruct (sys_close_spec _ _ _ Hc) as [_ ->]|]. split_and!; try done.
  unfold file_destroy. by rewrite (file_close_ok _ _ _ Hc).
Qed.

(** A descriptor that could not be closed is closed again by the destructor
    of the file, and a third time by the destructor of its handler. *)
Lemma file_destroy_retries fd (os os1 os2 : OS) e e' :
  (0 ≤ fd)%Z → sys_close fd os = (Errno e, os1) → sys_close fd os1 = (Errno e', os2) →
  ∃ f, file_close (new_file fd) os = (SystemError e, f, os1) ∧
    file_destroy f os1 = (sys_close fd os2).2.
Proof.
  intros Hfd H1 H2. exists (new_file fd).
  unfold file_destroy, file_close, new_file, handler_destroy, handler_close; simpl.
  rewrite H1. simpl. rewrite H2. simpl. split; [done|]. rewrite bool_decide_eq_true_2 by done.
  by destruct (sys_close fd os2) as [[]].
Qed.

(** What a path holds. *)
Definition contents (v : OsView) (p : string) : option bytes :=
  os_files v !! p ≫= λ i, os_data v !! i.

(** A named file has contents, and only one name: VSFS makes no hard links. *)
Definition names_ok (v : OsView) : Prop :=
  (∀ p i, os_files v !! p = Some i → is_Some (os_data v !! i)) ∧
  ∀ p p' i, os_files v !! p = Some i → os_files v !! p' = Some i → p = p'.

(** The file behind a descriptor, when it still has its name. *)
Definition refers (v : OsView) (fd : Z) (p : string) : Prop :=
  ∃ i fl, os_fds v !! fd = Some (i, fl) ∧ has_flag fl O_APPEND = false ∧ os_files v !! p = Some i.

Lemma file_write_contents fd buf off (os os' : OS) n p p' :
  names_ok (os_view os) → refers (os_view os) fd p → (0 ≤ off)%Z →
  file_write (new_file fd) buf off os = (Some (Ret n), os') →
  (0 ≤ n ≤ Z.of_nat (length buf))%Z ∧ names_ok (os_view os') ∧
  (∃ d, os_view os' = set_data d (os_view os)) ∧
  (∃ data, contents (os_view os) p = Some data ∧
     contents (os_view os') p = Some (splice data (Z.to_nat off) (take (Z.to_nat n) buf))) ∧
  (p' ≠ p → contents (os_view os') p' = contents (os_view os) p').
Proof.
  intros [Hd0 Hl] (i&fl&Hfd&Ha&Hp) Hoff Hw. unfold file_write, handler_write, new_file in Hw; simpl in Hw.
  destruct (sys_pwrite fd buf off os) as [r os1] eqn:Hs. injection Hw as -> ->.
  destruct (sys_pwrite_spec _ _ _ _ _ _ Hoff Hs) as (Hn&i'&fl'&data&Hfd'&Hd&Hv).
  rewrite Hfd in Hfd'. injection Hfd' as <- <-. rewrite Ha in Hv. unfold contents. rewrite Hv; simpl.
  split_and!; try done; try lia.
  - split; simpl; [|done]. intros q j Hq. rewrite lookup_insert. case_decide; eauto.
  - by eexists.
  - exists data. rewrite Hp; simpl. by rewrite lookup_insert_eq.
  - intros Hne. destruct (os_files (os_view os) !! p') as [j|] eqn:Hj; simpl; [|done].
    apply lookup_insert_ne. intros ->. eapply Hne, Hl; eauto.
Qed.

Lemma open_at_contents p fl md (os os' : OS) f :
  names_ok (os_view os) → plain_at (os_view os) p → has_flag fl O_TRUNC = false →
  open_at p fl md os = (OK, Some f, os') →
  ∃ fd, f = new_file fd ∧ (0 ≤ fd < 2 ^ 31)%Z ∧ os_fds (os_view os) !! fd = None ∧
    names_ok (os_view os') ∧ (has_flag fl O_APPEND = false → refers (os_view os') fd p) ∧
    (∀ fd', fd' ≠ fd → os_fds (os_view os') !! fd' = os_fds (os_view os) !! fd') ∧
    contents (os_view os') p = Some (default [] (contents (os_view os) p)) ∧
    (∀ p', p' ≠ p → contents (os_view os') p' = contents (os_view os) p') ∧
    os_dirs (os_view os') = os_dirs (os_view os) ∧ os_links (os_view os') = os_links (os_view os).
Proof.
  intros [Hd Hl] Hp Ht Ho. unfold open_at in Ho.
  destruct (sys_open p fl md os) as [[fd|e] os1] eqn:Hs; [|done]. injection Ho as <- ->.
  exists fd. destruct (sys_open_fds _ _ _ _ _ _ Hs) as (H0&Hn&_).
  pose proof (sys_open_spec _ _ _ _ _ _ Hp Hs) as Hc. rewrite Ht in Hc.
  destruct Hc as [(i&Hi&Hv)|(Hi&_&i&(U1&U2&U3)&Hv)]; unfold refers, contents, names_ok;
    rewrite Hv; simpl.
  - split_and!; try done; try lia.
    + intros Ha. exists i, fl. by rewrite lookup_insert_eq.
    + intros. by apply lookup_insert_ne.
    + rewrite Hi; simpl. by destruct (Hd _ _ Hi) as [data ->].
  - split_and!; try done; try lia.
    + intros q j Hq. destruct (decide (i = j)) as [<-|Hne]; [by rewrite lookup_insert_eq; eauto|].
      rewrite lookup_insert_ne by done. apply lookup_insert_Some in Hq as [[_ E]|[_ Hq]]; [done|eauto].
    + intros q q' j. rewrite !lookup_insert. repeat case_decide; intros; simplify_eq; eauto;
        (exfalso; by eapply U2).
    + intros Ha. exists i, fl. by rewrite !lookup_insert_eq.
    + intros. by apply lookup_insert_ne.
    + rewrite Hi, lookup_insert_eq; simpl. by rewrite lookup_insert_eq.
    + intros q Hq. rewrite lookup_insert_ne by done.
      destruct (os_files (os_view os) !! q) as [j|] eqn:Hj; simpl; [|done].
      apply lookup_insert_ne. intros ->. by eapply U2.
Qed.

Lemma unlink_contents p (os os' : OS) :
  names_ok (os_view os) → plain_at (os_view os) p → status_of (sys_unlink p os) = (OK, os') →
  names_ok (os_view os') ∧ os_fds (os_view os') = os_fds (os_view os) ∧
  contents (os_view os') p = None ∧
  ∀ p', p' ≠ p → contents (os_view os') p' = contents (os_view os) p'.
Proof.
  intros [Hd Hl] Hp Hu. unfold status_of in Hu.
  destruct (sys_unlink p os) as [[[]|e] os1] eqn:Hs; [|done]. injection Hu as ->.
  pose proof (sys_unlink_spec _ _ _ (proj1 Hp) Hs) as Hv. unfold contents, names_ok. rewrite Hv; simpl.
  split_and!; try done.
  - intros q j [_ Hq]%lookup_delete_Some. eauto.
  - intros q q' j [_ Hq]%lookup_delete_Some [_ Hq']%lookup_delete_Some. eauto.
  - by rewrite lookup_delete_eq.
  - intros q Hq. by rewrite lookup_delete_ne.
Qed.

(** What is written is read back. *)
Lemma take_drop_splice data off buf :
  take (length buf) (drop off (splice data off buf)) = buf.
Proof.
  unfold splice. rewrite drop_app_length', take_app_length; [done|].
  rewrite length_take, length_app, length_replicate. lia.
Qed.

(** A second write of the same length at the same place replaces the first. *)
Lemma splice_splice data off a b :
  length a = length b → splice (splice data off a) off b = splice data off b.
Proof.
  intros Hl. unfold splice at 1 3. f_equal; [|f_equal].
  - unfold splice. set (pre := take off (data ++ replicate (off - length data) x00)).
    assert (length pre = off) as Hp.
    { unfold pre. rewrite length_take, length_app, length_replicate. lia. }
    rewrite <-app_assoc, take_app_le by lia. rewrite take_ge by lia. done.
  - unfold splice. set (pre := take off (data ++ replicate (off - length data) x00)).
    assert (length pre = off) as Hp.
    { unfold pre. rewrite length_take, length_app, length_replicate. lia. }
    rewrite drop_app_ge by lia. rewrite Hp, drop_app_ge by lia.
    rewrite drop_drop. f_equal. lia.
Qed.
End file_lemmas.

Section object_store.
Context {OS : Type} `{!Posix OS, !PosixSpec OS, !BoostFilesystem, !BoostFilesystemSpec}.

(** The object store as a map from object ids to contents. *)
Definition object_contents (m : ObjectStorageManager) (v : OsView) (oid : Z) : option bytes :=
  contents v (object_location m oid).

End object_store.

(** ** Witnesses *)

Section witnesses.
Import Reference ReferenceOs.

Definition demo_store : ObjectStorageManager := {| base_path_ := "/base"; num_subdirs_ := 8 |}.
Definition demo_os : OsView :=
  {| os_dirs := {["/base"]}; os_links := ∅; os_files := ∅; os_fds := ∅; os_data := ∅ |}.
Definition demo_ready : OsView := (object_init demo_store demo_os).2.
Definition demo_opened : OsView :=
  {| os_dirs := os_dirs demo_ready; os_links := ∅; os_files := {["/base/4/12" := 1%Z]};
     os_fds := {[3%Z := (1%Z, 1%Z)]}; os_data := {[1%Z := [x61; x62; x63]]} |}.

Lemma demo_valid : object_valid demo_store.
Proof. split; [split_and!; vm_compute; congruence|simpl; lia]. Qed.

Lemma object_locations_witness :
  ∃ k p, translate_path demo_store (-6981142372377690111)%Z = Done p ∧ (0 ≤ k < 8)%Z ∧
    p = subdir demo_store k +:+ "/" +:+ to_string (-6981142372377690111)%Z ∧
    ((-6981142372377690111)%Z ≠ 12%Z → translate_path demo_store 12%Z ≠ Done p).
Proof. exact (object_locations demo_store (-6981142372377690111)%Z 12%Z demo_valid). Defined.

Lemma object_init_prepares_witness :
  ∃ p, translate_path demo_store 12%Z = Done p ∧ plain_at demo_ready p ∧
    os_files demo_ready = ∅ ∧ os_fds demo_ready = ∅ ∧ os_data demo_ready = ∅.
Proof.
  refine (object_init_prepares (OS:=OsView) demo_store demo_os demo_ready 12%Z demo_valid _ _ _ _).
  - vm_compute. reflexivity.
  - done.
  - vm_compute. discriminate.
  - vm_compute. reflexivity.
Defined.

Lemma file_closes_once_witness :
  ∃ f, file_close (new_file 3%Z) demo_opened = (OK, f, set_fds ∅ demo_opened) ∧
    os_fds (set_fds ∅ demo_opened) = delete 3%Z (os_fds demo_opened) ∧
    file_close f (set_fds ∅ demo_opened) = (OK, f, set_fds ∅ demo_opened) ∧
    file_destroy f (set_fds ∅ demo_opened) = set_fds ∅ demo_opened ∧ file_fd f = (-1)%Z ∧
    file_read f 10 0 (set_fds ∅ demo_opened) = (None, set_fds ∅ demo_opened) ∧
    file_write f [x64] 0 (set_fds ∅ demo_opened) = (None, set_fds ∅ demo_opened) ∧
    file_destroy (new_file 3%Z) demo_opened = set_fds ∅ demo_opened.
Proof.
  refine (file_closes_once 3%Z [x64] 10 0 demo_opened (set_fds ∅ demo_opened) _).
  vm_compute. reflexivity.
Defined.

Lemma demo_names_ok : names_ok demo_opened.
Proof.
  split; simpl.
  - intros p i [<- <-]%lookup_singleton_Some. eauto.
  - by intros p p' i [<- <-]%lookup_singleton_Some [<- _]%lookup_singleton_Some.
Qed.

End witnesses.
