(* ===== verification/LogManager.v ===== *)
(** * [vsfs::LogManager<R>] (common/log_manager.h)

    The log of updates of one index: records in the order they were appended,
    flushed to a stream in batches and loaded back from it.  Every operation
    holds the manager's mutex. *)

From S2P Require Import Prelude CxxString Platform PathUtil.
From Stdlib Require Import Ascii.

(** [LogEntity] and [LogBuffer] (common/log.thrift) *)
Record LogEntity := { e_txn_id : Z; e_data : string }.
Abbreviation LogBuffer := (list LogEntity) (only parsing).

#[export] Instance LogEntity_eq_dec : EqDecision LogEntity.
Proof. solve_decision. Defined.
#[export] Program Instance LogEntity_countable : Countable LogEntity :=
  inj_countable (λ e, (e_txn_id e, e_data e))
                (λ p, Some {| e_txn_id := p.1; e_data := p.2 |}) _.
Next Obligation. by intros []. Qed.

(** [LogRecord<TxnId, R>]: the transaction id and the record it owns.  A record
    read back from a stream that cannot be parsed is left as its default. *)
Record LogRecord (R : Type) := mkLogRecord { txn_id : Z; record : R }.
Arguments mkLogRecord {R} _ _.
Arguments txn_id {R} _.
Arguments record {R} _.

Record LogManager (R : Type) := mkLogManager {
  log_ : list (LogRecord R);
  log_buffer_ : LogBuffer;
  last_flushed_txn_id_ : Z;
}.
Arguments mkLogManager {R} _ _ _.
Arguments log_ {R} _.
Arguments log_buffer_ {R} _.
Arguments last_flushed_txn_id_ {R} _.

(** The characters of a decimal number and [istream >> size_t]: leading white
    space is skipped, then the longest run of digits is read. *)
Definition is_digit (c : ascii) : option N := N.of_nat <$> Ascii.is_nat c.
Fixpoint read_digits (acc : N) (s : string) : N * string :=
  match s with
  | String c s' =>
      match is_digit c with
      | Some d => read_digits (acc * 10 + d) s'
      | None => (acc, s)
      end
  | EmptyString => (acc, EmptyString)
  end.
Definition read_size (s : string) : option (N * string) :=
  match trim_left s with
  | String c s' =>
      match is_digit c with
      | Some d => Some (read_digits d s')
      | None => None
      end
  | EmptyString => None
  end.

Section log_manager.
Context {R : Type} `{ThriftCodec R, ThriftCodec (list LogEntity)}.
(** The default-constructed record. *)
Context (default_record : R).
Implicit Types (lm : LogManager R).

(** [LogManager()] *)
Definition new : LogManager R := mkLogManager [] [] 0.

(** [append(txn_id, record)]; the check of the order is commented out. *)
Definition append (t : Z) (r : R) lm : Status * LogManager R :=
  (OK, mkLogManager (log_ lm ++ [mkLogRecord t r]) (log_buffer_ lm) (last_flushed_txn_id_ lm)).

(** [erase(txn_id)]: drops the leading records up to [txn_id]. *)
Definition erase (t : Z) lm : LogManager R :=
  mkLogManager (drop_while (λ r, Z.leb (txn_id r) t) (log_ lm))
    (log_buffer_ lm) (last_flushed_txn_id_ lm).

(** [scan(txn_id, records)]: the leading records up to [txn_id]. *)
Definition scan (t : Z) lm : Status * list R :=
  (OK, record <$> take_while (λ r, Z.leb (txn_id r) t) (log_ lm)).

(** [get_log_buffer_size()]: [txn_id] is eight bytes. *)
Definition entity_size (e : LogEntity) : nat := 8 + String.length (e_data e).
Definition get_log_buffer_size lm : nat := sum_list_with entity_size (log_buffer_ lm).

(** The copying loop of [flush]. *)
Definition entity_of (r : LogRecord R) : LogEntity :=
  {| e_txn_id := wrap_int64 (txn_id r); e_data := thrift_write (record r) |}.
Fixpoint fill (bytes existing : nat) (pending : list (LogRecord R)) (buffer : LogBuffer)
  : nat * LogBuffer :=
  match pending with
  | [] => (existing, buffer)
  | r :: pending' =>
      let entity := entity_of r in
      let buffer' := buffer ++ [entity] in
      let existing' := existing + entity_size entity in
      if bool_decide (bytes ≤ existing') then (existing', buffer')
      else fill bytes existing' pending' buffer'
  end.

(** What is written for one buffer: its length in decimal, then its bytes. *)
Definition message (b : LogBuffer) : string :=
  let buffer := thrift_write b in
  pretty (N.of_nat (String.length buffer)) +:+ buffer.

(** [flush(bytes, os, flush_if_not_full)]: also the text appended to [os].
    Taking the last entity of an empty buffer is undefined. *)
Definition pending_records lm : list (LogRecord R) :=
  if Z.eqb (last_flushed_txn_id_ lm) 0 then log_ lm
  else drop_while (λ r, Z.leb (txn_id r) (last_flushed_txn_id_ lm)) (log_ lm).
Definition flush (bytes : nat) (flush_if_not_full : bool) lm
  : run (Status * string * LogManager R) :=
  let '(existing_bytes, buffer) :=
    fill bytes (get_log_buffer_size lm) (pending_records lm) (log_buffer_ lm) in
  if bool_decide (bytes ≤ existing_bytes) || flush_if_not_full then
    match last buffer with
    | None => Fatal "log_buffer_.buffer.back() of an empty buffer"
    | Some e =>
        Done (OK, message buffer,
              mkLogManager (log_ lm) [] (wrap_uint64 (e_txn_id e)))
    end
  else Done (OK, "", mkLogManager (log_ lm) buffer (last_flushed_txn_id_ lm)).

(** [load(is)]: reads messages until the stream ends; fuel bounds the loop,
    each iteration consumes at least one character. *)
Definition record_of (e : LogEntity) : LogRecord R :=
  mkLogRecord (wrap_uint64 (e_txn_id e)) (default default_record (thrift_read (e_data e))).
Fixpoint load_loop (fuel : nat) (input : string) (log : list (LogRecord R))
  : Status * list (LogRecord R) :=
  match fuel with
  | 0 => (OK, log)
  | S fuel' =>
      match read_size input with
      | None => (OK, log)
      | Some (message_size, input') =>
          (* the stream is not good() when the number ended the input, or when
             it holds fewer characters than announced *)
          if str_empty input' then (OK, log)
          else if bool_decide (String.length input' < N.to_nat message_size) then (OK, log)
          else
            let buffer := str_take (N.to_nat message_size) input' in
            match thrift_read buffer with
            | None => (Err (-1) "Failed to parse log from stream.", log)
            | Some log_buffer =>
                load_loop fuel' (str_drop (N.to_nat message_size) input')
                  (log ++ (record_of <$> log_buffer))
            end
      end
  end.
Definition load (input : string) lm : Status * LogManager R :=
  let '(s, log) := load_loop (S (String.length input)) input [] in
  (s, mkLogManager log (log_buffer_ lm) (last_flushed_txn_id_ lm)).

(** [size()] *)
Definition log_size lm : nat := length (log_ lm).
End log_manager.

(** ** Lemmas *)

Lemma wrap_uint64_int64 t : (0 ≤ t < 2 ^ 64)%Z → wrap_uint64 (wrap_int64 t) = t.
Proof.
  intros Ht. unfold wrap_uint64, wrap_int64.
  rewrite Zminus_mod_idemp_l. replace (t + 2 ^ 63 - 2 ^ 63)%Z with t by lia.
  by apply Z.mod_small.
Qed.

Lemma is_digit_pretty x : (x < 10)%N → is_digit (pretty_N_char x) = Some x.
Proof.
  intros Hx. assert (x = 0 ∨ x = 1 ∨ x = 2 ∨ x = 3 ∨ x = 4 ∨ x = 5 ∨ x = 6 ∨ x = 7
    ∨ x = 8 ∨ x = 9)%N as Hc by lia.
  by repeat destruct Hc as [->|Hc]; subst.
Qed.

Lemma pretty_N_go_digits x s : read_digits 0 (pretty_N_go x s) = read_digits x s.
Proof.
  revert s. induction (N.lt_wf_0 x) as [x _ IH]; intros s.
  assert (x = 0 ∨ 0 < x)%N as [->|Hx] by lia; [by rewrite pretty_N_go_0|].
  rewrite pretty_N_go_step, IH by (try apply N.div_lt; lia). simpl.
  rewrite is_digit_pretty by (apply N.mod_lt; lia). f_equal.
  pose proof (N.div_mod x 10). lia.
Qed.

(** The first character of a decimal number is a digit. *)
Definition digit_head (s : string) : Prop :=
  ∃ c s' d, s = String c s' ∧ is_digit c = Some d.

Lemma pretty_N_go_head x s : (0 < x)%N ∨ digit_head s → digit_head (pretty_N_go x s).
Proof.
  revert s. induction (N.lt_wf_0 x) as [x _ IH]; intros s Hs.
  assert (x = 0 ∨ 0 < x)%N as [->|Hx] by lia.
  { rewrite pretty_N_go_0. destruct Hs; [lia|done]. }
  rewrite pretty_N_go_step by done. apply IH; [by apply N.div_lt|]. right.
  eexists _, _, _. split; [done|]. apply is_digit_pretty, N.mod_lt. lia.
Qed.

Lemma read_size_digit_head s : digit_head s → read_size s = Some (read_digits 0 s).
Proof.
  intros (c&s'&d&->&Hd). unfold read_size. simpl.
  assert (Ascii.is_space c = false) as ->.
  { destruct (Ascii.is_space c) eqn:Hc; [|done]. exfalso.
    destruct c as [[] [] [] [] [] [] [] []]; done. }
  by rewrite Hd.
Qed.

Lemma pretty_N_go_app x s t : pretty_N_go x s +:+ t = pretty_N_go x (s +:+ t).
Proof.
  revert s. induction (N.lt_wf_0 x) as [x _ IH]; intros s.
  assert (x = 0 ∨ 0 < x)%N as [->|Hx] by lia; [done|].
  by rewrite !(pretty_N_go_step x), IH by (try apply N.div_lt; lia).
Qed.

(** Reading back a printed size. *)
Lemma read_size_pretty n c s :
  is_digit c = None → read_size (pretty n +:+ String c s) = Some (n, String c s).
Proof.
  intros Hc. unfold pretty, pretty_N. case_decide as Hn.
  - subst. change ("0" +:+ String c s) with (String "0" (String c s)).
    unfold read_size. simpl. by rewrite Hc.
  - rewrite pretty_N_go_app, str_app_nil_l, read_size_digit_head, pretty_N_go_digits.
    + simpl. by rewrite Hc.
    + apply pretty_N_go_head. left. lia.
Qed.

(** The bytes Thrift writes for a [LogBuffer] start with the type of its first
    field, which is not the code of a digit; this is what separates the length
    from the message in the stream. *)
Class LogBufferFormat `{ThriftCodec (list LogEntity)} : Prop :=
  log_buffer_head b : ∃ c s, thrift_write b = String c s ∧ is_digit c = None.

Section log_lemmas.
Context {R : Type} `{ThriftCodecSpec R, ThriftCodecSpec (list LogEntity), !LogBufferFormat}.
Context (default_record : R).
Implicit Types (lm : LogManager R) (r : LogRecord R).

Definition valid_txn r : Prop := (0 < txn_id r < 2 ^ 64)%Z.

Lemma record_of_entity_of r : valid_txn r → record_of default_record (entity_of r) = r.
Proof.
  intros Hr. unfold record_of, entity_of. simpl.
  rewrite wrap_uint64_int64, thrift_read_write by (unfold valid_txn in *; lia).
  by destruct r.
Qed.

Lemma fill_spec bytes existing (pending : list (LogRecord R)) buffer :
  ∃ n, (fill bytes existing pending buffer).2 = buffer ++ (entity_of <$> take n pending) ∧
       n ≤ length pending ∧ (pending ≠ [] → 0 < n).
Proof.
  revert existing buffer. induction pending as [|r pending IH]; intros existing buffer.
  { exists 0. simpl. by rewrite app_nil_r. }
  simpl. case_bool_decide.
  - exists 1. simpl. split_and!; [done|lia..].
  - destruct (IH (existing + entity_size (entity_of r)) (buffer ++ [entity_of r]))
      as (n&->&?&_).
    exists (S n). simpl. rewrite <-app_assoc. split_and!; [done|lia..].
Qed.

Lemma load_loop_message fuel b s log :
  load_loop default_record (S fuel) (message b +:+ s) log
  = load_loop default_record fuel s (log ++ (record_of default_record <$> b)).
Proof.
  simpl. unfold message. rewrite str_app_assoc.
  destruct (log_buffer_head b) as (c&t&Hb&Hc).
  assert (read_size (pretty (N.of_nat (String.length (thrift_write b))) +:+ thrift_write b +:+ s)
    = Some (N.of_nat (String.length (thrift_write b)), thrift_write b +:+ s)) as ->.
  { rewrite Hb, str_app_cons. by apply read_size_pretty. }
  rewrite Nat2N.id, str_take_app, str_drop_app, thrift_read_write.
  rewrite bool_decide_eq_false_2 by (rewrite str_length_app; lia).
  by rewrite Hb.
Qed.

(** The stream of a sequence of flushed buffers. *)
Definition stream (bs : list LogBuffer) : string := foldr (λ b s, message b +:+ s) "" bs.

Lemma stream_snoc bs b : stream (bs ++ [b]) = stream bs +:+ message b.
Proof.
  induction bs as [|b' bs IH]; simpl.
  - by rewrite str_app_nil_r, str_app_nil_l.
  - by rewrite IH, str_app_assoc.
Qed.

Lemma message_length b : 0 < String.length (message b).
Proof.
  unfold message. rewrite str_length_app. destruct (log_buffer_head b) as (c&t&->&_).
  simpl. lia.
Qed.

Lemma load_loop_stream fuel bs log :
  String.length (stream bs) < fuel →
  load_loop default_record fuel (stream bs) log
  = (OK, log ++ (record_of default_record <$> concat bs)).
Proof.
  revert fuel log. induction bs as [|b bs IH]; intros [|fuel] log Hf; simpl in Hf; try lia.
  - simpl. by rewrite app_nil_r.
  - change (stream (b :: bs)) with (message b +:+ stream bs).
    rewrite load_loop_message, IH.
    + simpl. by rewrite fmap_app, app_assoc.
    + pose proof (message_length b). rewrite str_length_app in Hf. lia.
Qed.

Lemma load_stream bs lm :
  load default_record (stream bs) lm
  = (OK, mkLogManager (record_of default_record <$> concat bs) (log_buffer_ lm)
           (last_flushed_txn_id_ lm)).
Proof. unfold load. rewrite load_loop_stream by lia. done. Qed.

(** *** Ordered logs *)

Definition txn_lt (r1 r2 : LogRecord R) : Prop := (txn_id r1 < txn_id r2)%Z.

Lemma drop_while_sorted l n t :
  StronglySorted txn_lt l →
  (∀ r, r ∈ take n l → (txn_id r ≤ t)%Z) → (∀ r, r ∈ drop n l → (t < txn_id r)%Z) →
  drop_while (λ r, Z.leb (txn_id r) t) l = drop n l.
Proof.
  intros Hs. revert n. induction Hs as [|r l Hs IH Hr]; intros [|n] Ht Hd; simpl in *; try done.
  - destruct (Z.leb_spec (txn_id r) t) as [Hle|]; [|done].
    specialize (Hd r ltac:(left)). lia.
  - destruct (Z.leb_spec (txn_id r) t) as [Hle|Hlt].
    + apply IH; intros ? Hin; [apply Ht; by right|by apply Hd].
    + specialize (Ht r ltac:(left)). lia.
Qed.

(** *** Durability

    A manager and the file it flushes to, driven by appends with growing
    transaction ids and by forced flushes, in any order. *)
Inductive log_step : LogManager R * string → LogManager R * string → Prop :=
  | step_append t x lm s :
      (0 < t < 2 ^ 64)%Z → (∀ r, r ∈ log_ lm → (txn_id r < t)%Z) →
      log_step (lm, s) ((append t x lm).2, s)
  | step_flush bytes lm s out lm' :
      flush bytes true lm = Done (OK, out, lm') →
      log_step (lm, s) (lm', s +:+ out).

Definition flushed_txn (l : list (LogRecord R)) : Z := from_option txn_id 0%Z (last l).

Record log_inv (lm : LogManager R) (s : string) (n : nat) : Prop := {
  li_sorted : StronglySorted txn_lt (log_ lm);
  li_valid : Forall valid_txn (log_ lm);
  li_buffer : log_buffer_ lm = [];
  li_bound : n ≤ length (log_ lm);
  li_flushed : last_flushed_txn_id_ lm = flushed_txn (take n (log_ lm));
  li_stream : ∃ bs, s = stream bs ∧ concat bs = entity_of <$> take n (log_ lm);
}.

Lemma sorted_snoc (l : list (LogRecord R)) r :
  StronglySorted txn_lt l → (∀ r', r' ∈ l → txn_lt r' r) → StronglySorted txn_lt (l ++ [r]).
Proof.
  induction 1 as [|x l Hs IH Hx]; intros Hr; simpl; [by repeat constructor|].
  constructor; [apply IH; intros; apply Hr; by right|].
  apply Forall_app. split; [done|]. constructor; [|done]. apply Hr. left.
Qed.

Lemma sorted_take_drop (l : list (LogRecord R)) n a b :
  StronglySorted txn_lt l → a ∈ take n l → b ∈ drop n l → txn_lt a b.
Proof.
  intros Hs. rewrite <-(take_drop n l) in Hs. revert Hs. generalize (drop n l).
  induction (take n l) as [|x l1 IH]; intros l2 Hs Ha Hb; [by apply elem_of_nil in Ha|].
  simpl in Hs. inversion_clear Hs as [|?? Hs' Hx]. rewrite Forall_forall in Hx.
  apply elem_of_cons in Ha as [->|Ha]; [|by apply (IH l2)].
  apply Hx, elem_of_app. by right.
Qed.

Lemma sorted_last (l : list (LogRecord R)) r a :
  StronglySorted txn_lt l → last l = Some r → a ∈ l → (txn_id a ≤ txn_id r)%Z.
Proof.
  intros Hs Hl Ha. apply last_Some in Hl as [l' ->].
  apply elem_of_app in Ha as [Ha|Ha%list_elem_of_singleton]; [|by subst].
  pose proof (sorted_take_drop (l' ++ [r]) (length l') a r Hs) as Hlt.
  rewrite take_app_length, drop_app_length in Hlt. unfold txn_lt in Hlt.
  specialize (Hlt Ha ltac:(left)). lia.
Qed.

Lemma sorted_take (l : list (LogRecord R)) n :
  StronglySorted txn_lt l → StronglySorted txn_lt (take n l).
Proof.
  intros Hs. revert n. induction Hs as [|x l Hs IH Hx]; intros [|n]; simpl; try by constructor.
  constructor; [done|]. by apply Forall_take.
Qed.

Lemma pending_records_inv lm s n :
  log_inv lm s n → pending_records lm = drop n (log_ lm).
Proof.
  intros [Hs Hv _ _ Hf _]. unfold pending_records. rewrite Hf. unfold flushed_txn.
  destruct (last (take n (log_ lm))) as [r|] eqn:Hl; simpl.
  - assert (valid_txn r) as Hr.
    { rewrite Forall_forall in Hv. apply Hv.
      rewrite <-(take_drop n), elem_of_app. left. by apply last_Some_elem_of. }
    destruct (Z.eqb_spec (txn_id r) 0) as [|_]; [unfold valid_txn in Hr; lia|].
    apply drop_while_sorted; [done|..].
    + intros a Ha. apply (sorted_last (take n (log_ lm))); auto using sorted_take.
    + intros b Hb. eapply sorted_take_drop; eauto using last_Some_elem_of.
  - apply last_None in Hl. destruct n as [|n]; [done|]. by destruct (log_ lm).
Qed.

Lemma log_inv_append t x lm s n :
  (0 < t < 2 ^ 64)%Z → (∀ r, r ∈ log_ lm → (txn_id r < t)%Z) →
  log_inv lm s n → log_inv (append t x lm).2 s n.
Proof.
  intros Ht Hlt [Hs Hv Hb Hn Hf Hst]. unfold append. simpl.
  assert (take n (log_ lm ++ [mkLogRecord t x]) = take n (log_ lm)) as Htk
    by by rewrite take_app_le.
  split; simpl; rewrite ?Htk; auto.
  - by apply sorted_snoc.
  - apply Forall_app. split; [done|]. repeat constructor; simpl; lia.
  - rewrite length_app. lia.
Qed.

Lemma log_inv_flush bytes lm s n out lm' :
  log_inv lm s n → flush bytes true lm = Done (OK, out, lm') →
  ∃ n', log_inv lm' (s +:+ out) n' ∧ n < n'.
Proof.
  intros Hinv Hflush. pose proof (pending_records_inv _ _ _ Hinv) as Hp.
  destruct Hinv as [Hs Hv Hb Hn Hf (bs&->&Hbs)].
  unfold flush in Hflush. rewrite Hp, Hb in Hflush.
  destruct (fill_spec bytes (get_log_buffer_size lm) (drop n (log_ lm)) []) as (m&Hfill&Hm&_).
  destruct (fill bytes _ _ _) as [e b]. simpl in Hfill. subst b.
  rewrite orb_true_r in Hflush.
  destruct (last _) as [e'|] eqn:Hl; [|done]. simplify_eq/=.
  rewrite fmap_last, fmap_Some in Hl. destruct Hl as (r&Hl&->).
  rewrite length_drop in Hm.
  assert (take (n + m) (log_ lm) = take n (log_ lm) ++ take m (drop n (log_ lm))) as Htk
    by by rewrite <-take_take_drop.
  exists (n + m). split; [split; simpl; rewrite ?Htk; auto|].
  - lia.
  - unfold flushed_txn. rewrite last_app, Hl. simpl. apply wrap_uint64_int64.
    rewrite Forall_forall in Hv. assert (valid_txn r) as Hr; [|unfold valid_txn in Hr; lia].
    apply Hv. rewrite <-(take_drop n), elem_of_app. right.
    rewrite <-(take_drop m (drop n _)), elem_of_app. left. by apply last_Some_elem_of.
  - exists (bs ++ [entity_of <$> take m (drop n (log_ lm))]). split.
    + by rewrite stream_snoc.
    + rewrite concat_app, Hbs, fmap_app. simpl. by rewrite app_nil_r.
  - destruct m; [done|lia].
Qed.


Lemma fill_size bytes (pending : list (LogRecord R)) buffer :
  (fill bytes (sum_list_with entity_size buffer) pending buffer).1
  = sum_list_with entity_size (fill bytes (sum_list_with entity_size buffer) pending buffer).2.
Proof.
  revert buffer. induction pending as [|r pending IH]; intros buffer; simpl; [done|].
  case_bool_decide.
  - cbn [fst snd]. rewrite sum_list_with_app. cbn [sum_list_with]. lia.
  - specialize (IH (buffer ++ [entity_of r])). rewrite sum_list_with_app in IH.
    cbn [sum_list_with] in IH. by rewrite Nat.add_0_r in IH.
Qed.

(** An unforced flush never looks at an empty buffer. *)
Lemma flush_unforced_total bytes lm :
  0 < bytes → ∃ out lm', flush bytes false lm = Done (OK, out, lm').
Proof.
  intros Hb. unfold flush, get_log_buffer_size.
  pose proof (fill_size bytes (pending_records lm) (log_buffer_ lm)) as Hs.
  destruct (fill _ _ _ _) as [e buffer]. simpl in Hs.
  rewrite orb_false_r. case_bool_decide; [|by eauto].
  destruct (last buffer) eqn:Hl; [by eauto|]. apply last_None in Hl. subst. simpl in *. lia.
Qed.

Lemma fill_short bytes existing (pending : list (LogRecord R)) buffer :
  existing + sum_list_with entity_size (entity_of <$> pending) < bytes →
  (fill bytes existing pending buffer) =
  (existing + sum_list_with entity_size (entity_of <$> pending),
   buffer ++ (entity_of <$> pending)).
Proof.
  revert existing buffer. induction pending as [|r pending IH]; intros existing buffer Hlt;
    cbn [fill fmap list_fmap sum_list_with] in *.
  { by rewrite Nat.add_0_r, app_nil_r. }
  rewrite bool_decide_eq_false_2 by lia. rewrite IH by lia.
  rewrite <-app_assoc. f_equal. lia.
Qed.

(** A flush that does not reach its size threshold moves the records to
    the buffer without noting it, so the next flush copies the same records
    again: the buffer of the second call holds them twice. *)
Theorem short_flush_copies_again bytes lm :
  let es := entity_of <$> pending_records lm in
  get_log_buffer_size lm + sum_list_with entity_size es
    + sum_list_with entity_size es < bytes →
  ∃ lm1 lm2,
    flush bytes false lm = Done (OK, "", lm1) ∧
    flush bytes false lm1 = Done (OK, "", lm2) ∧
    log_buffer_ lm2 = log_buffer_ lm ++ es ++ es.
Proof.
  intros es Hlt. unfold flush.
  rewrite fill_short by (fold es; lia). fold es. cbv beta iota zeta.
  rewrite bool_decide_eq_false_2 by lia. simpl orb. cbv iota.
  eexists _, _. split_and!; [done| |].
  - unfold get_log_buffer_size at 1. simpl log_buffer_.
    change (pending_records _) with (pending_records lm).
    rewrite fill_short by (fold es; unfold get_log_buffer_size in Hlt;
      rewrite sum_list_with_app; lia).
    fold es. cbv beta iota zeta. rewrite bool_decide_eq_false_2; [done|].
    unfold get_log_buffer_size in Hlt. rewrite sum_list_with_app. lia.
  - simpl. by rewrite <-app_assoc.
Qed.
End log_lemmas.

Section witnesses.
Import Reference.

#[local] Instance string_codec : ThriftCodec string := codec string.
#[local] Instance buffer_codec : ThriftCodec (list LogEntity) := codec (list LogEntity).
#[local] Instance string_codec_spec : ThriftCodecSpec string := codec_spec string.
#[local] Instance buffer_codec_spec : ThriftCodecSpec (list LogEntity) :=
  codec_spec (list LogEntity).

Lemma reference_log_format : LogBufferFormat.
Proof. intros b. by eexists "x"%char, _. Qed.

Definition one_record : LogManager string := mkLogManager [mkLogRecord 7 "up"] [] 0.
Definition one_flushed : LogManager string := mkLogManager [mkLogRecord 7 "up"] [] 7.
Definition one_stream : string :=
  message [{| e_txn_id := 7; e_data := thrift_write "up" |}].


Lemma short_flush_copies_again_witness :
  ∃ lm1 lm2,
    flush 800 false one_record = Done (OK, "", lm1) ∧
    flush 800 false lm1 = Done (OK, "", lm2) ∧
    length (log_buffer_ lm2) = 2.
Proof.
  destruct (short_flush_copies_again 800 one_record) as (lm1&lm2&H1&H2&H3).
  - apply Nat.ltb_lt. vm_compute. reflexivity.
  - exists lm1, lm2. split; [exact H1|]. split; [exact H2|]. rewrite H3. reflexivity.
Defined.

End witnesses.
