(* ===== verification/IndexInfo.v ===== *)
(** * [vsfs::index::IndexInfo] (index/index_info.cpp)

    The description of an index: where it is, its name, its data structure and
    its key type. *)

From S2P Require Import Prelude CxxString Platform RangeIndex.
From Stdlib Require Import Ascii.

(** The enumeration of index types. *)
Definition UNKNOWN_INDEX : Z := 0.
Definition HASH : Z := 1.
Definition BTREE : Z := 2.
Definition MULTIDIM : Z := 3.
Definition CONTENT : Z := 4.

(** [::tolower] in the C locale, over a whole string. *)
Definition to_lower_char (c : ascii) : ascii :=
  let n := N_of_ascii c in
  if bool_decide (65 ≤ n ∧ n ≤ 90)%N then ascii_of_N (n + 32) else c.
Fixpoint to_lower (s : string) : string :=
  match s with
  | EmptyString => EmptyString
  | String c s' => String (to_lower_char c) (to_lower s')
  end.

(** [IndexInfo::string_to_index_type] *)
Definition string_to_index_type (str : string) : Z :=
  let buf := to_lower str in
  if bool_decide (buf = "btree") then BTREE
  else if bool_decide (buf = "hash") then HASH
  else if bool_decide (buf = "content") then CONTENT
  else if bool_decide (buf = "multidim") then MULTIDIM
  else (-1)%Z.

(** [IndexInfo::index_type_to_string] *)
Definition index_type_to_string (idx_type : Z) : string :=
  if Z.eqb idx_type BTREE then "btree"
  else if Z.eqb idx_type HASH then "hash"
  else if Z.eqb idx_type CONTENT then "content"
  else if Z.eqb idx_type MULTIDIM then "multidim"
  else "unknown".

Record IndexInfo := mkIndexInfo {
  index_path_ : string;
  index_name_ : string;
  index_type_ : Z;
  key_type_ : Z;
}.

(** The numbers vobla gives to the first and the last key type. *)
Class TypeIDRange := { type_UNKNOWN : Z; type_STRING : Z }.

(** [IndexInfo::is_validate] *)
Definition is_validate `{TypeIDs} (info : IndexInfo) : bool :=
  let t := type_id_of_int (key_type_ info) in
  if Z.eqb (index_type_ info) BTREE || Z.eqb (index_type_ info) MULTIDIM then
    match t with Some (INT64 | UINT64 | FLOAT | DOUBLE) => true | _ => false end
  else if Z.eqb (index_type_ info) CONTENT then
    match t with Some STRING => true | _ => false end
  else true.

(** The constructors. *)
Definition default_info `{TypeIDRange} (path name : string) : IndexInfo :=
  mkIndexInfo path name UNKNOWN_INDEX type_UNKNOWN.
Definition new_info (idx_path name : string) (idx_type k_type : Z) : IndexInfo :=
  mkIndexInfo idx_path name idx_type k_type.

(** [index_type_string()] *)
Definition index_type_string (info : IndexInfo) : string := index_type_to_string (index_type_ info).

(** The setters. *)
Definition set_path (p : string) (info : IndexInfo) : IndexInfo :=
  mkIndexInfo p (index_name_ info) (index_type_ info) (key_type_ info).
Definition set_index_name (name : string) (info : IndexInfo) : run IndexInfo :=
  CHECK negb (str_empty name) ELSE "CHECK(!name.empty())";;
  Done (mkIndexInfo (index_path_ info) name (index_type_ info) (key_type_ info)).
Definition set_index_type (type : Z) (info : IndexInfo) : run IndexInfo :=
  CHECK Z.leb HASH type ELSE "CHECK_GE(type, HASH)";;
  CHECK Z.leb type CONTENT ELSE "CHECK_LE(type, CONTENT)";;
  Done (mkIndexInfo (index_path_ info) (index_name_ info) type (key_type_ info)).
Definition set_key_type `{TypeIDRange} (type : Z) (info : IndexInfo) : run IndexInfo :=
  CHECK Z.ltb type_UNKNOWN type ELSE "CHECK_GT(type, UNKNOWN)";;
  CHECK Z.leb type type_STRING ELSE "CHECK_LE(type, STRING)";;
  Done (mkIndexInfo (index_path_ info) (index_name_ info) (index_type_ info) type).

(** ** Properties *)

(** The name of an index type parses back to it exactly for the types a
    setter accepts; any other number prints as [unknown], which parses to -1. *)
Theorem index_type_name_roundtrip t info :
  string_to_index_type (index_type_to_string t)
  = match set_index_type t info with Done info' => index_type_ info' | Fatal _ => (-1)%Z end.
Proof.
  unfold index_type_to_string, set_index_type, HASH, BTREE, MULTIDIM, CONTENT.
  destruct (Z.eqb_spec t 2); [by subst|]. destruct (Z.eqb_spec t 1); [by subst|].
  destruct (Z.eqb_spec t 4); [by subst|]. destruct (Z.eqb_spec t 3); [by subst|].
  simpl check. destruct (Z.leb_spec 1 t); simpl; [|done].
  destruct (Z.leb_spec t 4); simpl; [lia|done].
Qed.

(** The spelling of the name does not depend on letter case. *)
Lemma to_lower_char_idem c : to_lower_char (to_lower_char c) = to_lower_char c.
Proof. by destruct c as [[] [] [] [] [] [] [] []]. Qed.
Lemma to_lower_idem s : to_lower (to_lower s) = to_lower s.
Proof. induction s as [|c s IH]; simpl; [done|]. by rewrite to_lower_char_idem, IH. Qed.
Lemma string_to_index_type_lower s :
  string_to_index_type (to_lower s) = string_to_index_type s.
Proof. unfold string_to_index_type. by rewrite to_lower_idem. Qed.
