(* ===== verification/RangeIndexWrapper.v ===== *)
(** * [IndexManager::RangeIndexWrapper] (indexd/index_manager.cpp, .h)

    An in-memory range index together with the log of the updates that are not
    merged into it yet.  Updates are acknowledged once they are logged; a
    search first merges the log up to its transaction.  The index is used
    through its virtual interface only. *)

From S2P Require Import Prelude CxxString Platform IndexImpl RangeIndex LogManager.

(** [RpcIndexRecordUpdateList] (rpc/vsfs.thrift) *)
Record RpcIndexRecordUpdateList := {
  root_path : string;
  list_name : string;
  record_updates : list RpcIndexRecordUpdateOp;
}.

Inductive wrapper_status := NORMAL | MIGRATING.
#[export] Instance wrapper_status_eq_dec : EqDecision wrapper_status.
Proof. solve_decision. Defined.

Record RangeIndexWrapper (I : Type) := mkWrapper {
  base_path_ : string;
  index_ : I;
  log_manager_ : LogManager RpcIndexRecordUpdateList;
  status_ : wrapper_status;
  dirty_ : bool;
  last_merged_log_id_ : Z;
}.
Arguments mkWrapper {I} _ _ _ _ _ _.
Arguments base_path_ {I} _.
Arguments index_ {I} _.
Arguments log_manager_ {I} _.
Arguments status_ {I} _.
Arguments dirty_ {I} _.
Arguments last_merged_log_id_ {I} _.

Section wrapper.
Context {I : Type} `{RangeIndexInterface I}.
Context `{ThriftCodec RpcIndexRecordUpdateList, ThriftCodec (list LogEntity)}.
(** The command-line flags. *)
Context (FLAGS_update_immediately : bool) (FLAGS_flush_log_size : nat).
Implicit Types (w : RangeIndexWrapper I).

(** The constructor; [last_merged_log_id_] is not initialised, [junk] is what
    the memory held. *)
Definition new_wrapper (junk : Z) (path : string) (ri : I) (dty : bool) : RangeIndexWrapper I :=
  mkWrapper path ri new NORMAL dty junk.

Definition set_status (s : wrapper_status) w : RangeIndexWrapper I :=
  mkWrapper (base_path_ w) (index_ w) (log_manager_ w) s (dirty_ w) (last_merged_log_id_ w).

(** [update(txn_id, updates)] *)
Definition update (t : Z) (updates : RpcIndexRecordUpdateList) w
  : run (Status * RangeIndexWrapper I) :=
  if FLAGS_update_immediately then
    '(status, index') ← ri_apply (record_updates updates) (index_ w);
    Done (status, mkWrapper (base_path_ w) index' (log_manager_ w) (status_ w)
                    (if ok status then true else dirty_ w) (last_merged_log_id_ w))
  else
    let '(status, lm') := append t updates (log_manager_ w) in
    Done (status, mkWrapper (base_path_ w) (index_ w) lm' (status_ w)
                    (if ok status then true else dirty_ w) (last_merged_log_id_ w)).

(** The loop of [merge]: stops at the first record that fails to apply. *)
Fixpoint merge_records (records : list RpcIndexRecordUpdateList) (index : I)
  : run (Status * I) :=
  match records with
  | [] => Done (OK, index)
  | updates :: records' =>
      '(status, index') ← ri_apply (record_updates updates) index;
      if ok status then merge_records records' index' else Done (status, index')
  end.

(** [merge(txn_id)] *)
Definition merge (t : Z) w : run (Status * RangeIndexWrapper I) :=
  if bool_decide (status_ w = MIGRATING) then
    Done (Err (-2) "This index is under migration.", w)
  else
    let '(status, records) := scan t (log_manager_ w) in
    if ok status then
      '(status, index') ← merge_records records (index_ w);
      if ok status then
        Done (OK, mkWrapper (base_path_ w) index' (log_manager_ w) (status_ w) true t)
      else
        Done (status, mkWrapper (base_path_ w) index' (log_manager_ w) (status_ w) (dirty_ w)
                        (last_merged_log_id_ w))
    else Done (status, w).

(** [search(txn_id, query, results)]; the status of the index search is
    dropped, the status tested after it is that of the merge. *)
Definition search (t : Z) (query : RpcRangeQuery) w
  : run (Status * list Z * RangeIndexWrapper I) :=
  '(status, w') ← merge t w;
  if ok status then Done (OK, (ri_search query (index_ w')).2, w')
  else Done (status, [], w').

(** [flush_index()]: the body is commented out. *)
Definition flush_index w : Status * RangeIndexWrapper I := (OK, w).

(** [flush_log(force)]: [opened] says whether the log file could be opened;
    the string is what is appended to it. *)
Definition flush_log (opened force : bool) w : run (Status * string * RangeIndexWrapper I) :=
  if opened then
    '(status, out, lm) ← flush FLAGS_flush_log_size force (log_manager_ w);
    let lm' := if ok status
               then erase (Z.min (last_merged_log_id_ w) (last_flushed_txn_id_ lm)) lm
               else lm in
    Done (status, out, mkWrapper (base_path_ w) (index_ w) lm' (status_ w) (dirty_ w)
                         (last_merged_log_id_ w))
  else Done (Err (-1) "Failed to flush logs.", "", w).
End wrapper.

(** ** Refinement: a search sees exactly the acknowledged updates *)

(** The updates of a list of log records, in order. *)
Definition ups_of (l : list (LogRecord RpcIndexRecordUpdateList)) : list RpcIndexRecordUpdateOp :=
  l ≫= λ r, record_updates (record r).

Definition up_to (t : Z) (l : list (LogRecord RpcIndexRecordUpdateList))
  : list (LogRecord RpcIndexRecordUpdateList) := filter (λ r, (txn_id r ≤ t)%Z) l.

Section refinement.
Context {I : Type} `{RangeIndexInterfaceSpec I}.
Context `{ThriftCodec RpcIndexRecordUpdateList, ThriftCodec (list LogEntity)}.
Context (flush_size : nat).
Implicit Types (w : RangeIndexWrapper I) (h l : list (LogRecord RpcIndexRecordUpdateList)).

(** A wrapper, the history of the updates it acknowledged, and how many of them
    are merged into the index.  The transaction ids of the history do not
    decrease (the client sends 0 all the time), a merge is not older than the
    one before it, and the log is flushed only when no update with an id up to
    the last merge is waiting. *)
Inductive wrapper_step :
  RangeIndexWrapper I * list (LogRecord RpcIndexRecordUpdateList) * nat →
  RangeIndexWrapper I * list (LogRecord RpcIndexRecordUpdateList) * nat → Prop :=
  | ws_update t u w w' h n :
      (∀ r, r ∈ h → (txn_id r ≤ t)%Z) → update false t u w = Done (OK, w') →
      wrapper_step (w, h, n) (w', h ++ [mkLogRecord t u], n)
  | ws_merge t w w' h n :
      (last_merged_log_id_ w ≤ t)%Z → merge t w = Done (OK, w') →
      wrapper_step (w, h, n) (w', h, length (up_to t h))
  | ws_search t q rs w w' h n :
      (last_merged_log_id_ w ≤ t)%Z → search t q w = Done (OK, rs, w') →
      wrapper_step (w, h, n) (w', h, length (up_to t h))
  | ws_flush opened force s out w w' h n :
      (∀ r, r ∈ drop n h → (last_merged_log_id_ w < txn_id r)%Z) →
      flush_log flush_size opened force w = Done (s, out, w') →
      wrapper_step (w, h, n) (w', h, n)
  | ws_status s w h n : wrapper_step (w, h, n) (set_status s w, h, n).

Definition txn_le (r1 r2 : LogRecord RpcIndexRecordUpdateList) : Prop := (txn_id r1 ≤ txn_id r2)%Z.

(** [i0] is the index the wrapper was created with. *)
Record wrapper_inv (i0 : I) w h (n : nat) : Prop := {
  wi_sorted : StronglySorted txn_le h;
  wi_bound : n ≤ length h;
  wi_merged : ∀ r, r ∈ take n h → (txn_id r ≤ last_merged_log_id_ w)%Z;
  wi_log : ∃ g, g ≤ n ∧ log_ (log_manager_ w) = drop g h;
  wi_index : ri_apply (ups_of (take n h)) i0 = Done (OK, index_ w);
}.

Lemma ups_of_app l1 l2 : ups_of (l1 ++ l2) = ups_of l1 ++ ups_of l2.
Proof. apply bind_app. Qed.

Lemma merge_records_apply l i i' :
  merge_records (record <$> l) i = Done (OK, i') ↔ ri_apply (ups_of l) i = Done (OK, i').
Proof.
  revert i. induction l as [|r l IH]; intros i; simpl.
  { by rewrite ri_apply_nil. }
  change (ups_of (r :: l)) with (record_updates (record r) ++ ups_of l).
  rewrite ri_apply_app.
  destruct (ri_apply (record_updates (record r)) i) as [[s i1]|] eqn:Ha; simpl; [|naive_solver].
  destruct (ok s) eqn:Hs.
  - rewrite (ri_apply_ok _ _ _ _ Ha Hs), IH. naive_solver.
  - split; [intros; by simplify_eq|]. intros (?&?&?). by simplify_eq.
Qed.

Lemma merge_records_ok (l : list RpcIndexRecordUpdateList) (i : I) s i' :
  merge_records l i = Done (s, i') → ok s = true → s = OK.
Proof.
  revert i. induction l as [|u l IH]; intros i; simpl; [by intros; simplify_eq|].
  destruct (ri_apply _ _) as [[s1 i1]|]; simpl; [|done].
  destruct (ok s1) eqn:?; [by eauto|]. intros; simplify_eq; congruence.
Qed.

(** *** Ordered histories *)

Lemma up_to_app t l1 l2 : up_to t (l1 ++ l2) = up_to t l1 ++ up_to t l2.
Proof. apply filter_app. Qed.

Lemma up_to_all t l : (∀ r, r ∈ l → (txn_id r ≤ t)%Z) → up_to t l = l.
Proof.
  intros Hl. unfold up_to. induction l as [|r l IH]; [done|].
  rewrite filter_cons_True by (apply Hl; left). f_equal. apply IH.
  intros ? ?. apply Hl. by right.
Qed.
Lemma up_to_none t l : (∀ r, r ∈ l → (t < txn_id r)%Z) → up_to t l = [].
Proof.
  intros Hl. apply elem_of_nil_inv. intros r [Ht Hr]%list_elem_of_filter.
  specialize (Hl r Hr). lia.
Qed.

Lemma take_while_up_to t l :
  StronglySorted txn_le l → take_while (λ r, Z.leb (txn_id r) t) l = up_to t l.
Proof.
  unfold up_to. induction 1 as [|r l Hs IH Hr]; [done|]. simpl. rewrite filter_cons.
  destruct (Z.leb_spec (txn_id r) t).
  - rewrite decide_True by done. by rewrite IH.
  - rewrite decide_False by lia. symmetry. apply up_to_none. intros r' Hr'.
    rewrite Forall_forall in Hr. specialize (Hr r' Hr'). unfold txn_le in Hr. lia.
Qed.

Lemma up_to_take t l n :
  (∀ r, r ∈ take n l → (txn_id r ≤ t)%Z) → up_to t l = take n l ++ up_to t (drop n l).
Proof. intros Hl. rewrite <-(take_drop n l) at 1. by rewrite up_to_app, (up_to_all t (take n l)). Qed.

Lemma sorted_drop n l : StronglySorted txn_le l → StronglySorted txn_le (drop n l).
Proof. rewrite <-(take_drop n l) at 1. apply StronglySorted_app_1_r. Qed.

(** The records up to [t] are the first ones. *)
Lemma up_to_prefix t l : StronglySorted txn_le l → take (length (up_to t l)) l = up_to t l.
Proof.
  intros Hs. rewrite <-(take_while_up_to t l Hs). clear Hs.
  induction l as [|r l IH]; [done|]. simpl. case_match; simpl; by rewrite ?IH.
Qed.

(** *** Merging *)

(** What a merge computes, whether or not it has to replay merged records. *)
Lemma merge_replays i0 w h n t i' :
  ri_wf i0 → wrapper_inv i0 w h n → (last_merged_log_id_ w ≤ t)%Z →
  merge_records (scan t (log_manager_ w)).2 (index_ w) = Done (OK, i') ↔
  ri_apply (ups_of (up_to t h)) i0 = Done (OK, i').
Proof.
  intros Hwf [Hs Hn Hmerged (g&Hg&Hlog) Hidx] Ht.
  assert (∀ m, m ≤ n → ∀ r, r ∈ take m h → (txn_id r ≤ t)%Z) as Hold.
  { intros m Hm r Hr. transitivity (last_merged_log_id_ w); [|done]. apply Hmerged.
    apply elem_of_take in Hr as (i&Hi&Hlt). apply elem_of_take.
    exists i. split; [done|lia]. }
  unfold scan. simpl. rewrite Hlog, take_while_up_to, merge_records_apply by by apply sorted_drop.
  set (B := take (n - g) (drop g h)). set (C := up_to t (drop n h)).
  assert (take n h = take g h ++ B) as Hnb.
  { unfold B. by rewrite take_take_drop, Nat.add_comm, Nat.sub_add. }
  assert (up_to t (drop g h) = B ++ C) as ->.
  { apply (app_inv_head (take g h)).
    rewrite <-(up_to_take t h g), app_assoc, <-Hnb by by apply Hold.
    by apply up_to_take, (Hold n). }
  unfold C. clear C. rewrite (up_to_take t h n), Hnb, !ups_of_app, <-app_assoc in * by by apply (Hold n).
  apply ri_apply_app in Hidx as (ie&He&Hidx).
  assert (ri_wf ie) as Hwe by eauto using ri_apply_wf.
  rewrite (ri_apply_app (ups_of (take g h))). split.
  - intros Ha. exists ie. split; [done|]. by eapply ri_apply_replay.
  - intros (ie'&He'&Ha). rewrite He in He'. simplify_eq.
    destruct (ri_apply_stable _ _ _ _ _ Hidx Ha) as [i3 Hi3].
    pose proof (ri_apply_replay _ _ _ _ _ Hwe Hidx Hi3). congruence.
Qed.

Lemma merge_OK t w w' :
  merge t w = Done (OK, w') ↔
  status_ w = NORMAL ∧ ∃ i',
    merge_records (scan t (log_manager_ w)).2 (index_ w) = Done (OK, i') ∧
    w' = mkWrapper (base_path_ w) i' (log_manager_ w) (status_ w) true t.
Proof.
  unfold merge. destruct (status_ w); simpl; [|naive_solver].
  destruct (merge_records _ _) as [[s i']|] eqn:Hm; simpl; [|naive_solver].
  destruct (ok s) eqn:Hs.
  - rewrite (merge_records_ok _ _ _ _ Hm Hs). naive_solver.
  - split; [intros; by simplify_eq|]. intros (_&?&?&_). by simplify_eq.
Qed.

Lemma merge_ok t w s w' : merge t w = Done (s, w') → ok s = true → s = OK.
Proof.
  unfold merge. case_bool_decide; [intros; by simplify_eq|]. simpl.
  destruct (merge_records _ _) as [[s1 i1]|] eqn:Hm; simpl; [|done].
  destruct (ok s1) eqn:Hs; intros; simplify_eq; [done|congruence].
Qed.

Lemma search_OK t q w rs w' :
  search t q w = Done (OK, rs, w') ↔
  merge t w = Done (OK, w') ∧ rs = (ri_search q (index_ w')).2.
Proof.
  unfold search. destruct (merge t w) as [[s w1]|] eqn:Hm; simpl; [|naive_solver].
  destruct (ok s) eqn:Hs.
  - rewrite (merge_ok _ _ _ _ Hm Hs). naive_solver.
  - split; intros; naive_solver.
Qed.

Lemma wrapper_inv_merge i0 w h n t w' :
  ri_wf i0 → wrapper_inv i0 w h n → (last_merged_log_id_ w ≤ t)%Z →
  merge t w = Done (OK, w') → wrapper_inv i0 w' h (length (up_to t h)).
Proof.
  intros Hwf Hinv Ht (_&i'&Hm&->)%merge_OK.
  apply (merge_replays i0 w h n) in Hm; [|done..].
  destruct Hinv as [Hs Hn Hmerged (g&Hg&Hlog) _].
  pose proof (up_to_prefix t h Hs) as Hpre.
  split; simpl; [done| | | |].
  - rewrite <-Hpre, length_take. lia.
  - intros r. rewrite Hpre. by intros [? _]%list_elem_of_filter.
  - exists g. split; [|done]. transitivity n; [done|].
    rewrite (up_to_take t h n), length_app, length_take_le by
      (done || (intros r Hr; specialize (Hmerged r Hr); lia)). lia.
  - by rewrite Hpre.
Qed.

Lemma wrapper_inv_update i0 w h n t u w' :
  (∀ r, r ∈ h → (txn_id r ≤ t)%Z) →
  wrapper_inv i0 w h n → update false t u w = Done (OK, w') →
  wrapper_inv i0 w' (h ++ [mkLogRecord t u]) n.
Proof.
  intros Hle [Hs Hn Hmerged (g&Hg&Hlog) Hidx] Hu. unfold update in Hu. simplify_eq/=.
  split; simpl.
  - apply StronglySorted_app_2; [|done|repeat constructor].
    intros r r' Hr ->%list_elem_of_singleton. by apply Hle.
  - rewrite length_app. lia.
  - by rewrite take_app_le.
  - exists g. split; [done|]. by rewrite Hlog, drop_app_le by lia.
  - by rewrite take_app_le.
Qed.

Lemma flush_log_lm bytes force (lm lm' : LogManager RpcIndexRecordUpdateList) s out :
  flush bytes force lm = Done (s, out, lm') → log_ lm' = log_ lm.
Proof.
  unfold flush. destruct (fill _ _ _ _). case_match; [|by intros; simplify_eq].
  case_match; by intros; simplify_eq.
Qed.

Lemma wrapper_inv_flush i0 w h n opened force s out w' :
  (∀ r, r ∈ drop n h → (last_merged_log_id_ w < txn_id r)%Z) →
  wrapper_inv i0 w h n → flush_log flush_size opened force w = Done (s, out, w') →
  wrapper_inv i0 w' h n.
Proof.
  intros Hwait [Hs Hn Hmerged (g&Hg&Hlog) Hidx] Hf. unfold flush_log in Hf.
  destruct opened; [|simplify_eq; split; eauto].
  destruct (flush _ _ _) as [[[s' out'] lm]|] eqn:Hfl; simplify_eq/=.
  apply flush_log_lm in Hfl. split; simpl; [done..| |done].
  case_match; [|by exists g; rewrite Hfl]. simpl. rewrite Hfl, Hlog. set (t := Z.min _ _).
  assert (∀ m, m ≤ n → ∃ g', g' ≤ n ∧
    drop_while (λ r, Z.leb (txn_id r) t) (drop m h) = drop g' h) as Hdrop; [|by apply Hdrop].
  intros m. remember (n - m) as d eqn:Hd. revert m Hd. induction d as [|d IH]; intros m Hd Hm.
  - exists n. split; [done|]. replace m with n by lia.
    destruct (drop n h) as [|r l] eqn:Hr; [done|]. simpl.
    destruct (Z.leb_spec (txn_id r) t); [|done].
    assert (last_merged_log_id_ w < txn_id r)%Z by (apply Hwait; left). lia.
  - destruct (h !! m) as [r|] eqn:Hr; [|apply lookup_ge_None in Hr; lia].
    rewrite (drop_S _ _ _ Hr). simpl. case_match; [apply IH; lia|].
    exists m. split; [lia|]. by rewrite (drop_S _ _ _ Hr).
Qed.

Lemma wrapper_inv_reachable i0 path junk dty w h n :
  ri_wf i0 →
  rtc wrapper_step (new_wrapper junk path i0 dty, [], 0) (w, h, n) → wrapper_inv i0 w h n.
Proof.
  intros Hwf Hrtc.
  apply (rtc_invariant wrapper_step (λ st, wrapper_inv i0 st.1.1 st.1.2 st.2)) in Hrtc; [done|..].
  - intros [[w1 h1] n1] st2 Hinv Hstep. inversion Hstep; subst; simpl in *.
    + eauto using wrapper_inv_update.
    + eauto using wrapper_inv_merge.
    + match goal with E : search _ _ _ = _ |- _ => apply search_OK in E as [? _] end.
      eauto using wrapper_inv_merge.
    + eauto using wrapper_inv_flush.
    + by destruct Hinv.
  - split; simpl; [constructor|done|by intros ? ?%elem_of_nil|by exists 0|].
    apply ri_apply_nil.
Qed.

(** C5: a search sees exactly the acknowledged updates.  Let a wrapper be
    driven by updates, merges, searches, log flushes and status changes in any
    order, with transaction ids that do not decrease and flushes that do not
    overtake a merge.  If the updates up to transaction [t] are applicable at
    all, a search at [t] succeeds and answers from the index obtained by
    applying them once, in order, to the index the wrapper was created with:
    replaying records that are merged already, and erasing flushed ones, has
    no effect. *)
Theorem search_sees_acknowledged_updates i0 path junk dty w h n t q i :
  ri_wf i0 →
  rtc wrapper_step (new_wrapper junk path i0 dty, [], 0) (w, h, n) →
  status_ w = NORMAL → (last_merged_log_id_ w ≤ t)%Z →
  ri_apply (ups_of (up_to t h)) i0 = Done (OK, i) →
  ∃ w', search t q w = Done (OK, (ri_search q i).2, w') ∧ index_ w' = i.
Proof.
  intros Hwf Hrtc%wrapper_inv_reachable Hst Ht Ha; [|done].
  apply (merge_replays i0 w h n t) in Ha; [|done..].
  exists (mkWrapper (base_path_ w) i (log_manager_ w) (status_ w) true t).
  rewrite search_OK, merge_OK. eauto 10.
Qed.

(** When the updates carry transaction id 0, which is what the client
    sends, one pass of the background flusher drops every logged update that
    was not merged yet: nothing is written to the log file, the index is
    unchanged, and no later merge can bring the updates back. *)
Theorem flush_drops_unmerged_updates w :
  (∀ r, r ∈ log_ (log_manager_ w) → txn_id r = 0%Z) →
  last_flushed_txn_id_ (log_manager_ w) = 0%Z → (0 ≤ last_merged_log_id_ w)%Z →
  get_log_buffer_size (log_manager_ w)
    + sum_list_with entity_size (entity_of <$> log_ (log_manager_ w)) < flush_size →
  ∃ w', flush_log flush_size true false w = Done (OK, "", w') ∧
    index_ w' = index_ w ∧ log_ (log_manager_ w') = [] ∧
    ∀ t, (scan t (log_manager_ w')).2 = [].
Proof.
  intros Hz Hf Hm Hlt. unfold flush_log, flush, pending_records. rewrite Hf. simpl Z.eqb. cbv iota.
  rewrite fill_short by done. simpl. rewrite bool_decide_eq_false_2 by lia. simpl.
  eexists. split; [done|]. simpl.
  assert (drop_while (λ r, Z.leb (txn_id r) (Z.min (last_merged_log_id_ w) 0))
    (log_ (log_manager_ w)) = []) as ->; [|done].
  apply drop_while_all. intros r Hr. rewrite Hz by done. apply Z.leb_le. lia.
Qed.
End refinement.

Section witnesses.
Import Reference.

#[local] Instance updates_codec : ThriftCodec RpcIndexRecordUpdateList := {
  thrift_write u := "x"; thrift_read s := None }.
#[local] Instance buffer_codec : ThriftCodec (list LogEntity) := codec (list LogEntity).
#[local] Instance types : TypeIDs := λ t, if Z.eqb t 0 then None else Some INT64.
#[local] Instance casts : KeyCasts := {
  cast_int _ s := Some (Z.of_N (read_digits 0 s).1);
  cast_float _ _ := None;
  cast_string := Some }.

Definition empty_index : RangeIndexObject := IntIndex INT64 ∅.
Definition insert_3_7 : RpcIndexRecordUpdateList :=
  {| root_path := "/a/.vsfs/x/0"; list_name := "x";
     record_updates := [{| op := INSERT; key := "3"; value := "7" |}] |}.
Definition remove_3_7 : RpcIndexRecordUpdateList :=
  {| root_path := "/a/.vsfs/x/0"; list_name := "x";
     record_updates := [{| op := REMOVE; key := "3"; value := "7" |}] |}.
Definition all_keys : RpcRangeQuery :=
  {| q_index_path := "/a/.vsfs/x/0"; q_name := "x"; q_lower := ""; q_lower_open := false;
     q_upper := ""; q_upper_open := false |}.

Definition logged_once : RangeIndexWrapper RangeIndexObject :=
  mkWrapper "/b" empty_index (mkLogManager [mkLogRecord 5 insert_3_7] [] 0) NORMAL true 0.

Lemma search_sees_acknowledged_updates_witness :
  ∃ w', search 5 all_keys logged_once = Done (OK, [7%Z], w').
Proof.
  edestruct (search_sees_acknowledged_updates 100 empty_index "/b" 0 true logged_once
    [mkLogRecord 5 insert_3_7] 0 5 all_keys) as (w'&Hs&_).
  - apply index_wf_empty.
  - eapply rtc_l; [|apply rtc_refl].
    apply (ws_update 100 5 insert_3_7 (new_wrapper 0 "/b" empty_index true) logged_once [] 0).
    + intros r Hr. inversion Hr.
    + reflexivity.
  - reflexivity.
  - vm_compute. discriminate.
  - vm_compute. reflexivity.
  - exists w'. rewrite Hs. vm_compute. reflexivity.
Defined.

Definition unmerged_zero : RangeIndexWrapper RangeIndexObject :=
  mkWrapper "/b" empty_index (mkLogManager [mkLogRecord 0 insert_3_7] [] 0) NORMAL true 0.

Lemma flush_drops_unmerged_updates_witness :
  ∃ w', flush_log 100 true false unmerged_zero = Done (OK, "", w') ∧
    search 0 all_keys w' = Done (OK, [], mkWrapper "/b" empty_index (log_manager_ w') NORMAL true 0).
Proof.
  destruct (flush_drops_unmerged_updates 100 unmerged_zero) as (w'&Hf&_&_&_).
  - intros r Hr. apply list_elem_of_singleton in Hr as ->. reflexivity.
  - reflexivity.
  - vm_compute. discriminate.
  - apply Nat.ltb_lt. vm_compute. reflexivity.
  - exists w'. split; [exact Hf|].
    vm_compute in Hf. injection Hf as <-. vm_compute. reflexivity.
Defined.

(** The order of merges matters.  After a removal was merged, a search
    with an older transaction id replays the insertion alone and finds the
    removed record again. *)
Theorem older_search_resurrects_removed_record :
  let w := mkWrapper "/b" empty_index
             (mkLogManager [mkLogRecord 1 insert_3_7; mkLogRecord 2 remove_3_7] [] 0)
             NORMAL true 0 in
  ∃ w1 w2,
    search 2 all_keys w = Done (OK, [], w1) ∧
    search 1 all_keys w1 = Done (OK, [7%Z], w2).
Proof. do 2 eexists. split; vm_compute; reflexivity. Qed.

End witnesses.
