(* ===== verification/IndexManager.v ===== *)
(** * The index server (indexd/index_manager.cpp, index_server.cpp)

    The manager of all in-memory indices of one index server, and the RPC
    handlers, which reach it through the controller of [IndexController]. *)

From S2P Require Import Prelude CxxString Platform PathUtil ThriftUtils.
From S2P Require Import IndexImpl RangeIndex LogManager IndexInfo RangeIndexWrapper.

(** The RPC structures (rpc/vsfs.thrift). *)
Record RpcIndexUpdate := {
  u_txn_id : Z;
  u_updates : list RpcIndexRecordUpdateList;
}.
Record RpcComplexQuery := {
  cq_txn_id : Z;
  cq_root : string;
  cq_range_queries : list RpcRangeQuery;
}.
Record RpcIndexInfoRequest := { ir_txn_id : Z; ir_path : string; ir_recursive : bool }.
Record RpcIndexInfo := {
  rii_path : string;
  rii_name : string;
  rii_type : Z;
  rii_key_type : Z;
  rii_num_records : nat;
}.
Record RpcIndexCreateRequest := {
  cr_root : string;
  cr_name : string;
  cr_index_type : Z;
  cr_key_type : Z;
  cr_mode : Z;
  cr_uid : Z;
  cr_gid : Z;
}.

Record IndexManager (I : Type) := mkIndexManager {
  basedir_ : string;
  index_info_map_ : gmap string IndexInfo;
  range_index_map_ : gmap string (RangeIndexWrapper I);
}.
Arguments mkIndexManager {I} _ _ _.
Arguments basedir_ {I} _.
Arguments index_info_map_ {I} _.
Arguments range_index_map_ {I} _.

Section index_manager.
Context {I : Type} `{RangeIndexInterface I, MD5}.
Context `{ThriftCodec RpcIndexRecordUpdateList, ThriftCodec (list LogEntity)}.
Context (FLAGS_update_immediately : bool) (FLAGS_flush_log_size : nat).
(** The content of an uninitialised field. *)
Context (junk : Z).
Implicit Types (im : IndexManager I).

(** [get_index_file_base_path(root_path)] *)
Definition get_index_file_base_path im (root : string) : string :=
  basedir_ im +:+ "/" +:+ to_string (path_to_hash root).

(** [get_index_key(root_path, name)], which has no caller. *)
Definition get_index_key (root name : string) : string := root +:+ ":" +:+ name.

(** The constructor, which also starts the background thread. *)
Definition new_manager (basedir : string) : IndexManager I := mkIndexManager basedir ∅ ∅.

(** [get_index_info(key)] *)
Definition get_index_info im (k : string) : option IndexInfo := index_info_map_ im !! k.

Definition set_wrapper (k : string) (w : RangeIndexWrapper I) im : IndexManager I :=
  mkIndexManager (basedir_ im) (index_info_map_ im) (<[k := w]> (range_index_map_ im)).

(** [create(txn_id, root_path, name, index_type, key_type)] *)
Definition create (root name : string) (index_type key_type : Z) im : Status * IndexManager I :=
  if str_empty root || str_empty name then (Err (- EINVAL) "Invalid parameters.", im)
  else
    let index_key := root in
    match index_info_map_ im !! index_key with
    | Some _ => (Err (- EEXIST) "The index is existed.", im)
    | None =>
        if Z.eqb index_type BTREE then
          match create_range_index key_type with
          | None => (Err (- EINVAL) ("Unknown key type: " +:+ to_string key_type), im)
          | Some range_index =>
              let base_path := get_index_file_base_path im root in
              (OK, mkIndexManager (basedir_ im)
                     (<[index_key := new_info root name index_type key_type]>
                        (index_info_map_ im))
                     (<[index_key := new_wrapper junk base_path range_index true]>
                        (range_index_map_ im)))
          end
        else if Z.eqb index_type HASH then (OK, im)
        else (Err (- EINVAL) "Unknown index type.", im)
    end.

(** [destroy(txn_id, root, name)]; the removal of the files under the base
    path does not touch the manager. *)
Definition destroy (root name : string) im : Status * IndexManager I :=
  if str_empty root || str_empty name then (Err (- EINVAL) "Invalid parameters.", im)
  else
    let index_key := root in
    match index_info_map_ im !! index_key with
    | None => (Err (- ENOENT) "Index does not existed.", im)
    | Some info =>
        let infos' := delete index_key (index_info_map_ im) in
        if Z.eqb (index_type_ info) BTREE then
          (OK, mkIndexManager (basedir_ im) infos' (delete index_key (range_index_map_ im)))
        else if Z.eqb (index_type_ info) HASH then
          (OK, mkIndexManager (basedir_ im) infos' (range_index_map_ im))
        else (Err (- EINVAL) "Unknown index type.",
              mkIndexManager (basedir_ im) infos' (range_index_map_ im))
    end.

(** [range_index_map_[key].get()] followed by [CHECK_NOTNULL]. *)
Definition get_wrapper im (k : string) : run (RangeIndexWrapper I) :=
  match range_index_map_ im !! k with
  | Some w => Done w
  | None => Fatal "CHECK_NOTNULL(index)"
  end.

(** [update_single_index(txn_id, updates)] *)
Definition update_single_index (t : Z) (updates : RpcIndexRecordUpdateList) im
  : run (Status * IndexManager I) :=
  let index_key := root_path updates in
  match get_index_info im index_key with
  | None => Done (Err (- ENOENT) "The index does not exist.", im)
  | Some info =>
      '(status, im') ←
        (if Z.eqb (index_type_ info) BTREE then
           w ← get_wrapper im index_key;
           '(status, w') ← update FLAGS_update_immediately t updates w;
           Done (status, set_wrapper index_key w' im)
         else Done (OK, im));
      if ok status then Done (OK, im')
      else Done (Err (-1) ("Errors occurs when update index: " +:+ index_key), im')
  end.

(** The two branches of [update(updates)]: the immediate one runs every list
    in a thread of its own, in an order [order] that the scheduler chooses. *)
Fixpoint update_each (t : Z) (lists : list RpcIndexRecordUpdateList) (has_failure : bool) im
  : run (Status * IndexManager I) :=
  match lists with
  | [] => Done (if has_failure then Err (-1) "An error has occured" else OK, im)
  | l :: lists' =>
      '(status, im') ← update_single_index t l im;
      update_each t lists' (has_failure || negb (ok status)) im'
  end.
Fixpoint update_in_order (t : Z) (lists : list RpcIndexRecordUpdateList) im
  : run (Status * IndexManager I) :=
  match lists with
  | [] => Done (OK, im)
  | l :: lists' =>
      '(status, im') ← update_single_index t l im;
      if ok status then update_in_order t lists' im' else Done (status, im')
  end.
Definition update_all (updates : RpcIndexUpdate) (order : list RpcIndexRecordUpdateList) im
  : run (Status * IndexManager I) :=
  if FLAGS_update_immediately then update_each (u_txn_id updates) order false im
  else update_in_order (u_txn_id updates) (u_updates updates) im.

(** [get_range_index(index_path, name)] *)
Definition get_range_index (index_path : string) im : option I :=
  index_ <$> range_index_map_ im !! index_path.

(** [merge_log_to_index(index_path, txn_id)] *)
Definition merge_log_to_index (index_path : string) (t : Z) im : run (Status * IndexManager I) :=
  match range_index_map_ im !! index_path with
  | None => Done (Err (- ENOENT) "The index does not exist.", im)
  | Some w =>
      '(status, w') ← merge t w;
      Done (status, set_wrapper index_path w' im)
  end.

(** [search(query, results)]: the answers of the range queries one after the
    other. *)
Fixpoint search_queries (t : Z) (queries : list RpcRangeQuery) (results : list Z) im
  : run (Status * list Z * IndexManager I) :=
  match queries with
  | [] => Done (OK, results, im)
  | cq :: queries' =>
      match get_index_info im (q_index_path cq) with
      | None => Done (Err (- ENOENT) "The index does not exist.", results, im)
      | Some info =>
          if Z.eqb (index_type_ info) BTREE then
            w ← get_wrapper im (q_index_path cq);
            '(status, tmp, w') ← search t cq w;
            let im' := set_wrapper (q_index_path cq) w' im in
            if ok status then search_queries t queries' (results ++ tmp) im'
            else Done (status, results, im')
          else Done (Err (-1) "Wrong index type.", results, im)
      end
  end.
Definition search_all (query : RpcComplexQuery) im : run (Status * list Z * IndexManager I) :=
  search_queries (cq_txn_id query) (cq_range_queries query) [] im.

(** [info(request, result)]; the status of the merge is not looked at. *)
Definition info (request : RpcIndexInfoRequest) im
  : run (Status * option RpcIndexInfo * IndexManager I) :=
  match get_index_info im (ir_path request) with
  | None => Done (Err (- ENOENT) "The index does not exist.", None, im)
  | Some info =>
      if Z.eqb (index_type_ info) BTREE then
        w ← get_wrapper im (ir_path request);
        '(_, w') ← merge (ir_txn_id request) w;
        Done (OK, Some {| rii_path := index_path_ info; rii_name := index_name_ info;
                          rii_type := index_type_ info; rii_key_type := key_type_ info;
                          rii_num_records := ri_size (index_ w') |},
              set_wrapper (ir_path request) w' im)
      else Done (Err (-1) "Wrong index type.", None, im)
  end.

(** [find_indices_for_splitting(threshold, results)] *)
Definition find_indices_for_splitting (threshold : nat) im : list (option IndexInfo) :=
  (λ p, get_index_info im p.1) <$>
    filter (λ p : string * RangeIndexWrapper I, threshold ≤ ri_size (index_ p.2))
      (map_to_list (range_index_map_ im)).

(** [flush()], which the destructor calls. *)
Fixpoint flush_each (l : list (string * RangeIndexWrapper I)) (has_failure : bool) im : bool * IndexManager I :=
  match l with
  | [] => (has_failure, im)
  | (k, w) :: l' =>
      if dirty_ w then
        let '(status, w') := flush_index w in
        flush_each l' (has_failure || negb (ok status)) (set_wrapper k w' im)
      else flush_each l' has_failure im
  end.
Definition flush im : Status * IndexManager I :=
  if str_empty (basedir_ im) then (OK, im)
  else
    let '(has_failure, im') := flush_each (map_to_list (range_index_map_ im)) false im in
    ((if has_failure then Err (-1) "Errors occurred when flush indices." else OK), im').

(** One pass of [background_flush_thread] over the dirty indices; [opened]
    says which log files could be opened. *)
Fixpoint flush_pass (opened : string → bool) (l : list (string * RangeIndexWrapper I)) im
  : run (IndexManager I) :=
  match l with
  | [] => Done im
  | (k, w) :: l' =>
      if dirty_ w then
        '(_, _, w') ← flush_log FLAGS_flush_log_size (opened k) false w;
        flush_pass opened l' (set_wrapper k w' im)
      else flush_pass opened l' im
  end.
Definition background_pass (opened : string → bool) im : run (IndexManager I) :=
  flush_pass opened (map_to_list (range_index_map_ im)) im.
End index_manager.

(** ** [IndexController] and the [IndexServer] handlers *)

Section index_server.
Context {I : Type} `{RangeIndexInterface I, MD5, VoblaStatus}.
Context `{ThriftCodec RpcIndexRecordUpdateList, ThriftCodec (list LogEntity)}.
Context (FLAGS_update_immediately : bool) (junk : Z).
Implicit Types (im : IndexManager I).

Definition rpc_create_index (index : RpcIndexCreateRequest) im : rpc () * IndexManager I :=
  let '(status, im') :=
    create junk (cr_root index) (cr_name index) (cr_index_type index) (cr_key_type index) im in
  (check_status status (), im').

(** [IndexServer::remove_index] only logs that it is not implemented. *)
Definition rpc_remove_index (root name : string) im : rpc () * IndexManager I :=
  (Return (), im).

Definition rpc_update (updates : RpcIndexUpdate) (order : list RpcIndexRecordUpdateList) im
  : run (rpc () * IndexManager I) :=
  '(status, im') ← update_all FLAGS_update_immediately updates order im;
  Done (check_status status (), im').

Definition rpc_search (query : RpcComplexQuery) im : run (rpc (list Z) * IndexManager I) :=
  '(status, results, im') ← search_all query im;
  Done (check_status status results, im').

Definition rpc_info (request : RpcIndexInfoRequest) im
  : run (rpc (option RpcIndexInfo) * IndexManager I) :=
  '(status, result, im') ← info request im;
  Done (check_status status result, im').
End index_server.

(** ** The manager keeps its two maps consistent and never aborts *)

Section manager_safety.
Context {I : Type} `{RangeIndexInterfaceSpec I, MD5}.
Context `{ThriftCodec RpcIndexRecordUpdateList, ThriftCodec (list LogEntity)}.
Context (immediate : bool) (flush_size : nat) (junk : Z).
Implicit Types (im : IndexManager I) (w : RangeIndexWrapper I).

Inductive manager_op :=
  | OpCreate (root name : string) (index_type key_type : Z)
  | OpDestroy (root name : string)
  | OpUpdate (u : RpcIndexUpdate) (order : list RpcIndexRecordUpdateList)
  | OpMerge (path : string) (t : Z)
  | OpSearch (q : RpcComplexQuery)
  | OpInfo (r : RpcIndexInfoRequest)
  | OpBackground (opened : string → bool).

Definition exec_manager (o : manager_op) im : run (IndexManager I) :=
  match o with
  | OpCreate root name it kt => Done (create junk root name it kt im).2
  | OpDestroy root name => Done (destroy root name im).2
  | OpUpdate u order => snd <$> update_all immediate u order im
  | OpMerge path t => snd <$> merge_log_to_index path t im
  | OpSearch q => snd <$> search_all q im
  | OpInfo r => snd <$> info r im
  | OpBackground opened => background_pass flush_size opened im
  end.

Fixpoint exec_all (ops : list manager_op) im : run (IndexManager I) :=
  match ops with
  | [] => Done im
  | o :: ops' => im' ← exec_manager o im; exec_all ops' im'
  end.

(** Indices are created with key types whose updates are defined. *)
Definition op_safe (o : manager_op) : Prop :=
  match o with
  | OpCreate _ _ _ kt => ∀ i, create_range_index kt = Some i → ri_safe i
  | _ => True
  end.

Record manager_inv im : Prop := {
  mi_info k i : index_info_map_ im !! k = Some i → index_type_ i = BTREE ∧ index_path_ i = k;
  mi_dom k : is_Some (index_info_map_ im !! k) ↔ is_Some (range_index_map_ im !! k);
  mi_safe k w : range_index_map_ im !! k = Some w → ri_safe (index_ w);
}.

Lemma manager_inv_set_wrapper im k w w' :
  manager_inv im → range_index_map_ im !! k = Some w → ri_safe (index_ w') →
  manager_inv (set_wrapper k w' im).
Proof.
  intros [Hi Hd Hs] Hk Hw. split; simpl; [done|..].
  - intros k'. rewrite Hd, lookup_insert. case_decide; [subst; rewrite Hk|]; naive_solver.
  - intros k' w''. rewrite lookup_insert. case_decide; naive_solver.
Qed.

Lemma manager_inv_wrapper im k i :
  manager_inv im → index_info_map_ im !! k = Some i →
  index_type_ i = BTREE ∧
  ∃ w, range_index_map_ im !! k = Some w ∧ get_wrapper im k = Done w ∧ ri_safe (index_ w).
Proof.
  intros [Hi Hd Hs] Hk. destruct (proj1 (Hd k)) as [w Hw]; [by eexists|].
  split; [by eapply Hi|]. exists w. unfold get_wrapper. rewrite Hw. eauto.
Qed.

(** [flush] reports success and writes nothing. *)
Lemma flush_writes_nothing im : flush im = (OK, im).
Proof.
  unfold flush. case_match; [done|].
  assert (∀ l, (∀ k w, (k, w) ∈ l → range_index_map_ im !! k = Some w) → flush_each l false im = (false, im)) as Hl.
  { induction l as [|[k w] l IH]; intros Hin; simpl; [done|].
    assert (set_wrapper k w im = im) as ->.
    { destruct im as [dir infos wrappers]. unfold set_wrapper. simpl. f_equal. apply insert_id, Hin. left. }
    destruct (dirty_ w); apply IH; intros; apply Hin; by right. }
  rewrite Hl; [done|]. by intros k w ?%elem_of_map_to_list.
Qed.

(** *** Wrappers *)

Lemma merge_records_safe l (i : I) :
  ri_safe i → ∃ s i', merge_records l i = Done (s, i') ∧ ri_safe i'.
Proof.
  revert i. induction l as [|u l IH]; intros i Hi; simpl; [by eauto|].
  destruct (ri_safe_apply (record_updates u) i Hi) as (s&i1&->&?). simpl.
  case_match; eauto.
Qed.

Lemma merge_safe t w :
  ri_safe (index_ w) → ∃ s w', merge t w = Done (s, w') ∧ ri_safe (index_ w').
Proof.
  intros Hw. unfold merge. case_bool_decide; [by eauto|]. simpl.
  edestruct merge_records_safe as (s&i'&->&?); [done|]. simpl. case_match; eauto.
Qed.

Lemma update_safe t u w :
  ri_safe (index_ w) → ∃ s w', update immediate t u w = Done (s, w') ∧ ri_safe (index_ w').
Proof.
  intros Hw. unfold update. case_match; [|by eauto].
  destruct (ri_safe_apply (record_updates u) (index_ w) Hw) as (s&i'&->&?). simpl. eauto.
Qed.

Lemma search_safe t q w :
  ri_safe (index_ w) → ∃ s rs w', search t q w = Done (s, rs, w') ∧ ri_safe (index_ w').
Proof.
  intros Hw. unfold search. destruct (merge_safe t w Hw) as (s&w'&->&?). simpl.
  case_match; eauto.
Qed.

Lemma flush_log_safe opened w :
  0 < flush_size → ri_safe (index_ w) →
  ∃ s out w', flush_log flush_size opened false w = Done (s, out, w') ∧ ri_safe (index_ w').
Proof.
  intros Hf Hw. unfold flush_log. case_match; [|by eauto].
  destruct (flush_unforced_total flush_size (log_manager_ w) Hf) as (out&lm&->). simpl. eauto.
Qed.

(** *** Operations *)

Lemma update_single_index_safe t u im :
  manager_inv im → ∃ s im', update_single_index immediate t u im = Done (s, im') ∧ manager_inv im'.
Proof.
  intros Hinv. unfold update_single_index, get_index_info.
  destruct (index_info_map_ im !! root_path u) as [i|] eqn:Hi; [|by eauto].
  destruct (manager_inv_wrapper im _ i Hinv Hi) as (->&w&Hw&->&Hs). simpl.
  destruct (update_safe t u w Hs) as (s&w'&->&?). simpl.
  case_match; eauto using manager_inv_set_wrapper.
Qed.

Lemma update_all_safe u order im :
  manager_inv im → ∃ s im', update_all immediate u order im = Done (s, im') ∧ manager_inv im'.
Proof.
  unfold update_all. destruct immediate eqn:Himm.
  - generalize false. revert im. induction order as [|l order IH]; intros im b Hinv; simpl; [by eauto|].
    rewrite <-Himm. destruct (update_single_index_safe (u_txn_id u) l im Hinv) as (s&im'&->&?).
    simpl. rewrite Himm. by apply IH.
  - revert im. induction (u_updates u) as [|l ls IH]; intros im Hinv; simpl; [by eauto|].
    rewrite <-Himm. destruct (update_single_index_safe (u_txn_id u) l im Hinv) as (s&im'&->&?).
    simpl. rewrite Himm. case_match; eauto.
Qed.

Lemma search_all_safe q im :
  manager_inv im → ∃ s rs im', search_all q im = Done (s, rs, im') ∧ manager_inv im'.
Proof.
  unfold search_all. generalize (@nil Z). revert im.
  induction (cq_range_queries q) as [|cq qs IH]; intros im rs Hinv; simpl; [by eauto|].
  unfold get_index_info. destruct (index_info_map_ im !! q_index_path cq) as [i|] eqn:Hi; [|by eauto].
  destruct (manager_inv_wrapper im _ i Hinv Hi) as (->&w&Hw&->&Hs). simpl.
  destruct (search_safe (cq_txn_id q) cq w Hs) as (s&tmp&w'&->&?). simpl.
  case_match; [apply IH|do 3 eexists; split; [done|]]; by eapply manager_inv_set_wrapper.
Qed.

Lemma info_safe r im :
  manager_inv im → ∃ s o im', info r im = Done (s, o, im') ∧ manager_inv im'.
Proof.
  intros Hinv. unfold info, get_index_info.
  destruct (index_info_map_ im !! ir_path r) as [i|] eqn:Hi; [|by eauto 10].
  destruct (manager_inv_wrapper im _ i Hinv Hi) as (->&w&Hw&->&Hs). simpl.
  destruct (merge_safe (ir_txn_id r) w Hs) as (s&w'&->&?). simpl.
  eauto 10 using manager_inv_set_wrapper.
Qed.

Lemma merge_log_to_index_safe path t im :
  manager_inv im → ∃ s im', merge_log_to_index path t im = Done (s, im') ∧ manager_inv im'.
Proof.
  intros Hinv. unfold merge_log_to_index.
  destruct (range_index_map_ im !! path) as [w|] eqn:Hw; [|by eauto].
  destruct (merge_safe t w) as (s&w'&->&?); [by eapply mi_safe|]. simpl.
  eauto using manager_inv_set_wrapper.
Qed.

Lemma flush_pass_safe opened l im :
  0 < flush_size → manager_inv im →
  Forall (λ p, is_Some (range_index_map_ im !! p.1) ∧ ri_safe (index_ p.2)) l →
  ∃ im', flush_pass flush_size opened l im = Done im' ∧ manager_inv im'.
Proof.
  intros Hf. revert im. induction l as [|[k w] l IH]; intros im Hinv Hl; simpl; [by eauto|].
  inversion_clear Hl as [|?? [[w0 Hk] Hw] Hl']. simpl in *.
  case_match; [|by apply IH].
  destruct (flush_log_safe (opened k) w Hf Hw) as (s&out&w'&->&?). simpl.
  apply IH; [by eapply manager_inv_set_wrapper|].
  eapply Forall_impl; [done|]. simpl. intros [k' w''] [Hk' ?]. split; [|done].
  simpl. rewrite lookup_insert. by case_decide.
Qed.

Lemma create_safe root name it kt im :
  op_safe (OpCreate root name it kt) → manager_inv im →
  manager_inv (create junk root name it kt im).2.
Proof.
  intros Hop Hinv. unfold create. case_match; [done|].
  destruct (index_info_map_ im !! root) eqn:Hi; [done|].
  destruct (Z.eqb_spec it BTREE) as [->|]; [|by case_match].
  destruct (create_range_index kt) as [i|] eqn:Hc; [|done]. simpl.
  destruct Hinv as [Hii Hd Hs]. split; simpl.
  - intros k i'. rewrite lookup_insert. case_decide; [|apply Hii].
    intros. by simplify_eq/=.
  - intros k. rewrite !lookup_insert. case_decide; naive_solver.
  - intros k w. rewrite lookup_insert. case_decide; [|apply Hs].
    intros; simplify_eq/=. by apply Hop.
Qed.

Lemma destroy_safe root name im : manager_inv im → manager_inv (destroy root name im).2.
Proof.
  intros Hinv. unfold destroy. case_match; [done|].
  destruct (index_info_map_ im !! root) as [i|] eqn:Hi; [|done].
  destruct (manager_inv_wrapper im _ i Hinv Hi) as [-> _]. simpl.
  destruct Hinv as [Hii Hd Hs]. split; simpl.
  - intros k i'. rewrite lookup_delete. case_decide; [done|apply Hii].
  - intros k. rewrite !lookup_delete. case_decide; [|apply Hd].
    split; by intros [].
  - intros k w. rewrite lookup_delete. case_decide; [done|apply Hs].
Qed.

Lemma exec_manager_safe o im :
  0 < flush_size → op_safe o → manager_inv im →
  ∃ im', exec_manager o im = Done im' ∧ manager_inv im'.
Proof.
  intros Hf Ho Hinv. destruct o; simpl.
  - eauto using create_safe.
  - eauto using destroy_safe.
  - destruct (update_all_safe u order im Hinv) as (?&?&->&?). eauto.
  - destruct (merge_log_to_index_safe path t im Hinv) as (?&?&->&?). eauto.
  - destruct (search_all_safe q im Hinv) as (?&?&?&->&?). eauto.
  - destruct (info_safe r im Hinv) as (?&?&?&->&?). eauto.
  - apply flush_pass_safe; [done..|]. apply Forall_forall. intros [k w] Hk.
    apply elem_of_map_to_list in Hk. simpl. rewrite Hk. split; [done|].
    by eapply mi_safe.
Qed.

(** C23: an index server that starts empty never fails one of its internal
    checks.  Whatever operations it executes, in whatever order the update
    threads run, every one of them returns, and the description map and the
    index map keep describing the same indices; the index key types must be
    ones whose updates are defined (any but strings). *)
Theorem manager_never_aborts ops dir :
  0 < flush_size → Forall op_safe ops →
  ∃ im, exec_all ops (mkIndexManager dir ∅ ∅) = Done im ∧ manager_inv im.
Proof.
  intros Hf Hops.
  assert (manager_inv (mkIndexManager dir ∅ ∅ : IndexManager I)) as Hinv.
  { split; simpl; intros *; rewrite ?lookup_empty; try done. }
  revert Hinv. generalize (mkIndexManager dir ∅ ∅ : IndexManager I).
  induction Hops as [|o ops Ho _ IH]; intros im Hinv; simpl; [by eauto|].
  destruct (exec_manager_safe o im Hf Ho Hinv) as (im'&->&?). simpl. eauto.
Qed.
End manager_safety.

(** ** The life of an index *)

Section lifecycle.
Context {I : Type} `{RangeIndexInterfaceSpec I, MD5}.
Context (junk : Z).
Implicit Types (im : IndexManager I).

(** Creating a range index makes it visible under its path and nowhere
    else; creating it again is refused with EEXIST and changes nothing;
    destroying it restores the manager, after which its description, a search
    on it and a second destruction are refused with ENOENT. *)
Theorem create_destroy_lifecycle im root name kt i :
  root ≠ "" → name ≠ "" → index_info_map_ im !! root = None →
  range_index_map_ im !! root = None → create_range_index kt = Some i →
  ∃ im1, create junk root name BTREE kt im = (OK, im1) ∧
    get_index_info im1 root = Some (mkIndexInfo root name BTREE kt) ∧
    get_range_index root im1 = Some i ∧
    (∀ k, k ≠ root → get_index_info im1 k = get_index_info im k ∧
                     get_range_index k im1 = get_range_index k im) ∧
    (∀ it kt', ∃ msg, create junk root name it kt' im1 = (Err (- EEXIST) msg, im1)) ∧
    destroy root name im1 = (OK, im) ∧
    (∃ msg, destroy root name im = (Err (- ENOENT) msg, im)) ∧
    (∀ t rec, ∃ msg, info {| ir_txn_id := t; ir_path := root; ir_recursive := rec |} im
                     = Done (Err (- ENOENT) msg, None, im)).
Proof.
  intros Hr Hn Hi Hw Hc.
  assert (str_empty root || str_empty name = false) as He.
  { destruct root, name; done. }
  eexists. split; [unfold create; rewrite He, Hi; simpl; by rewrite Hc|].
  unfold get_index_info, get_range_index. simpl. split_and!.
  - by rewrite lookup_insert_eq.
  - by rewrite lookup_insert_eq.
  - intros k Hk. by rewrite !lookup_insert_ne.
  - intros it kt'. eexists. unfold create. rewrite He. simpl. by rewrite lookup_insert_eq.
  - unfold destroy. rewrite He. simpl. rewrite lookup_insert_eq. simpl.
    rewrite !delete_insert_id by done. by destruct im.
  - eexists. unfold destroy. by rewrite He, Hi.
  - intros t rec. eexists. unfold info, get_index_info. simpl. by rewrite Hi.
Qed.
End lifecycle.

Section witnesses.
Import Reference.
#[local] Existing Instance RangeIndexWrapper.updates_codec.
#[local] Existing Instance RangeIndexWrapper.buffer_codec.
#[local] Existing Instance RangeIndexWrapper.types.
#[local] Existing Instance RangeIndexWrapper.casts.

Definition empty_manager : IndexManager RangeIndexObject := mkIndexManager "/data" ∅ ∅.

Lemma manager_never_aborts_witness :
  ∃ im, exec_all false 100 0
    [OpCreate "/a/.vsfs/x/0" "x" BTREE 1;
     OpUpdate {| u_txn_id := 1; u_updates := [insert_3_7] |} [];
     OpSearch {| cq_txn_id := 1; cq_root := "/a"; cq_range_queries := [all_keys] |};
     OpBackground (λ _, true); OpDestroy "/a/.vsfs/x/0" "x"] empty_manager = Done im.
Proof.
  edestruct (manager_never_aborts false 100 0
    [OpCreate "/a/.vsfs/x/0" "x" BTREE 1;
     OpUpdate {| u_txn_id := 1; u_updates := [insert_3_7] |} [];
     OpSearch {| cq_txn_id := 1; cq_root := "/a"; cq_range_queries := [all_keys] |};
     OpBackground (λ _, true); OpDestroy "/a/.vsfs/x/0" "x"] "/data") as (im&Hx&_).
  - lia.
  - repeat constructor. intros i [= <-]. exact Logic.I.
  - exists im. exact Hx.
Defined.

Lemma create_destroy_lifecycle_witness :
  ∃ im1, create 0 "/a/.vsfs/x/0" "x" BTREE 1 empty_manager = (OK, im1) ∧
    destroy "/a/.vsfs/x/0" "x" im1 = (OK, empty_manager).
Proof.
  destruct (create_destroy_lifecycle 0 empty_manager "/a/.vsfs/x/0" "x" 1 empty_index)
    as (im1&Hc&_&_&_&_&Hd&_); try reflexivity; try discriminate.
  exists im1. split; [exact Hc|exact Hd].
Defined.

(** The documentation reads [name0>..&name1=..] as "files that satisfy the
    first condition and the second one"; the index server concatenates the
    answers of the conditions instead.  Object 7 is indexed under the first
    name only, object 8 under the second only, and both are returned. *)
Theorem conjunctive_search_returns_partial_matches :
  let q path := {| q_index_path := path; q_name := "x"; q_lower := ""; q_lower_open := false;
                   q_upper := ""; q_upper_open := false |} in
  let w o := mkWrapper "/b" (IntIndex INT64 {[ 3%Z := {[ o ]} ]}) new NORMAL true 0 in
  let im := mkIndexManager "/data"
              {[ "/n0" := mkIndexInfo "/n0" "x" BTREE 1; "/n1" := mkIndexInfo "/n1" "x" BTREE 1 ]}
              {[ "/n0" := w 7%Z; "/n1" := w 8%Z ]} in
  ∃ im', search_all {| cq_txn_id := 0; cq_root := "/"; cq_range_queries := [q "/n0"; q "/n1"] |} im
         = Done (OK, [7%Z; 8%Z], im').
Proof. eexists. vm_compute. reflexivity. Qed.

End witnesses.
