(* ===== verification/IndexSpec.v ===== *)
(** * What the indices of a cluster promise

    The abstract state of all index servers together: the index behind each
    partition, with every acknowledged update applied.  An update list goes to
    one partition; a search reads partitions and changes nothing.  The index
    manager, with its update logs and its lazy merges, implements this
    specification. *)

From S2P Require Import Prelude CxxString Platform PathUtil IndexImpl LogManager.
From S2P Require Import RangeIndex IndexInfo RangeIndexWrapper IndexManager.

(** ** The specification *)

Section spec.
Context {I : Type} `{!RangeIndexInterface I}.

(** An update list for one partition. *)
Definition update_list : Type := string * list RpcIndexRecordUpdateOp.

(** Applies update lists in order; [None] when a partition does not exist or
    an update fails. *)
Fixpoint spec_updates (l : list update_list) (ix : gmap string I) : option (gmap string I) :=
  match l with
  | [] => Some ix
  | (part, ops) :: l' =>
      i ← ix !! part;
      match ri_apply ops i with
      | Done (s, i') => if ok s then spec_updates l' (<[part := i']> ix) else None
      | Fatal _ => None
      end
  end.

(** The objects that range queries select, one query after the other. *)
Definition spec_search (queries : list RpcRangeQuery) (ix : gmap string I) : list Z :=
  queries ≫= λ q, match ix !! q_index_path q with
                  | Some i => (ri_search q i).2
                  | None => []
                  end.

(** The updates for one partition. *)
Definition ops_for (part : string) (l : list update_list) : list RpcIndexRecordUpdateOp :=
  l ≫= λ p, if decide (p.1 = part) then p.2 else [].
End spec.
Arguments ops_for : simpl never.

Section spec_lemmas.
Context {I : Type} `{!RangeIndexInterface I, !RangeIndexInterfaceSpec I}.
Implicit Types (ix : gmap string I) (l : list update_list).

Lemma ops_for_cons part p l :
  ops_for part (p :: l) = (if decide (p.1 = part) then p.2 else []) ++ ops_for part l.
Proof. done. Qed.

Lemma ops_for_app part l1 l2 : ops_for part (l1 ++ l2) = ops_for part l1 ++ ops_for part l2.
Proof. apply bind_app. Qed.

Lemma ops_for_bind {A} part (m : list A) (f : A → list update_list) :
  ops_for part (m ≫= f) = m ≫= λ x, ops_for part (f x).
Proof.
  induction m as [|x m IH]; [done|]. by rewrite !bind_cons, ops_for_app, IH.
Qed.

Lemma ops_for_absent part l : (∀ p, p ∈ l → p.1 ≠ part) → ops_for part l = [].
Proof.
  induction l as [|p l IH]; intros Hl; [done|]. rewrite ops_for_cons.
  rewrite decide_False by (apply Hl; left). apply IH. intros ? ?. apply Hl. by right.
Qed.

(** One partition of the result depends on the updates for it only. *)
Lemma spec_updates_Some l ix ix' :
  spec_updates l ix = Some ix' ↔
  (∀ p, p ∈ l → is_Some (ix !! p.1)) ∧
  ∀ part, match ix !! part with
          | Some i => ∃ i', ri_apply (ops_for part l) i = Done (OK, i') ∧ ix' !! part = Some i'
          | None => ix' !! part = None
          end.
Proof.
  revert ix. induction l as [|[p ops] l IH]; intros ix; simpl.
  { split.
    - intros [= <-]. split; [by intros ? ?%elem_of_nil|]. intros part.
      destruct (ix !! part) as [i|] eqn:Hi; [|done]. exists i. by rewrite ri_apply_nil.
    - intros [_ Hpart]. f_equal. apply map_eq. intros part. specialize (Hpart part).
      destruct (ix !! part) as [i|] eqn:Hi; [|by rewrite Hpart].
      destruct Hpart as (i'&Hr&->). rewrite ri_apply_nil in Hr. by simplify_eq. }
  destruct (ix !! p) as [i|] eqn:Hp; simpl; last first.
  { split; [done|]. intros [Hl _]. destruct (Hl (p, ops)) as [? Hx]; [left|]. simpl in Hx. congruence. }
  destruct (ri_apply ops i) as [[s i1]|] eqn:Ha; last first.
  { split; [done|]. intros [_ Hpart]. specialize (Hpart p). rewrite Hp in Hpart.
    destruct Hpart as (i'&Hr&_). rewrite ops_for_cons, decide_True in Hr by done.
    apply ri_apply_app in Hr as (?&?&_). simpl in *. congruence. }
  destruct (ok s) eqn:Hs; last first.
  { split; [done|]. intros [_ Hpart]. specialize (Hpart p). rewrite Hp in Hpart.
    destruct Hpart as (i'&Hr&_). rewrite ops_for_cons, decide_True in Hr by done.
    apply ri_apply_app in Hr as (?&Hx&_). simpl in Hx. rewrite Ha in Hx. by injection Hx as -> _. }
  pose proof (ri_apply_ok _ _ _ _ Ha Hs) as ->.
  rewrite IH. split; intros [Hl Hpart]; split.
  - intros q [->|Hq]%elem_of_cons; [by eexists|].
    destruct (Hl q Hq) as [j Hj]. rewrite lookup_insert in Hj. case_decide; [|by eexists].
    subst. by eexists.
  - intros part. specialize (Hpart part). rewrite ops_for_cons. simpl.
    rewrite lookup_insert in Hpart. destruct (decide (p = part)) as [->|Hne].
    + rewrite Hp. destruct Hpart as (i'&Hr&?). exists i'. split; [|done].
      apply ri_apply_app. eauto.
    + done.
  - intros q Hq. rewrite lookup_insert. case_decide; [by eexists|]. apply Hl. by right.
  - intros part. specialize (Hpart part). rewrite ops_for_cons in Hpart. simpl in Hpart.
    rewrite lookup_insert. destruct (decide (p = part)) as [->|Hne].
    + rewrite Hp in Hpart. destruct Hpart as (i'&(i2&Hr1&Hr2)%ri_apply_app&?).
      rewrite Ha in Hr1. simplify_eq. eauto.
    + done.
Qed.

(** Update lists may be regrouped as long as each partition keeps its order. *)
Lemma spec_updates_regroup l1 l2 ix ix' :
  (∀ part, ops_for part l1 = ops_for part l2) → (∀ p, p ∈ l2 → is_Some (ix !! p.1)) →
  spec_updates l1 ix = Some ix' → spec_updates l2 ix = Some ix'.
Proof.
  intros Hops Hl2 [_ Hpart]%spec_updates_Some. apply spec_updates_Some. split; [done|].
  intros part. rewrite <-Hops. apply Hpart.
Qed.

Lemma spec_updates_dom l ix ix' part :
  spec_updates l ix = Some ix' → is_Some (ix' !! part) ↔ is_Some (ix !! part).
Proof.
  intros [_ Hpart]%spec_updates_Some. specialize (Hpart part).
  destruct (ix !! part); [destruct Hpart as (?&_&->)|rewrite Hpart];
    by rewrite ?is_Some_alt.
Qed.

Lemma spec_updates_app l1 l2 ix :
  spec_updates (l1 ++ l2) ix = ix1 ← spec_updates l1 ix; spec_updates l2 ix1.
Proof.
  revert ix. induction l1 as [|[p ops] l1 IH]; intros ix; simpl; [done|].
  destruct (ix !! p); simpl; [|done]. destruct (ri_apply _ _) as [[s ?]|]; [|done].
  destruct (ok s); [apply IH|done].
Qed.

Lemma spec_updates_other l ix ix' part :
  spec_updates l ix = Some ix' → (∀ p, p ∈ l → p.1 ≠ part) → ix' !! part = ix !! part.
Proof.
  intros [_ Hpart]%spec_updates_Some Hl. specialize (Hpart part).
  rewrite ops_for_absent in Hpart by done. destruct (ix !! part) as [i|]; [|done].
  destruct Hpart as (i'&Hr&->). rewrite ri_apply_nil in Hr. by simplify_eq.
Qed.
End spec_lemmas.

(** ** The index manager implements it *)

Section manager.
Context {I : Type} `{!RangeIndexInterface I, !RangeIndexInterfaceSpec I, !MD5, !VoblaStatus}.
Context `{!ThriftCodec RpcIndexRecordUpdateList, !ThriftCodec (list LogEntity)}.
Implicit Types (im : IndexManager I) (ix : gmap string I).

(** A wrapper stands for an index: all its acknowledged updates, the merged and
    the waiting ones, make the new index into it.  Clients send the transaction
    id 0. *)
Definition wrapper_holds (w : RangeIndexWrapper I) (i : I) : Prop :=
  status_ w = NORMAL ∧ (last_merged_log_id_ w ≤ 0)%Z ∧
  ∃ i0 h n, ri_wf i0 ∧ wrapper_inv i0 w h n ∧ (∀ r, r ∈ h → (txn_id r ≤ 0)%Z) ∧
    ri_apply (ups_of h) i0 = Done (OK, i).

(** A manager holds the partitions of [ix] that [here] selects, and no others
    of these. *)
Definition manager_holds (here : string → Prop) im ix : Prop :=
  ∀ part, here part →
    match ix !! part with
    | Some i => ∃ info w, index_info_map_ im !! part = Some info ∧ index_type_ info = BTREE ∧
        range_index_map_ im !! part = Some w ∧ wrapper_holds w i
    | None => index_info_map_ im !! part = None
    end.

Lemma manager_holds_at here im ix part i :
  manager_holds here im ix → here part → ix !! part = Some i →
  ∃ info w, index_info_map_ im !! part = Some info ∧ index_type_ info = BTREE ∧
    range_index_map_ im !! part = Some w ∧ wrapper_holds w i.
Proof. intros Hh Hp Hi. specialize (Hh part Hp). by rewrite Hi in Hh. Qed.

Lemma new_wrapper_holds junk path dty t (i : I) :
  (junk ≤ 0)%Z → create_range_index t = Some i → wrapper_holds (new_wrapper junk path i dty) i.
Proof.
  intros Hj Hc. split_and!; [done..|]. exists i, [], 0. split_and!.
  - by eapply ri_create_wf.
  - split; simpl; [constructor|lia|by intros ? ?%elem_of_nil| |apply ri_apply_nil].
    by exists 0.
  - by intros ? ?%elem_of_nil.
  - apply ri_apply_nil.
Qed.

Lemma wrapper_holds_update w i u i' :
  wrapper_holds w i → ri_apply (record_updates u) i = Done (OK, i') →
  ∃ w', RangeIndexWrapper.update false 0 u w = Done (OK, w') ∧ wrapper_holds w' i'.
Proof.
  intros (Hst&Hm&i0&h&n&Hwf&Hinv&Hids&Ha) Hu. eexists. split; [done|].
  split_and!; [done..|]. exists i0, (h ++ [mkLogRecord 0 u]), n. split_and!; [done| | |].
  - by eapply (wrapper_inv_update i0 w h n 0 u).
  - intros r [Hr| ->%list_elem_of_singleton]%elem_of_app; [by apply Hids|done].
  - rewrite ups_of_app. apply ri_apply_app. exists i. split; [done|].
    unfold ups_of. simpl. by rewrite app_nil_r.
Qed.

Lemma wrapper_holds_search w i q :
  wrapper_holds w i →
  ∃ w', RangeIndexWrapper.search 0 q w = Done (OK, (ri_search q i).2, w') ∧ wrapper_holds w' i.
Proof.
  intros (Hst&Hm&i0&h&n&Hwf&Hinv&Hids&Ha).
  assert (merge 0 w = Done (OK, mkWrapper (base_path_ w) i (log_manager_ w) (status_ w) true 0)) as Hmerge.
  { apply merge_OK. split; [done|]. exists i. split; [|done].
    apply (merge_replays i0 w h n 0 i Hwf Hinv Hm). by rewrite (up_to_all 0 h Hids). }
  eexists. split; [by apply search_OK|]. split_and!; [done..|].
  exists i0, h, (length (up_to 0 h)). split_and!; [done| |done..].
  by eapply wrapper_inv_merge.
Qed.

Lemma manager_holds_set here im ix part i w :
  manager_holds here im ix → wrapper_holds w i → (here part → is_Some (ix !! part)) →
  manager_holds here (set_wrapper part w im) (<[part := i]> ix).
Proof.
  intros Hh Hw Hix p Hhere. rewrite lookup_insert. simpl. destruct (decide (part = p)) as [->|Hne].
  - destruct (Hix Hhere) as [j Hj]. destruct (manager_holds_at _ _ _ _ _ Hh Hhere Hj) as (info&?&?&?&?&_).
    exists info, w. by rewrite lookup_insert_eq.
  - specialize (Hh p Hhere). destruct (ix !! p); [|done]. destruct Hh as (info&w'&?&?&?&?). exists info, w'.
    by rewrite lookup_insert_ne.
Qed.

(** A partition of another manager. *)
Lemma manager_holds_other here im ix part i :
  manager_holds here im ix → ¬ here part → manager_holds here im (<[part := i]> ix).
Proof.
  intros Hh Hno p Hp. rewrite lookup_insert_ne by (intros ->; done). by apply Hh.
Qed.

(** A new index is empty, and made once. *)
Lemma create_holds junk here im ix part name key_type i :
  (junk ≤ 0)%Z → manager_holds here im ix → here part → ix !! part = None →
  str_empty part = false → str_empty name = false → create_range_index key_type = Some i →
  ∃ im', create junk part name BTREE key_type im = (OK, im') ∧ manager_holds here im' (<[part := i]> ix).
Proof.
  intros Hj Hh Hp Hnew Hpart Hname Hc. pose proof (Hh part Hp) as Hnone. rewrite Hnew in Hnone.
  unfold create. rewrite Hpart, Hname. simpl. rewrite Hnone, Hc. eexists. split; [done|].
  intros p Hhere. rewrite !lookup_insert. simpl. destruct (decide (part = p)) as [->|Hne].
  - do 2 eexists. rewrite !lookup_insert_eq. split_and!; [done..|]. by eapply new_wrapper_holds.
  - specialize (Hh p Hhere). rewrite !lookup_insert_ne by done. exact Hh.
Qed.

Lemma create_existing junk here im ix part name index_type key_type i :
  manager_holds here im ix → here part → ix !! part = Some i →
  str_empty part = false → str_empty name = false →
  create junk part name index_type key_type im = (Err (- EEXIST) "The index is existed.", im).
Proof.
  intros Hh Hp Hi Hpart Hname. destruct (manager_holds_at _ _ _ _ _ Hh Hp Hi) as (info&w&Hinfo&_).
  unfold create. rewrite Hpart, Hname. simpl. by rewrite Hinfo.
Qed.

(** Update lists reach the logs in order. *)
Lemma update_in_order_holds here im ix (lists : list RpcIndexRecordUpdateList) ix' :
  manager_holds here im ix → (∀ l, l ∈ lists → here (root_path l)) →
  spec_updates ((λ l, (root_path l, record_updates l)) <$> lists) ix = Some ix' →
  ∃ im', update_in_order false 0 lists im = Done (OK, im') ∧ manager_holds here im' ix'.
Proof.
  revert im ix. induction lists as [|l lists IH]; intros im ix Hh Hhere Hs; simpl in *.
  { simplify_eq. eauto. }
  destruct (ix !! root_path l) as [i|] eqn:Hi; simpl in Hs; [|done].
  destruct (ri_apply (record_updates l) i) as [[s i1]|] eqn:Ha; [|done].
  destruct (ok s) eqn:Hs'; [|done]. pose proof (ri_apply_ok _ _ _ _ Ha Hs') as ->.
  destruct (manager_holds_at _ _ _ (root_path l) i Hh) as (info&w&Hinfo&Hbtree&Hw&Hwh);
    [apply Hhere; left|done|].
  destruct (wrapper_holds_update w i l i1 Hwh Ha) as (w'&Hu&Hwh').
  unfold update_single_index, get_index_info. rewrite Hinfo, Hbtree. simpl.
  unfold get_wrapper. rewrite Hw. simpl. simpl in Hu. injection Hu as Hu. rewrite Hu.
  eapply IH; [|intros; apply Hhere; by right|exact Hs].
  eapply manager_holds_set; eauto.
Qed.

(** A search sees what was acknowledged, and changes nothing of it. *)
Lemma search_queries_holds here im ix queries results :
  manager_holds here im ix →
  (∀ q, q ∈ queries → is_Some (ix !! q_index_path q) ∧ here (q_index_path q)) →
  ∃ im', search_queries 0 queries results im = Done (OK, results ++ spec_search queries ix, im') ∧
    manager_holds here im' ix.
Proof.
  revert im results. induction queries as [|q queries IH]; intros im results Hh Hq; simpl.
  { exists im. unfold spec_search. simpl. by rewrite app_nil_r. }
  destruct (Hq q) as [[i Hi] Hhere]; [left|].
  destruct (manager_holds_at _ _ _ _ _ Hh Hhere Hi) as (info&w&Hinfo&Hbtree&Hw&Hwh).
  destruct (wrapper_holds_search w i q Hwh) as (w'&Hs&Hwh').
  unfold get_index_info. rewrite Hinfo, Hbtree. simpl. unfold get_wrapper. rewrite Hw. simpl.
  rewrite Hs. simpl.
  destruct (IH (set_wrapper (q_index_path q) w' im) (results ++ (ri_search q i).2))
    as (im'&->&Hh').
  - rewrite <-(insert_id ix (q_index_path q) i Hi). eapply manager_holds_set; eauto.
  - intros q' Hq'. apply Hq. by right.
  - exists im'. split; [|done]. unfold spec_search. cbn [mbind list_bind]. rewrite Hi.
    by rewrite <-app_assoc.
Qed.
End manager.
