(* ===== verification/KVStore.v ===== *)
(** * The key-value stores of the master (common/key_value_store.h,
    common/leveldb_store.cpp, common/test_leveldb_store.cpp)

    [KeyValueStore] is the interface the master's tables are written against,
    [KeyValueStoreSpec] what it promises: a finite map whose iteration is in
    key order, and whose failed writes change nothing.  [LevelDBStore]
    implements it over LevelDB (a parameter: the classes [LevelDB] and
    [LevelDBSpec]), [TestLevelDBStore] over an ordered map in memory. *)

From S2P Require Import Prelude CxxString Platform.

(** ** The interface *)

(** [kv_scan] is [for (auto record : *store)]. *)
Class KeyValueStore (S : Type) := {
  kv_open : S → Status * S;
  kv_get : S → string → run (Status * string);
  kv_put : S → string → string → run (Status * S);
  kv_remove : S → string → run (Status * S);
  kv_scan : S → run (list (string * string));
}.

Class KeyValueStoreSpec (S : Type) `{KeyValueStore S} := {
  kv_view : S → gmap string string;
  kv_opened : S → Prop;
  kv_open_spec s :
    ok (kv_open s).1 = true →
    kv_opened (kv_open s).2 ∧ kv_view (kv_open s).2 = kv_view s;
  kv_get_spec s k :
    kv_opened s →
    ∃ st v, kv_get s k = Done (st, v) ∧ (ok st = true → kv_view s !! k = Some v);
  kv_put_spec s k v :
    kv_opened s →
    ∃ st s', kv_put s k v = Done (st, s') ∧ kv_opened s' ∧
      kv_view s' = if ok st then <[k:=v]> (kv_view s) else kv_view s;
  kv_remove_spec s k :
    kv_opened s →
    ∃ st s', kv_remove s k = Done (st, s') ∧ kv_opened s' ∧
      kv_view s' = if ok st then delete k (kv_view s) else kv_view s;
  kv_scan_spec s :
    kv_opened s → kv_scan s = Done (sorted_map String.le (kv_view s));
}.

Section store_lemmas.
Context {S : Type} `{!KeyValueStore S, !KeyValueStoreSpec S}.

Lemma kv_put_inv s k v st s' :
  kv_opened s → kv_put s k v = Done (st, s') →
  kv_opened s' ∧ kv_view s' = if ok st then <[k:=v]> (kv_view s) else kv_view s.
Proof. intros Ho Hp. destruct (kv_put_spec s k v Ho) as (st0&s0&He&?&?).
  rewrite Hp in He. by injection He as <- <-. Qed.
Lemma kv_remove_inv s k st s' :
  kv_opened s → kv_remove s k = Done (st, s') →
  kv_opened s' ∧ kv_view s' = if ok st then delete k (kv_view s) else kv_view s.
Proof. intros Ho Hp. destruct (kv_remove_spec s k Ho) as (st0&s0&He&?&?).
  rewrite Hp in He. by injection He as <- <-. Qed.

(** The store takes every write it is given next. *)
Definition accepts (s : S) : Prop :=
  ∀ k v st s', kv_put s k v = Done (st, s') → ok st = true.
End store_lemmas.

(** ** LevelDB *)

Inductive ldb_status := LOk | LError (text : string).

(** A database [DB] (its files included) and its iterators. *)
Class LevelDB (DB It : Type) := {
  ldb_open : DB → ldb_status * DB;
  ldb_get : DB → string → ldb_status * string;
  ldb_put : DB → string → string → ldb_status * DB;
  ldb_delete : DB → string → ldb_status * DB;
  ldb_seek_to_first : DB → It;
  ldb_seek : DB → string → It;
  ldb_empty_iterator : It;
  ldb_valid : It → bool;
  ldb_next : It → It;
  ldb_prev : It → It;
  ldb_key : It → string;
  ldb_value : It → string;
}.

(** LevelDB's documentation: data is ordered by key; an iterator is positioned
    at an entry or is not valid; [Next] moves to the following entry.
    [ldb_rest it] is what the iterator has still to visit. *)
Class LevelDBSpec (DB It : Type) `{LevelDB DB It} := {
  ldb_view : DB → gmap string string;
  ldb_rest : It → list (string * string);
  ldb_open_spec db : (ldb_open db).1 = LOk → ldb_view (ldb_open db).2 = ldb_view db;
  ldb_get_spec db k : (ldb_get db k).1 = LOk → ldb_view db !! k = Some (ldb_get db k).2;
  ldb_put_ok db k v :
    (ldb_put db k v).1 = LOk → ldb_view (ldb_put db k v).2 = <[k:=v]> (ldb_view db);
  ldb_put_failed db k v :
    (ldb_put db k v).1 ≠ LOk → ldb_view (ldb_put db k v).2 = ldb_view db;
  ldb_delete_ok db k :
    (ldb_delete db k).1 = LOk → ldb_view (ldb_delete db k).2 = delete k (ldb_view db);
  ldb_delete_failed db k :
    (ldb_delete db k).1 ≠ LOk → ldb_view (ldb_delete db k).2 = ldb_view db;
  ldb_seek_to_first_spec db :
    ldb_rest (ldb_seek_to_first db) = sorted_map String.le (ldb_view db);
  ldb_seek_spec db p :
    ldb_rest (ldb_seek db p) = from_lower_bound String.le p (ldb_view db);
  ldb_empty_spec : ldb_rest ldb_empty_iterator = [];
  ldb_valid_spec it : ldb_valid it = match ldb_rest it with [] => false | _ => true end;
  ldb_entry_spec it k v l :
    ldb_rest it = (k, v) :: l → ldb_key it = k ∧ ldb_value it = v ∧ ldb_rest (ldb_next it) = l;
}.

Section LevelDBStore.
Context {DB It : Type} `{LevelDB DB It}.

(** [files] is the database at [db_path_]; [opened] says that [db_] is not
    null. *)
Record LevelDBStore := {
  db_path_ : string;
  bufsize_mb_ : Z;
  files : DB;
  opened : bool;
}.

Definition to_status (l_status : ldb_status) : Status :=
  match l_status with LOk => OK | LError text => Err (-1) text end.

Definition with_files (s : LevelDBStore) (db : DB) (o : bool) : LevelDBStore :=
  {| db_path_ := db_path_ s; bufsize_mb_ := bufsize_mb_ s; files := db; opened := o |}.

(** The constructor. *)
Definition new_store (path : string) (bufsize : Z) (db : DB) : LevelDBStore :=
  {| db_path_ := path; bufsize_mb_ := bufsize; files := db; opened := false |}.

Definition open (s : LevelDBStore) : Status * LevelDBStore :=
  let '(status, db) := ldb_open (files s) in
  match status with
  | LOk => (OK, with_files s db true)
  | LError _ => (to_status status, s)
  end.

(** [create] differs from [open] in the size of the write buffer only, which the
    interface of the database does not show. *)
Definition create (s : LevelDBStore) : Status * LevelDBStore :=
  let '(status, db) := ldb_open (files s) in
  match status with
  | LOk => (OK, with_files s db true)
  | LError _ => (to_status status, s)
  end.

(** [db_->...] dereferences the pointer. *)
Definition deref_db (s : LevelDBStore) : run DB :=
  if opened s then Done (files s) else Fatal "db_ is null".

Definition get (s : LevelDBStore) (key : string) : run (Status * string) :=
  db ← deref_db s;
  let '(st, value) := ldb_get db key in Done (to_status st, value).

Definition put (s : LevelDBStore) (key value : string) : run (Status * LevelDBStore) :=
  db ← deref_db s;
  let '(st, db') := ldb_put db key value in Done (to_status st, with_files s db' true).

Definition remove (s : LevelDBStore) (key : string) : run (Status * LevelDBStore) :=
  db ← deref_db s;
  let '(st, db') := ldb_delete db key in Done (to_status st, with_files s db' true).

(** *** [LevelDBStoreIterator], over a LevelDB iterator *)

Definition increment (it : It) : It := if ldb_valid it then ldb_next it else it.
Definition decrement (it : It) : It := if ldb_valid it then ldb_prev it else it.
Definition key (it : It) : string := if ldb_valid it then ldb_key it else "".
Definition value (it : It) : string := if ldb_valid it then ldb_value it else "".
Definition dereference (it : It) : run (string * string) :=
  CHECK ldb_valid it ELSE "iter_->Valid()";; Done (key it, value it).
Definition equal (it other : It) : bool := negb (ldb_valid it) && negb (ldb_valid other).
Definition iter_starts_with (it : It) (prefix : string) : bool :=
  ldb_valid it && starts_with prefix (ldb_key it).

Definition search (s : LevelDBStore) (prefix : string) : run It :=
  db ← deref_db s; Done (ldb_seek db prefix).
Definition begin_ (s : LevelDBStore) : run It := db ← deref_db s; Done (ldb_seek_to_first db).
Definition end_ : It := ldb_empty_iterator.

(** [for (it = first; continue(it); ++it) l.push_back( *it )]; [None] when the
    loop has not ended after [fuel] turns. *)
Fixpoint iterate (continue : It → bool) (fuel : nat) (it : It)
  : option (run (list (string * string))) :=
  match fuel with
  | 0 => None
  | S fuel' =>
      if continue it then
        match dereference it with
        | Done kv =>
            r ← iterate continue fuel' (increment it);
            Some (fmap (M:=run) (cons kv) r)
        | Fatal why => Some (Fatal why)
        end
      else Some (Done [])
  end.
End LevelDBStore.

Arguments LevelDBStore DB : clear implicits.

(** ** The in-memory store used by the tests *)
Module TestLevelDBStore.
Abbreviation store := (gmap string string) (only parsing).

Definition get (s : store) (key : string) : run (Status * string) :=
  match s !! key with
  | None => Done (Err (- ENOENT) "The key does not exist.", "")
  | Some value => Done (OK, value)
  end.
Definition put (s : store) (key value : string) : run (Status * store) :=
  Done (OK, <[key:=value]> s).
Definition remove (s : store) (key : string) : run (Status * store) :=
  Done (OK, delete key s).

(** Its iterator walks a [std::map]: the entries in order, and where it is.
    [decrement] moves forward, as [increment] does. *)
Record test_iterator := mkTestIterator { entries : list (string * string); position : nat }.

Definition begin_ (s : store) : test_iterator := mkTestIterator (sorted_map String.le s) 0.
Definition end_ (s : store) : test_iterator := mkTestIterator (sorted_map String.le s) (size s).
Definition increment (it : test_iterator) : test_iterator := mkTestIterator (entries it) (S (position it)).
Definition decrement (it : test_iterator) : test_iterator := mkTestIterator (entries it) (S (position it)).
Definition equal (it other : test_iterator) : bool := bool_decide (position it = position other).
Definition dereference (it : test_iterator) : run (string * string) :=
  match entries it !! position it with Some kv => Done kv | None => Fatal "past the end" end.

(** [for (auto it = store.begin(); it != store.end(); ++it) l.push_back( *it )] *)
Fixpoint collect (fuel : nat) (it last : test_iterator) : option (run (list (string * string))) :=
  match fuel with
  | 0 => None
  | S fuel' =>
      if equal it last then Some (Done [])
      else
        match dereference it with
        | Done kv => r ← collect fuel' (increment it) last; Some (fmap (M:=run) (cons kv) r)
        | Fatal why => Some (Fatal why)
        end
  end.

Lemma collect_all (s : store) : collect (S (size s)) (begin_ s) (end_ s) = Some (Done (sorted_map String.le s)).
Proof.
  assert (length (sorted_map String.le s) = size s) as Hlen.
  { rewrite <-length_map_to_list. apply Permutation_length. apply merge_sort_Permutation. }
  unfold begin_, end_. rewrite <-Hlen. generalize (sorted_map String.le s). intros l.
  assert (∀ l1 l2, collect (S (length l2)) (mkTestIterator (l1 ++ l2) (length l1))
    (mkTestIterator (l1 ++ l2) (length (l1 ++ l2))) = Some (Done l2)) as Hc; [|apply (Hc [])].
  clear. intros l1 l2. revert l1. induction l2 as [|kv l2 IH]; intros l1.
  { simpl. unfold equal. simpl. by rewrite app_nil_r, bool_decide_eq_true_2. }
  specialize (IH (l1 ++ [kv])). rewrite <-app_assoc, last_length in IH. cbn [app] in IH.
  cbn [length]. remember (S (length l2)) as n eqn:Hn. cbn [collect].
  unfold equal, dereference. cbn [position entries].
  rewrite bool_decide_eq_false_2 by (rewrite length_app; simpl; lia).
  rewrite list_lookup_middle by done. cbn [mbind option_bind].
  unfold increment. cbn [entries position]. by rewrite IH.
Qed.

#[export] Instance test_store : KeyValueStore store := {
  kv_open s := (OK, s); kv_get := get; kv_put := put; kv_remove := remove;
  kv_scan s := Done (sorted_map String.le s);
}.
#[export] Instance test_store_spec : KeyValueStoreSpec store.
Proof.
  refine {| kv_view s := s; kv_opened _ := True |}; simpl; unfold get, put, remove.
  - done.
  - intros s k _. destruct (s !! k) as [v|] eqn:E.
    + exists OK, v. done.
    + exists (Err (- ENOENT) "The key does not exist."), "". done.
  - intros s k v _. do 2 eexists. by split_and!.
  - intros s k _. do 2 eexists. by split_and!.
  - done.
Defined.
End TestLevelDBStore.

(** A store on a full disk, for concrete examples: reads work, writes fail. *)
Module FullStore.
Record store := Full { content : gmap string string }.
Definition no_space : Status := Err (-1) "IO error: no space left on device".

#[export] Instance full_store : KeyValueStore store := {
  kv_open s := (OK, s);
  kv_get s k :=
    Done (match content s !! k with Some v => (OK, v) | None => (Err (-1) "NotFound: ", "") end);
  kv_put s k v := Done (no_space, s);
  kv_remove s k := Done (no_space, s);
  kv_scan s := Done (sorted_map String.le (content s));
}.
#[export] Instance full_store_spec : KeyValueStoreSpec store.
Proof.
  refine {| kv_view s := content s; kv_opened _ := True |}; simpl; try done.
  - intros s k _. destruct (content s !! k) as [v|].
    + by exists OK, v.
    + by exists (Err (-1) "NotFound: "), "".
  - intros s k v _. by exists no_space, s.
  - intros s k _. by exists no_space, s.
Defined.
End FullStore.

(** ** The LevelDB store keeps the interface's promises *)

Section leveldb_lemmas.
Context {DB It : Type} `{!LevelDB DB It, !LevelDBSpec DB It}.

Lemma to_status_ok st : ok (to_status st) = true ↔ st = LOk.
Proof. by destruct st. Qed.

(** Over the entries an iterator has still to visit, a loop that stops at the
    first entry outside a predicate collects the longest prefix inside it. *)
Lemma iterate_take_while (P : string * string → bool) continue fuel it :
  (∀ it, continue it = match ldb_rest it with [] => false | kv :: _ => P kv end) →
  length (ldb_rest it) < fuel →
  iterate continue fuel it = Some (Done (take_while P (ldb_rest it))).
Proof.
  intros HP. revert it. induction fuel as [|fuel IH]; intros it Hlen; [lia|].
  simpl. rewrite HP. destruct (ldb_rest it) as [|[k v] l] eqn:Hl; [done|].
  simpl. destruct (P (k, v)); [|done].
  pose proof (ldb_valid_spec it) as Hv. rewrite Hl in Hv.
  destruct (ldb_entry_spec it k v l Hl) as (Hk&Hval&Hn).
  unfold dereference, increment, key, value. rewrite Hv, Hk, Hval. simpl.
  rewrite IH; rewrite Hn; [done|]. simpl in Hlen. lia.
Qed.

Lemma take_while_true {A} (l : list A) : take_while (λ _, true) l = l.
Proof. induction l as [|x l IH]; [done|]. simpl. by rewrite IH. Qed.

(** The loop over [begin() .. end()]; the number of entries bounds it. *)
Definition scan_leveldb (s : LevelDBStore DB) : run (list (string * string)) :=
  it ← begin_ s;
  match iterate (λ it, negb (equal it end_)) (S (length (ldb_rest it))) it with
  | Some r => r
  | None => Fatal "the loop does not end"
  end.

Lemma equal_end it :
  negb (equal it end_) = match ldb_rest it with [] => false | _ :: _ => true end.
Proof.
  unfold equal, end_. rewrite !ldb_valid_spec, ldb_empty_spec.
  by destruct (ldb_rest it).
Qed.

#[export] Instance leveldb_store : KeyValueStore (LevelDBStore DB) := {
  kv_open := open; kv_get := get; kv_put := put; kv_remove := remove;
  kv_scan := scan_leveldb;
}.

#[export] Instance leveldb_store_spec : KeyValueStoreSpec (LevelDBStore DB).
Proof.
  refine {| kv_view s := ldb_view (files s); kv_opened s := opened s = true |}; simpl.
  - intros s. unfold open. destruct (ldb_open (files s)) as [[|] db] eqn:Ho; [|done].
    simpl. intros _. split; [done|].
    pose proof (ldb_open_spec (files s)) as Hs. rewrite Ho in Hs. by apply Hs.
  - intros s k Hs. unfold get, deref_db. rewrite Hs. simpl.
    pose proof (ldb_get_spec (files s) k) as Hg. destruct (ldb_get (files s) k) as [st v].
    do 2 eexists. split; [done|]. rewrite to_status_ok. done.
  - intros s k v Hs. unfold put, deref_db. rewrite Hs. simpl.
    pose proof (ldb_put_ok (files s) k v) as Hp.
    pose proof (ldb_put_failed (files s) k v) as Hf.
    destruct (ldb_put (files s) k v) as [[|] db]; do 2 eexists; split_and!; try done; simpl.
    + by apply Hp. + by apply Hf.
  - intros s k Hs. unfold remove, deref_db. rewrite Hs. simpl.
    pose proof (ldb_delete_ok (files s) k) as Hp.
    pose proof (ldb_delete_failed (files s) k) as Hf.
    destruct (ldb_delete (files s) k) as [[|] db]; do 2 eexists; split_and!; try done; simpl.
    + by apply Hp. + by apply Hf.
  - intros s Hs. unfold scan_leveldb, begin_, deref_db. rewrite Hs. cbv [mbind run_bind].
    rewrite (iterate_take_while (λ _, true)); [|apply equal_end|lia].
    by rewrite take_while_true, ldb_seek_to_first_spec.
Defined.
End leveldb_lemmas.

(** ** Properties *)

Section properties.
Context {DB It : Type} `{!LevelDB DB It, !LevelDBSpec DB It}.

(** The two loops over a LevelDB store end, never dereference an iterator
    that is not valid, and are exact.  On an open store and with any bound
    above the number of entries, [for (auto record : *store)] visits every
    entry once in key order, and the prefix search of the class comment
    ([for (it = search(p); it.starts_with(p); ++it)]) visits exactly the
    entries whose key has the prefix, in key order. *)
Theorem leveldb_loops_exact (s : LevelDBStore DB) (prefix : string) (fuel : nat) :
  opened s = true →
  size (ldb_view (files s)) < fuel →
  (∃ it, begin_ s = Done it ∧
     iterate (λ it, negb (equal it end_)) fuel it
     = Some (Done (sorted_map String.le (ldb_view (files s))))) ∧
  (∃ it, search s prefix = Done it ∧
     iterate (λ it, iter_starts_with it prefix) fuel it
     = Some (Done (filter (λ p, starts_with prefix p.1 = true)
                     (sorted_map String.le (ldb_view (files s)))))).
Proof.
  intros Hs Hfuel. unfold begin_, search, deref_db. rewrite Hs.
  split; (eexists; split; [done|]).
  - rewrite (iterate_take_while (λ _, true)); [|apply equal_end|].
    + by rewrite take_while_true, ldb_seek_to_first_spec.
    + by rewrite ldb_seek_to_first_spec, length_sorted_map.
  - rewrite (iterate_take_while (λ p, starts_with prefix p.1)).
    + by rewrite ldb_seek_spec, prefix_scan.
    + intros it. unfold iter_starts_with. rewrite ldb_valid_spec.
      destruct (ldb_rest it) as [|[k v] l] eqn:Hl; [done|]. simpl.
      by destruct (ldb_entry_spec it k v l Hl) as (->&_).
    + rewrite ldb_seek_spec. eapply Nat.le_lt_trans; [apply length_from_lower_bound|done].
Qed.
End properties.

(** A database in memory whose iterators are the entries left to visit. *)
Module ReferenceDB.
Definition hd_entry (it : list (string * string)) : string * string :=
  match it with kv :: _ => kv | [] => ("", "") end.
#[export] Instance db : LevelDB (gmap string string) (list (string * string)) := {
  ldb_open d := (LOk, d);
  ldb_get d k := match d !! k with Some v => (LOk, v) | None => (LError "NotFound", "") end;
  ldb_put d k v := (LOk, <[k:=v]> d);
  ldb_delete d k := (LOk, delete k d);
  ldb_seek_to_first d := sorted_map String.le d;
  ldb_seek d p := from_lower_bound String.le p d;
  ldb_empty_iterator := [];
  ldb_valid it := match it with [] => false | _ => true end;
  ldb_next it := tail it;
  ldb_prev it := it;
  ldb_key it := (hd_entry it).1;
  ldb_value it := (hd_entry it).2;
}.
#[export] Instance db_spec : LevelDBSpec (gmap string string) (list (string * string)).
Proof.
  refine {| ldb_view d := d; ldb_rest it := it |}; simpl; try done.
  - intros d k. by destruct (d !! k).
  - by intros it k v l ->.
Defined.
End ReferenceDB.

Section witnesses.
Import ReferenceDB.

Definition small_store : LevelDBStore (gmap string string) :=
  {| db_path_ := "/db"; bufsize_mb_ := 128; opened := true;
     files := {["/a" := "1"; "/a/b" := "2"; "dir:/a/b" := ""]} |}.

Lemma leveldb_loops_exact_witness :
  ∃ it, search small_store "/a" = Done it ∧
    iterate (λ it, iter_starts_with it "/a") 4 it
    = Some (Done [("/a", "1"); ("/a/b", "2")]).
Proof.
  destruct (leveldb_loops_exact small_store "/a" 4 eq_refl) as [_ (it&Hit&Hr)].
  { vm_compute. lia. }
  exists it. split; [exact Hit|]. etrans; [exact Hr|]. by vm_compute.
Defined.
End witnesses.
