(* ===== verification/Namespace.v ===== *)
(** * The file namespace of a master server (masterd/namespace.cpp)

    Three tables in memory (metadata by path, directories by path, path by
    object id) are kept as a write-through cache of a key-value store: a
    metadata record under the path itself, and an empty record under
    [dir:<parent>/<name>] for every directory entry.  [init] rebuilds the
    tables from the store.

    A method that returns a [Status] and fills a pointer is a function that
    returns the status, the value (or [None]) and the next state.  The
    operations run under [mutex_], so a run of the server is a sequence of
    whole operations. *)

From S2P Require Import Prelude CxxString Platform PathUtil KVStore.

(** ** Data *)

Record FileMetadata := {
  md_object_id : Z;
  md_mode : Z;
  md_gid : Z;
  md_uid : Z;
  md_size : Z;
  md_atime : double;
  md_ctime : double;
  md_mtime : double;
}.

#[export] Instance FileMetadata_eq_dec : EqDecision FileMetadata.
Proof. solve_decision. Defined.
#[export] Program Instance FileMetadata_countable : Countable FileMetadata :=
  inj_countable'
    (λ m, (md_object_id m, md_mode m, md_gid m, md_uid m, md_size m,
           (md_atime m, md_ctime m, md_mtime m)))
    (λ '(a, b, c, d, e, (f, g, h)),
       {| md_object_id := a; md_mode := b; md_gid := c; md_uid := d; md_size := e;
          md_atime := f; md_ctime := g; md_mtime := h |}) _.
Next Obligation. by intros []. Qed.

(** Every field of [RpcFileInfo] is optional: [None] is [!__isset.field]. *)
Record RpcFileInfo := {
  fi_object_id : option Z;
  fi_uid : option Z;
  fi_gid : option Z;
  fi_mode : option Z;
  fi_size : option Z;
  fi_ctime : option Z;
  fi_mtime : option Z;
  fi_atime : option Z;
}.

Record Namespace (S : Type) := {
  store_ : S;
  directories_ : gmap string (gset string);
  metadata_map_ : gmap string FileMetadata;
  id_to_path_map_ : gmap Z string;
  next_obj_id_ : Z;
}.
Arguments store_ {S}. Arguments directories_ {S}. Arguments metadata_map_ {S}.
Arguments id_to_path_map_ {S}. Arguments next_obj_id_ {S}.

Definition is_dir (m : FileMetadata) : bool := S_ISDIR (md_mode m).

(** The record [create] and [mkdir] fill in. *)
Definition new_metadata (mode uid gid : Z) (now : double) (oid : Z) : FileMetadata :=
  {| md_mode := mode; md_gid := wrap_int32 gid; md_uid := wrap_int32 uid;
     md_atime := now; md_ctime := now; md_mtime := now; md_object_id := oid; md_size := 0 |}.

Definition directory_map_key (path : string) : string := "dir:" +:+ path.

Definition kPrefixLen : Z := 16.

Section namespace.
Context {S : Type} `{KeyValueStore S, VoblaStatus, MD5, BoostFilesystem}.
Context `{ThriftCodec FileMetadata}.

Abbreviation state := (Namespace S).

Definition with_store (ns : state) (s : S) : state :=
  {| store_ := s; directories_ := directories_ ns; metadata_map_ := metadata_map_ ns;
     id_to_path_map_ := id_to_path_map_ ns; next_obj_id_ := next_obj_id_ ns |}.
Definition with_directories (ns : state) d : state :=
  {| store_ := store_ ns; directories_ := d; metadata_map_ := metadata_map_ ns;
     id_to_path_map_ := id_to_path_map_ ns; next_obj_id_ := next_obj_id_ ns |}.
Definition with_metadata (ns : state) m : state :=
  {| store_ := store_ ns; directories_ := directories_ ns; metadata_map_ := m;
     id_to_path_map_ := id_to_path_map_ ns; next_obj_id_ := next_obj_id_ ns |}.
Definition with_ids (ns : state) i : state :=
  {| store_ := store_ ns; directories_ := directories_ ns; metadata_map_ := metadata_map_ ns;
     id_to_path_map_ := i; next_obj_id_ := next_obj_id_ ns |}.
Definition with_next (ns : state) n : state :=
  {| store_ := store_ ns; directories_ := directories_ ns; metadata_map_ := metadata_map_ ns;
     id_to_path_map_ := id_to_path_map_ ns; next_obj_id_ := n |}.

(** The constructor: [next_obj_id_] has no initialiser, so it starts with
    whatever [garbage] its memory holds. *)
Definition new (store : S) (garbage : Z) : state :=
  {| store_ := store; directories_ := ∅; metadata_map_ := ∅; id_to_path_map_ := ∅;
     next_obj_id_ := garbage |}.

(** *** [init] *)

Definition load_metadata (ns : state) (key : string) (metadata : FileMetadata) : state :=
  let ns := with_metadata ns (<[key:=metadata]> (metadata_map_ ns)) in
  if is_dir metadata then
    with_directories ns
      (match directories_ ns !! key with
       | Some _ => directories_ ns
       | None => <[key:=∅]> (directories_ ns)
       end)
  else with_ids ns (<[md_object_id metadata:=key]> (id_to_path_map_ ns)).

Definition load_directory_entry (ns : state) (key : string) : run state :=
  let fullpath := str_drop 4 key in
  let parent := fs_parent_path fullpath in
  let filename := fs_filename fullpath in
  match directories_ ns !! parent with
  | None => Fatal "directories_.count(parent)"
  | Some subfiles =>
      Done (with_directories ns (<[parent:={[filename]} ∪ subfiles]> (directories_ ns)))
  end.

Fixpoint load_records (ns : state) (records : list (string * string)) : run (Status * state) :=
  match records with
  | [] => Done (OK, ns)
  | (key, value) :: records' =>
      if starts_with "/" key then
        match thrift_read value with
        | None => Done (Err (-1) "The metadata db is corrupted.", ns)
        | Some metadata => load_records (load_metadata ns key metadata) records'
        end
      else if starts_with "dir:" key then
        ns ← load_directory_entry ns key; load_records ns records'
      else if starts_with "meta:" key then load_records ns records'
      else Done (Err (-1) "The metadata db is corrupted.", ns)
  end.

Definition init (ns : state) : run (Status * state) :=
  let '(status, s) := kv_open (store_ ns) in
  let ns := with_store ns s in
  if ok status then records ← kv_scan s; load_records ns records
  else Done (status, ns).

(** *** Lookups *)

Definition exists_ (ns : state) (path : string) : bool :=
  bool_decide (is_Some (metadata_map_ ns !! path)).

Definition file_path (ns : state) (oid : Z) : Status * option string :=
  match id_to_path_map_ ns !! oid with
  | None => (Err (- ENOENT) "The object ID does not exist.", None)
  | Some path => (OK, Some path)
  end.

Definition find_objects (ns : state) (paths : list string) : list Z :=
  (λ path, match metadata_map_ ns !! path with
           | None => 0%Z
           | Some m => md_object_id m
           end) <$> paths.

Definition find_files (ns : state) (object_ids : list Z) : Status * list string :=
  (OK, (λ id, default "" (id_to_path_map_ ns !! id)) <$> object_ids).

Definition object_id (ns : state) (path : string) : Status * option Z :=
  match metadata_map_ ns !! path with
  | None => (SystemError ENOENT, None)
  | Some m => (OK, Some (md_object_id m))
  end.

Definition getattr (ns : state) (path : string) : Status * option RpcFileInfo :=
  match metadata_map_ ns !! path with
  | None => (SystemError ENOENT, None)
  | Some m =>
      (OK, Some {| fi_object_id := Some (md_object_id m);
                   fi_uid := Some (md_uid m); fi_gid := Some (md_gid m);
                   fi_mode := Some (md_mode m); fi_size := Some (md_size m);
                   fi_atime := Some (int64_of_double (md_atime m));
                   fi_ctime := Some (int64_of_double (md_ctime m));
                   fi_mtime := Some (int64_of_double (md_mtime m)) |})
  end.

Definition readdir (ns : state) (path : string) : Status * list string :=
  match directories_ ns !! path with
  | None => (Err (- ENOENT) (strerror ENOENT), [])
  | Some subfiles => (OK, sorted_elements String.le subfiles)
  end.

(** *** Updates *)

Definition store_metadata (s : S) (path : string) (m : FileMetadata) : run (Status * S) :=
  kv_put s path (thrift_write m).

Definition apply_info (m : FileMetadata) (info : RpcFileInfo) : FileMetadata :=
  {| md_object_id := md_object_id m;
     md_uid := from_option wrap_int32 (md_uid m) (fi_uid info);
     md_gid := from_option wrap_int32 (md_gid m) (fi_gid info);
     md_mode := from_option wrap_int32 (md_mode m) (fi_mode info);
     md_size := default (md_size m) (fi_size info);
     md_atime := from_option double_of_int64 (md_atime m) (fi_atime info);
     md_mtime := from_option double_of_int64 (md_mtime m) (fi_mtime info);
     md_ctime := from_option double_of_int64 (md_ctime m) (fi_ctime info) |}.

Definition setattr (ns : state) (path : string) (info : RpcFileInfo) : run (Status * state) :=
  match metadata_map_ ns !! path with
  | None => Done (SystemError ENOENT, ns)
  | Some m =>
      let m := apply_info m info in
      let ns := with_metadata ns (<[path:=m]> (metadata_map_ ns)) in
      '(status, s) ← store_metadata (store_ ns) path m;
      Done (status, with_store ns s)
  end.

(** The id is the top 16 bits of the hash of the path and the low 48 bits of
    the counter. *)
Definition object_id_of (path : string) (counter : Z) : Z :=
  Z.lor (Z.land (path_to_hash path)
           (wrap_int64 (Z.shiftl (Z.shiftl 1 kPrefixLen - 1) (64 - kPrefixLen))))
        (Z.land counter (Z.shiftl 1 (64 - kPrefixLen) - 1)).

Definition get_object_id (ns : state) (path : string) : run (Z * state) :=
  let obj_id := object_id_of path (next_obj_id_ ns) in
  next ← int64_ret (next_obj_id_ ns + 1);
  Done (obj_id, with_next ns next).

(** When the store fails, [create] erases the new element and then reads
    [meta.object_id] through the reference to it. *)
Definition create (ns : state) (path : string) (mode uid gid : Z) (now : double)
    : run (Status * Z * state) :=
  match metadata_map_ ns !! path with
  | Some _ => Done (Err (- EEXIST) (strerror EEXIST), 0%Z, ns)
  | None =>
      '(oid, ns) ← get_object_id ns path;
      let meta := new_metadata (Z.lor mode S_IFREG) uid gid now oid in
      CHECK negb (bool_decide (id_to_path_map_ ns !! oid = Some path))
        ELSE "The object ID and path pair has already existed";;
      '(status, s) ← store_metadata (store_ ns) path meta;
      if ok status then
        Done (status, oid,
          with_store (with_ids (with_metadata ns (<[path:=meta]> (metadata_map_ ns)))
                        (<[oid:=path]> (id_to_path_map_ ns))) s)
      else Fatal "meta is read after metadata_map_.erase(path)"
  end.

Definition remove (ns : state) (path : string) : run (Status * option Z * state) :=
  match metadata_map_ ns !! path with
  | None => Done (Err (- ENOENT) (strerror ENOENT), None, ns)
  | Some meta =>
      if is_dir meta then Done (Err (- EISDIR) (strerror EISDIR), None, ns)
      else
        '(status, s) ← kv_remove (store_ ns) path;
        let ns := with_store ns s in
        if ok status then
          let obj := md_object_id meta in
          CHECK bool_decide (id_to_path_map_ ns !! obj = Some path)
            ELSE "The object ID and path pair dose not exist";;
          Done (OK, Some obj,
            with_ids (with_metadata ns (delete path (metadata_map_ ns)))
              (delete obj (id_to_path_map_ ns)))
        else Done (status, None, ns)
  end.

Definition mkdir (ns : state) (path : string) (mode uid gid : Z) (now : double)
    : run (Status * state) :=
  match metadata_map_ ns !! path with
  | Some _ => Done (Err (- EEXIST) (strerror EEXIST), ns)
  | None =>
      let meta := new_metadata (wrap_int32 (Z.lor mode S_IFDIR)) uid gid now 0 in
      let ns := with_metadata ns (<[path:=meta]> (metadata_map_ ns)) in
      let ns := with_directories ns
        (match directories_ ns !! path with
         | Some _ => directories_ ns
         | None => <[path:=∅]> (directories_ ns)
         end) in
      '(status, s) ← store_metadata (store_ ns) path meta;
      let ns := with_store ns s in
      if ok status then Done (OK, ns)
      else Done (status,
             with_directories (with_metadata ns (delete path (metadata_map_ ns)))
               (delete path (directories_ ns)))
  end.

Definition rmdir (ns : state) (path : string) : run (Status * state) :=
  match directories_ ns !! path with
  | None => Done (Err (- ENOENT) (strerror ENOENT), ns)
  | Some subfiles =>
      if bool_decide (subfiles = ∅) then
        '(status, s) ← kv_remove (store_ ns) path;
        let ns := with_store ns s in
        if ok status then
          Done (OK, with_directories (with_metadata ns (delete path (metadata_map_ ns)))
                      (delete path (directories_ ns)))
        else Done (status, ns)
      else Done (Err (- ENOTEMPTY) (strerror ENOTEMPTY), ns)
  end.

Definition add_subfile (ns : state) (parent subfile : string) : run (Status * state) :=
  match directories_ ns !! parent with
  | None => Done (Err (- ENOENT) (strerror ENOENT), ns)
  | Some subfiles =>
      if bool_decide (subfile ∈ subfiles) then Done (Err (- EEXIST) (strerror EEXIST), ns)
      else
        let fullpath := fs_append parent subfile in
        '(status, s) ← kv_put (store_ ns) (directory_map_key fullpath) "";
        let ns := with_store ns s in
        if ok status then
          Done (OK, with_directories ns (<[parent:={[subfile]} ∪ subfiles]> (directories_ ns)))
        else Done (status, ns)
  end.

Definition remove_subfile (ns : state) (parent subfile : string) : run (Status * state) :=
  match directories_ ns !! parent with
  | None => Done (Err (- ENOENT) (strerror ENOENT), ns)
  | Some subfiles =>
      if bool_decide (subfile ∈ subfiles) then
        let fullpath := fs_append parent subfile in
        '(status, s) ← kv_remove (store_ ns) (directory_map_key fullpath);
        let ns := with_store ns s in
        if ok status then
          Done (OK, with_directories ns (<[parent:=subfiles ∖ {[subfile]}]> (directories_ ns)))
        else Done (status, ns)
      else Done (Err (- ENOENT) (strerror ENOENT), ns)
  end.
End namespace.

(** ** The write-through invariant *)

(** A directory path as the clients write it: [/], or an absolute path that
    does not end with a slash. *)
Definition dir_path (d : string) : Prop :=
  d = "/" ∨ (plain_dir d ∧ starts_with "/" d = true).
#[export] Instance dir_path_dec d : Decision (dir_path d).
Proof. unfold dir_path. apply _. Defined.

#[local] Arguments starts_with : simpl never.

Section invariant.
Context {S : Type} `{!KeyValueStore S, !KeyValueStoreSpec S, !VoblaStatus, !MD5}.
Context `{!BoostFilesystem, !BoostFilesystemSpec}.
Context `{!ThriftCodec FileMetadata, !ThriftCodecSpec FileMetadata}.

Record ns_wf (ns : Namespace S) : Prop := {
  wf_opened : kv_opened (store_ ns);
  wf_abs p m : metadata_map_ ns !! p = Some m → starts_with "/" p = true;
  wf_dirs p :
    is_Some (directories_ ns !! p) ↔ ∃ m, metadata_map_ ns !! p = Some m ∧ is_dir m = true;
  wf_files p m :
    metadata_map_ ns !! p = Some m → is_dir m = false →
    id_to_path_map_ ns !! md_object_id m = Some p;
  wf_ids i p :
    id_to_path_map_ ns !! i = Some p →
    ∃ m, metadata_map_ ns !! p = Some m ∧ is_dir m = false ∧ md_object_id m = i;
  wf_subs p subs n :
    directories_ ns !! p = Some subs → n ∈ subs → dir_path p ∧ plain_name n;
  wf_store_meta k :
    starts_with "/" k = true →
    kv_view (store_ ns) !! k = thrift_write <$> metadata_map_ ns !! k;
  wf_store_dir k :
    starts_with "/" k = false →
    is_Some (kv_view (store_ ns) !! k) ↔
    ∃ p subs n, directories_ ns !! p = Some subs ∧ n ∈ subs ∧
                k = directory_map_key (fs_append p n);
}.

Lemma fs_split_append d n :
  dir_path d → plain_name n →
  fs_parent_path (fs_append d n) = d ∧ fs_filename (fs_append d n) = n.
Proof.
  intros [->|[Hd _]] Hn.
  - rewrite fs_append_slash by done. by rewrite fs_parent_path_root, fs_filename_root.
  - rewrite fs_append_dir by done. by rewrite fs_parent_path_dir, fs_filename_dir.
Qed.

Lemma directory_map_key_inj d n d' n' :
  dir_path d → plain_name n → dir_path d' → plain_name n' →
  directory_map_key (fs_append d n) = directory_map_key (fs_append d' n') →
  d = d' ∧ n = n'.
Proof.
  intros Hd Hn Hd' Hn' Hk. assert (fs_append d n = fs_append d' n') as He.
  { unfold directory_map_key in Hk. by injection Hk. }
  destruct (fs_split_append d n Hd Hn) as [E1 E2], (fs_split_append d' n' Hd' Hn') as [E3 E4].
  rewrite He in E1, E2. split; congruence.
Qed.

(** A write that failed leaves a well-formed state behind. *)
Lemma with_store_wf ns s :
  ns_wf ns → kv_opened s → kv_view s = kv_view (store_ ns) → ns_wf (with_store ns s).
Proof. intros [] Ho Hv. split; simpl; rewrite ?Hv; eauto. Qed.

Lemma S_ISDIR_file mode : S_ISDIR (Z.lor mode S_IFREG) = false.
Proof.
  unfold S_ISDIR. apply bool_decide_eq_false. intros He.
  apply (f_equal (λ z, Z.testbit z 15)) in He.
  rewrite Z.land_spec, Z.lor_spec in He. simpl in He.
  by rewrite orb_true_r in He.
Qed.

Lemma wrap_int32_testbit z n : (0 ≤ n < 31)%Z → Z.testbit (wrap_int32 z) n = Z.testbit z n.
Proof.
  intros Hn. assert (∃ q, wrap_int32 z = z + q * 2 ^ 32)%Z as [q ->].
  { exists (- ((z + 2 ^ 31) / 2 ^ 32))%Z. unfold wrap_int32.
    pose proof (Z.div_mod (z + 2 ^ 31) (2 ^ 32)). lia. }
  rewrite <-(Z.mod_pow2_bits_low _ 32) by lia.
  rewrite Z_mod_plus_full, Z.mod_pow2_bits_low by lia. done.
Qed.

Lemma S_ISDIR_wrap z : S_ISDIR (wrap_int32 z) = S_ISDIR z.
Proof.
  unfold S_ISDIR. f_equal. assert (Z.land (wrap_int32 z) S_IFMT = Z.land z S_IFMT) as ->; [|done].
  apply Z.bits_inj'. intros n Hn. rewrite !Z.land_spec.
  destruct (decide (n < 31)%Z); [by rewrite wrap_int32_testbit by lia|].
  assert (Z.testbit S_IFMT n = false) as ->; [|by rewrite !andb_false_r].
  apply Z.bits_above_log2; unfold S_IFMT; [lia|]. simpl. lia.
Qed.

(** The file type bits of the mode a client may pass to [mkdir]. *)
Definition mkdir_mode (mode : Z) : Prop :=
  Z.land mode S_IFMT = 0%Z ∨ Z.land mode S_IFMT = S_IFDIR.

Lemma S_ISDIR_mkdir mode : mkdir_mode mode → S_ISDIR (wrap_int32 (Z.lor mode S_IFDIR)) = true.
Proof.
  intros Hm. rewrite S_ISDIR_wrap. unfold S_ISDIR. apply bool_decide_eq_true.
  rewrite Z.land_lor_distr_l. by destruct Hm as [->| ->].
Qed.

(** *** Every operation preserves the invariant *)

(** Lookups in the updated tables, one key at a time. *)
Ltac at_key k :=
  intros k; rewrite ?lookup_insert, ?lookup_delete;
  repeat case_decide; subst; try done.

Lemma create_inv ns path mode uid gid now st oid ns' :
  create ns path mode uid gid now = Done (st, oid, ns') →
  (is_Some (metadata_map_ ns !! path) ∧ ok st = false ∧ ns' = ns) ∨
  (∃ s, metadata_map_ ns !! path = None ∧ ok st = true ∧
     oid = object_id_of path (next_obj_id_ ns) ∧
     let meta := new_metadata (Z.lor mode S_IFREG) uid gid now oid in
     kv_put (store_ ns) path (thrift_write meta) = Done (st, s) ∧
     ns' = {| store_ := s; directories_ := directories_ ns;
              metadata_map_ := <[path:=meta]> (metadata_map_ ns);
              id_to_path_map_ := <[oid:=path]> (id_to_path_map_ ns);
              next_obj_id_ := next_obj_id_ ns + 1 |}).
Proof.
  unfold create, get_object_id, store_metadata, int64_ret.
  destruct (metadata_map_ ns !! path) eqn:Hm; [intros [= <- <- <-]; left; eauto|].
  case_match; [|done]. simpl. unfold check.
  case_match; [|done]. simpl. intros Hc. run_inv Hc. right. eauto 10.
Qed.

Lemma create_wf ns path mode uid gid now st oid ns' :
  ns_wf ns → starts_with "/" path = true →
  id_to_path_map_ ns !! object_id_of path (next_obj_id_ ns) = None →
  create ns path mode uid gid now = Done (st, oid, ns') → ns_wf ns'.
Proof.
  intros Hwf Hpath Hfresh [(_&_&->)|(s&Hm&Hok&->&Hput&->)]%create_inv; [done|].
  set (oid := object_id_of path (next_obj_id_ ns)) in *.
  destruct (kv_put_inv _ _ _ _ _ (wf_opened _ Hwf) Hput) as [Ho Hv]. rewrite Hok in Hv.
  assert (directories_ ns !! path = None) as Hd.
  { apply eq_None_not_Some. intros (m&?&_)%(wf_dirs _ Hwf). congruence. }
  split; simpl; rewrite ?Hv.
  - done.
  - at_key p. apply (wf_abs _ Hwf).
  - at_key p; [|apply (wf_dirs _ Hwf)]. rewrite Hd. split; [by intros []|].
    intros (m&[= <-]&Hdir). unfold is_dir in Hdir. simpl in Hdir. by rewrite S_ISDIR_file in Hdir.
  - intros p m. rewrite !lookup_insert. repeat case_decide; subst; try naive_solver.
    + intros Hp Hf%(wf_files _ Hwf p m Hp). congruence.
    + intros Hp Hf. by apply (wf_files _ Hwf).
  - intros i p. rewrite !lookup_insert. repeat case_decide; subst; intros Hi; simplify_eq.
    + eexists. split; [done|]. by rewrite <-(S_ISDIR_file mode).
    + destruct (wf_ids _ Hwf i p Hi) as (m&?&?). congruence.
    + by apply (wf_ids _ Hwf).
  - apply (wf_subs _ Hwf).
  - at_key k; apply (wf_store_meta _ Hwf).
  - at_key k; [intros ?; congruence|]. apply (wf_store_dir _ Hwf).
Qed.

Lemma remove_inv ns path st oid ns' :
  remove ns path = Done (st, oid, ns') →
  (ok st = false ∧ oid = None ∧
     ∃ s, ns' = with_store ns s ∧ (s = store_ ns ∨ kv_remove (store_ ns) path = Done (st, s))) ∨
  (∃ m s, metadata_map_ ns !! path = Some m ∧ is_dir m = false ∧ st = OK ∧
     oid = Some (md_object_id m) ∧
     (∃ st', ok st' = true ∧ kv_remove (store_ ns) path = Done (st', s)) ∧
     id_to_path_map_ ns !! md_object_id m = Some path ∧
     ns' = {| store_ := s; directories_ := directories_ ns;
              metadata_map_ := delete path (metadata_map_ ns);
              id_to_path_map_ := delete (md_object_id m) (id_to_path_map_ ns);
              next_obj_id_ := next_obj_id_ ns |}).
Proof.
  assert (ns = with_store ns (store_ ns)) as Hns by by destruct ns.
  unfold remove. destruct (metadata_map_ ns !! path) as [m|] eqn:Hm.
  2:{ intros [= <- <- <-]. left. eauto 10. }
  destruct (is_dir m) eqn:Hdir; [intros [= <- <- <-]; left; eauto 10|].
  intros Hc. run_inv Hc.
  - unfold check in Heqr0. case_bool_decide; [|done]. right. eauto 15.
  - left. eauto 10.
Qed.

Lemma remove_wf ns path st oid ns' :
  ns_wf ns → remove ns path = Done (st, oid, ns') → ns_wf ns'.
Proof.
  intros Hwf [(Hok&_&s&->&Hs)|(m&s&Hm&Hf&->&->&(st'&Hok&Hrm)&Hi&->)]%remove_inv.
  { destruct Hs as [->|Hs]; [by destruct ns|].
    destruct (kv_remove_inv _ _ _ _ (wf_opened _ Hwf) Hs) as [Ho Hv]. rewrite Hok in Hv.
    by apply with_store_wf. }
  destruct (kv_remove_inv _ _ _ _ (wf_opened _ Hwf) Hrm) as [Ho Hv]. rewrite Hok in Hv.
  pose proof (wf_abs _ Hwf _ _ Hm) as Hpath.
  split; simpl; rewrite ?Hv.
  - done.
  - at_key p. apply (wf_abs _ Hwf).
  - at_key p; rewrite (wf_dirs _ Hwf); [|done]. naive_solver congruence.
  - intros p m'. rewrite !lookup_delete. repeat case_decide; subst; try done.
    + intros Hp Hf'%(wf_files _ Hwf p m' Hp). congruence.
    + apply (wf_files _ Hwf).
  - intros i p. rewrite !lookup_delete. repeat case_decide; subst; try done.
    + intros (m'&?&?&?)%(wf_ids _ Hwf). naive_solver.
    + apply (wf_ids _ Hwf).
  - apply (wf_subs _ Hwf).
  - at_key k; apply (wf_store_meta _ Hwf).
  - at_key k; [intros ?; congruence|]. apply (wf_store_dir _ Hwf).
Qed.

Lemma mkdir_inv ns path mode uid gid now st ns' :
  ns_wf ns → mkdir ns path mode uid gid now = Done (st, ns') →
  (ok st = false ∧ ∃ s, kv_opened s ∧ kv_view s = kv_view (store_ ns) ∧ ns' = with_store ns s) ∨
  (∃ s st', metadata_map_ ns !! path = None ∧ directories_ ns !! path = None ∧
     st = OK ∧ ok st' = true ∧
     let meta := new_metadata (wrap_int32 (Z.lor mode S_IFDIR)) uid gid now 0 in
     kv_put (store_ ns) path (thrift_write meta) = Done (st', s) ∧
     ns' = {| store_ := s; directories_ := <[path:=∅]> (directories_ ns);
              metadata_map_ := <[path:=meta]> (metadata_map_ ns);
              id_to_path_map_ := id_to_path_map_ ns; next_obj_id_ := next_obj_id_ ns |}).
Proof.
  intros Hwf. unfold mkdir, store_metadata.
  destruct (metadata_map_ ns !! path) eqn:Hm.
  { intros [= <- <-]. left. split; [done|]. exists (store_ ns).
    split_and!; [apply Hwf|done|by destruct ns]. }
  assert (directories_ ns !! path = None) as Hd.
  { apply eq_None_not_Some. intros (m&?&_)%(wf_dirs _ Hwf). congruence. }
  simpl. rewrite Hd. intros Hc. run_inv Hc.
  - right. eauto 15.
  - left. split; [done|]. exists s0.
    destruct (kv_put_inv _ _ _ _ _ (wf_opened _ Hwf) Heqr) as [Ho Hv].
    rewrite Heqb in Hv. split_and!; try done.
    unfold with_store, with_directories, with_metadata; simpl.
    by rewrite !delete_insert_id.
Qed.

Lemma mkdir_wf ns path mode uid gid now st ns' :
  ns_wf ns → starts_with "/" path = true → mkdir_mode mode →
  mkdir ns path mode uid gid now = Done (st, ns') → ns_wf ns'.
Proof.
  intros Hwf Hpath Hmode Hmk.
  destruct (mkdir_inv _ _ _ _ _ _ _ _ Hwf Hmk)
    as [(_&s&Ho&Hv&->)|(s&st'&Hm&Hd&->&Hok&Hput&->)]; [by apply with_store_wf|].
  destruct (kv_put_inv _ _ _ _ _ (wf_opened _ Hwf) Hput) as [Ho Hv]. rewrite Hok in Hv.
  assert (is_dir (new_metadata (wrap_int32 (Z.lor mode S_IFDIR)) uid gid now 0) = true) as Hdir.
  { unfold is_dir. by apply S_ISDIR_mkdir. }
  split; simpl; rewrite ?Hv.
  - done.
  - at_key p. apply (wf_abs _ Hwf).
  - at_key p; [|apply (wf_dirs _ Hwf)]. split; eauto.
  - intros p m. rewrite !lookup_insert. case_decide; subst; [naive_solver congruence|].
    apply (wf_files _ Hwf).
  - intros i p Hi. destruct (wf_ids _ Hwf i p Hi) as (m&Hp&?).
    exists m. by rewrite lookup_insert_ne by congruence.
  - intros p subs n. rewrite lookup_insert. case_decide; subst; [|apply (wf_subs _ Hwf)].
    intros [= <-]. set_solver.
  - at_key k; apply (wf_store_meta _ Hwf).
  - at_key k; [intros ?; congruence|]. intros Hk. rewrite (wf_store_dir _ Hwf) by done.
    split; intros (p&subs&n&Hp&Hn&?); exists p, subs, n.
    + by rewrite lookup_insert_ne by congruence.
    + rewrite lookup_insert in Hp. case_decide; [|done]. simplify_eq.
Qed.

Lemma mkdir_ok_exists (ns ns' : Namespace S) path mode uid gid now st :
  mkdir ns path mode uid gid now = Done (st, ns') → ok st = true →
  metadata_map_ ns' !! path =
    Some (new_metadata (wrap_int32 (Z.lor mode S_IFDIR)) uid gid now 0).
Proof.
  unfold mkdir. destruct (metadata_map_ ns !! path) eqn:Hm; [by intros [= <- <-]|].
  intros Hc Hok. run_inv Hc; [apply lookup_insert_eq|congruence].
Qed.

(** A failed store operation, or none, with the tables as they were. *)
Definition store_only (ns ns' : Namespace S) : Prop :=
  ∃ s, kv_opened s ∧ kv_view s = kv_view (store_ ns) ∧ ns' = with_store ns s.

Lemma store_only_refl ns : ns_wf ns → store_only ns ns.
Proof. intros Hwf. exists (store_ ns). split_and!; [apply Hwf|done|by destruct ns]. Qed.
Lemma store_only_put ns k v st s :
  ns_wf ns → kv_put (store_ ns) k v = Done (st, s) → ok st = false →
  store_only ns (with_store ns s).
Proof.
  intros Hwf Hput Hok. destruct (kv_put_inv _ _ _ _ _ (wf_opened _ Hwf) Hput) as [Ho Hv].
  rewrite Hok in Hv. by exists s.
Qed.
Lemma store_only_remove ns k st s :
  ns_wf ns → kv_remove (store_ ns) k = Done (st, s) → ok st = false →
  store_only ns (with_store ns s).
Proof.
  intros Hwf Hput Hok. destruct (kv_remove_inv _ _ _ _ (wf_opened _ Hwf) Hput) as [Ho Hv].
  rewrite Hok in Hv. by exists s.
Qed.
Lemma store_only_wf ns ns' : ns_wf ns → store_only ns ns' → ns_wf ns'.
Proof. intros ? (s&?&?&->). by apply with_store_wf. Qed.

Lemma rmdir_inv ns path st ns' :
  ns_wf ns → rmdir ns path = Done (st, ns') →
  (ok st = false ∧ store_only ns ns') ∨
  (∃ s, directories_ ns !! path = Some ∅ ∧ st = OK ∧ kv_opened s ∧
     kv_view s = delete path (kv_view (store_ ns)) ∧
     ns' = {| store_ := s; directories_ := delete path (directories_ ns);
              metadata_map_ := delete path (metadata_map_ ns);
              id_to_path_map_ := id_to_path_map_ ns; next_obj_id_ := next_obj_id_ ns |}).
Proof.
  intros Hwf. unfold rmdir. destruct (directories_ ns !! path) as [subs|] eqn:Hd.
  2:{ intros [= <- <-]. left. eauto using store_only_refl. }
  case_bool_decide; subst.
  2:{ intros [= <- <-]. left. eauto using store_only_refl. }
  intros Hc. run_inv Hc; [|left; eauto using store_only_remove].
  destruct (kv_remove_inv _ _ _ _ (wf_opened _ Hwf) Heqr) as [Ho Hv].
  rewrite Heqb in Hv. right. exists s0. by split_and!.
Qed.

Lemma rmdir_wf ns path st ns' :
  ns_wf ns → rmdir ns path = Done (st, ns') → ns_wf ns'.
Proof.
  intros Hwf Hr. destruct (rmdir_inv _ _ _ _ Hwf Hr) as [(_&?)|(s&Hd&->&Ho&Hv&->)];
    [by eapply store_only_wf|].
  assert (∃ m, metadata_map_ ns !! path = Some m ∧ is_dir m = true) as (m&Hm&Hdir).
  { apply (wf_dirs _ Hwf). by rewrite Hd. }
  pose proof (wf_abs _ Hwf _ _ Hm) as Hpath.
  split; simpl; rewrite ?Hv.
  - done.
  - at_key p. apply (wf_abs _ Hwf).
  - at_key p; [naive_solver|]. apply (wf_dirs _ Hwf).
  - intros p m'. rewrite !lookup_delete. case_decide; subst; [done|]. apply (wf_files _ Hwf).
  - intros i p Hi. destruct (wf_ids _ Hwf i p Hi) as (m'&Hp&?&?).
    exists m'. rewrite lookup_delete_ne by congruence. done.
  - intros p subs n. rewrite lookup_delete. case_decide; [done|]. apply (wf_subs _ Hwf).
  - at_key k; apply (wf_store_meta _ Hwf).
  - at_key k; [intros ?; congruence|]. intros Hk. rewrite (wf_store_dir _ Hwf) by done.
    split; intros (p&subs&n&Hp&Hn&?); exists p, subs, n.
    + rewrite lookup_delete_ne; [done|]. intros ->. simplify_eq.
    + rewrite lookup_delete in Hp. by case_decide.
Qed.

(** The entries of one directory change: the store's [dir:] keys follow. *)
Lemma set_subfiles_wf ns parent subs subs' s :
  ns_wf ns → directories_ ns !! parent = Some subs → kv_opened s →
  (∀ n, n ∈ subs' → dir_path parent ∧ plain_name n) →
  (∀ k, starts_with "/" k = true → kv_view s !! k = kv_view (store_ ns) !! k) →
  (∀ k, starts_with "/" k = false →
     is_Some (kv_view s !! k) ↔
     (∃ n, n ∈ subs' ∧ k = directory_map_key (fs_append parent n)) ∨
     (is_Some (kv_view (store_ ns) !! k) ∧
      ¬ ∃ n, dir_path parent ∧ plain_name n ∧ k = directory_map_key (fs_append parent n))) →
  ns_wf (with_directories (with_store ns s) (<[parent:=subs']> (directories_ ns))).
Proof.
  intros Hwf Hd Ho Hsub Hmeta Hdir. split; simpl.
  - done.
  - apply (wf_abs _ Hwf).
  - at_key p; [|apply (wf_dirs _ Hwf)]. rewrite <-(wf_dirs _ Hwf), Hd. by split; eauto.
  - apply (wf_files _ Hwf).
  - apply (wf_ids _ Hwf).
  - intros p sub n. rewrite lookup_insert. case_decide; subst; [|apply (wf_subs _ Hwf)].
    intros [= <-]. apply Hsub.
  - intros k Hk. rewrite Hmeta by done. by apply (wf_store_meta _ Hwf).
  - intros k Hk. rewrite Hdir, (wf_store_dir _ Hwf) by done. split.
    + intros [(n&?&?)|((p&sub&n&Hp&?&->)&Hnot)].
      { exists parent, subs', n. by rewrite lookup_insert_eq. }
      exists p, sub, n. rewrite lookup_insert_ne; [done|]. intros ->.
      destruct (wf_subs _ Hwf _ _ n Hp) as [? ?]; [done|]. naive_solver.
    + intros (p&sub&n&Hp&Hn&->). rewrite lookup_insert in Hp.
      case_decide; simplify_eq; [by eauto|]. right. split; [by eauto 10|].
      destruct (wf_subs _ Hwf p sub n) as [? ?]; [done..|].
      intros (n'&?&?&Hkey). apply directory_map_key_inj in Hkey as [-> ->]; done.
Qed.

Lemma add_subfile_wf ns parent subfile st ns' :
  ns_wf ns → dir_path parent → plain_name subfile →
  add_subfile ns parent subfile = Done (st, ns') → ns_wf ns'.
Proof.
  intros Hwf Hp Hn. unfold add_subfile.
  destruct (directories_ ns !! parent) as [subs|] eqn:Hd; [|by intros [= <- <-]].
  case_bool_decide as Hin; [by intros [= <- <-]|]. intros Hc. run_inv Hc.
  2:{ eapply store_only_wf; [done|]. by eapply store_only_put. }
  destruct (kv_put_inv _ _ _ _ _ (wf_opened _ Hwf) Heqr) as [Ho Hv]. rewrite Heqb in Hv.
  apply set_subfiles_wf with (subs := subs); rewrite ?Hv; try done.
  - intros n [->%elem_of_singleton|?]%elem_of_union; [done|]. by apply (wf_subs _ Hwf _ subs).
  - intros k Hk. rewrite lookup_insert_ne; [done|]. by intros <-.
  - intros k Hk. rewrite lookup_insert. case_decide as Hkey; subst.
    { split; [|by eauto]. intros _. left. exists subfile. set_solver. }
    rewrite (wf_store_dir _ Hwf) by done. split.
    + intros (p&sub&n&Hps&Hns&->). destruct (wf_subs _ Hwf _ _ _ Hps Hns).
      destruct (decide (p = parent)) as [->|Hne].
      { left. exists n. simplify_eq. set_solver. }
      right. split; [by eauto 10|]. intros (n'&?&?&[-> ->]%directory_map_key_inj); done.
    + intros [(n&[->%elem_of_singleton|?]%elem_of_union&->)|[? _]]; naive_solver.
Qed.

Lemma remove_subfile_wf ns parent subfile st ns' :
  ns_wf ns → remove_subfile ns parent subfile = Done (st, ns') → ns_wf ns'.
Proof.
  intros Hwf. unfold remove_subfile.
  destruct (directories_ ns !! parent) as [subs|] eqn:Hd; [|by intros [= <- <-]].
  case_bool_decide as Hin; [|by intros [= <- <-]]. intros Hc. run_inv Hc.
  2:{ eapply store_only_wf; [done|]. by eapply store_only_remove. }
  destruct (kv_remove_inv _ _ _ _ (wf_opened _ Hwf) Heqr) as [Ho Hv]. rewrite Heqb in Hv.
  destruct (wf_subs _ Hwf _ _ _ Hd Hin) as [Hp Hn].
  apply set_subfiles_wf with (subs := subs); rewrite ?Hv; try done.
  - intros n Hns. apply (wf_subs _ Hwf _ subs); [done|]. set_solver.
  - intros k Hk. rewrite lookup_delete_ne; [done|]. by intros <-.
  - intros k Hk. rewrite lookup_delete. case_decide as Hkey; subst.
    { split; [by intros []|]. intros [(n&[Hns Hne]%elem_of_difference&Hk')|[_ []]].
      - destruct (wf_subs _ Hwf _ _ _ Hd Hns).
        apply directory_map_key_inj in Hk' as [_ ->]; set_solver.
      - by exists subfile. }
    rewrite (wf_store_dir _ Hwf) by done. split.
    + intros (p&sub&n&Hps&Hns&->). destruct (wf_subs _ Hwf _ _ _ Hps Hns).
      destruct (decide (p = parent)) as [->|Hne].
      { left. exists n. simplify_eq. set_solver. }
      right. split; [by eauto 10|]. intros (n'&?&?&[-> ->]%directory_map_key_inj); done.
    + intros [(n&[Hns ?]%elem_of_difference&->)|[? _]]; naive_solver.
Qed.

(** [setattr] may change the file type only in ways the tables do not see. *)
Definition keeps_type (ns : Namespace S) (path : string) (info : RpcFileInfo) : Prop :=
  ∀ m, metadata_map_ ns !! path = Some m → is_dir (apply_info m info) = is_dir m.

Lemma setattr_wf ns path info st ns' :
  ns_wf ns → keeps_type ns path info → ok st = true →
  setattr ns path info = Done (st, ns') → ns_wf ns'.
Proof.
  intros Hwf Hkt Hok. unfold setattr, store_metadata.
  destruct (metadata_map_ ns !! path) as [m|] eqn:Hm; [|by intros [= <- <-]].
  intros Hc. run_inv Hc. specialize (Hkt m Hm).
  destruct (kv_put_inv _ _ _ _ _ (wf_opened _ Hwf) Heqr) as [Ho Hv]. rewrite Hok in Hv.
  pose proof (wf_abs _ Hwf _ _ Hm) as Hpath.
  split; simpl; rewrite ?Hv.
  - done.
  - at_key p. apply (wf_abs _ Hwf).
  - at_key p; rewrite (wf_dirs _ Hwf); [|done]. rewrite Hm. naive_solver congruence.
  - intros p m'. rewrite lookup_insert. case_decide; subst; [|apply (wf_files _ Hwf)].
    intros [= <-] Hf. simpl. apply (wf_files _ Hwf); [done|]. by rewrite <-Hkt.
  - intros i p Hi. rewrite lookup_insert. destruct (wf_ids _ Hwf i p Hi) as (m'&?&?&?).
    case_decide; subst; [|by eauto]. simplify_eq. eexists. split; [done|]. by rewrite Hkt.
  - apply (wf_subs _ Hwf).
  - at_key k; apply (wf_store_meta _ Hwf).
  - at_key k; [intros ?; congruence|]. apply (wf_store_dir _ Hwf).
Qed.

(** *** [init] rebuilds the tables *)

Definition load_all (ns : Namespace S) (ms : list (string * FileMetadata)) : Namespace S :=
  foldl (λ ns p, load_metadata ns p.1 p.2) ns ms.

Definition encode_record (p : string * FileMetadata) : string * string :=
  (p.1, thrift_write p.2).

Lemma load_records_metadata ns ms rest :
  (∀ p, p ∈ ms → starts_with "/" p.1 = true) →
  load_records ns ((encode_record <$> ms) ++ rest) = load_records (load_all ns ms) rest.
Proof.
  revert ns. induction ms as [|[k m] ms IH]; intros ns Hms; [done|].
  pose proof (Hms (k, m) (list_elem_of_here _ _)) as Hk.
  simpl in *. rewrite Hk, thrift_read_write.
  apply IH. intros p ?. apply Hms. by right.
Qed.

Lemma load_all_metadata ns ms :
  NoDup ms.*1 → metadata_map_ (load_all ns ms) = list_to_map ms ∪ metadata_map_ ns.
Proof.
  revert ns. induction ms as [|[k m] ms IH]; intros ns Hnd; simpl in *.
  { by rewrite (left_id_L ∅ (∪)). }
  apply NoDup_cons in Hnd as [Hk Hnd]. unfold load_all in *. simpl. rewrite IH by done.
  assert (metadata_map_ (load_metadata ns k m) = <[k:=m]> (metadata_map_ ns)) as ->.
  { unfold load_metadata. by case_match. }
  rewrite <-insert_union_l, insert_union_r; [done|].
  by apply not_elem_of_list_to_map_1.
Qed.

Lemma load_all_directories ns ms p :
  NoDup ms.*1 →
  directories_ (load_all ns ms) !! p =
    match directories_ ns !! p with
    | Some subs => Some subs
    | None => if default false (is_dir <$> list_to_map (M:=gmap string _) ms !! p)
              then Some ∅ else None
    end.
Proof.
  revert ns. induction ms as [|[k m] ms IH]; intros ns Hnd; simpl in *.
  { rewrite lookup_empty. simpl. by case_match. }
  apply NoDup_cons in Hnd as [Hk Hnd]. unfold load_all in *. simpl. rewrite IH by done.
  unfold load_metadata. rewrite lookup_insert.
  apply not_elem_of_list_to_map_1 in Hk.
  destruct (is_dir m) eqn:Hdir; simpl.
  - case_decide; subst; simpl; rewrite ?Hdir, ?Hk.
    + destruct (directories_ ns !! p) eqn:E; [by rewrite E|]. by rewrite lookup_insert_eq.
    + destruct (directories_ ns !! k); [done|]. by rewrite lookup_insert_ne.
  - case_decide; subst; simpl; rewrite ?Hdir, ?Hk; done.
Qed.

Lemma load_all_ids ns ms i :
  (∀ p p' m m', (p, m) ∈ ms → (p', m') ∈ ms → is_dir m = false → is_dir m' = false →
     md_object_id m = md_object_id m' → p = p') →
  (∀ p m, (p, m) ∈ ms → is_dir m = false → md_object_id m = i →
     id_to_path_map_ (load_all ns ms) !! i = Some p) ∧
  ((∀ p m, (p, m) ∈ ms → is_dir m = false → md_object_id m ≠ i) →
     id_to_path_map_ (load_all ns ms) !! i = id_to_path_map_ ns !! i).
Proof.
  revert ns. induction ms as [|[k m] ms IH]; intros ns Huniq.
  { split; [by intros ?? ?%elem_of_nil|done]. }
  unfold load_all. simpl. fold (load_all (load_metadata ns k m) ms).
  destruct (IH (load_metadata ns k m)) as [IH1 IH2].
  { intros p p' m1 m2 ??. apply Huniq; by right. }
  destruct (decide (Exists (λ x, is_dir x.2 = false ∧ md_object_id x.2 = i) ms)) as [Hex|Hno].
  - apply Exists_exists in Hex as ([p0 m0]&Hin&Hd0&Hi0); simpl in *.
    rewrite (IH1 p0 m0) by done. split.
    + intros p m1 Hpm ? ?. f_equal. eapply (Huniq p0 p m0 m1); try done; [by right|congruence].
    + intros Hn. destruct (Hn p0 m0); [by right|done..].
  - rewrite Exists_exists in Hno. rewrite IH2.
    2:{ intros p m1 ???. apply Hno. by exists (p, m1). }
    unfold load_metadata. split.
    + intros p m1 [[= -> ->]|Hin]%elem_of_cons Hd Hi.
      * rewrite Hd. simpl. rewrite Hi. by rewrite lookup_insert_eq.
      * destruct Hno. by exists (p, m1).
    + intros Hn. destruct (is_dir m) eqn:Hd; [done|]. simpl.
      rewrite lookup_insert_ne; [done|]. apply (Hn k); [left|done].
Qed.

Lemma load_records_entries (ns : Namespace S) l :
  (∀ kv, kv ∈ l → ∃ p n, kv.1 = directory_map_key (fs_append p n) ∧
     dir_path p ∧ plain_name n ∧ is_Some (directories_ ns !! p)) →
  ∃ d, load_records ns l = Done (OK, with_directories ns d) ∧
    ∀ p, match directories_ ns !! p, d !! p with
         | None, None => True
         | Some subs, Some subs' =>
             ∀ n, n ∈ subs' ↔ n ∈ subs ∨
               (directory_map_key (fs_append p n) ∈ l.*1 ∧ dir_path p ∧ plain_name n)
         | _, _ => False
         end.
Proof.
  revert ns. induction l as [|[k v] l IH]; intros ns Hl; simpl.
  { exists (directories_ ns). split; [by destruct ns|]. intros p.
    destruct (directories_ ns !! p); [|done]. set_solver. }
  destruct (Hl (k, v)) as (p&n&Hk&Hp&Hn&[subs Hd]); [left|]. simpl in Hk. subst k.
  destruct (fs_split_append p n Hp Hn) as [E1 E2].
  change (starts_with "/" (directory_map_key (fs_append p n))) with false.
  change (starts_with "dir:" (directory_map_key (fs_append p n))) with true.
  unfold load_directory_entry. cbv iota.
  change (str_drop 4 (directory_map_key (fs_append p n))) with (fs_append p n).
  rewrite E1, E2, Hd. simpl.
  destruct (IH (with_directories ns (<[p:={[n]} ∪ subs]> (directories_ ns)))) as (d&Hload&Hspec).
  { intros kv Hkv. destruct (Hl kv) as (p'&n'&?&?&?&?); [by right|].
    exists p', n'. split_and!; try done. simpl. rewrite lookup_insert. case_decide; eauto. }
  exists d. split; [done|]. intros q. specialize (Hspec q). simpl in Hspec.
  rewrite lookup_insert in Hspec. case_decide as Hpq; subst.
  - rewrite Hd. destruct (d !! q) as [subs'|]; [|done]. intros n'. rewrite Hspec.
    rewrite elem_of_union, elem_of_singleton, elem_of_cons. split.
    + intros [[->|?]|?]; naive_solver.
    + intros [?|([Heq|?]&?&?)]; [naive_solver| |naive_solver].
      apply directory_map_key_inj in Heq as [_ ->]; auto.
  - destruct (directories_ ns !! q), (d !! q) as [subs'|]; try done.
    intros n'. rewrite Hspec, elem_of_cons. split; [naive_solver|].
    intros [?|([Heq|?]&?&?)]; [naive_solver| |naive_solver].
    apply directory_map_key_inj in Heq as [-> _]; done.
Qed.

#[local] Instance encode_record_inj : Inj (=) (=) encode_record.
Proof.
  intros [k m] [k' m'] [= -> He]. f_equal.
  apply (f_equal thrift_read) in He. rewrite !thrift_read_write in He. by injection He.
Qed.

Lemma decode_records (l : list (string * string)) :
  (∀ kv, kv ∈ l → ∃ r, kv = encode_record r) → ∃ ms : list _, l = encode_record <$> ms.
Proof.
  induction l as [|kv l IH]; intros Hl; [by exists []|].
  destruct (Hl kv) as [r ->]; [left|]. destruct IH as [ms ->].
  { intros kv' ?. apply Hl. by right. }
  by exists (r :: ms).
Qed.

Abbreviation slash_key := (λ kv : string * string, starts_with "/" kv.1).

(** What the store holds: the metadata records, which come first in key order
    ([/] is below [d]), and then the directory entries. *)
Lemma stored_records ns :
  ns_wf ns →
  ∃ ms es,
    sorted_map String.le (kv_view (store_ ns)) = (encode_record <$> ms) ++ es ∧
    NoDup ms.*1 ∧ (∀ k m, (k, m) ∈ ms ↔ metadata_map_ ns !! k = Some m) ∧
    (∀ k, k ∈ es.*1 ↔ ∃ p subs n, directories_ ns !! p = Some subs ∧ n ∈ subs ∧
                        k = directory_map_key (fs_append p n)).
Proof.
  intros Hwf. set (l := sorted_map String.le (kv_view (store_ ns))).
  assert (∀ k v, (k, v) ∈ l ↔ kv_view (store_ ns) !! k = Some v) as Hl.
  { intros k v. apply elem_of_sorted_map. }
  assert (l = filter (λ x, slash_key x = true) l ++ filter (λ x, slash_key x = false) l) as Hsplit.
  { apply (sorted_split (key_le String.le)); [apply StronglySorted_sorted_map; apply _|].
    intros [x vx] [y vy] Hx%Hl Hy Hxy Hslash; simpl in *.
    apply not_false_iff_true. intros Hn. unfold key_le in Hxy; simpl in Hxy.
    destruct (proj1 (wf_store_dir _ Hwf x Hn)) as (p&subs&n&_&_&->); [by eauto|].
    apply starts_with_spec in Hslash as [t ->]. unfold directory_map_key in Hxy.
    rewrite str_app_cons in Hxy.
    change ("/" +:+ t) with (String slash t) in Hxy.
    apply string_le_cons in Hxy as [Hlt|[Heq _]]; [|discriminate Heq].
    vm_compute in Hlt. discriminate Hlt. }
  destruct (decode_records (filter (λ x, slash_key x = true) l)) as [ms Hms].
  { intros [k v] [Hk Hv%Hl]%list_elem_of_filter; simpl in *.
    rewrite (wf_store_meta _ Hwf) in Hv by done.
    apply fmap_Some in Hv as (m&_&->). by exists (k, m). }
  exists ms, (filter (λ x, slash_key x = false) l). rewrite <-Hms. split_and!; [done|..].
  - assert ((encode_record <$> ms).*1 = ms.*1) as <-.
    { rewrite <-list_fmap_compose. by apply list_fmap_ext. }
    rewrite <-Hms. apply NoDup_fst_filter, NoDup_sorted_map_fst.
  - intros k m. rewrite <-(list_elem_of_fmap_inj encode_record), <-Hms.
    unfold encode_record; simpl. rewrite list_elem_of_filter, Hl; simpl. split.
    + intros [Hk Hv]. rewrite (wf_store_meta _ Hwf) in Hv by done.
      apply fmap_Some in Hv as (m'&Hm'&He). rewrite Hm'.
      apply (f_equal thrift_read) in He. rewrite !thrift_read_write in He. congruence.
    + intros Hm. split; [by apply (wf_abs _ Hwf _ _ Hm)|].
      rewrite (wf_store_meta _ Hwf) by (by apply (wf_abs _ Hwf _ _ Hm)). by rewrite Hm.
  - intros k. rewrite list_elem_of_fmap. split.
    + intros ([k' v]&->&[Hk Hv%Hl]%list_elem_of_filter); simpl in *.
      apply (wf_store_dir _ Hwf); [done|]. by rewrite Hv.
    + intros Hex. assert (starts_with "/" k = false) as Hk.
      { by destruct Hex as (?&?&?&_&_&->). }
      apply (wf_store_dir _ Hwf) in Hex as [v Hv]; [|done].
      exists (k, v). by rewrite list_elem_of_filter, Hl.
Qed.

(** [ns'] has the tables of [ns]. *)
Definition same_tables (ns ns' : Namespace S) : Prop :=
  metadata_map_ ns' = metadata_map_ ns ∧ directories_ ns' = directories_ ns ∧
  id_to_path_map_ ns' = id_to_path_map_ ns ∧ kv_view (store_ ns') = kv_view (store_ ns).

Lemma load_all_store ns ms :
  store_ (load_all ns ms) = store_ ns ∧ next_obj_id_ (load_all ns ms) = next_obj_id_ ns.
Proof.
  revert ns. induction ms as [|[k m] ms IH]; intros ns; [done|].
  unfold load_all in *; simpl. destruct (IH (load_metadata ns k m)) as [-> ->].
  unfold load_metadata. by case_match.
Qed.

(** The metadata records alone give back two of the tables, and the third one
    with every directory empty. *)
Lemma load_all_tables ns s garbage ms :
  ns_wf ns → NoDup ms.*1 → (∀ k m, (k, m) ∈ ms ↔ metadata_map_ ns !! k = Some m) →
  let ns0 := load_all (new s garbage) ms in
  metadata_map_ ns0 = metadata_map_ ns ∧ id_to_path_map_ ns0 = id_to_path_map_ ns ∧
  ∀ p, directories_ ns0 !! p = (λ _, ∅) <$> directories_ ns !! p.
Proof.
  intros Hwf Hnd Hms ns0.
  assert (list_to_map ms = metadata_map_ ns) as Hmap.
  { apply map_eq. intros k. apply option_eq. intros m.
    by rewrite <-elem_of_list_to_map, Hms. }
  split_and!.
  - unfold ns0. rewrite load_all_metadata by done. simpl. by rewrite (right_id_L ∅ (∪)), Hmap.
  - apply map_eq. intros i. destruct (load_all_ids (new s garbage) ms i) as [Hin Hout].
    { intros p p' m m' Hp%Hms Hp'%Hms Hf Hf' Heq.
      apply (wf_files _ Hwf) in Hp, Hp'; [congruence|done..]. }
    destruct (id_to_path_map_ ns !! i) as [p|] eqn:Hi.
    + destruct (wf_ids _ Hwf i p Hi) as (m&?%Hms&?&?). by apply (Hin p m).
    + unfold ns0. rewrite Hout; [done|]. intros p m Hp%Hms Hf <-.
      rewrite (wf_files _ Hwf p m) in Hi by done. done.
  - intros p. unfold ns0. rewrite load_all_directories by done. simpl.
    rewrite lookup_empty, Hmap. pose proof (wf_dirs _ Hwf p) as Hd.
    destruct (directories_ ns !! p) as [subs|]; simpl.
    + destruct Hd as [(m&->&Hm) _]; [done|]. simpl. by rewrite Hm.
    + destruct (metadata_map_ ns !! p) as [m|]; simpl; [|done].
      destruct (is_dir m) eqn:Hm; [|done]. by destruct Hd as [_ [? [=]]]; eauto.
Qed.

Lemma namespace_init_recovers ns s0 garbage :
  ns_wf ns → kv_view s0 = kv_view (store_ ns) → ok (kv_open s0).1 = true →
  ∃ ns', init (new s0 garbage) = Done (OK, ns') ∧ same_tables ns ns' ∧
         next_obj_id_ ns' = garbage ∧ kv_opened (store_ ns').
Proof.
  intros Hwf Hview Hopen. unfold init. simpl.
  destruct (kv_open_spec s0 Hopen) as [Ho Hv]. destruct (kv_open s0) as [st s1].
  simpl in *. rewrite Hopen, kv_scan_spec, Hv, Hview by done. simpl.
  destruct (stored_records ns Hwf) as (ms&es&->&Hnd&Hms&Hes).
  rewrite load_records_metadata.
  2:{ intros [k m] Hk%Hms. simpl. by apply (wf_abs _ Hwf _ _ Hk). }
  change (with_store (new s0 garbage) s1) with (new s1 garbage).
  destruct (load_all_tables ns s1 garbage ms Hwf Hnd Hms) as (Hm&Hi&Hd).
  destruct (load_all_store (new s1 garbage) ms) as [Hst Hnext]. simpl in Hst, Hnext.
  set (ns0 := load_all (new s1 garbage) ms) in *.
  destruct (load_records_entries ns0 es) as (d&Hload&Hspec).
  { intros kv Hkv. destruct (proj1 (Hes kv.1)) as (p&subs&n&Hp&Hn&Hk).
    { by apply list_elem_of_fmap_2. }
    destruct (wf_subs _ Hwf _ _ _ Hp Hn). exists p, n. rewrite Hd, Hp. by eauto. }
  exists (with_directories ns0 d). split_and!; simpl; [done|split_and!; simpl; try done|..].
  - apply map_eq. intros p. specialize (Hspec p). rewrite Hd in Hspec.
    destruct (directories_ ns !! p) as [subs|] eqn:Hp, (d !! p) as [subs'|]; try done.
    simpl in Hspec. f_equal. apply set_eq. intros n. rewrite Hspec, Hes. split.
    + intros [?%elem_of_empty|[(p'&subs0&n'&Hp'&Hn'&Heq) [??]]]; [done|].
      destruct (wf_subs _ Hwf _ _ _ Hp' Hn').
      apply directory_map_key_inj in Heq as [-> ->]; try done. congruence.
    + intros Hn. destruct (wf_subs _ Hwf _ _ _ Hp Hn). right. eauto 10.
  - by rewrite Hst, Hv, Hview.
  - done.
  - by rewrite Hst.
Qed.

Lemma same_tables_wf ns ns' :
  ns_wf ns → same_tables ns ns' → kv_opened (store_ ns') → ns_wf ns'.
Proof.
  intros [] (Hm&Hd&Hi&Hv) Ho. split; rewrite ?Hm, ?Hd, ?Hi, ?Hv; done.
Qed.
End invariant.

(** ** Runs of the namespace *)

Section runs.
Context {S : Type} `{!KeyValueStore S, !KeyValueStoreSpec S, !VoblaStatus, !MD5}.
Context `{!BoostFilesystem, !BoostFilesystemSpec}.
Context `{!ThriftCodec FileMetadata, !ThriftCodecSpec FileMetadata}.

(** One call of a client, or a restart of the server on what the store
    holds.  A caller passes absolute paths and modes with the right type
    bits; the id of a new file is not in use (the counter guarantees it within
    one run of the server).  The store may fail at any call; [setattr] is the
    one operation that does not undo its change then, so a step of it is a
    successful one. *)
Inductive ns_step : relation (Namespace S) :=
  | step_create ns path mode uid gid now st oid ns' :
      starts_with "/" path = true →
      id_to_path_map_ ns !! object_id_of path (next_obj_id_ ns) = None →
      create ns path mode uid gid now = Done (st, oid, ns') → ns_step ns ns'
  | step_remove ns path st oid ns' :
      remove ns path = Done (st, oid, ns') → ns_step ns ns'
  | step_mkdir ns path mode uid gid now st ns' :
      starts_with "/" path = true → mkdir_mode mode →
      mkdir ns path mode uid gid now = Done (st, ns') → ns_step ns ns'
  | step_rmdir ns path st ns' :
      rmdir ns path = Done (st, ns') → ns_step ns ns'
  | step_add_subfile ns parent subfile st ns' :
      dir_path parent → plain_name subfile →
      add_subfile ns parent subfile = Done (st, ns') → ns_step ns ns'
  | step_remove_subfile ns parent subfile st ns' :
      remove_subfile ns parent subfile = Done (st, ns') → ns_step ns ns'
  | step_setattr ns path info st ns' :
      keeps_type ns path info → ok st = true →
      setattr ns path info = Done (st, ns') → ns_step ns ns'
  | step_restart ns s garbage st ns' :
      kv_view s = kv_view (store_ ns) → ok st = true →
      init (new s garbage) = Done (st, ns') → ns_step ns ns'.

Lemma init_wf ns s garbage st ns' :
  ns_wf ns → kv_view s = kv_view (store_ ns) → ok st = true →
  init (new s garbage) = Done (st, ns') → ns_wf ns'.
Proof.
  intros Hwf Hv Hok Hinit. destruct (ok (kv_open s).1) eqn:Hopen.
  - destruct (namespace_init_recovers ns s garbage Hwf Hv Hopen) as (ns2&Hi&?&?&?).
    rewrite Hinit in Hi. injection Hi as -> ->. by eapply same_tables_wf.
  - unfold init in Hinit. simpl in Hinit. destruct (kv_open s) as [st' s1]. simpl in *.
    rewrite Hopen in Hinit. injection Hinit as -> _. congruence.
Qed.

Lemma ns_step_wf ns ns' : ns_wf ns → ns_step ns ns' → ns_wf ns'.
Proof.
  destruct 2; [eapply create_wf|eapply remove_wf|eapply mkdir_wf|eapply rmdir_wf
    |eapply add_subfile_wf|eapply remove_subfile_wf|eapply setattr_wf|eapply init_wf];
    eassumption.
Qed.

(** The first start, on an empty store. *)
Definition booted (ns : Namespace S) : Prop :=
  ∃ s garbage st, kv_view s = ∅ ∧ ok st = true ∧ init (new s garbage) = Done (st, ns).

Lemma booted_tables ns :
  booted ns → ∃ s garbage, kv_view s = ∅ ∧ kv_opened s ∧ ns = new s garbage.
Proof.
  intros (s&garbage&st&Hv&Hok&Hinit). unfold init in Hinit. simpl in Hinit.
  pose proof (kv_open_spec s) as Hopen. destruct (kv_open s) as [st' s1]. simpl in Hopen.
  destruct (ok st') eqn:Hok'; [|injection Hinit as -> _; congruence].
  destruct Hopen as [Ho Hv']; [done|]. rewrite kv_scan_spec, Hv', Hv in Hinit by done.
  simpl in Hinit. injection Hinit as _ <-. exists s1, garbage. by rewrite Hv'.
Qed.

Lemma booted_wf ns : booted ns → ns_wf ns.
Proof.
  intros (s&garbage&Hv&Ho&->)%booted_tables.
  split; simpl; intros; rewrite ?Hv, ?lookup_empty in *; try done.
  - split; [by intros []|]. intros (m&?&?). by simplify_map_eq.
  - split; [by intros []|]. intros (p&subs&n&?&_). by simplify_map_eq.
Qed.

Lemma reachable_wf ns0 ns : booted ns0 → rtc ns_step ns0 ns → ns_wf ns.
Proof. intros Hb%booted_wf. apply rtc_invariant; eauto using ns_step_wf. Qed.
End runs.

(** ** Properties *)

Section properties.
Context {S : Type} `{!KeyValueStore S, !KeyValueStoreSpec S, !VoblaStatus, !MD5}.
Context `{!BoostFilesystem, !BoostFilesystemSpec}.
Context `{!ThriftCodec FileMetadata, !ThriftCodecSpec FileMetadata}.

(** C6: a master that crashes loses nothing it acknowledged.  After any run of
    the namespace from an empty store (creates, removals, directory updates,
    attribute updates and earlier restarts, with store failures in between;
    paths are absolute, new files get ids not in use, and attribute updates
    keep the file type, as [ns_step] says), a new server opened on the same
    store content rebuilds exactly the tables of the old one: metadata,
    directory entries and the map from object ids to paths.  Only the id
    counter is lost. *)
Theorem namespace_crash_recovery (ns0 ns : Namespace S) (s : S) (garbage : Z) :
  booted ns0 → rtc ns_step ns0 ns →
  kv_view s = kv_view (store_ ns) → ok (kv_open s).1 = true →
  ∃ ns', init (new s garbage) = Done (OK, ns') ∧ same_tables ns ns' ∧
         next_obj_id_ ns' = garbage.
Proof.
  intros Hb Hr Hv Hopen. pose proof (reachable_wf _ _ Hb Hr) as Hwf.
  destruct (namespace_init_recovers ns s garbage Hwf Hv Hopen) as (ns'&?&?&?&_). eauto.
Qed.

(** C25: object ids and paths stay in one-to-one correspondence.  In every
    reachable state a file's id leads back to its path (by [file_path] and by
    [find_files] after [find_objects]), and a path found by id has that id
    and is not a directory. *)
Theorem ids_and_paths_correspond (ns0 ns : Namespace S) :
  booted ns0 → rtc ns_step ns0 ns →
  (∀ p m, metadata_map_ ns !! p = Some m → is_dir m = false →
     file_path ns (md_object_id m) = (OK, Some p) ∧
     find_files ns (find_objects ns [p]) = (OK, [p])) ∧
  (∀ i p, file_path ns i = (OK, Some p) →
     object_id ns p = (OK, Some i) ∧
     ∃ m, metadata_map_ ns !! p = Some m ∧ is_dir m = false).
Proof.
  intros Hb Hr. pose proof (reachable_wf _ _ Hb Hr) as Hwf. split.
  - intros p m Hp Hf. pose proof (wf_files _ Hwf p m Hp Hf) as Hi.
    unfold file_path, find_files, find_objects; simpl. by rewrite Hp, Hi.
  - intros i p Hi. unfold file_path in Hi. case_match eqn:Hip; simplify_eq.
    destruct (wf_ids _ Hwf i p Hip) as (m&Hp&Hf&<-). unfold object_id. rewrite Hp. eauto.
Qed.

(** No client call takes a master down.  In every state [ns_step] reaches
    (so no attribute update changed the type of a file), the operations other
    than [create] return (their [CHECK]s hold), whatever their arguments and
    whether or not the store fails; [create] returns when the store accepts
    the record and the id counter has not reached its last value. *)
Theorem namespace_never_aborts (ns0 ns : Namespace S) :
  booted ns0 → rtc ns_step ns0 ns →
  (∀ path, ∃ r, remove ns path = Done r) ∧
  (∀ path mode uid gid now, ∃ r, mkdir ns path mode uid gid now = Done r) ∧
  (∀ path, ∃ r, rmdir ns path = Done r) ∧
  (∀ parent subfile, ∃ r, add_subfile ns parent subfile = Done r) ∧
  (∀ parent subfile, ∃ r, remove_subfile ns parent subfile = Done r) ∧
  (∀ path info, ∃ r, setattr ns path info = Done r) ∧
  (∀ path mode uid gid now,
     (∀ v st s, kv_put (store_ ns) path v = Done (st, s) → ok st = true) →
     in_int64 (next_obj_id_ ns + 1) = true →
     ∃ r, create ns path mode uid gid now = Done r).
Proof.
  intros Hb Hr. pose proof (reachable_wf _ _ Hb Hr) as Hwf.
  pose proof (wf_opened _ Hwf) as Ho.
  split_and!; intros;
    unfold remove, mkdir, rmdir, add_subfile, remove_subfile, setattr, create,
      get_object_id, store_metadata; simpl;
    case_match eqn:Hm; eauto; simpl.
  - case_match eqn:Hf; [eauto|]. destruct (kv_remove_spec _ path Ho) as (st&s&->&_). simpl.
    rewrite (wf_files _ Hwf path) by done. rewrite bool_decide_eq_true_2 by done.
    case_match; eauto.
  - destruct (kv_put_spec (store_ ns) path (thrift_write (new_metadata
      (wrap_int32 (Z.lor mode S_IFDIR)) uid gid now 0)) Ho) as (st&s&->&_). simpl. case_match; eauto.
  - case_match; [|eauto]. destruct (kv_remove_spec _ path Ho) as (st&s&->&_). simpl.
    case_match; eauto.
  - case_match; [eauto|].
    destruct (kv_put_spec _ (directory_map_key (fs_append parent subfile)) "" Ho)
      as (st&s&->&_). simpl. case_match; eauto.
  - case_match; [|eauto].
    destruct (kv_remove_spec _ (directory_map_key (fs_append parent subfile)) Ho)
      as (st&s&->&_). simpl. case_match; eauto.
  - destruct (kv_put_spec (store_ ns) path (thrift_write (apply_info f info)) Ho)
      as (st&s&->&_). simpl. eauto.
  - unfold int64_ret. match goal with H : in_int64 _ = true |- _ => rewrite H end. simpl.
    rewrite bool_decide_eq_false_2; simpl.
    2:{ intros (m&?&_)%(wf_ids _ Hwf). congruence. }
    match goal with |- context [kv_put ?s ?k ?v] =>
      destruct (kv_put_spec s k v Ho) as (st&s'&Hp&_); rewrite Hp end. simpl.
    match goal with H : ∀ v st s, _ |- _ => rewrite (H _ _ _ Hp) end. eauto.
Qed.

(** C33: a call that reports an error has no effect.  In every reachable
    state, [remove], [mkdir], [rmdir], [add_subfile] and [remove_subfile]
    that return a failure (a missing or existing path, a directory that is
    not empty, or a store that refused the write) leave all tables and the
    content of the store as they were. *)
Theorem failed_calls_change_nothing (ns0 ns ns' : Namespace S) (st : Status) :
  booted ns0 → rtc ns_step ns0 ns → ok st = false →
  (∃ path, remove ns path = Done (st, None, ns')) ∨
  (∃ path mode uid gid now, mkdir ns path mode uid gid now = Done (st, ns')) ∨
  (∃ path, rmdir ns path = Done (st, ns')) ∨
  (∃ parent subfile, add_subfile ns parent subfile = Done (st, ns')) ∨
  (∃ parent subfile, remove_subfile ns parent subfile = Done (st, ns')) →
  same_tables ns ns'.
Proof.
  intros Hb Hr Hok Hcall. pose proof (reachable_wf _ _ Hb Hr) as Hwf.
  assert (store_only ns ns') as (s&_&Hv&->); [|by split_and!].
  destruct Hcall as [(path&Hc)|[(path&mode&uid&gid&now&Hc)|[(path&Hc)|[Hc|Hc]]]].
  - apply remove_inv in Hc as [(_&_&s&->&[->|Hs])|(m&s&_&_&->&_)]; [| |done].
    + destruct ns. by apply (store_only_refl _ Hwf).
    + by eapply store_only_remove.
  - by destruct (mkdir_inv _ _ _ _ _ _ _ _ Hwf Hc) as [(_&?)|(?&?&?&?&->&_)].
  - by destruct (rmdir_inv _ _ _ _ Hwf Hc) as [(_&?)|(?&?&->&_)].
  - destruct Hc as (parent&subfile&Hc). unfold add_subfile in Hc.
    run_inv Hc; eauto using store_only_refl, store_only_put.
  - destruct Hc as (parent&subfile&Hc). unfold remove_subfile in Hc.
    run_inv Hc; eauto using store_only_refl, store_only_remove.
Qed.
End properties.

(** ** Object ids *)

Section object_ids.
Context {S : Type} `{!KeyValueStore S, !KeyValueStoreSpec S, !VoblaStatus, !MD5}.
Context `{!BoostFilesystem, !BoostFilesystemSpec}.
Context `{!ThriftCodec FileMetadata, !ThriftCodecSpec FileMetadata}.

Lemma object_id_low path c : (object_id_of path c mod 2 ^ 48 = c mod 2 ^ 48)%Z.
Proof.
  unfold object_id_of. rewrite <-!Z.land_ones by lia. rewrite Z.land_lor_distr_l.
  rewrite <-Z.land_assoc. set (h := path_to_hash path).
  change (Z.land (wrap_int64 _) (Z.ones 48)) with 0%Z.
  rewrite Z.land_0_r, Z.lor_0_l. rewrite <-Z.land_assoc. by f_equal.
Qed.

Lemma object_id_high path c :
  Z.shiftr (object_id_of path c) 48 = Z.shiftr (path_to_hash path) 48.
Proof.
  unfold object_id_of. rewrite Z.shiftr_lor, !Z.shiftr_land.
  set (h := path_to_hash path).
  change (Z.shiftr (wrap_int64 _) 48) with (-1)%Z.
  change (Z.shiftr (Z.shiftl 1 (64 - kPrefixLen) - 1) 48) with 0%Z.
  by rewrite Z.land_m1_r, Z.land_0_r, Z.lor_0_r.
Qed.

(** Any call, valid or not; no restart. *)
Inductive ns_call : relation (Namespace S) :=
  | call_create ns path mode uid gid now st oid ns' :
      create ns path mode uid gid now = Done (st, oid, ns') → ns_call ns ns'
  | call_remove ns path st oid ns' : remove ns path = Done (st, oid, ns') → ns_call ns ns'
  | call_mkdir ns path mode uid gid now st ns' :
      mkdir ns path mode uid gid now = Done (st, ns') → ns_call ns ns'
  | call_rmdir ns path st ns' : rmdir ns path = Done (st, ns') → ns_call ns ns'
  | call_add_subfile ns parent subfile st ns' :
      add_subfile ns parent subfile = Done (st, ns') → ns_call ns ns'
  | call_remove_subfile ns parent subfile st ns' :
      remove_subfile ns parent subfile = Done (st, ns') → ns_call ns ns'
  | call_setattr ns path info st ns' : setattr ns path info = Done (st, ns') → ns_call ns ns'.

(** The ids in use come from the counters since [first]. *)
Definition ids_since (first : Z) (ns : Namespace S) : Prop :=
  (first ≤ next_obj_id_ ns)%Z ∧
  ∀ i p, id_to_path_map_ ns !! i = Some p →
    ∃ c, (first ≤ c < next_obj_id_ ns ∧ i mod 2 ^ 48 = c mod 2 ^ 48)%Z.

Lemma ids_since_eq first (ns ns' : Namespace S) :
  id_to_path_map_ ns' = id_to_path_map_ ns → next_obj_id_ ns' = next_obj_id_ ns →
  ids_since first ns → ids_since first ns'.
Proof. unfold ids_since. by intros -> ->. Qed.

Lemma ns_call_ids first ns ns' : ids_since first ns → ns_call ns ns' → ids_since first ns'.
Proof.
  intros Hids. destruct 1 as [ns path mode uid gid now st oid ns' Hc|ns path st oid ns' Hc
    |ns path mode uid gid now st ns' Hc|ns path st ns' Hc|ns parent sub st ns' Hc
    |ns parent sub st ns' Hc|ns path info st ns' Hc].
  - apply create_inv in Hc as [(_&_&->)|(s&_&_&->&_&->)]; [done|].
    destruct Hids as [Hle Hids]. split; simpl; [lia|]. intros i p. rewrite lookup_insert.
    case_decide; subst.
    + exists (next_obj_id_ ns). split; [lia|apply object_id_low].
    + intros (c&?&?)%Hids. exists c. split; [lia|done].
  - apply remove_inv in Hc as [(_&_&s&->&_)|(m&s&_&_&_&_&_&_&->)]; [done|].
    destruct Hids as [Hle Hids]. split; simpl; [lia|]. intros i p. rewrite lookup_delete.
    case_decide; [done|]. apply Hids.
  - eapply ids_since_eq; [| |done]; unfold mkdir in Hc; by run_inv Hc.
  - eapply ids_since_eq; [| |done]; unfold rmdir in Hc; by run_inv Hc.
  - eapply ids_since_eq; [| |done]; unfold add_subfile in Hc; by run_inv Hc.
  - eapply ids_since_eq; [| |done]; unfold remove_subfile in Hc; by run_inv Hc.
  - eapply ids_since_eq; [| |done]; unfold setattr in Hc; by run_inv Hc.
Qed.

(** One run of the master never hands out an id twice.  After any calls
    since the first start, as long as fewer than 2^48 files were created, the
    id the next [create] computes is not in use, whatever the path; the top
    16 bits of the id are those of the hash of the path, its low 48 bits
    those of the counter. *)
Theorem object_ids_fresh (ns0 ns : Namespace S) (path : string) :
  booted ns0 → rtc ns_call ns0 ns →
  (next_obj_id_ ns - next_obj_id_ ns0 < 2 ^ 48)%Z →
  let oid := object_id_of path (next_obj_id_ ns) in
  id_to_path_map_ ns !! oid = None ∧
  Z.shiftr oid 48 = Z.shiftr (path_to_hash path) 48 ∧
  (oid mod 2 ^ 48 = next_obj_id_ ns mod 2 ^ 48)%Z.
Proof.
  intros Hb Hr Hlt. cbv zeta. split_and!; [|apply object_id_high|apply object_id_low].
  assert (ids_since (next_obj_id_ ns0) ns) as [_ Hids].
  { eapply rtc_invariant; [apply ns_call_ids| |done].
    apply booted_tables in Hb as (s&garbage&_&_&->). split; simpl; [lia|].
    intros i p. by rewrite lookup_empty. }
  apply eq_None_not_Some. intros [p (c&Hc&Hmod)%Hids]. rewrite object_id_low in Hmod.
  assert ((next_obj_id_ ns - c) mod 2 ^ 48 = 0)%Z as Hz.
  { by rewrite Zminus_mod, Hmod, Z.sub_diag. }
  rewrite Z.mod_small in Hz; lia.
Qed.

(** [create] and [remove] are inverse.  A successful [create] of a new path
    makes it visible to every lookup under the id it returned, with the mode
    of a regular file, the caller's ids and the current time; if the id was
    not in use, removing the path hands the same id back and, when the store
    agrees, restores the metadata and id tables of before. *)
Theorem create_remove_roundtrip (ns ns1 : Namespace S) path mode uid gid now st oid :
  kv_opened (store_ ns) →
  create ns path mode uid gid now = Done (st, oid, ns1) → ok st = true →
  id_to_path_map_ ns !! oid = None →
  exists_ ns path = false ∧ exists_ ns1 path = true ∧
  object_id ns1 path = (OK, Some oid) ∧ file_path ns1 oid = (OK, Some path) ∧
  (getattr ns1 path).2 =
    Some {| fi_object_id := Some oid; fi_uid := Some (wrap_int32 uid);
            fi_gid := Some (wrap_int32 gid); fi_mode := Some (Z.lor mode S_IFREG);
            fi_size := Some 0%Z; fi_atime := Some (int64_of_double now);
            fi_ctime := Some (int64_of_double now);
            fi_mtime := Some (int64_of_double now) |} ∧
  ∃ st' oid' ns2, remove ns1 path = Done (st', oid', ns2) ∧
    (ok st' = true → oid' = Some oid ∧ metadata_map_ ns2 = metadata_map_ ns ∧
                     id_to_path_map_ ns2 = id_to_path_map_ ns).
Proof.
  intros Ho [(_&Hf&_)|(s&Hm&_&->&Hput&->)]%create_inv Hok Hi; [congruence|].
  destruct (kv_put_inv _ _ _ _ _ Ho Hput) as [Ho' _].
  unfold exists_, object_id, file_path, getattr, remove; simpl.
  rewrite !lookup_insert_eq, Hm. simpl.
  split_and!; try done. unfold is_dir; simpl. rewrite S_ISDIR_file.
  destruct (kv_remove_spec s path Ho') as (st'&s'&->&_). simpl.
  rewrite bool_decide_eq_true_2 by done.
  destruct (ok st') eqn:Hok'; simpl; do 3 eexists; (split; [done|]).
  - intros _. simpl. by rewrite !delete_insert_id.
  - congruence.
Qed.
End object_ids.

(** ** Two sequences that end in a failed [CHECK] *)

Section hazards.
#[local] Existing Instances TestLevelDBStore.test_store TestLevelDBStore.test_store_spec.
Context `{!VoblaStatus, !MD5, !BoostFilesystem}.
Context `{!ThriftCodec FileMetadata, !ThriftCodecSpec FileMetadata}.

Definition set_mode (mode : Z) : RpcFileInfo :=
  {| fi_object_id := None; fi_uid := None; fi_gid := None; fi_mode := Some mode;
     fi_size := None; fi_ctime := None; fi_mtime := None; fi_atime := None |}.

Lemma object_id_same_prefix p q c :
  Z.shiftr (path_to_hash p) 48 = Z.shiftr (path_to_hash q) 48 →
  object_id_of p c = object_id_of q c.
Proof.
  intros Hpq. unfold object_id_of. f_equal.
  assert (∀ h, Z.land h (wrap_int64 (Z.shiftl (Z.shiftl 1 kPrefixLen - 1) (64 - kPrefixLen)))
               = Z.shiftl (Z.shiftr h 48) 48) as Hh; [|by rewrite !Hh, Hpq].
  intros h. change (wrap_int64 _) with (- 2 ^ 48)%Z.
  rewrite <-Z.ldiff_ones_r by lia. by rewrite Z.ldiff_land.
Qed.

(** The id counter is not restored when a master restarts.  When it happens
    to start from the same value again and two paths share the top 16 bits
    of their hashes, the second file gets the id of the first one, and
    removing the first file aborts the server. *)
Theorem restart_reuses_object_ids (p q : string) (now : double) :
  starts_with "/" p = true → p ≠ q →
  Z.shiftr (path_to_hash p) 48 = Z.shiftr (path_to_hash q) 48 →
  ∃ oid ns1 ns2 ns3,
    create (new (∅ : gmap string string) 0) p 420 0 0 now = Done (OK, oid, ns1) ∧
    init (new (store_ ns1) 0) = Done (OK, ns2) ∧ same_tables ns1 ns2 ∧
    create ns2 q 420 0 0 now = Done (OK, oid, ns3) ∧
    ∃ why, remove ns3 p = Fatal why.
Proof.
  intros Hp Hpq Hhash. set (oid := object_id_of p 0).
  set (m := new_metadata (Z.lor 420 S_IFREG) 0 0 now oid).
  assert (is_dir m = false) as Hf by by unfold is_dir, m.
  pose (ns2 := {| store_ := {[p := thrift_write m]} : gmap string string; directories_ := ∅;
                  metadata_map_ := {[p := m]}; id_to_path_map_ := {[oid := p]};
                  next_obj_id_ := 0 |}).
  exists oid, (with_next ns2 1), ns2. eexists. split_and!.
  - unfold create. simpl. rewrite lookup_empty. simpl. done.
  - unfold init. simpl. unfold sorted_map. rewrite map_to_list_singleton. simpl.
    rewrite Hp, thrift_read_write. unfold load_metadata. by rewrite Hf.
  - by split_and!.
  - unfold create. simpl. rewrite lookup_singleton_ne by done. simpl.
    rewrite <-(object_id_same_prefix p q 0 Hhash). fold oid.
    rewrite lookup_singleton_eq. rewrite bool_decide_eq_false_2 by naive_solver. simpl. done.
  - simpl. unfold remove. simpl. rewrite lookup_insert_ne, lookup_singleton_eq by done.
    rewrite Hf. simpl. rewrite lookup_insert_eq.
    rewrite bool_decide_eq_false_2 by naive_solver. simpl. eauto.
Qed.

(** A [chmod] without the file type bits turns a directory into a file for
    [remove] but not for the id table: the next [remove] of the path aborts
    the server instead of returning [EISDIR]. *)
Theorem chmod_then_remove_aborts (path : string) (uid gid : Z) (now : double) :
  ∃ ns1 ns2,
    mkdir (new (∅ : gmap string string) 0) path 493 uid gid now = Done (OK, ns1) ∧
    (remove ns1 path = Done (Err (- EISDIR) (strerror EISDIR), None, ns1)) ∧
    setattr ns1 path (set_mode 493) = Done (OK, ns2) ∧
    ∃ why, remove ns2 path = Fatal why.
Proof.
  unfold mkdir. simpl. rewrite lookup_empty. simpl.
  eexists _, _. split_and!; [done| | |].
  - unfold remove. simpl. rewrite lookup_insert_eq. done.
  - unfold setattr. simpl. rewrite lookup_insert_eq. simpl. done.
  - unfold remove. simpl. rewrite lookup_insert_eq. simpl. eauto.
Qed.
End hazards.

(** ** A concrete run *)

Section witnesses.
Import Reference.
#[local] Existing Instances TestLevelDBStore.test_store TestLevelDBStore.test_store_spec.
#[local] Instance metadata_codec : ThriftCodec FileMetadata := codec FileMetadata.
#[local] Instance metadata_codec_spec : ThriftCodecSpec FileMetadata := codec_spec FileMetadata.

Definition noon : double := double_of_int64 1385467200.
Definition state_of (ns : Namespace (gmap string string))
    (r : run (Status * Namespace (gmap string string))) : Namespace (gmap string string) :=
  match r with Done (_, ns') => ns' | Fatal _ => ns end.

(** An empty master; then [mkdir /], [create /a] and the entry [a] of [/]. *)
Definition demo0 : Namespace (gmap string string) := new ∅ 0.
Definition demo1 := state_of demo0 (mkdir demo0 "/" 493 0 0 noon).
Definition demo2 :=
  match create demo1 "/a" 420 1000 1000 noon with Done (_, _, ns) => ns | Fatal _ => demo1 end.
Definition demo3 := state_of demo2 (add_subfile demo2 "/" "a").
Definition demo_oid : Z := object_id_of "/a" 0.

Lemma demo_booted : booted demo0.
Proof. exists (∅ : gmap string string), 0%Z, OK. by split_and!. Qed.

Lemma demo_create_ok : create demo1 "/a" 420 1000 1000 noon = Done (OK, demo_oid, demo2).
Proof. vm_compute. reflexivity. Qed.

Lemma demo_run : rtc ns_step demo0 demo3.
Proof.
  eapply rtc_l.
  { apply (step_mkdir demo0 "/" 493 0 0 noon OK demo1); [done|by left|vm_compute; reflexivity]. }
  eapply rtc_l.
  { apply (step_create demo1 "/a" 420 1000 1000 noon OK demo_oid demo2);
      [done|vm_compute; reflexivity|vm_compute; reflexivity]. }
  eapply rtc_l; [|apply rtc_refl].
  apply (step_add_subfile demo2 "/" "a" OK demo3); [by left|by vm_compute|vm_compute; reflexivity].
Qed.

Lemma demo_calls : rtc ns_call demo0 demo3.
Proof.
  eapply rtc_l; [apply (call_mkdir demo0 "/" 493 0 0 noon OK demo1); vm_compute; reflexivity|].
  eapply rtc_l; [apply (call_create demo1 "/a" 420 1000 1000 noon OK demo_oid demo2); vm_compute; reflexivity|].
  eapply rtc_l; [apply (call_add_subfile demo2 "/" "a" OK demo3); vm_compute; reflexivity|apply rtc_refl].
Qed.

Lemma namespace_crash_recovery_witness :
  ∃ ns', init (new (store_ demo3) 7) = Done (OK, ns') ∧ same_tables demo3 ns' ∧
         next_obj_id_ ns' = 7%Z.
Proof.
  apply (namespace_crash_recovery demo0 demo3 (store_ demo3) 7);
    [exact demo_booted|exact demo_run|done|done].
Defined.

Lemma ids_and_paths_correspond_witness :
  file_path demo3 demo_oid = (OK, Some "/a") ∧ object_id demo3 "/a" = (OK, Some demo_oid).
Proof.
  destruct (ids_and_paths_correspond demo0 demo3 demo_booted demo_run) as [_ H].
  split; [by vm_compute|]. apply (H demo_oid "/a"). by vm_compute.
Defined.

Lemma namespace_never_aborts_witness : ∃ r, remove demo3 "/a" = Done r.
Proof.
  exact (proj1 (namespace_never_aborts demo0 demo3 demo_booted demo_run) "/a").
Defined.

Lemma failed_calls_change_nothing_witness :
  rmdir demo3 "/" = Done (Err (- ENOTEMPTY) (strerror ENOTEMPTY), demo3) ∧
  same_tables demo3 demo3.
Proof.
  assert (rmdir demo3 "/" = Done (Err (- ENOTEMPTY) (strerror ENOTEMPTY), demo3)) as Hr
    by by vm_compute.
  split; [exact Hr|].
  apply (failed_calls_change_nothing demo0 demo3 demo3 (Err (- ENOTEMPTY) (strerror ENOTEMPTY))
    demo_booted demo_run eq_refl).
  right. right. left. by exists "/".
Defined.

Lemma object_ids_fresh_witness :
  id_to_path_map_ demo3 !! object_id_of "/b" (next_obj_id_ demo3) = None.
Proof.
  apply (object_ids_fresh demo0 demo3 "/b" demo_booted demo_calls). by vm_compute.
Defined.

Lemma create_remove_roundtrip_witness :
  object_id demo2 "/a" = (OK, Some demo_oid) ∧ file_path demo2 demo_oid = (OK, Some "/a").
Proof.
  destruct (create_remove_roundtrip demo1 demo2 "/a" 420 1000 1000 noon OK demo_oid)
    as (_&_&H1&H2&_); [done|exact demo_create_ok|done|vm_compute; reflexivity|].
  split; [exact H1|exact H2].
Defined.

Lemma restart_reuses_object_ids_witness :
  ∃ oid ns1 ns2 ns3,
    create (new (∅ : gmap string string) 0) "/a" 420 0 0 noon = Done (OK, oid, ns1) ∧
    init (new (store_ ns1) 0) = Done (OK, ns2) ∧ same_tables ns1 ns2 ∧
    create ns2 "/b" 420 0 0 noon = Done (OK, oid, ns3) ∧ ∃ why, remove ns3 "/a" = Fatal why.
Proof. apply (restart_reuses_object_ids "/a" "/b" noon); by vm_compute. Defined.
End witnesses.
