(* ===== verification/FileSystem.v ===== *)
(** * What a cluster of masters promises: one file system

    The specification against which [ClusterFiles] proves the client and the
    masters: the nodes of a tree by path, the entries of its directories and the
    object ids handed out so far.  A call is a function of the tree ([fs_exec]);
    the id of a new file is the only thing it leaves open ([id_ok]).  [op_ok] is
    the contract of the callers, and [tree_wf] says that nodes, entries and ids
    fit each other. *)

From S2P Require Import Prelude CxxString Platform PathUtil Namespace.

(** [fs_given] remembers which path was given which id, whether or not the file
    still exists. *)
Record FileSystem := {
  fs_nodes : gmap string FileMetadata;
  fs_entries : gmap string (gset string);
  fs_given : gset (string * Z);
}.

(** The calls of a client. *)
Inductive fs_op :=
  | FCreate (path : string) (mode uid gid : Z)
  | FUnlink (path : string)
  | FMkdir (path : string) (mode uid gid : Z)
  | FRmdir (path : string)
  | FReaddir (path : string)
  | FGetattr (path : string)
  | FSetattr (path : string) (info : RpcFileInfo)
  | FObjectId (path : string).

(** What the caller gets: a status, and what the call fills in. *)
Inductive fs_answer :=
  | ADone (status : Status)
  | AnId (status : Status) (oid : option Z)
  | TheNames (status : Status) (names : option (list string))
  | TheInfo (status : Status) (info : option RpcFileInfo).

(** ** The tree *)

Section tree.
Context `{BoostFilesystem}.
Implicit Types (fs : FileSystem) (p d n : string).

Definition with_nodes fs m : FileSystem :=
  {| fs_nodes := m; fs_entries := fs_entries fs; fs_given := fs_given fs |}.
Definition with_entries fs e : FileSystem :=
  {| fs_nodes := fs_nodes fs; fs_entries := e; fs_given := fs_given fs |}.
Definition give p oid fs : FileSystem :=
  {| fs_nodes := fs_nodes fs; fs_entries := fs_entries fs; fs_given := {[(p, oid)]} ∪ fs_given fs |}.

(** The parent directory gains or loses the name of a path. *)
Definition edit_parent (f : string → gset string → gset string) p fs : FileSystem :=
  if bool_decide (p = "/") then fs
  else with_entries fs (alter (f (fs_filename p)) (fs_parent_path p) (fs_entries fs)).
Definition add_name : string → FileSystem → FileSystem := edit_parent (λ n subs, {[n]} ∪ subs).
Definition drop_name : string → FileSystem → FileSystem := edit_parent (λ n subs, subs ∖ {[n]}).

Definition put_file p m fs := with_nodes fs (<[p:=m]> (fs_nodes fs)).
Definition drop_file p fs := with_nodes fs (delete p (fs_nodes fs)).
Definition put_dir p m fs := with_entries (put_file p m fs) (<[p:=∅]> (fs_entries fs)).
Definition drop_dir p fs := with_entries (drop_file p fs) (delete p (fs_entries fs)).

(** The records of new nodes: the type bits are set, and the numbers are
    those a signed 32-bit field can hold. *)
Definition new_node (mode uid gid : Z) (t : double) (oid : Z) : FileMetadata :=
  {| md_object_id := oid; md_mode := wrap_int32 mode; md_gid := wrap_int32 gid;
     md_uid := wrap_int32 uid; md_size := 0; md_atime := t; md_ctime := t; md_mtime := t |}.
Definition new_file (mode uid gid : Z) (t : double) (oid : Z) : FileMetadata :=
  new_node (Z.lor mode S_IFREG) uid gid t oid.
Definition new_dir (mode uid gid : Z) (t : double) : FileMetadata :=
  new_node (Z.lor mode S_IFDIR) uid gid t 0.

Definition info_of (m : FileMetadata) : RpcFileInfo :=
  {| fi_object_id := Some (md_object_id m); fi_uid := Some (md_uid m); fi_gid := Some (md_gid m);
     fi_mode := Some (md_mode m); fi_size := Some (md_size m);
     fi_ctime := Some (int64_of_double (md_ctime m)); fi_mtime := Some (int64_of_double (md_mtime m));
     fi_atime := Some (int64_of_double (md_atime m)) |}.
End tree.

Section calls.
Context `{VoblaStatus, BoostFilesystem}.
Implicit Types (fs : FileSystem) (p d n : string).

Definition refused (e : Z) : Status := Err (- e) (strerror e).
(** A system error as it arrives at the client. *)
Definition missing : Status := Err (error_of (SystemError ENOENT)) (message_of (SystemError ENOENT)).

(** The call [o] at time [t]; a new file gets the id [oid]. *)
Definition fs_exec (t : double) (oid : Z) (o : fs_op) fs : fs_answer * FileSystem :=
  match o with
  | FCreate p mode uid gid =>
      match fs_nodes fs !! p with
      | Some _ => (AnId (refused EEXIST) None, fs)
      | None => (AnId OK (Some oid), add_name p (put_file p (new_file mode uid gid t oid) (give p oid fs)))
      end
  | FUnlink p =>
      match fs_nodes fs !! p with
      | Some m =>
          if is_dir m then (AnId (refused EISDIR) None, fs)
          else (AnId OK (Some (md_object_id m)), drop_file p (drop_name p fs))
      | None => (AnId (refused ENOENT) None, fs)
      end
  | FMkdir p mode uid gid =>
      match fs_nodes fs !! p with
      | Some _ => (ADone (refused EEXIST), fs)
      | None => (ADone OK, add_name p (put_dir p (new_dir mode uid gid t) fs))
      end
  | FRmdir p =>
      match fs_entries fs !! p with
      | None => (ADone (refused ENOENT), fs)
      | Some subs =>
          if bool_decide (subs = ∅) then (ADone OK, drop_name p (drop_dir p fs))
          else (ADone (refused ENOTEMPTY), fs)
      end
  | FReaddir p =>
      match fs_entries fs !! p with
      | None => (TheNames (refused ENOENT) None, fs)
      | Some subs => (TheNames OK (Some (sorted_elements String.le subs)), fs)
      end
  | FGetattr p =>
      match fs_nodes fs !! p with
      | None => (TheInfo missing None, fs)
      | Some m => (TheInfo OK (Some (info_of m)), fs)
      end
  | FSetattr p info =>
      match fs_nodes fs !! p with
      | None => (ADone missing, fs)
      | Some m => (ADone OK, put_file p (apply_info m info) fs)
      end
  | FObjectId p =>
      match fs_nodes fs !! p with
      | None => (AnId missing None, fs)
      | Some m => (AnId OK (Some (md_object_id m)), fs)
      end
  end.

(** The paths of a tree. *)
Definition tree_path p : Prop :=
  p = "/" ∨ ∃ d n, dir_path d ∧ plain_name n ∧ p = fs_append d n.
(** A path that is free for a new node: its directory is there. *)
Definition has_parent p fs : Prop :=
  p = "/" ∨ is_Some (fs_entries fs !! fs_parent_path p).

(** The contract of the callers.  A file is created in a directory that exists,
    and unlinked when it exists and is a file; [setattr] leaves the type of the
    node alone. *)
Definition op_ok (o : fs_op) fs : Prop :=
  match o with
  | FCreate p _ _ _ => p ≠ "/" ∧ tree_path p ∧ (fs_nodes fs !! p = None → has_parent p fs)
  | FMkdir p mode _ _ =>
      tree_path p ∧ mkdir_mode mode ∧ (fs_nodes fs !! p = None → has_parent p fs)
  | FUnlink p => ∃ m, fs_nodes fs !! p = Some m ∧ is_dir m = false ∧ p ≠ "/"
  | FReaddir p => starts_with "/" p = true
  | FSetattr p info => ∀ m, fs_nodes fs !! p = Some m → is_dir (apply_info m info) = is_dir m
  | FRmdir _ | FGetattr _ | FObjectId _ => True
  end.

(** A run of calls, each with its time, is in the contract whatever the ids. *)
Fixpoint ops_ok (ops : list (double * fs_op)) fs : Prop :=
  match ops with
  | [] => True
  | (t, o) :: ops' => op_ok o fs ∧ ∀ oid, ops_ok ops' (fs_exec t oid o fs).2
  end.

(** ** Runs *)

Context {A : Type} (owner : string → A) `{MD5}.

(** The id of a new file: the top 16 bits are those of the hash of its path,
    and no file of the same owner, removed ones included, was given it. *)
Definition id_ok (o : fs_op) (oid : Z) fs : Prop :=
  match o with
  | FCreate p _ _ _ =>
      fs_nodes fs !! p = None →
      Z.shiftr oid 48 = Z.shiftr (path_to_hash p) 48 ∧
      ∀ q, owner q = owner p → (q, oid) ∉ fs_given fs
  | _ => True
  end.

Inductive fs_run : list (double * fs_op) → FileSystem → list fs_answer → FileSystem → Prop :=
  | fs_run_nil fs : fs_run [] fs [] fs
  | fs_run_cons t o ops oid fs fs1 fs' answer answers :
      id_ok o oid fs → fs_exec t oid o fs = (answer, fs1) →
      fs_run ops fs1 answers fs' → fs_run ((t, o) :: ops) fs (answer :: answers) fs'.
End calls.

(** ** Nodes and entries fit each other *)

Definition names_in (fs : FileSystem) (d n : string) : Prop :=
  ∃ subs, fs_entries fs !! d = Some subs ∧ n ∈ subs.

(** The directories [hidden] are in the listing of no directory: those of the
    indices, which the masters make for themselves ([Searchable]). *)
Record tree_wf_but `{BoostFilesystem} (hidden : string → Prop) (fs : FileSystem) : Prop := {
  tw_dirs p : is_Some (fs_entries fs !! p) ↔ ∃ m, fs_nodes fs !! p = Some m ∧ is_dir m = true;
  tw_paths p : is_Some (fs_nodes fs !! p) → tree_path p;
  tw_names d n : names_in fs d n → dir_path d ∧ plain_name n;
  tw_entries d n :
    dir_path d → plain_name n →
    names_in fs d n ↔ is_Some (fs_nodes fs !! fs_append d n) ∧ ¬ hidden (fs_append d n);
  tw_hidden p : hidden p → ∃ m, fs_nodes fs !! p = Some m ∧ is_dir m = true;
  tw_given p m :
    fs_nodes fs !! p = Some m → is_dir m = false → (p, md_object_id m) ∈ fs_given fs;
}.
Arguments tw_dirs {_ _} _ _ _. Arguments tw_paths {_ _} _ _ _ _. Arguments tw_names {_ _} _ _ _ _ _.
Arguments tw_entries {_ _} _ _ _ _ _ _. Arguments tw_hidden {_ _} _ _ _ _.
Arguments tw_given {_ _} _ _ _ _ _ _.

(** Every node but the root is listed in its directory. *)
Abbreviation tree_wf := (tree_wf_but (λ _, False)).

(** The calls that would take a name out of a listing. *)
Definition visible (hidden : string → Prop) (o : fs_op) : Prop :=
  match o with FUnlink p | FRmdir p => ¬ hidden p | _ => True end.

Lemma visible_all o : visible (λ _, False) o.
Proof. by destruct o; simpl; try tauto. Qed.

Section paths.
Context `{!BoostFilesystem, !BoostFilesystemSpec}.

Lemma tree_path_split p :
  tree_path p → p ≠ "/" →
  dir_path (fs_parent_path p) ∧ plain_name (fs_filename p) ∧ p = fs_append (fs_parent_path p) (fs_filename p).
Proof.
  intros [?|(d&n&Hd&Hn&->)] Hne; [done|]. destruct (fs_split_append d n Hd Hn) as [-> ->]. done.
Qed.

Lemma dir_path_absolute d : dir_path d → starts_with "/" d = true.
Proof. by intros [->|[_ ?]]. Qed.

Lemma fs_append_absolute d n : dir_path d → plain_name n → starts_with "/" (fs_append d n) = true.
Proof.
  intros [->|[Hd Hs]] Hn.
  - rewrite fs_append_slash by done. apply starts_with_spec. by exists n.
  - rewrite fs_append_dir by done. apply starts_with_spec in Hs as [t ->].
    apply starts_with_spec. exists (t +:+ "/" +:+ n). by rewrite str_app_assoc.
Qed.

Lemma tree_path_absolute p : tree_path p → starts_with "/" p = true.
Proof. intros [->|(d&n&?&?&->)]; [done|by apply fs_append_absolute]. Qed.

Lemma fs_append_inj d n d' n' :
  dir_path d → plain_name n → dir_path d' → plain_name n' →
  fs_append d n = fs_append d' n' → d = d' ∧ n = n'.
Proof. intros ???? He. apply directory_map_key_inj; try done. by rewrite He. Qed.

Lemma fs_append_not_root d n : dir_path d → plain_name n → fs_append d n ≠ "/".
Proof.
  intros Hd [Hn Hc]. destruct Hd as [->|[Hd Hs]].
  - rewrite fs_append_slash by done. destruct n; [done|]. simpl. intros [=].
  - rewrite fs_append_dir by done. apply starts_with_spec in Hs as [t ->].
    intros [= He]. by destruct t.
Qed.
End paths.

(** *** The edits, seen through [names_in] *)

Section edits.
Context `{!BoostFilesystem, !BoostFilesystemSpec}.
Implicit Types (fs : FileSystem) (p d n : string) (m : FileMetadata).

(** [d] is the directory of [p], and [n] its name there. *)
Definition sits_in p d n : Prop := p ≠ "/" ∧ d = fs_parent_path p ∧ n = fs_filename p.

Lemma edit_parent_nodes f p fs : fs_nodes (edit_parent f p fs) = fs_nodes fs.
Proof. unfold edit_parent. by case_bool_decide. Qed.

Lemma edit_parent_given f p fs : fs_given (edit_parent f p fs) = fs_given fs.
Proof. unfold edit_parent. by case_bool_decide. Qed.

Lemma edit_parent_dirs f p fs q :
  is_Some (fs_entries (edit_parent f p fs) !! q) ↔ is_Some (fs_entries fs !! q).
Proof.
  unfold edit_parent. case_bool_decide; [done|]. simpl. rewrite lookup_alter.
  case_decide; subst; [by rewrite fmap_is_Some|done].
Qed.

Lemma edit_parent_names f p fs d n :
  names_in (edit_parent f p fs) d n ↔
  if decide (p ≠ "/" ∧ d = fs_parent_path p)
  then ∃ subs, fs_entries fs !! d = Some subs ∧ n ∈ f (fs_filename p) subs else names_in fs d n.
Proof.
  unfold edit_parent, names_in. case_bool_decide as Hp; simpl.
  { rewrite decide_False by tauto. done. }
  rewrite lookup_alter. case_decide as Hd; case_decide as Hd'; try naive_solver.
  subst d. setoid_rewrite fmap_Some. naive_solver.
Qed.

Lemma add_name_names p fs d n :
  names_in (add_name p fs) d n ↔
  names_in fs d n ∨ (sits_in p d n ∧ is_Some (fs_entries fs !! d)).
Proof.
  unfold add_name, sits_in. rewrite edit_parent_names. unfold names_in.
  case_decide as Hd; [|naive_solver]. split.
  - intros (subs&Hs&[->%elem_of_singleton|?]%elem_of_union); naive_solver.
  - intros [(subs&Hs&?)|((_&_&->)&subs&Hs)]; exists subs; set_solver.
Qed.

Lemma drop_name_names p fs d n :
  names_in (drop_name p fs) d n ↔ names_in fs d n ∧ ¬ sits_in p d n.
Proof.
  unfold drop_name, sits_in. rewrite edit_parent_names. unfold names_in.
  case_decide as Hd; [|naive_solver]. set_solver.
Qed.

(** A new node of the tree. *)
Definition put_node p m fs : FileSystem := if is_dir m then put_dir p m fs else put_file p m fs.
Definition drop_node p m fs : FileSystem := if is_dir m then drop_dir p fs else drop_file p fs.

Lemma put_node_given p m fs : fs_given (put_node p m fs) = fs_given fs.
Proof. unfold put_node. by destruct (is_dir m). Qed.
Lemma drop_node_given p m fs : fs_given (drop_node p m fs) = fs_given fs.
Proof. unfold drop_node. by destruct (is_dir m). Qed.
Lemma put_node_entries p m fs q :
  fs_entries (put_node p m fs) !! q =
  if is_dir m then if decide (p = q) then Some ∅ else fs_entries fs !! q else fs_entries fs !! q.
Proof. unfold put_node. destruct (is_dir m); [|done]. apply lookup_insert. Qed.

Lemma put_node_names p m fs d n :
  fs_entries fs !! p = None → names_in (put_node p m fs) d n ↔ names_in fs d n.
Proof.
  intros Hp. unfold names_in. rewrite put_node_entries. destruct (is_dir m); [|done].
  case_decide; [subst|done]. split; [intros (?&[= <-]&?); set_solver|intros (?&?&?); congruence].
Qed.

Lemma sits_in_append p d n :
  tree_path p → p ≠ "/" → dir_path d → plain_name n → sits_in p d n ↔ p = fs_append d n.
Proof.
  intros Hp Hne Hd Hn. destruct (tree_path_split p Hp Hne) as (Hd'&Hn'&He). split.
  - by intros (_&->&->).
  - intros ->. destruct (fs_split_append d n Hd Hn) as [E1 E2]. by split_and!.
Qed.

Context {hidden : string → Prop}.
Abbreviation wf := (tree_wf_but hidden).

Lemma give_wf p oid fs : wf fs → wf (give p oid fs).
Proof.
  intros [Hd Hp Hn He Hh Hg]. split; [exact Hd|exact Hp|exact Hn|exact He|exact Hh|]. simpl. intros q m Hq Hf.
  apply elem_of_union_r. by apply Hg.
Qed.

Lemma free_path fs p : wf fs → fs_nodes fs !! p = None → fs_entries fs !! p = None.
Proof. intros Hwf Hp. apply eq_None_not_Some. rewrite (tw_dirs _ Hwf). naive_solver congruence. Qed.

Lemma grow_wf fs p m :
  wf fs → tree_path p → fs_nodes fs !! p = None → has_parent p fs →
  (is_dir m = false → (p, md_object_id m) ∈ fs_given fs) →
  wf (add_name p (put_node p m fs)).
Proof.
  intros Hwf Hp Hfree Hpar Hgiven. pose proof (free_path fs p Hwf Hfree) as Hdir.
  assert (¬ hidden p) as Hvis by (intros (m'&?&_)%(tw_hidden _ Hwf); congruence).
  assert (fs_nodes (add_name p (put_node p m fs)) = <[p:=m]> (fs_nodes fs)) as Hnodes.
  { unfold add_name. rewrite edit_parent_nodes. unfold put_node. by destruct (is_dir m). }
  split; rewrite ?Hnodes.
  - intros q. unfold add_name. rewrite edit_parent_dirs, put_node_entries, lookup_insert.
    destruct (is_dir m) eqn:Hm; (destruct (decide (p = q)) as [<-|]; [|apply (tw_dirs _ Hwf)]).
    + naive_solver.
    + rewrite Hdir. split; [by intros []|]. naive_solver congruence.
  - intros q [m' Hq]. rewrite lookup_insert in Hq. case_decide; [by subst|]. apply (tw_paths _ Hwf). eauto.
  - intros d n. rewrite add_name_names, put_node_names by done.
    intros [?|[(Hne&->&->) _]]; [by apply (tw_names _ Hwf)|].
    by destruct (tree_path_split p Hp Hne) as (?&?&_).
  - intros d n Hd Hn. rewrite add_name_names, put_node_names, (tw_entries _ Hwf) by done.
    rewrite lookup_insert. case_decide as Hpq.
    + subst p. split; [by eauto|]. intros _. right.
      pose proof (fs_append_not_root d n Hd Hn) as Hne.
      split; [by apply sits_in_append|]. rewrite put_node_entries.
      destruct Hpar as [?|Hpar]; [done|]. destruct (fs_split_append d n Hd Hn) as [E _].
      rewrite E in Hpar. destruct (is_dir m); [|done]. case_decide; [by eauto|done].
    + split; [|by left]. intros [?|[Hs _]]; [done|]. destruct Hpq.
      apply sits_in_append; try done. apply Hs.
  - intros q Hq. destruct (tw_hidden _ Hwf q Hq) as (m'&Hm'&Hd). exists m'.
    rewrite lookup_insert_ne by (intros ->; done). done.
  - intros q m'. unfold add_name. rewrite edit_parent_given, put_node_given, lookup_insert.
    case_decide; [intros [= <-]; by subst|]. apply (tw_given _ Hwf).
Qed.

Lemma hidden_ext (hidden' : string → Prop) fs : (∀ q, hidden' q ↔ hidden q) → wf fs → tree_wf_but hidden' fs.
Proof.
  intros Hh [Hd Hp Hn He Hhid Hg]. split; [exact Hd|exact Hp|exact Hn| | |exact Hg].
  - intros d n. rewrite Hh. apply He.
  - intros q. rewrite Hh. apply Hhid.
Qed.

(** A new directory that its parent does not list. *)
Lemma hide_wf (hidden' : string → Prop) fs p m :
  wf fs → tree_path p → fs_nodes fs !! p = None → is_dir m = true →
  (∀ q, hidden' q ↔ hidden q ∨ q = p) → tree_wf_but hidden' (put_dir p m fs).
Proof.
  intros Hwf Hp Hfree Hm Hh. pose proof (free_path fs p Hwf Hfree) as Hdir.
  assert (∀ d n, names_in (put_dir p m fs) d n ↔ names_in fs d n) as Hnames.
  { intros d n. pose proof (put_node_names p m fs d n Hdir) as H'. unfold put_node in H'. by rewrite Hm in H'. }
  split.
  - intros q. simpl. rewrite !lookup_insert. case_decide; [|apply (tw_dirs _ Hwf)].
    split; [|by eauto]. intros _. by exists m.
  - intros q [m' Hq]. simpl in Hq. rewrite lookup_insert in Hq. case_decide; [by subst|].
    apply (tw_paths _ Hwf). eauto.
  - intros d n. rewrite Hnames. apply (tw_names _ Hwf).
  - intros d n Hd Hn. rewrite Hnames, (tw_entries _ Hwf), Hh by done. simpl. rewrite lookup_insert.
    case_decide as Hpq; [subst p; rewrite Hfree|naive_solver].
    split; [by intros [[] _]|]. intros [_ []]. by right.
  - intros q [Hq| ->]%Hh; simpl; rewrite lookup_insert.
    + case_decide; [by exists m|]. by apply (tw_hidden _ Hwf).
    + rewrite decide_True by done. by exists m.
  - intros q m'. simpl. rewrite lookup_insert. case_decide; [intros [= <-]; congruence|].
    apply (tw_given _ Hwf).
Qed.

Lemma shrink_wf fs p m :
  wf fs → ¬ hidden p → fs_nodes fs !! p = Some m → (∀ n, ¬ names_in fs p n) →
  wf (drop_name p (drop_node p m fs)).
Proof.
  intros Hwf Hvis Hp Hempty. pose proof (tw_paths _ Hwf p (ltac:(eauto))) as Htp.
  assert (fs_nodes (drop_name p (drop_node p m fs)) = delete p (fs_nodes fs)) as Hnodes.
  { unfold drop_name. rewrite edit_parent_nodes. unfold drop_node. by destruct (is_dir m). }
  assert (∀ q, fs_entries (drop_node p m fs) !! q =
    if is_dir m then if decide (p = q) then None else fs_entries fs !! q else fs_entries fs !! q) as Hent.
  { intros q. unfold drop_node. destruct (is_dir m); [|done]. apply lookup_delete. }
  assert (∀ d n, names_in (drop_node p m fs) d n ↔ names_in fs d n) as Hnames.
  { intros d n. unfold names_in. rewrite Hent. destruct (is_dir m); [|done].
    case_decide; [subst|done]. specialize (Hempty n). unfold names_in in Hempty. naive_solver. }
  split; rewrite ?Hnodes.
  - intros q. unfold drop_name. rewrite edit_parent_dirs, Hent, lookup_delete.
    pose proof (tw_dirs _ Hwf q) as Hd. destruct (is_dir m) eqn:Hm; case_decide; subst; try done.
    + split; [by intros []|naive_solver].
    + rewrite Hd. naive_solver congruence.
  - intros q [m' Hq]. rewrite lookup_delete in Hq. case_decide; [done|]. apply (tw_paths _ Hwf). eauto.
  - intros d n. rewrite drop_name_names, Hnames. intros [? _]. by apply (tw_names _ Hwf).
  - intros d n Hd Hn. rewrite drop_name_names, Hnames, (tw_entries _ Hwf) by done.
    rewrite lookup_delete. case_decide as Hpq.
    + subst p. pose proof (fs_append_not_root d n Hd Hn).
      split; [|by intros [[] _]]. intros [_ []]. by apply sits_in_append.
    + split; [by intros []|]. intros Hs. split; [done|]. intros Hsit. destruct Hpq.
      apply sits_in_append; try done. apply Hsit.
  - intros q Hq. rewrite lookup_delete_ne by (intros ->; done). by apply (tw_hidden _ Hwf).
  - intros q m'. unfold drop_name. rewrite edit_parent_given, drop_node_given, lookup_delete.
    case_decide; [done|]. apply (tw_given _ Hwf).
Qed.
End edits.

(** *** Every call in the contract keeps the tree *)

Section calls_wf.
Context `{!VoblaStatus, !BoostFilesystem, !BoostFilesystemSpec} {hidden : string → Prop}.
Implicit Types (fs : FileSystem) (p : string) (m : FileMetadata).
Abbreviation wf := (tree_wf_but hidden).

Lemma new_file_type mode uid gid t oid : is_dir (new_file mode uid gid t oid) = false.
Proof. unfold is_dir, new_file, new_node. simpl. by rewrite S_ISDIR_wrap, S_ISDIR_file. Qed.
Lemma new_dir_type mode uid gid t : mkdir_mode mode → is_dir (new_dir mode uid gid t) = true.
Proof. intros Hm. unfold is_dir, new_dir, new_node. simpl. by apply S_ISDIR_mkdir. Qed.

Lemma drop_name_file p fs : drop_name p (drop_file p fs) = drop_file p (drop_name p fs).
Proof. unfold drop_name, edit_parent. by case_bool_decide. Qed.

Lemma set_node_wf fs p m m' :
  wf fs → fs_nodes fs !! p = Some m → is_dir m' = is_dir m →
  md_object_id m' = md_object_id m → wf (put_file p m' fs).
Proof.
  intros Hwf Hp Hm Hid.
  assert (∀ q, is_Some (fs_nodes (put_file p m' fs) !! q) ↔ is_Some (fs_nodes fs !! q)) as Hsome.
  { intros q. simpl. rewrite lookup_insert. case_decide; [subst; rewrite Hp; by split; eauto|done]. }
  split.
  - intros q. simpl. rewrite (tw_dirs _ Hwf), lookup_insert.
    case_decide; [subst; rewrite Hp|done]. naive_solver congruence.
  - intros q. rewrite Hsome. apply (tw_paths _ Hwf).
  - apply (tw_names _ Hwf).
  - intros d n Hd Hn. rewrite Hsome. by apply (tw_entries _ Hwf).
  - intros q Hq. destruct (tw_hidden _ Hwf q Hq) as (mq&Hmq&Hd). simpl. rewrite lookup_insert.
    case_decide; [subst; exists m'; split; [done|congruence]|eauto].
  - intros q mq. simpl. rewrite lookup_insert. case_decide; [|apply (tw_given _ Hwf)].
    intros [= <-] Hf. subst. rewrite Hid. apply (tw_given _ Hwf); congruence.
Qed.

Lemma dir_node fs p subs :
  wf fs → fs_entries fs !! p = Some subs → ∃ m, fs_nodes fs !! p = Some m ∧ is_dir m = true.
Proof. intros Hwf Hs. apply (tw_dirs _ Hwf). eauto. Qed.

Lemma fs_exec_wf t oid o fs : wf fs → op_ok o fs → visible hidden o → wf (fs_exec t oid o fs).2.
Proof.
  intros Hwf Hok Hvis. destruct o as [p mode uid gid|p|p mode uid gid|p|p|p|p info|p]; simpl in *.
  - destruct Hok as (_&Hp&Hpar). destruct (fs_nodes fs !! p) eqn:Hn; [done|]. simpl.
    pose proof (grow_wf (give p oid fs) p (new_file mode uid gid t oid) (give_wf p oid fs Hwf) Hp Hn
      (Hpar eq_refl)) as Hg.
    unfold put_node in Hg. rewrite new_file_type in Hg. apply Hg. simpl. set_solver.
  - destruct Hok as (m&Hm&Hf&_). rewrite Hm, Hf. simpl.
    assert (∀ n, ¬ names_in fs p n) as Hno.
    { intros n (subs&Hs&_). destruct (dir_node fs p subs Hwf Hs) as (m'&?&?). congruence. }
    pose proof (shrink_wf fs p m Hwf Hvis Hm Hno) as Hg.
    unfold drop_node in Hg. by rewrite Hf, drop_name_file in Hg.
  - destruct Hok as (Hp&Hmode&Hpar). destruct (fs_nodes fs !! p) eqn:Hn; [done|]. simpl.
    pose proof (grow_wf fs p (new_dir mode uid gid t) Hwf Hp Hn (Hpar eq_refl)) as Hg.
    unfold put_node in Hg. rewrite new_dir_type in Hg by done. by apply Hg.
  - destruct (fs_entries fs !! p) as [subs|] eqn:Hs; [|done].
    case_bool_decide; [subst|done]. simpl.
    destruct (dir_node fs p ∅ Hwf Hs) as (m&Hm&Hd).
    pose proof (shrink_wf fs p m Hwf Hvis Hm) as Hg. unfold drop_node in Hg. rewrite Hd in Hg.
    apply Hg. intros n (subs&?&?). simplify_eq. set_solver.
  - by destruct (fs_entries fs !! p).
  - by destruct (fs_nodes fs !! p).
  - destruct (fs_nodes fs !! p) as [m|] eqn:Hm; [|done]. simpl.
    eapply set_node_wf; [done|done| |done]. by apply Hok.
  - by destruct (fs_nodes fs !! p).
Qed.

End calls_wf.

Lemma fs_run_wf `{!VoblaStatus, !BoostFilesystem, !BoostFilesystemSpec, !MD5} {A} (owner : string → A)
    ops fs answers fs' :
  fs_run owner ops fs answers fs' → tree_wf fs → ops_ok ops fs → tree_wf fs'.
Proof.
  induction 1 as [|t o ops oid fs fs1 fs' answer answers Hid He Hrun IH]; [done|].
  intros Hwf [Hok Hops]. apply IH.
  - replace fs1 with (fs_exec t oid o fs).2 by by rewrite He.
    apply fs_exec_wf; [done|done|apply visible_all].
  - replace fs1 with (fs_exec t oid o fs).2 by by rewrite He. apply Hops.
Qed.

(** *** The ids of files *)

Section ids.
Context `{!VoblaStatus, !BoostFilesystem, !MD5} {A : Type} (owner : string → A).
Implicit Types (fs : FileSystem) (p : string).

(** Paths that may get the same id belong to the same owner. *)
Definition aligned : Prop :=
  ∀ p q, Z.shiftr (path_to_hash p) 48 = Z.shiftr (path_to_hash q) 48 → owner p = owner q.

Definition given_once fs : Prop :=
  ∀ p q i, (p, i) ∈ fs_given fs → (q, i) ∈ fs_given fs → p = q.
Definition given_bits fs : Prop :=
  ∀ p i, (p, i) ∈ fs_given fs → Z.shiftr i 48 = Z.shiftr (path_to_hash p) 48.
Definition was_given oid fs : Prop := ∃ p, (p, oid) ∈ fs_given fs.

End ids.

Section given.
Context `{!VoblaStatus, !BoostFilesystem}.
Implicit Types (fs : FileSystem) (p : string).

Lemma exec_given t oid o fs p i :
  (p, i) ∈ fs_given (fs_exec t oid o fs).2 →
  (p, i) ∈ fs_given fs ∨
  (i = oid ∧ fs_nodes fs !! p = None ∧ ∃ mode uid gid, o = FCreate p mode uid gid).
Proof.
  destruct o as [q mode uid gid|q|q mode uid gid|q|q|q|q info|q]; simpl;
    try (repeat case_match; simpl; unfold add_name, drop_name; rewrite ?edit_parent_given; by auto).
  destruct (fs_nodes fs !! q) eqn:Hq; simpl; [by auto|]. unfold add_name. rewrite edit_parent_given. simpl.
  intros [[= -> ->]%elem_of_singleton|?]%elem_of_union; [|by auto]. right. eauto 6.
Qed.

Lemma exec_keeps_given t oid o fs p i : (p, i) ∈ fs_given fs → (p, i) ∈ fs_given (fs_exec t oid o fs).2.
Proof.
  destruct o as [q mode uid gid|q|q mode uid gid|q|q|q|q info|q]; simpl;
    repeat case_match; simpl; unfold add_name, drop_name; rewrite ?edit_parent_given; simpl; set_solver.
Qed.

Lemma new_file_given t oid p mode uid gid fs fs' oid' :
  fs_exec t oid (FCreate p mode uid gid) fs = (AnId OK (Some oid'), fs') →
  oid' = oid ∧ fs_nodes fs !! p = None ∧ (p, oid) ∈ fs_given fs'.
Proof.
  simpl. destruct (fs_nodes fs !! p); [done|]. intros [= <- <-]. unfold add_name.
  rewrite edit_parent_given. simpl. set_solver.
Qed.

End given.

Section ids_kept.
Context `{!VoblaStatus, !BoostFilesystem, !BoostFilesystemSpec, !MD5}.
Context {A : Type} (owner : string → A) (Haligned : aligned owner).
Implicit Types (fs : FileSystem) (p : string).

Lemma exec_ids t oid o fs :
  id_ok owner o oid fs → given_bits fs → given_once fs →
  given_bits (fs_exec t oid o fs).2 ∧ given_once (fs_exec t oid o fs).2.
Proof.
  intros Hid Hb Ho.
  assert (given_bits (fs_exec t oid o fs).2) as Hb'.
  { intros p i [?|(->&Hp&mode&uid&gid&->)]%exec_given; [by apply Hb|]. by apply Hid. }
  split; [done|]. intros p q i Hp Hq.
  assert (owner q = owner p) as Hown by (apply Haligned; by rewrite <-(Hb' _ _ Hp), <-(Hb' _ _ Hq)).
  apply exec_given in Hp as [Hp|(->&Hnp&mode&uid&gid&->)], Hq as [Hq|(Hi&Hnq&mode'&uid'&gid'&He)].
  - by eapply Ho.
  - subst. destruct (proj2 (Hid Hnq) p); [done|exact Hp].
  - destruct (proj2 (Hid Hnp) q); [done|exact Hq].
  - congruence.
Qed.

(** Files of a tree have different ids. *)
Lemma file_ids_unique hidden fs p q m m' :
  tree_wf_but hidden fs → given_once fs →
  fs_nodes fs !! p = Some m → is_dir m = false → fs_nodes fs !! q = Some m' → is_dir m' = false →
  md_object_id m = md_object_id m' → p = q.
Proof.
  intros Hwf Ho Hp Hm Hq Hm' Heq. apply (Ho p q (md_object_id m)).
  - by apply (tw_given _ Hwf).
  - rewrite Heq. by apply (tw_given _ Hwf).
Qed.
End ids_kept.

(** *** Numbers of a node *)

Lemma wrap_int32_mod z : wrap_int32 (wrap_uint32 z) = wrap_int32 z.
Proof. unfold wrap_int32, wrap_uint32. by rewrite Zplus_mod_idemp_l. Qed.

Lemma wrap_int32_bits x y :
  (∀ n, (0 ≤ n < 32)%Z → Z.testbit x n = Z.testbit y n) → wrap_int32 x = wrap_int32 y.
Proof.
  intros Hxy. rewrite <-(wrap_int32_mod x), <-(wrap_int32_mod y). f_equal. unfold wrap_uint32.
  apply Z.bits_inj'. intros n Hn. destruct (decide (n < 32)%Z).
  - rewrite !Z.mod_pow2_bits_low by lia. by apply Hxy.
  - by rewrite !Z.mod_pow2_bits_high by lia.
Qed.

Lemma wrap_int32_bit z n : (0 ≤ n < 32)%Z → Z.testbit (wrap_int32 z) n = Z.testbit z n.
Proof.
  intros Hn. unfold wrap_int32.
  rewrite <-(Z.mod_pow2_bits_low (_ - _) 32) by lia.
  rewrite Zminus_mod_idemp_l. replace (z + 2 ^ 31 - 2 ^ 31)%Z with z by lia.
  by rewrite Z.mod_pow2_bits_low by lia.
Qed.

(** The client and the master both set the type bits, with a 32-bit field in
    between. *)
Lemma file_bits_once mode :
  Z.lor (wrap_int32 (Z.lor mode S_IFREG)) S_IFREG = wrap_int32 (Z.lor mode S_IFREG).
Proof.
  apply Z.bits_inj'. intros n Hn. rewrite Z.lor_spec. destruct (decide (n < 32)%Z).
  - rewrite wrap_int32_bit, Z.lor_spec by lia. by destruct (Z.testbit mode n), (Z.testbit S_IFREG n).
  - rewrite (Z.bits_above_log2 S_IFREG n); [by rewrite orb_false_r|done|].
    change (Z.log2 S_IFREG) with 15%Z. lia.
Qed.

Lemma dir_bits_once mode :
  wrap_int32 (Z.lor (wrap_uint32 (Z.lor mode S_IFDIR)) S_IFDIR) = wrap_int32 (Z.lor mode S_IFDIR).
Proof.
  apply wrap_int32_bits. intros n Hn. unfold wrap_uint32.
  rewrite Z.lor_spec, Z.mod_pow2_bits_low, Z.lor_spec by lia.
  by destruct (Z.testbit mode n), (Z.testbit S_IFDIR n).
Qed.

Lemma mkdir_mode_uint mode : mkdir_mode mode → mkdir_mode (wrap_uint32 mode).
Proof.
  unfold mkdir_mode.
  assert (Z.land (wrap_uint32 mode) S_IFMT = Z.land mode S_IFMT) as ->; [|done].
  apply Z.bits_inj'. intros n Hn. rewrite !Z.land_spec. unfold wrap_uint32.
  destruct (decide (n < 32)%Z); [by rewrite Z.mod_pow2_bits_low by lia|].
  rewrite (Z.bits_above_log2 S_IFMT n); [by rewrite !andb_false_r|done|].
  change (Z.log2 S_IFMT) with 15%Z. lia.
Qed.

Lemma mkdir_mode_wire mode : mkdir_mode mode → mkdir_mode (wrap_uint32 (Z.lor mode S_IFDIR)).
Proof.
  intros Hm. apply mkdir_mode_uint. right. rewrite Z.land_lor_distr_l. by destruct Hm as [->| ->].
Qed.

(** What a master stores for the calls of a client. *)
Lemma new_file_wire mode uid gid t oid :
  new_metadata (Z.lor (wrap_int32 (Z.lor mode S_IFREG)) S_IFREG) (wrap_uint32 uid) (wrap_uint32 gid) t oid
  = new_file mode uid gid t oid.
Proof. unfold new_metadata, new_file, new_node. by rewrite file_bits_once, !wrap_int32_mod. Qed.
Lemma new_dir_wire mode uid gid t :
  new_metadata (wrap_int32 (Z.lor (wrap_uint32 (Z.lor mode S_IFDIR)) S_IFDIR))
    (wrap_uint32 uid) (wrap_uint32 gid) t 0
  = new_dir mode uid gid t.
Proof. unfold new_metadata, new_dir, new_node. by rewrite dir_bits_once, !wrap_int32_mod. Qed.
