(* ===== verification/IndexNamespace.v ===== *)
(** * The namespace of the file indices (masterd/index_namespace.cpp)

    An ordered map from directories to the names of the indices rooted there,
    kept as a write-through cache of a key-value store. *)

From S2P Require Import Prelude CxxString Platform PathUtil KVStore.

Record IndexNamespaceNode := {
  node_path : string;
  names : gset string;
}.
#[export] Instance IndexNamespaceNode_eq_dec : EqDecision IndexNamespaceNode.
Proof. solve_decision. Defined.
#[export] Program Instance IndexNamespaceNode_countable : Countable IndexNamespaceNode :=
  inj_countable' (λ n, (node_path n, names n)) (λ '(p, s), {| node_path := p; names := s |}) _.
Next Obligation. by intros []. Qed.

Record IndexNamespace (S : Type) := {
  in_store_ : S;
  nodes_ : gmap string IndexNamespaceNode;
}.
Arguments in_store_ {S}. Arguments nodes_ {S}.
Arguments Build_IndexNamespace {S}.

Section index_namespace.
Context {S : Type} `{KeyValueStore S, BoostFilesystem, ThriftCodec IndexNamespaceNode}.

Abbreviation state := (IndexNamespace S).

Definition new (store : S) : state := Build_IndexNamespace store ∅.

(** [nodes_.insert(pair)] keeps an existing element. *)
Fixpoint load_nodes (ns : state) (records : list (string * string)) : Status * state :=
  match records with
  | [] => (OK, ns)
  | (key, value) :: records' =>
      match thrift_read value with
      | None => (Err (-1) "Failed to deserialize namespace node.", ns)
      | Some node =>
          load_nodes
            (Build_IndexNamespace (in_store_ ns)
               (match nodes_ ns !! key with
                | Some _ => nodes_ ns
                | None => <[key:=node]> (nodes_ ns)
                end)) records'
      end
  end.

Definition init (ns : state) : run (Status * state) :=
  let '(status, s) := kv_open (in_store_ ns) in
  let ns := Build_IndexNamespace s (nodes_ ns) in
  if ok status then records ← kv_scan s; Done (load_nodes ns records)
  else Done (status, ns).

(** [while (pos && path[pos] == '/') pos--;] *)
Fixpoint skip_slashes (path : string) (pos : nat) : nat :=
  match pos with
  | 0 => 0
  | Datatypes.S pos' =>
      if bool_decide (String.get pos path = Some slash) then skip_slashes path pos' else pos
  end.

(** The empty path makes [pos] wrap around, and [path[pos]] is out of range. *)
Definition cleanup_path (path : string) : run string :=
  if str_empty path then Fatal "path[pos] is out of range"
  else Done (str_take (skip_slashes path (String.length path - 1) + 1) path).

Definition insert (ns : state) (path name : string) : run (Status * state) :=
  key ← cleanup_path path;
  let node :=
    match nodes_ ns !! key with
    | Some node => node
    | None => {| node_path := key; names := ∅ |}
    end in
  if bool_decide (name ∈ names node) then
    Done (Err (- EEXIST) "The named index have existed.", ns)
  else
    let node' := {| node_path := node_path node; names := {[name]} ∪ names node |} in
    '(status, s) ← kv_put (in_store_ ns) key (thrift_write node');
    let node'' :=
      if ok status then node'
      else {| node_path := node_path node; names := names node' ∖ {[name]} |} in
    Done (status, Build_IndexNamespace s (<[key:=node'']> (nodes_ ns))).

Definition remove_name (ns : state) (path name : string) : run (Status * state) :=
  key ← cleanup_path path;
  match nodes_ ns !! key with
  | None => Done (Err (- ENOENT) "The index does not exist.", ns)
  | Some node =>
      if bool_decide (name ∈ names node) then
        let node' := {| node_path := node_path node; names := names node ∖ {[name]} |} in
        '(status, s) ← kv_put (in_store_ ns) key (thrift_write node');
        let node'' :=
          if ok status then node'
          else {| node_path := node_path node; names := {[name]} ∪ names node' |} in
        Done (status, Build_IndexNamespace s (<[key:=node'']> (nodes_ ns)))
      else Done (Err (- ENOENT) "The index does not exist.", ns)
  end.

Definition remove_path (ns : state) (path : string) : run (Status * state) :=
  key ← cleanup_path path;
  match nodes_ ns !! key with
  | None => Done (Err (- ENOENT) "The directory is not existed.", ns)
  | Some _ =>
      '(status, s) ← kv_remove (in_store_ ns) key;
      if ok status then Done (status, Build_IndexNamespace s (delete key (nodes_ ns)))
      else Done (status, Build_IndexNamespace s (nodes_ ns))
  end.

(** [node && node->names.count(name)] *)
Definition node_has (ns : state) (key name : string) : bool :=
  match nodes_ ns !! key with
  | Some node => bool_decide (name ∈ names node)
  | None => false
  end.

Definition have (ns : state) (path name : string) : run bool :=
  key ← cleanup_path path; Done (node_has ns key name).

(** The loop of [find] over the prefixes of the path that end before a slash;
    [None] when it has not ended after [fuel] turns, [Some None] when it ends
    without a result. *)
Fixpoint find_loop (ns : state) (name : string) (fuel : nat) (partial_path : string)
    : option (option string) :=
  match fuel with
  | 0 => None
  | Datatypes.S fuel' =>
      if node_has ns partial_path name then Some (Some partial_path)
      else
        match find_last_of slash partial_path with
        | None => Some None
        | Some 0 => Some None
        | Some pos => find_loop ns name fuel' (str_take pos partial_path)
        end
  end.

Definition find (ns : state) (file_name name : string) : Status * option string :=
  match find_loop ns name (Datatypes.S (String.length file_name)) file_name with
  | Some (Some partial_path) => (OK, Some partial_path)
  | _ =>
      if node_has ns "/" name then (OK, Some "/")
      else (Err (- ENOENT) "The index does not exist.", None)
  end.

(** The nodes from [lower_bound(root)] on, while they have the prefix. *)
Definition nodes_under (ns : state) (root : string) : list (string * IndexNamespaceNode) :=
  take_while (λ p, starts_with root p.1) (from_lower_bound String.le root (nodes_ ns)).

Definition collect (ns : state) (root name : string) : list string :=
  (filter (λ p : string * IndexNamespaceNode, name ∈ names p.2) (nodes_under ns root)).*1.

Definition get_index_names (ns : state) (path : string) : list string :=
  match nodes_ ns !! path with
  | Some node => sorted_elements String.le (names node)
  | None => []
  end.

Definition get_indices (ns : state) (root : string) (recursive : bool) : list string :=
  if recursive then
    p ← nodes_under ns root;
    (λ name, index_path p.1 name) <$> sorted_elements String.le (names p.2)
  else (λ name, index_path root name) <$> get_index_names ns root.
End index_namespace.

(** ** The indices a state holds

    A node without names (left behind by a failed [insert] or by the removal of
    the last name) is the same as no node: states are compared by the names at
    each path. *)

Section indices.
Context {S : Type} `{!KeyValueStore S, !BoostFilesystem, !ThriftCodec IndexNamespaceNode}.

Definition names_at (ns : IndexNamespace S) (key : string) : gset string :=
  from_option names ∅ (nodes_ ns !! key).

Definition same_indices (ns ns' : IndexNamespace S) : Prop :=
  ∀ key, names_at ns key = names_at ns' key.

#[export] Instance same_indices_equiv : Equivalence same_indices.
Proof.
  split; [done|by intros ns ns' Heq k|].
  intros ns1 ns2 ns3 E1 E2 k. transitivity (names_at ns2 k); [apply E1|apply E2].
Qed.

#[export] Instance names_at_proper : Proper (same_indices ==> (=) ==> (=)) names_at.
Proof. intros ns ns' Heq k _ <-. apply Heq. Qed.

Lemma node_has_spec ns key name : node_has ns key name = bool_decide (name ∈ names_at ns key).
Proof.
  unfold node_has, names_at. destruct (nodes_ ns !! key); simpl; [done|].
  symmetry. apply bool_decide_eq_false. set_solver.
Qed.

#[export] Instance node_has_proper :
  Proper (same_indices ==> (=) ==> (=) ==> (=)) node_has.
Proof. intros ns ns' Heq k _ <- n _ <-. by rewrite !node_has_spec, Heq. Qed.

#[export] Instance find_proper : Proper (same_indices ==> (=) ==> (=) ==> (=)) find.
Proof.
  intros ns ns' Heq f _ <- n _ <-. unfold find.
  assert (∀ k, node_has ns k n = node_has ns' k n) as Hh.
  { intros k. by apply node_has_proper. }
  assert (∀ fuel p, find_loop ns n fuel p = find_loop ns' n fuel p) as Hl.
  { induction fuel as [|fuel IH]; intros p; [done|]. simpl. rewrite Hh. repeat case_match; auto. }
  by rewrite Hl, Hh.
Qed.

Lemma collect_filter (ns : IndexNamespace S) root name :
  collect ns root name =
  (filter (λ p : string * IndexNamespaceNode, name ∈ names p.2)
     (filter (λ p, starts_with root p.1 = true) (sorted_map String.le (nodes_ ns)))).*1.
Proof. unfold collect, nodes_under. by rewrite prefix_scan. Qed.

Lemma elem_of_collect (ns : IndexNamespace S) root name key :
  key ∈ collect ns root name ↔ starts_with root key = true ∧ name ∈ names_at ns key.
Proof.
  rewrite collect_filter, list_elem_of_fmap. unfold names_at. split.
  - intros ([k node]&->&[Hn [Hs Hk]%list_elem_of_filter]%list_elem_of_filter); simpl in *.
    apply elem_of_sorted_map in Hk. by rewrite Hk.
  - intros [Hs Hn]. destruct (nodes_ ns !! key) as [node|] eqn:Hk; [|set_solver].
    exists (key, node). rewrite !list_elem_of_filter, elem_of_sorted_map. done.
Qed.

Lemma StronglySorted_filter_fst {A} (P : string * A → Prop) `{∀ x, Decision (P x)} l :
  StronglySorted (key_le String.le) l → StronglySorted String.le (filter P l).*1.
Proof.
  induction 1 as [|x l Hs IH Hx]; [constructor|]. rewrite filter_cons.
  case_decide; [|done]. rewrite fmap_cons. constructor; [done|].
  rewrite Forall_forall in Hx. apply Forall_forall. intros y (z&->&[_ Hz]%list_elem_of_filter)%list_elem_of_fmap.
  by apply Hx.
Qed.

Lemma collect_sorted (ns : IndexNamespace S) root name :
  StronglySorted String.le (collect ns root name) ∧ NoDup (collect ns root name).
Proof.
  rewrite collect_filter. split.
  - apply StronglySorted_filter_fst, StronglySorted_filter, StronglySorted_sorted_map; apply _.
  - do 2 apply NoDup_fst_filter. apply NoDup_sorted_map_fst.
Qed.

#[export] Instance collect_proper : Proper (same_indices ==> (=) ==> (=) ==> (=)) collect.
Proof.
  intros ns ns' Heq root _ <- name _ <-.
  destruct (collect_sorted ns root name) as [Hs Hn], (collect_sorted ns' root name) as [Hs' Hn'].
  apply (StronglySorted_unique String.le); [done..|].
  apply NoDup_Permutation; [done..|]. intros k. by rewrite !elem_of_collect, Heq.
Qed.
End indices.

(** ** Write-through invariant *)

Section invariant.
Context {S : Type} `{!KeyValueStore S, !KeyValueStoreSpec S, !BoostFilesystem}.
Context `{!ThriftCodec IndexNamespaceNode, !ThriftCodecSpec IndexNamespaceNode}.

Record in_wf (ns : IndexNamespace S) : Prop := {
  in_opened : kv_opened (in_store_ ns);
  in_view key :
    match kv_view (in_store_ ns) !! key with
    | Some v => ∃ node, nodes_ ns !! key = Some node ∧ v = thrift_write node
    | None => names_at ns key = ∅
    end;
}.

(** Storing a node keeps the invariant, and so does a failed write that puts
    back the same names. *)
Lemma in_wf_put ns key node st s :
  in_wf ns → kv_put (in_store_ ns) key (thrift_write node) = Done (st, s) → ok st = true →
  in_wf (Build_IndexNamespace s (<[key:=node]> (nodes_ ns))).
Proof.
  intros Hwf Hput Hok. destruct (kv_put_inv _ _ _ _ _ (in_opened _ Hwf) Hput) as [Ho Hv].
  rewrite Hok in Hv. split; simpl; [done|]. intros k. rewrite Hv. unfold names_at; simpl.
  rewrite !lookup_insert. case_decide; [by eauto|]. apply (in_view _ Hwf).
Qed.

Lemma in_wf_failed_put ns key node v st s :
  in_wf ns → kv_put (in_store_ ns) key v = Done (st, s) → ok st = false →
  nodes_ ns !! key = Some node ∨ (nodes_ ns !! key = None ∧ names node = ∅) →
  in_wf (Build_IndexNamespace s (<[key:=node]> (nodes_ ns))).
Proof.
  intros Hwf Hput Hok Hnode.
  destruct (kv_put_inv _ _ _ _ _ (in_opened _ Hwf) Hput) as [Ho Hv].
  rewrite Hok in Hv. split; simpl; [done|]. intros k. rewrite Hv.
  pose proof (in_view _ Hwf k) as Hk. destruct Hnode as [Hnode|[Hnone Hempty]].
  - by rewrite insert_id.
  - unfold names_at in *; simpl. rewrite !lookup_insert. case_decide; [subst|done].
    rewrite Hnone in Hk. case_match; [|done]. by destruct Hk as (?&?&_).
Qed.

Lemma node_eta (node : IndexNamespaceNode) ns' :
  ns' = names node → {| node_path := node_path node; names := ns' |} = node.
Proof. intros ->. by destruct node. Qed.

Lemma insert_wf ns path name st ns' :
  in_wf ns → insert ns path name = Done (st, ns') → in_wf ns'.
Proof.
  intros Hwf. unfold insert. destruct (cleanup_path path) as [key|]; [|done]. simpl.
  set (node := match nodes_ ns !! key with Some _ => _ | None => _ end).
  case_bool_decide as Hin; [by intros [= <- <-]|]. intros Hc. run_inv Hc.
  destruct (ok st) eqn:Hok.
  - by eapply in_wf_put.
  - rewrite node_eta by set_solver. eapply in_wf_failed_put; [done..|].
    unfold node. destruct (nodes_ ns !! key); [by left|by right].
Qed.

Lemma remove_name_wf ns path name st ns' :
  in_wf ns → remove_name ns path name = Done (st, ns') → in_wf ns'.
Proof.
  intros Hwf. unfold remove_name. destruct (cleanup_path path) as [key|]; [|done]. simpl.
  destruct (nodes_ ns !! key) as [node|] eqn:Hnode; [|by intros [= <- <-]].
  case_bool_decide as Hin; [|by intros [= <- <-]]. intros Hc. run_inv Hc.
  destruct (ok st) eqn:Hok.
  - by eapply in_wf_put.
  - rewrite node_eta.
    + eapply in_wf_failed_put; [done..|by left].
    + apply set_eq. intros x. destruct (decide (x = name)); set_solver.
Qed.

Lemma remove_path_wf ns path st ns' :
  in_wf ns → remove_path ns path = Done (st, ns') → in_wf ns'.
Proof.
  intros Hwf. unfold remove_path. destruct (cleanup_path path) as [key|]; [|done]. simpl.
  destruct (nodes_ ns !! key) as [node|] eqn:Hnode; [|by intros [= <- <-]].
  intros Hc. run_inv Hc; destruct (kv_remove_inv _ _ _ _ (in_opened _ Hwf) Heqr) as [Ho Hv];
    rewrite Heqb in Hv; (split; simpl; [done|]); intros k; rewrite Hv.
  - unfold names_at; simpl. rewrite !lookup_delete. case_decide; [done|]. apply (in_view _ Hwf).
  - apply (in_view _ Hwf).
Qed.

(** Loading records that all decode. *)
Lemma load_nodes_spec (ns : IndexNamespace S) (l : list (string * string)) :
  NoDup l.*1 → (∀ k v, (k, v) ∈ l → nodes_ ns !! k = None) →
  (∀ k v, (k, v) ∈ l → ∃ node, v = thrift_write node) →
  ∃ nodes, load_nodes ns l = (OK, Build_IndexNamespace (in_store_ ns) nodes) ∧
    (∀ k node, nodes !! k = Some node ↔ (k, thrift_write node) ∈ l ∨ nodes_ ns !! k = Some node).
Proof.
  revert ns. induction l as [|[k v] l IH]; intros ns Hnd Hnew Hdec; simpl in *.
  { exists (nodes_ ns). split; [by destruct ns|]. intros k node. rewrite elem_of_nil. naive_solver. }
  apply NoDup_cons in Hnd as [Hk Hnd].
  destruct (Hdec k v) as [node ->]; [left|]. rewrite thrift_read_write.
  rewrite (Hnew k (thrift_write node)) by left.
  destruct (IH (Build_IndexNamespace (in_store_ ns) (<[k:=node]> (nodes_ ns)))) as (nodes&Hl&Hn).
  - done.
  - intros k' v' Hin. simpl. rewrite lookup_insert_ne; [by eapply Hnew; right|].
    intros ->. apply Hk. by apply (list_elem_of_fmap_2 fst) in Hin.
  - intros k' v' Hin. eapply Hdec. by right.
  - exists nodes. split; [done|]. intros k' node'. rewrite Hn, elem_of_cons. simpl.
    rewrite lookup_insert. case_decide as Hkk; [subst k'|naive_solver congruence].
    split.
    + intros [?|[= <-]]; auto.
    + intros [[[= Heq]|?]|Hx]; [|by left|].
      * right. apply (f_equal thrift_read) in Heq. rewrite !thrift_read_write in Heq. congruence.
      * by rewrite (Hnew k (thrift_write node)) in Hx by left.
Qed.

Lemma registry_init_recovers ns s :
  in_wf ns → kv_view s = kv_view (in_store_ ns) → ok (kv_open s).1 = true →
  ∃ ns', init (new s) = Done (OK, ns') ∧ same_indices ns ns' ∧ in_wf ns' ∧
         kv_view (in_store_ ns') = kv_view (in_store_ ns).
Proof.
  intros Hwf Hview Hopen. unfold init. simpl.
  destruct (kv_open_spec s Hopen) as [Ho Hv]. destruct (kv_open s) as [st s1].
  simpl in *. rewrite Hopen, kv_scan_spec, Hv, Hview by done. simpl.
  destruct (load_nodes_spec (Build_IndexNamespace s1 ∅)
    (sorted_map String.le (kv_view (in_store_ ns)))) as (nodes&->&Hn).
  { apply NoDup_sorted_map_fst. } { done. }
  { intros k v Hk%elem_of_sorted_map. pose proof (in_view _ Hwf k) as Hw. rewrite Hk in Hw.
    destruct Hw as (node&_&->). eauto. }
  assert (∀ k, nodes !! k = match kv_view (in_store_ ns) !! k with
                            | Some _ => nodes_ ns !! k | None => None end) as Hnodes.
  { intros k. apply option_eq. intros node. rewrite Hn, elem_of_sorted_map. simpl.
    pose proof (in_view _ Hwf k) as Hw. destruct (kv_view (in_store_ ns) !! k) as [v|]; simpl.
    - destruct Hw as (node'&->&->). split; [intros [[= Heq]|?]; [|done]|intros [= ->]; by left].
      apply (f_equal thrift_read) in Heq. rewrite !thrift_read_write in Heq. congruence.
    - rewrite lookup_empty. naive_solver. }
  eexists. split; [done|]. split_and!.
  - intros k. unfold names_at at 2; simpl. rewrite Hnodes. pose proof (in_view _ Hwf k) as Hw.
    by destruct (kv_view (in_store_ ns) !! k).
  - split; simpl; [done|]. intros k. rewrite Hv, Hview. unfold names_at; simpl. rewrite Hnodes.
    pose proof (in_view _ Hwf k) as Hw. by destruct (kv_view (in_store_ ns) !! k).
  - simpl. by rewrite Hv.
Qed.

(** Calls and restarts. *)
Inductive in_step : relation (IndexNamespace S) :=
  | step_insert ns path name st ns' : insert ns path name = Done (st, ns') → in_step ns ns'
  | step_remove_name ns path name st ns' :
      remove_name ns path name = Done (st, ns') → in_step ns ns'
  | step_remove_path ns path st ns' : remove_path ns path = Done (st, ns') → in_step ns ns'
  | step_restart ns s st ns' :
      kv_view s = kv_view (in_store_ ns) → ok (kv_open s).1 = true →
      init (new s) = Done (st, ns') → in_step ns ns'.

Lemma in_step_wf ns ns' : in_wf ns → in_step ns ns' → in_wf ns'.
Proof.
  destruct 2 as [ns path name st ns' Hc|ns path name st ns' Hc|ns path st ns' Hc
                |ns s st ns' Hv Ho Hc].
  - by eapply insert_wf. - by eapply remove_name_wf. - by eapply remove_path_wf.
  - destruct (registry_init_recovers ns s) as (ns2&Hi&_&?&_); [done..|]. congruence.
Qed.

Lemma in_wf_empty s : kv_opened s → kv_view s = ∅ → in_wf (new s).
Proof. intros Ho Hv. split; [done|]. intros k. simpl. by rewrite Hv, lookup_empty. Qed.
End invariant.

(** ** The nearest enclosing index *)

(** [q] is the path [p] itself or a directory above it. *)
Definition path_prefix (q p : string) : Prop :=
  q = p ∨ (q ≠ "" ∧ ∃ r, p = q +:+ String slash r).

Section lookup.
Context {S : Type} `{!KeyValueStore S, !BoostFilesystem, !ThriftCodec IndexNamespaceNode}.

Lemma path_prefix_no_slash q p : no_char slash p → path_prefix q p → q = p.
Proof.
  intros Hp [->|(_&r&->)]; [done|]. apply no_char_app in Hp as [_ Hp].
  by apply no_char_cons in Hp as [[] _].
Qed.

(** The directories above [p/t] are [p] and the directories above [p]. *)
Lemma path_prefix_last q p t :
  no_char slash t → path_prefix q (p +:+ String slash t) →
  q = p +:+ String slash t ∨ path_prefix q p.
Proof.
  intros Ht [->|(Hq&r&Heq)]; [by left|]. right. symmetry in Heq.
  destruct (split_at_last _ _ _ _ _ Heq Ht) as [->|?]; [by left|]. by right.
Qed.

Lemma path_prefix_root q t :
  no_char slash t → path_prefix q (String slash t) → q = String slash t.
Proof.
  intros Ht [->|(Hq&r&Heq)]; [done|].
  destruct (split_at_last slash q r "" t) as [->|(r'&Hr)]; [done..|]. by destruct q.
Qed.

Lemma path_prefix_above q p t :
  p ≠ "" → path_prefix q p → path_prefix q (p +:+ String slash t).
Proof.
  intros Hp [->|(Hq&r&->)]; right; split; try done; [by eauto|].
  exists (r +:+ String slash t). by rewrite str_app_assoc, str_app_cons.
Qed.

Lemma path_prefix_length q p : path_prefix q p → String.length q ≤ String.length p.
Proof. intros [->|(_&r&->)]; [done|]. rewrite str_length_app. lia. Qed.

Lemma find_loop_spec (ns : IndexNamespace S) name fuel p :
  String.length p < fuel →
  ∃ r, find_loop ns name fuel p = Some r ∧
    match r with
    | Some q => path_prefix q p ∧ node_has ns q name = true ∧
                ∀ q', path_prefix q' p → node_has ns q' name = true →
                      String.length q' ≤ String.length q
    | None => ∀ q, path_prefix q p → node_has ns q name = false
    end.
Proof.
  revert p. induction fuel as [|fuel IH]; intros p Hfuel; [lia|]. simpl.
  destruct (node_has ns p name) eqn:Hp.
  { eexists. split; [done|]. split_and!; [by left|done|]. eauto using path_prefix_length. }
  destruct (find_last_of slash p) as [i|] eqn:Hi.
  2:{ eexists. split; [done|]. apply find_last_of_None in Hi.
      intros q Hq. by apply path_prefix_no_slash in Hq as ->. }
  apply find_last_of_Some in Hi as (t&Hsplit&Ht&Hlen).
  set (d := str_take i p) in *. clearbody d. subst p.
  destruct i as [|i]; (destruct d as [|x d]; [|try done]); [|done|].
  { eexists. split; [done|]. intros q Hq. by apply path_prefix_root in Hq as ->. }
  destruct (IH (String x d)) as (r&->&Hr).
  { rewrite str_length_app in Hfuel. simpl in *. lia. }
  eexists. split; [done|]. destruct r as [q|].
  - destruct Hr as (Hq&Hhas&Hbest). split_and!; [by apply path_prefix_above|done|].
    intros q' [->|Hq']%path_prefix_last Hhas'; [congruence|by apply Hbest|done].
  - intros q [->|Hq]%path_prefix_last; auto.
Qed.
End lookup.

Section calls.
Context {S : Type} `{!KeyValueStore S, !KeyValueStoreSpec S, !BoostFilesystem}.
Context `{!ThriftCodec IndexNamespaceNode, !ThriftCodecSpec IndexNamespaceNode}.

Lemma insert_then_remove (ns ns1 : IndexNamespace S) path name st :
  kv_opened (in_store_ ns) → insert ns path name = Done (st, ns1) → ok st = true →
  have ns path name = Done false ∧ have ns1 path name = Done true ∧
  insert ns1 path name = Done (Err (- EEXIST) "The named index have existed.", ns1) ∧
  ∃ st' ns2, remove_name ns1 path name = Done (st', ns2) ∧
    same_indices (if ok st' then ns else ns1) ns2.
Proof.
  intros Ho. unfold insert at 1, have, insert, remove_name.
  destruct (cleanup_path path) as [key|]; [|done]. simpl.
  set (node := match nodes_ ns !! key with Some _ => _ | None => _ end).
  case_bool_decide as Hin; [intros [= <- <-]; done|].
  assert (names node = names_at ns key) as Hnames.
  { unfold node, names_at. by destruct (nodes_ ns !! key). }
  intros Hc Hok. run_inv Hc. rewrite Hok.
  destruct (kv_put_inv _ _ _ _ _ Ho Heqr) as [Ho' _].
  assert (name ∈ {[name]} ∪ names node) as Hmem by set_solver.
  set (node' := {| node_path := node_path node; names := {[name]} ∪ names node |}).
  assert (<[key:=node']> (nodes_ ns) !! key = Some node') as Hl by apply lookup_insert_eq.
  assert (node_has ns key name = false) as ->.
  { rewrite node_has_spec, <-Hnames. by apply bool_decide_eq_false_2. }
  unfold node_has. simpl nodes_. rewrite !Hl. simpl names.
  rewrite !(bool_decide_eq_true_2 _ Hmem). split_and!; [done..|]. simpl.
  match goal with |- context [kv_put s0 key ?v] =>
    destruct (kv_put_spec s0 key v Ho') as (st'&s'&->&_) end.
  simpl. do 2 eexists. split; [done|]. intros k. destruct (ok st').
  - unfold names_at at 2; simpl. rewrite insert_insert_eq, lookup_insert.
    case_decide; subst; simpl; [rewrite <-Hnames; set_solver|done].
  - unfold names_at; simpl. rewrite insert_insert_eq, !lookup_insert.
    case_decide; subst; simpl; [|done].
    apply set_eq. intros x. destruct (decide (x = name)); set_solver.
Qed.

Lemma insert_failed_same (ns ns1 : IndexNamespace S) path name st :
  insert ns path name = Done (st, ns1) → ok st = false → same_indices ns ns1.
Proof.
  unfold insert. destruct (cleanup_path path) as [key|]; [|done]. simpl.
  set (node := match nodes_ ns !! key with Some _ => _ | None => _ end).
  case_bool_decide as Hin; [by intros [= <- <-]|]. intros Hc Hok. run_inv Hc. rewrite Hok.
  intros k. unfold names_at; simpl. rewrite lookup_insert. case_decide; subst; simpl; [|done].
  assert (from_option names ∅ (nodes_ ns !! k) = names node) as ->.
  { unfold node. by destruct (nodes_ ns !! k). }
  set_solver.
Qed.

Lemma insert_opened (ns ns1 : IndexNamespace S) path name st :
  kv_opened (in_store_ ns) → insert ns path name = Done (st, ns1) → kv_opened (in_store_ ns1).
Proof.
  intros Ho. unfold insert. destruct (cleanup_path path) as [key|]; [|done]. simpl.
  set (node := match nodes_ ns !! key with Some _ => _ | None => _ end).
  case_bool_decide; [by intros [= <- <-]|]. intros Hc. run_inv Hc.
  by destruct (kv_put_inv _ _ _ _ _ Ho Heqr).
Qed.

(** The removal of a registered index succeeds when the store takes the write. *)
Lemma remove_name_accepted (ns ns1 : IndexNamespace S) path name st :
  kv_opened (in_store_ ns) → accepts (in_store_ ns) →
  remove_name ns path name = Done (st, ns1) → have ns path name = Done true → ok st = true.
Proof.
  intros Ho Hacc. unfold remove_name, have, node_has.
  destruct (cleanup_path path) as [key|]; [|done]. simpl.
  destruct (nodes_ ns !! key) as [node|]; [|done]. case_bool_decide; [|done].
  intros Hc _. run_inv Hc. by eapply Hacc.
Qed.

Lemma insert_ok_names (ns ns1 : IndexNamespace S) path name st key :
  insert ns path name = Done (st, ns1) → ok st = true → cleanup_path path = Done key →
  name ∈ names_at ns1 key.
Proof.
  unfold insert. intros Hc Hok Hkey. rewrite Hkey in Hc. simpl in Hc.
  case_bool_decide as Hin; [by simplify_eq|]. run_inv Hc. rewrite Hok.
  unfold names_at; simpl. rewrite lookup_insert_eq. set_solver.
Qed.

Lemma get_last_char s : s ≠ "" → String.get (String.length s - 1) s = last_char s.
Proof.
  induction s as [|c [|d s] IH]; [done..|]. intros _. simpl in *.
  rewrite Nat.sub_0_r in IH. by rewrite IH.
Qed.

(** A path in the form the clients use is its own key. *)
Lemma cleanup_path_id path :
  path = "/" ∨ (path ≠ "" ∧ last_char path ≠ Some slash) → cleanup_path path = Done path.
Proof.
  intros [->|[Hne Hlast]]; [done|]. unfold cleanup_path.
  destruct path as [|c path]; [done|]. simpl str_empty. cbv iota.
  assert (skip_slashes (String c path) (String.length (String c path) - 1)
          = String.length (String c path) - 1) as ->.
  { rewrite <-get_last_char in Hlast by done.
    destruct (String.length (String c path) - 1); [done|]. simpl skip_slashes.
    by rewrite bool_decide_eq_false_2. }
  by rewrite str_take_ge by (simpl; lia).
Qed.
End calls.

(** ** Properties *)

Section properties.
Context {S : Type} `{!KeyValueStore S, !KeyValueStoreSpec S, !BoostFilesystem}.
Context `{!ThriftCodec IndexNamespaceNode, !ThriftCodecSpec IndexNamespaceNode}.

(** C31: the index registry survives a crash.  After any run of insertions,
    removals and restarts from an empty store, with failed writes in between,
    a new server on the same store content knows exactly the same indices:
    [find] and [collect] answer every query as before. *)
Theorem index_namespace_recovery (s0 s : S) (ns : IndexNamespace S) :
  kv_opened s0 → kv_view s0 = ∅ → rtc in_step (new s0) ns →
  kv_view s = kv_view (in_store_ ns) → ok (kv_open s).1 = true →
  ∃ ns', init (new s) = Done (OK, ns') ∧ same_indices ns ns' ∧
    (∀ file name, find ns' file name = find ns file name) ∧
    (∀ root name, collect ns' root name = collect ns root name).
Proof.
  intros Ho Hv0 Hr Hv Hopen.
  assert (in_wf ns) as Hwf.
  { eapply rtc_invariant; [apply in_step_wf|by apply in_wf_empty|done]. }
  destruct (registry_init_recovers ns s Hwf Hv Hopen) as (ns'&?&Hsame&_&_).
  exists ns'. split_and!; try done; intros; symmetry.
  - by apply find_proper. - by apply collect_proper.
Qed.

(** C24: [find] returns the lowest directory above the file that has the index,
    as the interface documents: the path it returns is the file itself, a
    directory above it, or the root; it holds the index; and no directory
    above the file that holds the index is longer.  It fails exactly when
    neither a directory above the file nor the root holds the index.  The
    loop ends for every path. *)
Theorem find_nearest_index (ns : IndexNamespace S) (file name : string) :
  (∃ r, find_loop ns name (Datatypes.S (String.length file)) file = Some r) ∧
  match find ns file name with
  | (OK, Some p) =>
      (path_prefix p file ∨ p = "/") ∧ name ∈ names_at ns p ∧
      ∀ q, path_prefix q file → name ∈ names_at ns q → String.length q ≤ String.length p
  | (st, None) =>
      st = Err (- ENOENT) "The index does not exist." ∧
      ∀ q, path_prefix q file ∨ q = "/" → name ∉ names_at ns q
  | _ => False
  end.
Proof.
  destruct (find_loop_spec ns name (Datatypes.S (String.length file)) file) as (r&Hl&Hr); [lia|].
  split; [by eauto|]. unfold find. rewrite Hl.
  assert (∀ q, node_has ns q name = false ↔ name ∉ names_at ns q) as Hno.
  { intros q. rewrite node_has_spec. apply bool_decide_eq_false. }
  assert (∀ q, node_has ns q name = true ↔ name ∈ names_at ns q) as Hyes.
  { intros q. rewrite node_has_spec. apply bool_decide_eq_true. }
  destruct r as [p|].
  { setoid_rewrite Hyes in Hr. naive_solver. }
  setoid_rewrite Hno in Hr. destruct (node_has ns "/" name) eqn:Hroot.
  - apply Hyes in Hroot. split_and!; [by right|done|]. intros q Hq Hn. by destruct (Hr q Hq).
  - apply Hno in Hroot. naive_solver.
Qed.

(** [collect] is exact for the prefix order it scans: it returns, once
    each and in order, the paths that start with [root] as a string and hold
    the index. *)
Theorem collect_prefix_exact (ns : IndexNamespace S) (root name : string) :
  StronglySorted String.le (collect ns root name) ∧ NoDup (collect ns root name) ∧
  ∀ path, path ∈ collect ns root name ↔
          starts_with root path = true ∧ name ∈ names_at ns path.
Proof.
  destruct (collect_sorted ns root name). split_and!; [done..|]. intros path.
  apply elem_of_collect.
Qed.

(** A successful [insert] registers the index and nothing else: [have]
    finds it under the path with any trailing slashes, a second [insert] is
    refused, and [remove] takes it out again and leaves the names at every
    path as they were before. *)
Theorem insert_remove_index (ns ns1 : IndexNamespace S) path name st :
  kv_opened (in_store_ ns) → insert ns path name = Done (st, ns1) → ok st = true →
  have ns path name = Done false ∧ have ns1 path name = Done true ∧
  insert ns1 path name = Done (Err (- EEXIST) "The named index have existed.", ns1) ∧
  ∃ st' ns2, remove_name ns1 path name = Done (st', ns2) ∧
    same_indices (if ok st' then ns else ns1) ns2.
Proof. apply insert_then_remove. Qed.
End properties.

(** ** Concrete runs *)

Section witnesses.
Import Reference.
#[local] Existing Instances TestLevelDBStore.test_store TestLevelDBStore.test_store_spec.
#[local] Instance node_codec : ThriftCodec IndexNamespaceNode := codec IndexNamespaceNode.
#[local] Instance node_codec_spec : ThriftCodecSpec IndexNamespaceNode :=
  codec_spec IndexNamespaceNode.

Definition demo_insert (ns : IndexNamespace (gmap string string)) (path name : string) :=
  match insert ns path name with Done (_, ns') => ns' | Fatal _ => ns end.
Definition demo0 : IndexNamespace (gmap string string) := new ∅.
Definition demo1 := demo_insert demo0 "/foo" "energy".
Definition demo2 := demo_insert demo1 "/foobar/" "energy".

Lemma registry_steps : rtc in_step demo0 demo2.
Proof.
  eapply rtc_l; [apply (step_insert demo0 "/foo" "energy" OK demo1); vm_compute; reflexivity|].
  eapply rtc_l; [apply (step_insert demo1 "/foobar/" "energy" OK demo2); vm_compute; reflexivity|].
  apply rtc_refl.
Qed.

Lemma index_namespace_recovery_witness :
  ∃ ns', init (new (in_store_ demo2)) = Done (OK, ns') ∧ same_indices demo2 ns' ∧
    (∀ file name, find ns' file name = find demo2 file name) ∧
    (∀ root name, collect ns' root name = collect demo2 root name).
Proof.
  apply (index_namespace_recovery (∅ : gmap string string) (in_store_ demo2) demo2);
    [done|done|exact registry_steps|done|done].
Defined.

Lemma insert_remove_index_witness : have demo1 "/foo" "energy" = Done true.
Proof.
  apply (insert_remove_index demo0 demo1 "/foo" "energy" OK); [done|vm_compute; reflexivity|done].
Defined.

Lemma find_nearest_index_witness :
  (path_prefix "/foo" "/foo/x/y" ∨ "/foo" = "/") ∧ "energy" ∈ names_at demo2 "/foo" ∧
  ∀ q, path_prefix q "/foo/x/y" → "energy" ∈ names_at demo2 q → String.length q ≤ 4.
Proof. exact (proj2 (find_nearest_index demo2 "/foo/x/y" "energy")). Defined.

Lemma collect_prefix_exact_witness :
  StronglySorted String.le (collect demo2 "/foob" "energy") ∧
  NoDup (collect demo2 "/foob" "energy") ∧
  ∀ path, path ∈ collect demo2 "/foob" "energy" ↔
          starts_with "/foob" path = true ∧ "energy" ∈ names_at demo2 path.
Proof. exact (collect_prefix_exact demo2 "/foob" "energy"). Defined.

(** The prefix [collect] scans for does not stop at a path component: the
    indices of [/foobar] are collected for the root [/foo]. *)
Theorem collect_crosses_siblings :
  collect demo2 "/foo" "energy" = ["/foo"; "/foobar"] ∧
  find demo2 "/foobar/x" "energy" = (OK, Some "/foobar").
Proof. by vm_compute. Qed.
End witnesses.
