(* ===== verification/MTHashMap.v ===== *)
(** * The sharded hash map of the master (masterd/mt_hashmap.h)

    An array of buckets, each an [unordered_map] under a mutex of its own.  A
    single-key operation locks the bucket of its key, so operations of several
    threads take effect one after the other; the model is one state and a
    sequence of such operations.  The order in which an [unordered_map] is
    iterated is a parameter. *)

From S2P Require Import Prelude CxxString Platform.

(** [std::unordered_map]: the elements in the order of its iterators. *)
Class UnorderedMap (K V : Type) `{Countable K} := um_order : gmap K V → list (K * V).
Class UnorderedMapSpec (K V : Type) `{UnorderedMap K V} : Prop :=
  um_order_perm (m : gmap K V) : um_order m ≡ₚ map_to_list m.

Record MTHashMap (K V : Type) `{Countable K} := { buckets_ : list (gmap K V) }.
Arguments buckets_ {K V _ _} _.

Section mt_hashmap.
Context {K V : Type} `{UnorderedMap K V, !EqDecision V}.
(** [std::hash<Key>] and the value-initialised [T()]. *)
Context (hash : K → Z) (value_init : V).

Abbreviation map := (MTHashMap K V).

(** The default constructor, for [Size] buckets. *)
Definition new (size : nat) : map := {| buckets_ := replicate size ∅ |}.

Definition bucket_size (m : map) : nat := length (buckets_ m).
Definition bucket_idx (m : map) (key : K) : nat :=
  Z.to_nat (hash key mod Z.of_nat (bucket_size m)).
Definition bucket (m : map) (i : nat) : gmap K V := default ∅ (buckets_ m !! i).
Definition set_bucket (m : map) (i : nat) (data : gmap K V) : map :=
  {| buckets_ := <[i := data]> (buckets_ m) |}.

(** *** Iterators

    The iterator of a bucket points to an element, or is the [end()] of it. *)
Record iterator := mkIterator { it_bucket : nat; it_owner : nat; it_key : option K }.

Definition end_ (m : map) : iterator := mkIterator (bucket_size m) (pred (bucket_size m)) None.

(** The first element of the buckets from [i] on. *)
Fixpoint first_from (i : nat) (bs : list (gmap K V)) : option (nat * K) :=
  match bs with
  | [] => None
  | b :: bs' => match um_order b with
                | [] => first_from (S i) bs'
                | (k, _) :: _ => Some (i, k)
                end
  end.

Definition begin_ (m : map) : iterator :=
  match first_from 0 (buckets_ m) with
  | Some (i, k) => mkIterator i i (Some k)
  | None => end_ m
  end.

(** The element after [k]. *)
Fixpoint next_in (k : K) (l : list (K * V)) : option K :=
  match l with
  | [] => None
  | (x, _) :: l' => if bool_decide (x = k) then fst <$> head l' else next_in k l'
  end.

Definition increment (m : map) (it : iterator) : iterator :=
  if bool_decide (bucket_size m ≤ it_bucket it) then it
  else
    match it_key it ≫= λ k, next_in k (um_order (bucket m (it_bucket it))) with
    | Some k => mkIterator (it_bucket it) (it_owner it) (Some k)
    | None =>
        let i := S (it_bucket it) in
        match first_from i (drop i (buckets_ m)) with
        | Some (j, k) => mkIterator j j (Some k)
        | None => end_ m
        end
    end.

(** Dereferencing an [end()] is undefined. *)
Definition dereference (m : map) (it : iterator) : run (K * V) :=
  match it_key it with
  | None => Fatal "dereference of end()"
  | Some k => match bucket m (it_owner it) !! k with
              | Some v => Done (k, v)
              | None => Fatal "dangling iterator"
              end
  end.

Definition equal (it rhs : iterator) : bool :=
  bool_decide (it_bucket it = it_bucket rhs) &&
  (bool_decide (it_owner it = it_owner rhs) && bool_decide (it_key it = it_key rhs)).

(** The loop [for (auto& p : m) out.push_back(p);] *)
Fixpoint iterate (fuel : nat) (m : map) (it : iterator) : option (run (list (K * V))) :=
  match fuel with
  | 0 => None
  | S fuel' =>
      if equal it (end_ m) then Some (Done [])
      else match dereference m it with
           | Fatal why => Some (Fatal why)
           | Done p => match iterate fuel' m (increment m it) with
                       | Some (Done l) => Some (Done (p :: l))
                       | r => r
                       end
           end
  end.

(** *** Operations *)

(** [None] is [std::out_of_range]. *)
Definition at_ (m : map) (key : K) : option V := bucket m (bucket_idx m key) !! key.

Definition index_ (m : map) (key : K) : V * map :=
  let idx := bucket_idx m key in
  match bucket m idx !! key with
  | Some v => (v, m)
  | None => (value_init, set_bucket m idx (<[key := value_init]> (bucket m idx)))
  end.

Definition insert (m : map) (key : K) (val : V) : iterator * bool * map :=
  let idx := bucket_idx m key in
  match bucket m idx !! key with
  | Some _ => (mkIterator idx idx (Some key), false, m)
  | None => (mkIterator idx idx (Some key), true,
             set_bucket m idx (<[key := val]> (bucket m idx)))
  end.

Definition erase (m : map) (key : K) : nat * map :=
  let idx := bucket_idx m key in
  match bucket m idx !! key with
  | Some _ => (1, set_bucket m idx (delete key (bucket m idx)))
  | None => (0, m)
  end.

Definition find (m : map) (key : K) : iterator :=
  let idx := bucket_idx m key in
  match bucket m idx !! key with
  | Some _ => mkIterator idx idx (Some key)
  | None => end_ m
  end.

Definition clear (m : map) : map := {| buckets_ := (λ _, ∅) <$> buckets_ m |}.
Definition empty (m : map) : bool := forallb (λ b, bool_decide (size b = 0)) (buckets_ m).
Definition size_ (m : map) : nat := foldl (λ total b, total + size b) 0 (buckets_ m).

(** [operator=(const MTHashMap&)]: two maps of one template instance have the
    same number of buckets. *)
Definition copy_from (m rhs : map) : map :=
  {| buckets_ := imap (λ i _, bucket rhs i) (buckets_ m) |}.
Definition eqb (m rhs : map) : bool :=
  forallb (λ i, bool_decide (bucket m i = bucket rhs i)) (seq 0 (bucket_size m)).
(** [operator=(MTHashMap&&)] leaves in [rhs] maps of unspecified content: [left]. *)
Definition move_from (left : nat → gmap K V) (m rhs : map) : map * map :=
  (copy_from m rhs, {| buckets_ := imap (λ i _, left i) (buckets_ rhs) |}).
(** The copy and the move constructor. *)
Definition new_copy (size : nat) (rhs : map) : map := copy_from (new size) rhs.
Definition new_moved (left : nat → gmap K V) (size : nat) (rhs : map) : map * map :=
  move_from left (new size) rhs.
(** [swap(rhs)], and the function of the same name. *)
Definition swap (m rhs : map) : map * map := (rhs, m).
Definition swap_maps (lhs rhs : map) : map * map := swap lhs rhs.
End mt_hashmap.

Arguments iterator K : clear implicits.

(** ** The abstract map *)

Section refinement.
Context {K V : Type} `{UnorderedMap K V, !UnorderedMapSpec K V, !EqDecision V}.
Context (hash : K → Z) (value_init : V).

Abbreviation map := (MTHashMap K V).
Implicit Types (m : map).

(** Every key is in the bucket of its hash value. *)
Record mt_wf m : Prop := {
  mt_size : 0 < bucket_size m;
  mt_place i b k : buckets_ m !! i = Some b → is_Some (b !! k) → bucket_idx hash m k = i;
}.

Definition view m : gmap K V := ⋃ (buckets_ m).

(** The operations of the threads, and what they answer. *)
Inductive operation :=
  | OpAt (k : K) | OpIndex (k : K) | OpInsert (k : K) (v : V) | OpErase (k : K) | OpFind (k : K)
  | OpClear | OpEmpty | OpSize.
Inductive answer :=
  | Value (o : option V) | Inserted (b : bool) (p : run (K * V)) | Erased (n : nat)
  | Element (o : option (K * V)) | Nothing | Bool (b : bool) | Count (n : nat).

Definition exec (o : operation) m : answer * map :=
  match o with
  | OpAt k => (Value (at_ hash m k), m)
  | OpIndex k => let '(v, m) := index_ hash value_init m k in (Value (Some v), m)
  | OpInsert k v => let '(it, b, m) := insert hash m k v in (Inserted b (dereference m it), m)
  | OpErase k => let '(n, m) := erase hash m k in (Erased n, m)
  | OpFind k =>
      let it := find hash m k in
      (Element (if equal it (end_ m) then None
                else match dereference m it with Done p => Some p | Fatal _ => None end), m)
  | OpClear => (Nothing, clear m)
  | OpEmpty => (Bool (empty m), m)
  | OpSize => (Count (size_ m), m)
  end.

Definition spec (o : operation) (s : gmap K V) : answer * gmap K V :=
  match o with
  | OpAt k => (Value (s !! k), s)
  | OpIndex k => match s !! k with
                 | Some v => (Value (Some v), s)
                 | None => (Value (Some value_init), <[k := value_init]> s)
                 end
  | OpInsert k v => match s !! k with
                    | Some v' => (Inserted false (Done (k, v')), s)
                    | None => (Inserted true (Done (k, v)), <[k := v]> s)
                    end
  | OpErase k => (Erased (if s !! k is Some _ then 1 else 0), delete k s)
  | OpFind k => (Element (pair k <$> s !! k), s)
  | OpClear => (Nothing, ∅)
  | OpEmpty => (Bool (bool_decide (s = ∅)), s)
  | OpSize => (Count (size s), s)
  end.

Fixpoint exec_all (ops : list operation) m : list answer * map :=
  match ops with
  | [] => ([], m)
  | o :: ops' => let '(a, m) := exec o m in let '(l, m) := exec_all ops' m in (a :: l, m)
  end.
Fixpoint spec_all (ops : list operation) (s : gmap K V) : list answer * gmap K V :=
  match ops with
  | [] => ([], s)
  | o :: ops' => let '(a, s) := spec o s in let '(l, s) := spec_all ops' s in (a :: l, s)
  end.

(** *** Lemmas *)

Lemma bucket_idx_lt m k : 0 < bucket_size m → bucket_idx hash m k < bucket_size m.
Proof.
  intros Hs. unfold bucket_idx.
  pose proof (Z.mod_pos_bound (hash k) (Z.of_nat (bucket_size m))). lia.
Qed.

Lemma lookup_bucket m k :
  0 < bucket_size m → buckets_ m !! bucket_idx hash m k = Some (bucket m (bucket_idx hash m k)).
Proof.
  intros Hs. unfold bucket.
  destruct (lookup_lt_is_Some_2 (buckets_ m) (bucket_idx hash m k)) as [b ->]; [|done].
  by apply bucket_idx_lt.
Qed.

Lemma lookup_union_list (l : list (gmap K V)) k i :
  (∀ j b, l !! j = Some b → is_Some (b !! k) → j = i) →
  (⋃ l) !! k = default ∅ (l !! i) !! k.
Proof.
  revert i. induction l as [|b l IH]; intros i Hi; [by destruct i|].
  simpl. rewrite lookup_union. destruct (b !! k) as [v|] eqn:Hb.
  - assert (0 = i) as <- by (apply (Hi 0 b); [done|by rewrite Hb]). simpl.
    rewrite Hb. by destruct ((⋃ l) !! k).
  - rewrite (left_id_L None _). destruct i as [|i]; simpl.
    + rewrite Hb. rewrite (IH (length l)); [by rewrite lookup_ge_None_2|].
      intros j b' Hj Hs. specialize (Hi (S j) b' Hj Hs). lia.
    + apply IH. intros j b' Hj Hs. specialize (Hi (S j) b' Hj Hs). lia.
Qed.

(** The abstract map is looked up in one bucket. *)
Lemma lookup_view m k : mt_wf m → view m !! k = bucket m (bucket_idx hash m k) !! k.
Proof.
  intros [Hs Hp]. unfold view. rewrite (lookup_union_list _ _ (bucket_idx hash m k)); [done|].
  intros j b Hj Hb. symmetry. by eapply Hp.
Qed.

Lemma bucket_size_set m i b : bucket_size (set_bucket m i b) = bucket_size m.
Proof. unfold bucket_size. simpl. by rewrite length_insert. Qed.
Lemma bucket_set_eq m i b : i < bucket_size m → bucket (set_bucket m i b) i = b.
Proof. intros Hi. unfold bucket. simpl. by rewrite list_lookup_insert_eq. Qed.
Lemma bucket_idx_set m i b k : bucket_idx hash (set_bucket m i b) k = bucket_idx hash m k.
Proof. unfold bucket_idx. by rewrite bucket_size_set. Qed.

(** A change of one key in its bucket. *)
Lemma set_bucket_wf m k (o : option V) :
  mt_wf m →
  mt_wf (set_bucket m (bucket_idx hash m k)
           (partial_alter (λ _, o) k (bucket m (bucket_idx hash m k)))).
Proof.
  intros Hwf. pose proof Hwf as [Hs Hp]. split; [by rewrite bucket_size_set|].
  intros i b k' Hi Hb. rewrite bucket_idx_set. simpl in Hi.
  apply list_lookup_insert_Some in Hi as [(<-&<-&_)|(Hne&Hi)]; [|by eapply Hp].
  destruct (decide (k' = k)) as [->|Hk]; [done|]. rewrite lookup_partial_alter_ne in Hb by done.
  apply (Hp _ (bucket m (bucket_idx hash m k))); [by apply lookup_bucket|done].
Qed.

Lemma set_bucket_view m k (o : option V) :
  mt_wf m →
  view (set_bucket m (bucket_idx hash m k)
          (partial_alter (λ _, o) k (bucket m (bucket_idx hash m k))))
  = partial_alter (λ _, o) k (view m).
Proof.
  intros Hwf. apply map_eq. intros k'. rewrite lookup_view by by apply set_bucket_wf.
  rewrite bucket_idx_set. unfold bucket at 1. simpl.
  destruct (decide (bucket_idx hash m k' = bucket_idx hash m k)) as [He|Hne].
  - rewrite He, list_lookup_insert_eq by (apply bucket_idx_lt, Hwf). simpl.
    destruct (decide (k' = k)) as [->|Hk]; [by rewrite !lookup_partial_alter_eq|].
    rewrite !lookup_partial_alter_ne by done. by rewrite lookup_view, He by done.
  - rewrite list_lookup_insert_ne by done. change (default ∅ (buckets_ m !! ?i)) with (bucket m i).
    rewrite lookup_partial_alter_ne by congruence. by rewrite lookup_view.
Qed.

Lemma set_bucket_same m i : set_bucket m i (bucket m i) = m.
Proof.
  destruct m as [bs]. unfold set_bucket, bucket. simpl. f_equal.
  destruct (bs !! i) as [b|] eqn:Hi; [by apply list_insert_id|].
  apply list_insert_ge. by apply lookup_ge_None.
Qed.

Lemma lookup_union_list_Some (l : list (gmap K V)) k v :
  (⋃ l) !! k = Some v → ∃ j b, l !! j = Some b ∧ b !! k = Some v.
Proof.
  induction l as [|b l IH]; simpl; [by rewrite lookup_empty|].
  intros [Hb|[_ Hl]]%lookup_union_Some_raw; [by exists 0, b|].
  destruct (IH Hl) as (j&b'&?&?). by exists (S j), b'.
Qed.

Lemma union_list_size (l : list (gmap K V)) :
  (∀ i j b b' k, l !! i = Some b → l !! j = Some b' → is_Some (b !! k) → is_Some (b' !! k) → i = j) →
  size (⋃ l) = sum_list_with size l.
Proof.
  induction l as [|b l IH]; intros Hdis; [apply map_size_empty|]. simpl.
  rewrite map_size_disj_union, IH; [done| |].
  - intros i j b1 b2 k Hi Hj H1 H2. specialize (Hdis (S i) (S j) b1 b2 k Hi Hj H1 H2). lia.
  - apply map_disjoint_spec. intros k v1 v2 Hb Hu.
    apply lookup_union_list_Some in Hu as (j&b'&Hj&Hb').
    specialize (Hdis 0 (S j) b b' k eq_refl Hj). rewrite Hb, Hb' in Hdis.
    specialize (Hdis (mk_is_Some _ _ eq_refl) (mk_is_Some _ _ eq_refl)). lia.
Qed.

Lemma view_size m : mt_wf m → size (view m) = sum_list_with size (buckets_ m).
Proof.
  intros [_ Hp]. apply union_list_size. intros i j b b' k Hi Hj Hb Hb'.
  by rewrite <-(Hp i b k Hi Hb), <-(Hp j b' k Hj Hb').
Qed.

Lemma size_sum m : size_ m = sum_list_with size (buckets_ m).
Proof.
  unfold size_. rewrite <-(Nat.add_0_l (sum_list_with _ _)). generalize 0.
  induction (buckets_ m) as [|b l IH]; intros n; simpl; [lia|]. rewrite IH. lia.
Qed.

Lemma empty_view m : mt_wf m → empty m = bool_decide (view m = ∅).
Proof.
  intros Hwf. unfold empty. apply eq_bool_prop_intro. rewrite forallb_True, bool_decide_spec.
  rewrite <-map_size_empty_iff, view_size by done.
  induction (buckets_ m) as [|b l IH]; simpl; [by split; [|constructor]|].
  rewrite Forall_cons, bool_decide_spec, IH. lia.
Qed.

Lemma clear_wf m : mt_wf m → mt_wf (clear m).
Proof.
  intros [Hs _]. split; [unfold bucket_size; simpl; by rewrite length_fmap|].
  intros i b k Hi. simpl in Hi. apply list_lookup_fmap_Some in Hi as (?&->&_).
  rewrite lookup_empty. by intros [].
Qed.

Lemma clear_view m : view (clear m) = ∅.
Proof.
  unfold view. simpl. induction (buckets_ m) as [|b l IH]; [done|].
  change (∅ ∪ ⋃ ((λ _, ∅) <$> l) = (∅ : gmap K V)). by rewrite IH, (left_id_L ∅ (∪)).
Qed.

Lemma new_wf n : 0 < n → mt_wf (new n).
Proof.
  intros Hn. split; [unfold bucket_size; simpl; by rewrite length_replicate|].
  intros i b k Hi. simpl in Hi. apply lookup_replicate in Hi as [-> _].
  rewrite lookup_empty. by intros [].
Qed.

Lemma new_view n : view (new n) = ∅.
Proof. unfold view. simpl. induction n as [|n IH]; [done|]. simpl. by rewrite IH, (left_id_L ∅ (∪)). Qed.

Lemma iterator_equal_end m i k : i < bucket_size m → equal (mkIterator i i (Some k)) (end_ m) = false.
Proof. intros Hi. unfold equal, end_. simpl. by rewrite bool_decide_eq_false_2 by lia. Qed.

(** One operation. *)
Lemma exec_refines o m :
  mt_wf m → mt_wf (exec o m).2 ∧ spec o (view m) = ((exec o m).1, view (exec o m).2).
Proof.
  intros Hwf. pose proof Hwf as [Hs _].
  assert (∀ k v, mt_wf (set_bucket m (bucket_idx hash m k)
    (<[k := v]> (bucket m (bucket_idx hash m k))))) as Hins by (intros k v; by apply set_bucket_wf).
  assert (∀ k v, view (set_bucket m (bucket_idx hash m k)
    (<[k := v]> (bucket m (bucket_idx hash m k)))) = <[k := v]> (view m)) as Hview
    by (intros k v; by apply set_bucket_view).
  destruct o as [k|k|k v|k|k| | |]; simpl.
  - unfold at_. by rewrite lookup_view.
  - unfold index_. rewrite lookup_view by done.
    destruct (bucket m _ !! k) eqn:Hk; simpl; by rewrite ?Hview.
  - unfold insert, dereference. rewrite lookup_view by done.
    destruct (bucket m _ !! k) eqn:Hk; simpl; [by rewrite Hk|].
    split; [done|]. by rewrite Hview, bucket_set_eq, lookup_insert_eq by (by apply bucket_idx_lt).
  - unfold erase. rewrite lookup_view by done.
    destruct (bucket m _ !! k) eqn:Hk; simpl.
    + split; [by apply set_bucket_wf|]. f_equal. symmetry. by apply set_bucket_view.
    + split; [done|]. by rewrite delete_id by by rewrite lookup_view.
  - unfold find, dereference. rewrite lookup_view by done.
    destruct (bucket m _ !! k) eqn:Hk; simpl.
    + rewrite iterator_equal_end by (by apply bucket_idx_lt). simpl. by rewrite Hk.
    + unfold equal. by rewrite !bool_decide_eq_true_2.
  - split; [by apply clear_wf|]. by rewrite clear_view.
  - by rewrite empty_view.
  - by rewrite size_sum, view_size.
Qed.

Lemma exec_all_refines ops m :
  mt_wf m →
  (exec_all ops m).1 = (spec_all ops (view m)).1 ∧
  view (exec_all ops m).2 = (spec_all ops (view m)).2 ∧ mt_wf (exec_all ops m).2.
Proof.
  revert m. induction ops as [|o ops IH]; intros m Hwf; [done|].
  destruct (exec_refines o m Hwf) as [Hwf' Hspec]. cbn [exec_all spec_all]. rewrite Hspec.
  destruct (exec o m) as [a m'] eqn:He. simpl in *. destruct (IH m' Hwf') as (Ha&Hv&Hw).
  destruct (exec_all ops m') as [l m''], (spec_all ops (view m')) as [l' s']. simpl in *.
  by subst.
Qed.

(** *** Iteration *)

Definition elements_from (i : nat) m : list (K * V) := drop i (buckets_ m) ≫= um_order.

Lemma first_from_spec i bs :
  match first_from i bs with
  | Some (j, k) => ∃ n b v l, j = i + n ∧ bs !! n = Some b ∧ um_order b = (k, v) :: l ∧
                     bs ≫= um_order = um_order b ++ (drop (S n) bs ≫= um_order)
  | None => bs ≫= um_order = []
  end.
Proof.
  revert i. induction bs as [|b bs IH]; intros i; simpl; [done|].
  destruct (um_order b) as [|[k v] l] eqn:Hb; simpl.
  - specialize (IH (S i)). destruct (first_from (S i) bs) as [[j k]|]; [|done].
    destruct IH as (n&b'&v&l&->&Hn&Ho&Hl). exists (S n), b', v, l. split_and!; [lia|done..].
  - exists 0, b, v, l. rewrite Hb. split_and!; [lia|done..].
Qed.

Lemma next_in_spec (l : list (K * V)) j k v :
  NoDup l.*1 → l !! j = Some (k, v) → next_in k l = fst <$> l !! S j.
Proof.
  revert j. induction l as [|[x y] l IH]; intros j Hnd Hj; [done|]. simpl in *.
  apply NoDup_cons in Hnd as [Hx Hnd]. destruct j as [|j]; simpl in *.
  - simplify_eq. rewrite bool_decide_eq_true_2 by done. by destruct l.
  - rewrite bool_decide_eq_false_2; [by apply IH|]. intros ->. apply Hx.
    apply list_elem_of_fmap. exists (k, v). split; [done|]. by apply list_elem_of_lookup_2 in Hj.
Qed.

Lemma um_order_NoDup (b : gmap K V) : NoDup (um_order b).*1.
Proof. rewrite um_order_perm. apply NoDup_fst_map_to_list. Qed.

Lemma um_order_lookup (b : gmap K V) j k v : um_order b !! j = Some (k, v) → b !! k = Some v.
Proof. intros Hj%list_elem_of_lookup_2. rewrite um_order_perm in Hj. by apply elem_of_map_to_list. Qed.

(** What the loop still visits: [None] is the end. *)
Definition at_position m (it : iterator K) (rest : list (K * V)) : Prop :=
  (it = end_ m ∧ rest = []) ∨
  ∃ i b j k v, it = mkIterator i i (Some k) ∧ buckets_ m !! i = Some b ∧
    um_order b !! j = Some (k, v) ∧ rest = drop j (um_order b) ++ elements_from (S i) m.

Lemma at_position_from m i :
  at_position m (match first_from i (drop i (buckets_ m)) with
                 | Some (j, k) => mkIterator j j (Some k)
                 | None => end_ m
                 end) (elements_from i m).
Proof.
  unfold elements_from. pose proof (first_from_spec i (drop i (buckets_ m))) as Hf.
  destruct (first_from i _) as [[j k]|]; [|by left].
  right. destruct Hf as (n&b&v&l&->&Hn&Ho&->). rewrite lookup_drop in Hn.
  exists (i + n), b, 0, k, v. rewrite Ho. split_and!; [done..|].
  unfold elements_from. by rewrite drop_0, drop_drop, Nat.add_succ_r.
Qed.

Lemma at_position_next m it p rest :
  at_position m it (p :: rest) →
  equal it (end_ m) = false ∧ dereference m it = Done p ∧ at_position m (increment m it) rest.
Proof.
  intros [[_ ?]|(i&b&j&k&v&->&Hb&Hj&Hrest)]; [done|].
  assert (i < bucket_size m) as Hi by (by apply lookup_lt_Some in Hb).
  rewrite (drop_S _ _ _ Hj) in Hrest. simpl in Hrest. injection Hrest as -> ->.
  split_and!; [by apply iterator_equal_end| |].
  - unfold dereference, bucket. simpl. rewrite Hb. simpl. by erewrite um_order_lookup by done.
  - unfold increment. simpl. rewrite bool_decide_eq_false_2 by lia.
    unfold bucket. rewrite Hb. simpl. rewrite (next_in_spec _ j k v) by (done || apply um_order_NoDup).
    destruct (um_order b !! S j) as [[k' v']|] eqn:Hj'; simpl.
    + right. by exists i, b, (S j), k', v'.
    + apply lookup_ge_None in Hj'. rewrite (drop_ge (um_order b)) by lia. apply (at_position_from m (S i)).
Qed.

Lemma iterate_at m it rest fuel :
  at_position m it rest → length rest < fuel → iterate fuel m it = Some (Done rest).
Proof.
  revert it rest. induction fuel as [|fuel IH]; intros it rest Hat Hf; [lia|]. simpl.
  destruct rest as [|p rest].
  - destruct Hat as [[-> _]|(i&b&j&k&v&_&_&Hj&Hr)].
    + unfold equal. by rewrite !bool_decide_eq_true_2.
    + by rewrite (drop_S _ _ _ Hj) in Hr.
  - apply at_position_next in Hat as (->&->&Hat). simpl in Hf.
    by rewrite (IH _ rest) by (done || lia).
Qed.

Lemma elements_perm m : mt_wf m → elements_from 0 m ≡ₚ map_to_list (view m).
Proof.
  intros [Hs Hp]. unfold elements_from, view. rewrite drop_0.
  assert (∀ i j b b' k, buckets_ m !! i = Some b → buckets_ m !! j = Some b' →
            is_Some (b !! k) → is_Some (b' !! k) → i = j) as Hdis.
  { intros i j b b' k Hi Hj Hb Hb'. by rewrite <-(Hp i b k Hi Hb), <-(Hp j b' k Hj Hb'). }
  clear Hs Hp. induction (buckets_ m) as [|b l IH]; simpl; [by rewrite map_to_list_empty|].
  rewrite map_to_list_disj_union.
  - rewrite um_order_perm, IH; [done|].
    intros i j b1 b2 k Hi Hj H1 H2. specialize (Hdis (S i) (S j) b1 b2 k Hi Hj H1 H2). lia.
  - apply map_disjoint_spec. intros k v1 v2 Hb Hu.
    apply lookup_union_list_Some in Hu as (j&b'&Hj&Hb').
    specialize (Hdis 0 (S j) b b' k eq_refl Hj). rewrite Hb, Hb' in Hdis.
    specialize (Hdis (mk_is_Some _ _ eq_refl) (mk_is_Some _ _ eq_refl)). lia.
Qed.

(** ** Properties *)

(** C19: the sharded map is a map.  Whatever single-key and whole-map operations
    the threads run one after the other on a new map, however the hash function
    spreads the keys and however the buckets are iterated, they get the answers
    that one plain map would give, and the buckets hold that map. *)
Theorem sharded_map_refines_map (n : nat) (ops : list operation) :
  0 < n →
  (exec_all ops (new n)).1 = (spec_all ops ∅).1 ∧
  view (exec_all ops (new n)).2 = (spec_all ops ∅).2 ∧ mt_wf (exec_all ops (new n)).2.
Proof.
  intros Hn. rewrite <-(new_view n). apply exec_all_refines. by apply new_wf.
Qed.

(** C32: a loop over the sharded map visits every entry once.  From [begin()] the
    increments reach [end()] after as many steps as there are entries, no step
    dereferences an invalid iterator, and the pairs seen are a permutation of
    the entries of the map. *)
Theorem iteration_visits_every_entry_once (m : map) (fuel : nat) :
  mt_wf m → size (view m) < fuel →
  ∃ l, iterate fuel m (begin_ m) = Some (Done l) ∧ l ≡ₚ map_to_list (view m).
Proof.
  intros Hwf Hf. exists (elements_from 0 m). split; [|by apply elements_perm].
  apply iterate_at.
  - pose proof (at_position_from m 0) as Hat. rewrite drop_0 in Hat. exact Hat.
  - by rewrite elements_perm, length_map_to_list.
Qed.
End refinement.

(** ** Witnesses *)

Section witnesses.
#[local] Instance z_order : UnorderedMap Z string := λ m, map_to_list m.
#[local] Instance z_order_spec : UnorderedMapSpec Z string.
Proof. intros m. reflexivity. Qed.

Definition demo_ops : list (operation (K:=Z) (V:=string)) :=
  [OpInsert 1%Z "a"; OpInsert 5%Z "b"; OpInsert 1%Z "c"; OpIndex 6%Z; OpErase 5%Z; OpFind 1%Z;
   OpFind 5%Z; OpSize].

Lemma sharded_map_refines_map_witness :
  (exec_all (λ k, k) "" demo_ops (new 4)).1
  = [Inserted true (Done (1%Z, "a")); Inserted true (Done (5%Z, "b"));
     Inserted false (Done (1%Z, "a")); Value (Some ""); Erased 1; Element (Some (1%Z, "a"));
     Element None; Count 2].
Proof.
  destruct (sharded_map_refines_map (λ k : Z, k) "" 4 demo_ops) as (Ha&_&_); [lia|].
  rewrite Ha. vm_compute. reflexivity.
Defined.

Lemma iteration_visits_every_entry_once_witness :
  ∃ l, iterate 3 (exec_all (λ k, k) "" demo_ops (new 4)).2
         (begin_ (exec_all (λ k, k) "" demo_ops (new 4)).2) = Some (Done l) ∧
    l ≡ₚ [(6%Z, ""); (1%Z, "a")].
Proof.
  destruct (iteration_visits_every_entry_once (λ k, k) (exec_all (λ k, k) "" demo_ops (new 4)).2 3)
    as (l&Hl&Hp).
  - apply exec_all_refines, new_wf. lia.
  - vm_compute. lia.
  - exists l. split; [exact Hl|]. rewrite Hp. vm_compute. apply Permutation_refl.
Defined.
End witnesses.
