(* ===== verification/PartitionManager.v ===== *)
(** * The partitions of the indices (masterd/partition_manager.cpp)

    For every index, a consistent hash ring from separators to partition paths,
    kept as a write-through cache of a key-value store that holds the
    serialised ring under the path of the index. *)

From S2P Require Import Prelude CxxString Platform KVStore.

Record IndexPartition := { hash_sep : Z; partition : string }.
Definition IndexConsistentHashRing := list IndexPartition.

#[export] Instance IndexPartition_eq_dec : EqDecision IndexPartition.
Proof. solve_decision. Defined.
#[export] Program Instance IndexPartition_countable : Countable IndexPartition :=
  inj_countable' (λ p, (hash_sep p, partition p)) (λ '(h, p), {| hash_sep := h; partition := p |}) _.
Next Obligation. by intros []. Qed.

Record Partition (R : Type) := { refcount_ : Z; partitions_ : R }.
Arguments refcount_ {R}. Arguments partitions_ {R}. Arguments Build_Partition {R}.

Record PartitionManager (S R : Type) := {
  pm_store_ : S;
  partition_map_by_index_path_ : gmap string (Partition R);
}.
Arguments pm_store_ {S R}. Arguments partition_map_by_index_path_ {S R}.
Arguments Build_PartitionManager {S R}.

(** [path + "." + to_string(sep)] *)
Definition node_name (path : string) (sep : Z) : string := path +:+ "." +:+ to_string sep.

Section partition_manager.
Context {S R : Type} `{KeyValueStore S, ConsistentHashMap R string}.
Context `{ThriftCodec IndexConsistentHashRing}.
(** The value [refcount_] has in a new [Partition]: no constructor sets it. *)
Context (indeterminate : Z).

Abbreviation state := (PartitionManager S R).
Abbreviation table := partition_map_by_index_path_.

Definition new (store : S) : state := Build_PartitionManager store ∅.

(** The status of each [insert] is not read. *)
Definition string_to_partition_map (buffer : string) (pm : R) : Status * R :=
  match thrift_read buffer with
  | None => (Err (-1) "Failed to parse thrift object.", pm)
  | Some idx_ring =>
      (OK, foldl (λ pm p, (ch_insert pm (hash_sep p) (partition p)).2) pm idx_ring)
  end.

Definition partition_map_to_string (pm : R) : string :=
  thrift_write ((λ e, {| hash_sep := e.1; partition := e.2 |}) <$> ch_entries pm).

Fixpoint load_partitions (pm : state) (records : list (string * string)) : Status * state :=
  match records with
  | [] => (OK, pm)
  | (key, buffer) :: records' =>
      let '(status, new_partition_map) := string_to_partition_map buffer ch_new in
      if ok status then
        load_partitions
          (Build_PartitionManager (pm_store_ pm)
             (<[key:=Build_Partition indeterminate new_partition_map]> (table pm))) records'
      else (status, pm)
  end.

Definition init (pm : state) : run (Status * state) :=
  let '(status, s) := kv_open (pm_store_ pm) in
  let pm := Build_PartitionManager s (table pm) in
  if ok status then records ← kv_scan s; Done (load_partitions pm records)
  else Done (status, pm).

(** [partition_map_by_index_path_[path]] of a missing path is a null pointer. *)
Definition write_partition_map (pm : state) (path : string) : run (Status * state) :=
  match table pm !! path with
  | None => Fatal "null Partition"
  | Some p =>
      let buffer := partition_map_to_string (partitions_ p) in
      if str_empty buffer then Done (Err (-1) "Failed to serialize PartitionMap", pm)
      else
        '(status, s) ← kv_put (pm_store_ pm) path buffer;
        Done (status, Build_PartitionManager s (table pm))
  end.

Definition set_partition (pm : state) (path : string) (p : Partition R) : state :=
  Build_PartitionManager (pm_store_ pm) (<[path:=p]> (table pm)).

Definition add_index (pm : state) (path : string) : run (Status * state) :=
  match table pm !! path with
  | Some _ => Done (Err (-1) "The index has already existed", pm)
  | None =>
      let initial_key := 0%Z in
      let r := (ch_insert ch_new initial_key (node_name path initial_key)).2 in
      write_partition_map (set_partition pm path (Build_Partition indeterminate r)) path
  end.

Definition remove_index (pm : state) (path : string) : run (Status * state) :=
  '(status, s) ← kv_remove (pm_store_ pm) path;
  if ok status then Done (OK, Build_PartitionManager s (delete path (table pm)))
  else Done (status, Build_PartitionManager s (table pm)).

Definition add_partition (pm : state) (path : string) (sep : Z) : run (Status * state) :=
  match table pm !! path with
  | None => Done (Err (- ENOENT) "The index does not existed.", pm)
  | Some p =>
      (* refcount_ goes up and down again before both returns *)
      if ch_has_key (partitions_ p) sep then
        Done (Err (-1) "The separator is already existed.", pm)
      else
        let r := (ch_insert (partitions_ p) sep (node_name path sep)).2 in
        write_partition_map (set_partition pm path (Build_Partition (refcount_ p) r)) path
  end.

(** [refcount_] is not decremented on any path, and the status of the write
    is only logged. *)
Definition remove_partition (pm : state) (path : string) (sep : Z) : run (Status * state) :=
  match table pm !! path with
  | None => Done (Err (- ENOENT) "The index does not existed.", pm)
  | Some p =>
      let refcount := wrap_uint64 (refcount_ p + 1) in
      let '(status, r) := ch_remove (partitions_ p) sep in
      let pm := set_partition pm path (Build_Partition refcount r) in
      if ok status then
        '(_, pm) ← write_partition_map pm path; Done (OK, pm)
      else Done (status, pm)
  end.

Definition get_partition_path (pm : state) (path : string) (hash : Z) : string :=
  match table pm !! path with
  | None => ""
  | Some p => default "" (ch_get (partitions_ p) hash).2
  end.

Definition get_all_partitions (pm : state) (index_path : string) : Status * list string :=
  match table pm !! index_path with
  | None => (Err (- ENOENT) "The index does not existed.", [])
  | Some p => (OK, ch_get_values (partitions_ p))
  end.

Definition copy_partition_map (pm : state) (full_index_path : string) : Status * option R :=
  match table pm !! full_index_path with
  | None => (Err (- ENOENT) "The index does not existed.", None)
  | Some p => (OK, Some (partitions_ p))
  end.
End partition_manager.

(** ** Write-through invariant *)

Section invariant.
Context {S R : Type} `{!KeyValueStore S, !KeyValueStoreSpec S}.
Context `{!ConsistentHashMap R string, !ConsistentHashMapSpec R string}.
Context `{!ThriftCodec IndexConsistentHashRing, !ThriftCodecSpec IndexConsistentHashRing}.
Context (indeterminate : Z).

Abbreviation table := partition_map_by_index_path_.

(** The rings as finite maps. *)
Definition rings (pm : PartitionManager S R) : gmap string (gmap Z string) :=
  (λ p, ch_view (partitions_ p)) <$> table pm.

Record pm_wf (pm : PartitionManager S R) : Prop := {
  pm_opened : kv_opened (pm_store_ pm);
  pm_view :
    kv_view (pm_store_ pm) = (λ p, partition_map_to_string (partitions_ p)) <$> table pm;
  pm_names path m sep node :
    rings pm !! path = Some m → m !! sep = Some node → node = node_name path sep;
}.

Lemma str_nonempty s : s ≠ "" → str_empty s = false.
Proof. by destruct s. Qed.

(** When the store takes the write, the table and the store agree again. *)
Lemma write_partition_map_spec (pm : PartitionManager S R) path p :
  table pm !! path = Some p → kv_opened (pm_store_ pm) →
  ∃ st s, kv_put (pm_store_ pm) path (partition_map_to_string (partitions_ p)) = Done (st, s) ∧
    write_partition_map pm path = Done (st, Build_PartitionManager s (table pm)) ∧
    kv_opened s ∧
    kv_view s = if ok st then <[path:=partition_map_to_string (partitions_ p)]> (kv_view (pm_store_ pm))
                else kv_view (pm_store_ pm).
Proof.
  intros Hp Ho. unfold write_partition_map. rewrite Hp.
  rewrite str_nonempty by apply thrift_write_nonempty.
  destruct (kv_put_spec (pm_store_ pm) path (partition_map_to_string (partitions_ p)) Ho)
    as (st&s&->&?&?). simpl. eauto 10.
Qed.

(** One index gets a new ring. *)
Lemma set_ring_wf pm path refcount r s :
  pm_wf pm → kv_opened s →
  (∀ sep node, ch_view r !! sep = Some node → node = node_name path sep) →
  kv_view s = <[path:=partition_map_to_string r]> (kv_view (pm_store_ pm)) →
  pm_wf (Build_PartitionManager s (<[path:=Build_Partition refcount r]> (table pm))).
Proof.
  intros Hwf Ho Hr Hv. split; simpl; [done|..].
  - rewrite Hv, (pm_view _ Hwf), fmap_insert. done.
  - intros q m sep node. unfold rings; simpl. rewrite fmap_insert, lookup_insert.
    case_decide; [subst|apply (pm_names _ Hwf)]. intros [= <-]. apply Hr.
Qed.

(** Calls during which the store takes every write, and restarts. *)
Inductive pm_step : relation (PartitionManager S R) :=
  | step_add_index pm path st pm' :
      accepts (pm_store_ pm) → add_index indeterminate pm path = Done (st, pm') → pm_step pm pm'
  | step_remove_index pm path st pm' :
      remove_index pm path = Done (st, pm') → pm_step pm pm'
  | step_add_partition pm path sep st pm' :
      accepts (pm_store_ pm) → add_partition pm path sep = Done (st, pm') → pm_step pm pm'
  | step_remove_partition pm path sep st pm' :
      accepts (pm_store_ pm) → remove_partition pm path sep = Done (st, pm') → pm_step pm pm'
  | step_restart pm s st pm' :
      kv_view s = kv_view (pm_store_ pm) → ok (kv_open s).1 = true →
      init indeterminate (new s) = Done (st, pm') → pm_step pm pm'.

Lemma add_index_wf pm path st pm' :
  pm_wf pm → accepts (pm_store_ pm) → add_index indeterminate pm path = Done (st, pm') → pm_wf pm'.
Proof.
  intros Hwf Hacc. unfold add_index. destruct (table pm !! path) eqn:Hp; [by intros [= <- <-]|].
  destruct (ch_insert_spec ch_new 0 (node_name path 0)) as (r&Hr&Hview).
  { by rewrite ch_new_spec. }
  rewrite Hr; simpl. set (pm1 := set_partition pm path _).
  destruct (write_partition_map_spec pm1 path (Build_Partition indeterminate r))
    as (st'&s&Hput&->&Ho&Hv); [apply lookup_insert_eq|apply Hwf|].
  intros [= <- <-]. rewrite (Hacc _ _ _ _ Hput) in Hv. apply set_ring_wf; try done.
  intros sep node. rewrite Hview, ch_new_spec, lookup_insert. case_decide; [|done]. by intros [= <-]; subst.
Qed.

Lemma remove_index_wf pm path st pm' :
  pm_wf pm → remove_index pm path = Done (st, pm') → pm_wf pm'.
Proof.
  intros Hwf Hc. unfold remove_index in Hc. run_inv Hc;
    destruct (kv_remove_inv _ _ _ _ (pm_opened _ Hwf) Heqr) as [Ho Hv]; rewrite Heqb in Hv;
    (split; simpl; [done|..]); rewrite ?Hv, ?(pm_view _ Hwf).
  - by rewrite fmap_delete.
  - intros q m sep node. unfold rings; simpl. rewrite fmap_delete, lookup_delete.
    case_decide; [done|]. apply (pm_names _ Hwf).
  - done.
  - apply (pm_names _ Hwf).
Qed.

Lemma add_partition_wf pm path sep st pm' :
  pm_wf pm → accepts (pm_store_ pm) → add_partition pm path sep = Done (st, pm') → pm_wf pm'.
Proof.
  intros Hwf Hacc. unfold add_partition. destruct (table pm !! path) as [p|] eqn:Hp; [|by intros [= <- <-]].
  rewrite ch_has_key_spec. case_bool_decide as Hk; [by intros [= <- <-]|].
  rewrite <-eq_None_not_Some in Hk.
  destruct (ch_insert_spec (partitions_ p) sep (node_name path sep) Hk) as (r&Hr&Hview).
  rewrite Hr; simpl. set (pm1 := set_partition pm path _).
  destruct (write_partition_map_spec pm1 path (Build_Partition (refcount_ p) r))
    as (st'&s&Hput&->&Ho&Hv); [apply lookup_insert_eq|apply Hwf|].
  intros [= <- <-]. rewrite (Hacc _ _ _ _ Hput) in Hv. apply set_ring_wf; try done.
  intros sep' node. rewrite Hview, lookup_insert. case_decide; [by intros [= <-]; subst|].
  apply (pm_names _ Hwf path). unfold rings. by rewrite lookup_fmap, Hp.
Qed.

Lemma remove_partition_wf pm path sep st pm' :
  pm_wf pm → accepts (pm_store_ pm) → remove_partition pm path sep = Done (st, pm') → pm_wf pm'.
Proof.
  intros Hwf Hacc. unfold remove_partition.
  destruct (table pm !! path) as [p|] eqn:Hp; [|by intros [= <- <-]].
  assert (rings pm !! path = Some (ch_view (partitions_ p))) as Hring.
  { unfold rings. by rewrite lookup_fmap, Hp. }
  destruct (ch_view (partitions_ p) !! sep) as [node|] eqn:Hsep.
  - destruct (ch_remove_spec (partitions_ p) sep) as (r&->&Hview); [by eauto|]. simpl.
    set (pm1 := set_partition pm path _).
    destruct (write_partition_map_spec pm1 path (Build_Partition (wrap_uint64 (refcount_ p + 1)) r))
      as (st'&s&Hput&->&Ho&Hv); [apply lookup_insert_eq|apply Hwf|].
    simpl. intros [= <- <-]. rewrite (Hacc _ _ _ _ Hput) in Hv. apply set_ring_wf; try done.
    intros sep' node'. rewrite Hview, lookup_delete. case_decide; [done|].
    by apply (pm_names _ Hwf path).
  - destruct (ch_remove_absent (partitions_ p) sep Hsep) as (st'&->&Hok). rewrite Hok.
    intros [= <- <-]. apply set_ring_wf; [done|apply Hwf|by intros sep' node; apply (pm_names _ Hwf path _ _ _ Hring)|].
    rewrite insert_id; [done|]. by rewrite (pm_view _ Hwf), lookup_fmap, Hp.
Qed.

(** *** [init] *)

(** The serialised form depends on the ring as a map only. *)
Definition ring_string (m : gmap Z string) : string :=
  thrift_write ((λ e, {| hash_sep := e.1; partition := e.2 |}) <$> sorted_map Z.le m).
Lemma partition_map_to_string_view r : partition_map_to_string r = ring_string (ch_view r).
Proof. unfold partition_map_to_string, ring_string. by rewrite ch_entries_spec. Qed.

Lemma pm_view_rings pm : pm_wf pm → kv_view (pm_store_ pm) = ring_string <$> rings pm.
Proof.
  intros Hwf. rewrite (pm_view _ Hwf). unfold rings. rewrite <-map_fmap_compose.
  apply map_fmap_ext. intros path p _. apply partition_map_to_string_view.
Qed.

Lemma rings_wf pm pm' :
  pm_wf pm → kv_opened (pm_store_ pm') → kv_view (pm_store_ pm') = kv_view (pm_store_ pm) →
  rings pm' = rings pm → pm_wf pm'.
Proof.
  intros Hwf Ho Hv Hr. split; [done|..].
  - rewrite Hv, (pm_view_rings _ Hwf), <-Hr. unfold rings. rewrite <-map_fmap_compose.
    apply map_fmap_ext. intros path p _. symmetry. apply partition_map_to_string_view.
  - intros path m sep node. rewrite Hr. apply (pm_names _ Hwf).
Qed.

Lemma insert_all_view r (l : list (Z * string)) :
  NoDup l.*1 → (∀ k, k ∈ l.*1 → ch_view r !! k = None) →
  ch_view (foldl (λ pm p, (ch_insert pm (hash_sep p) (partition p)).2) r
             ((λ e, {| hash_sep := e.1; partition := e.2 |}) <$> l))
  = list_to_map l ∪ ch_view r.
Proof.
  revert r. induction l as [|[k v] l IH]; intros r Hnd Hnew; simpl.
  { by rewrite (left_id_L ∅ (∪)). }
  simpl in *. apply NoDup_cons in Hnd as [Hk Hnd].
  destruct (ch_insert_spec r k v) as (r'&->&Hview); [apply Hnew; left|]. simpl.
  rewrite IH, Hview; [|done|].
  - rewrite <-insert_union_l, insert_union_r; [done|]. by apply not_elem_of_list_to_map_1.
  - intros k' Hk'. rewrite Hview, lookup_insert_ne by (by intros ->).
    apply Hnew. by right.
Qed.

Lemma string_to_partition_map_spec m :
  ∃ r, string_to_partition_map (ring_string m) ch_new = (OK, r) ∧ ch_view r = m.
Proof.
  unfold string_to_partition_map, ring_string. rewrite thrift_read_write.
  eexists. split; [done|]. rewrite insert_all_view.
  - by rewrite ch_new_spec, (right_id_L ∅ (∪)), list_to_map_sorted_map.
  - apply NoDup_sorted_map_fst.
  - intros k _. by rewrite ch_new_spec, lookup_empty.
Qed.

Lemma load_partitions_spec pm (target : gmap string (gmap Z string)) (l : list (string * string)) :
  (∀ k v, (k, v) ∈ l → ∃ m, v = ring_string m ∧ target !! k = Some m) →
  ∃ t, load_partitions indeterminate pm l = (OK, Build_PartitionManager (pm_store_ pm) t) ∧
    ∀ k, rings (Build_PartitionManager (pm_store_ pm) t) !! k =
         if decide (k ∈ l.*1) then target !! k else rings pm !! k.
Proof.
  revert pm. induction l as [|[k v] l IH]; intros pm Hl; simpl.
  { exists (table pm). split; [by destruct pm|]. intros k. by destruct pm. }
  destruct (Hl k v) as (m&->&Hm); [left|].
  destruct (string_to_partition_map_spec m) as (r&->&Hr). simpl.
  destruct (IH (Build_PartitionManager (pm_store_ pm)
    (<[k:=Build_Partition indeterminate r]> (table pm)))) as (t&->&Ht).
  { intros k' v' ?. apply Hl. by right. }
  exists t. split; [done|]. intros q. simpl in Ht. rewrite Ht.
  unfold rings at 1. simpl. rewrite fmap_insert. simpl.
  destruct (decide (q = k)) as [->|Hne].
  - rewrite lookup_insert_eq, Hr, Hm, (decide_True (P := k ∈ k :: _)) by left.
    by case_decide.
  - rewrite lookup_insert_ne by done. destruct (decide (q ∈ l.*1)) as [Hin|Hout].
    + by rewrite decide_True by by right.
    + by rewrite decide_False by by intros [?|?]%elem_of_cons.
Qed.

Lemma partitions_init_recovers pm s :
  pm_wf pm → kv_view s = kv_view (pm_store_ pm) → ok (kv_open s).1 = true →
  ∃ pm', init indeterminate (new s) = Done (OK, pm') ∧ rings pm' = rings pm ∧ pm_wf pm'.
Proof.
  intros Hwf Hview Hopen. unfold init. simpl.
  destruct (kv_open_spec s Hopen) as [Ho Hv]. destruct (kv_open s) as [st s1].
  simpl in *. rewrite Hopen, kv_scan_spec, Hv, Hview by done. simpl.
  destruct (load_partitions_spec (Build_PartitionManager s1 ∅) (rings pm)
    (sorted_map String.le (kv_view (pm_store_ pm)))) as (t&->&Ht).
  { intros k v Hk%elem_of_sorted_map. rewrite (pm_view_rings _ Hwf), lookup_fmap in Hk.
    apply fmap_Some in Hk as (m&?&->). eauto. }
  assert (rings (Build_PartitionManager s1 t) = rings pm) as Hrings.
  { apply map_eq. intros k. rewrite Ht. case_decide as Hk; [done|].
    unfold rings at 1. simpl. rewrite lookup_fmap, lookup_empty. simpl.
    destruct (rings pm !! k) as [m|] eqn:Hm; [|done]. destruct Hk.
    apply list_elem_of_fmap. exists (k, ring_string m). split; [done|].
    apply elem_of_sorted_map. by rewrite (pm_view_rings _ Hwf), lookup_fmap, Hm. }
  eexists. split; [done|]. split; [done|]. apply (rings_wf pm); try done.
  simpl. by rewrite Hv.
Qed.

Lemma pm_step_wf pm pm' : pm_wf pm → pm_step pm pm' → pm_wf pm'.
Proof.
  destruct 2 as [pm path st pm' Ha Hc|pm path st pm' Hc|pm path sep st pm' Ha Hc
                |pm path sep st pm' Ha Hc|pm s st pm' Hv Ho Hc].
  - by eapply add_index_wf. - by eapply remove_index_wf. - by eapply add_partition_wf.
  - by eapply remove_partition_wf.
  - destruct (partitions_init_recovers pm s) as (pm2&Hi&_&?); [done..|]. congruence.
Qed.

Lemma pm_wf_empty s : kv_opened s → kv_view s = ∅ → pm_wf (new (R:=R) s).
Proof.
  intros Ho Hv. split; simpl; [done|by rewrite Hv, fmap_empty|].
  intros path m sep node. unfold rings; simpl. by rewrite lookup_fmap, lookup_empty.
Qed.
End invariant.

(** ** Properties *)

Section properties.
Context {S R : Type} `{!KeyValueStore S, !KeyValueStoreSpec S}.
Context `{!ConsistentHashMap R string, !ConsistentHashMapSpec R string}.
Context `{!ThriftCodec IndexConsistentHashRing, !ThriftCodecSpec IndexConsistentHashRing}.
Context (indeterminate : Z).

Lemma get_partition_path_rings (pm : PartitionManager S R) path h :
  get_partition_path pm path h =
  match rings pm !! path with
  | Some m => default "" (ring_owner m h)
  | None => ""
  end.
Proof.
  unfold get_partition_path, rings. rewrite lookup_fmap.
  destruct (partition_map_by_index_path_ pm !! path) as [p|]; [|done]. simpl.
  destruct (ring_owner (ch_view (partitions_ p)) h) as [v|] eqn:Hv.
  - by rewrite (ch_get_spec _ _ _ Hv).
  - destruct (ch_get_empty (partitions_ p) h) as (st&->&_); [|done].
    apply dec_stable. intros Hne. destruct (ring_owner_total _ h Hne). congruence.
Qed.

(** The partition table is a write-through cache.  After any run of calls
    during which the store takes the writes, a new server on the same store
    content has the same ring for every index, and routes every hash value
    of every index to the same partition. *)
Theorem partition_manager_recovery (s0 s : S) (pm : PartitionManager S R) :
  kv_opened s0 → kv_view s0 = ∅ → rtc (pm_step indeterminate) (new s0) pm →
  kv_view s = kv_view (pm_store_ pm) → ok (kv_open s).1 = true →
  ∃ pm', init indeterminate (new s) = Done (OK, pm') ∧ rings pm' = rings pm ∧
    ∀ path h, get_partition_path pm' path h = get_partition_path pm path h.
Proof.
  intros Ho Hv0 Hr Hv Hopen.
  assert (pm_wf pm) as Hwf.
  { eapply rtc_invariant; [apply pm_step_wf|by apply pm_wf_empty|done]. }
  destruct (partitions_init_recovers indeterminate pm s Hwf Hv Hopen) as (pm'&?&Hrings&_).
  exists pm'. split_and!; try done. intros. by rewrite !get_partition_path_rings, Hrings.
Qed.

(** A hash value is routed to the partition whose separator precedes it.
    In every reachable state, for an index with at least one partition,
    [get_partition_path] returns [<index>.<sep>] for a separator of the
    index: the greatest one not above the hash value, or the greatest of all
    when the value is below every separator. *)
Theorem partition_routing (s0 : S) (pm : PartitionManager S R) path m h :
  kv_opened s0 → kv_view s0 = ∅ → rtc (pm_step indeterminate) (new s0) pm →
  rings pm !! path = Some m → m ≠ ∅ →
  ∃ sep, get_partition_path pm path h = node_name path sep ∧ is_Some (m !! sep) ∧
    ∀ sep', is_Some (m !! sep') →
      if decide (sep ≤ h)%Z then (sep' ≤ h → sep' ≤ sep)%Z else (h < sep' ≤ sep)%Z.
Proof.
  intros Ho Hv0 Hr Hm Hne.
  assert (pm_wf pm) as Hwf.
  { eapply rtc_invariant; [apply pm_step_wf|by apply pm_wf_empty|done]. }
  rewrite get_partition_path_rings, Hm.
  destruct (ring_owner_spec m h Hne) as (sep&node&Hown&Hsep&Hbest).
  exists sep. rewrite Hown. simpl. split_and!; [|by eauto|done].
  by apply (pm_names _ Hwf path m).
Qed.

(** [remove_partition] reports success when the write is refused.  The
    partition is gone from memory and the call returns [OK], but the store
    still holds the ring of before, so a restart brings the partition back;
    the reference count of the ring stays one too high. *)
Theorem remove_partition_hides_write_failure (pm : PartitionManager S R) path p sep :
  kv_opened (pm_store_ pm) →
  partition_map_by_index_path_ pm !! path = Some p → is_Some (ch_view (partitions_ p) !! sep) →
  (∀ v st s, kv_put (pm_store_ pm) path v = Done (st, s) → ok st = false) →
  ∃ pm' p', remove_partition pm path sep = Done (OK, pm') ∧
    partition_map_by_index_path_ pm' !! path = Some p' ∧
    ch_view (partitions_ p') = delete sep (ch_view (partitions_ p)) ∧
    kv_view (pm_store_ pm') = kv_view (pm_store_ pm) ∧
    refcount_ p' = wrap_uint64 (refcount_ p + 1).
Proof.
  intros Ho Hp Hsep Hfull. unfold remove_partition. rewrite Hp.
  destruct (ch_remove_spec (partitions_ p) sep Hsep) as (r&->&Hview). simpl.
  set (p' := Build_Partition (wrap_uint64 (refcount_ p + 1)) r).
  destruct (write_partition_map_spec (set_partition pm path p') path p')
    as (st&s&Hput&->&_&Hv); [apply lookup_insert_eq|done|].
  rewrite (Hfull _ _ _ Hput) in Hv. simpl. do 2 eexists. split; [done|].
  simpl. split; [apply lookup_insert_eq|done].
Qed.
End properties.

(** ** Concrete runs *)

Section witnesses.
Import Reference.
#[local] Existing Instances TestLevelDBStore.test_store TestLevelDBStore.test_store_spec.
#[local] Existing Instances FullStore.full_store FullStore.full_store_spec.
#[local] Instance ring_codec : ThriftCodec IndexConsistentHashRing := codec (list IndexPartition).
#[local] Instance ring_codec_spec : ThriftCodecSpec IndexConsistentHashRing :=
  codec_spec (list IndexPartition).

Abbreviation demo_state := (PartitionManager (gmap string string) (gmap Z string)).
Definition demo_result (pm : demo_state) (r : run (Status * demo_state)) : demo_state :=
  match r with Done (_, pm') => pm' | Fatal _ => pm end.
Definition demo0 : demo_state := new ∅.
Definition demo1 := demo_result demo0 (add_index 0 demo0 "/a").
Definition demo2 := demo_result demo1 (add_partition demo1 "/a" 100).

Lemma demo_accepts (s : gmap string string) : accepts s.
Proof. by intros k v st s' [= <- <-]. Qed.

Lemma partition_steps : rtc (pm_step 0) demo0 demo2.
Proof.
  eapply rtc_l;
    [apply (step_add_index 0 demo0 "/a" OK demo1); [apply demo_accepts|vm_compute; reflexivity]|].
  eapply rtc_l;
    [apply (step_add_partition 0 demo1 "/a" 100 OK demo2); [apply demo_accepts|vm_compute; reflexivity]|].
  apply rtc_refl.
Qed.

Lemma partition_manager_recovery_witness :
  ∃ pm' : demo_state, init 0 (new (pm_store_ demo2)) = Done (OK, pm') ∧ rings pm' = rings demo2 ∧
    ∀ path h, get_partition_path pm' path h = get_partition_path demo2 path h.
Proof.
  apply (partition_manager_recovery 0 (∅ : gmap string string) (pm_store_ demo2) demo2);
    [done|done|exact partition_steps|done|done].
Defined.

Lemma partition_routing_witness : ∃ sep, get_partition_path demo2 "/a" 150 = node_name "/a" sep.
Proof.
  destruct (partition_routing 0 (∅ : gmap string string) demo2 "/a"
    {[0 := "/a.0"; 100 := "/a.100"]}%Z 150) as (sep&H&_);
    [done|done|exact partition_steps|vm_compute; reflexivity|done|].
  exists sep. exact H.
Defined.

Definition full_demo : PartitionManager FullStore.store (gmap Z string) :=
  Build_PartitionManager (FullStore.Full ∅) {["/a" := Build_Partition 0 {[0%Z := "/a.0"]}]}.

Lemma remove_partition_hides_write_failure_witness :
  ∃ pm' p', remove_partition full_demo "/a" 0 = Done (OK, pm') ∧
    partition_map_by_index_path_ pm' !! "/a" = Some p' ∧ partitions_ p' = ∅ ∧
    refcount_ p' = 1%Z.
Proof.
  destruct (remove_partition_hides_write_failure full_demo "/a"
    (Build_Partition 0 {[0%Z := "/a.0"]}) 0) as (pm'&p'&H1&H2&H3&_&H4);
    [done|vm_compute; reflexivity|by eexists|by intros v st s [= <- <-]|].
  exists pm', p'. split_and!; [exact H1|exact H2| |exact H4].
  etrans; [exact H3|]. by vm_compute.
Defined.
End witnesses.
