(* ===== verification/ServerMap.v ===== *)
(** * The map of the servers (common/server_map.cpp)

    The consistent hash ring of the master servers, and the one of the index
    servers: the primary master keeps both, the clients keep copies and route
    every request with them. *)

From S2P Require Import Prelude CxxString Platform PathUtil.

Record RpcNodeAddress := { host : string; port : Z }.
Record NodeInfo := {
  address : RpcNodeAddress;
  server_id : string;
  node_type : Z;
  node_status : Z;
  avail_mb : Z;
}.

(** A default-constructed [NodeInfo]. *)
Definition node_of (a : RpcNodeAddress) : NodeInfo :=
  {| address := a; server_id := ""; node_type := 0; node_status := 0; avail_mb := 0 |}.
Definition no_node : NodeInfo := node_of {| host := ""; port := 0 |}.

Section server_map.
Context {R : Type} `{ConsistentHashMap R NodeInfo, MD5}.

(** [ring_] is the only state. *)
Abbreviation ServerMap := R.

Definition empty (sm : ServerMap) : bool := bool_decide (ch_num_nodes sm = 0).

(** The position in the middle of the widest range, in [int64_t] arithmetic:
    every operation may overflow. *)
Definition middle (lower upper : Z) : run Z :=
  if bool_decide (lower < upper)%Z then
    sum ← int64_ret (lower + upper); Done (Z.quot sum 2)
  else if bool_decide (lower = upper) then
    int64_ret (lower + Z.quot int64_max 2)
  else
    a ← int64_ret (Z.quot int64_max 2 - Z.quot lower 2);
    b ← int64_ret (a + Z.quot upper 2);
    int64_ret (b + lower).

(** [r1] and [r2] are the values of the two calls of [rand()]. *)
Definition add (sm : ServerMap) (node : NodeInfo) (r1 r2 : Z) : run (Status * ServerMap) :=
  if empty sm then
    pos ← int64_ret (r1 * r2); Done (ch_insert sm pos node)
  else
    match ch_get_max_range sm with
    | (status, range) =>
        if ok status then
          match range with
          | Some (lower, upper) => pos ← middle lower upper; Done (ch_insert sm pos node)
          | None => pos ← middle 0 0; Done (ch_insert sm pos node)
          end
        else Done (status, sm)
    end.

Definition add_at (sm : ServerMap) (pos : Z) (node : NodeInfo) : Status * ServerMap :=
  if ch_has_key sm pos then (Err (- EEXIST) "This position is already used.", sm)
  else ch_insert sm pos node.

Definition remove (sm : ServerMap) (pos : Z) : Status * ServerMap :=
  if ch_has_key sm pos then ch_remove sm pos
  else (Err (- ENOENT) "This position does not exsit.", sm).

Definition get (sm : ServerMap) (path_hash : Z) : Status * option NodeInfo :=
  let '(status, node) := ch_get sm path_hash in
  if ok status then (OK, node) else (Err (- ENOENT) "Can't find any Server.", None).

Definition get_path (sm : ServerMap) (path : string) : Status * option NodeInfo :=
  get sm (path_to_hash path).

(** A failed [succ_by_value] leaves [succ_node] as it was. *)
Fixpoint replica_loop (sm : ServerMap) (n : nat) (cur_node succ_node : NodeInfo) : list NodeInfo :=
  match n with
  | 0 => []
  | S n' =>
      let succ_node := default succ_node (ch_succ_by_value sm cur_node) in
      succ_node :: replica_loop sm n' succ_node succ_node
  end.

(** [num_nodes() - 1] is computed in [size_t]. *)
Definition get_replica_servers (sm : ServerMap) (node : NodeInfo) (num_replicas : nat)
    : list NodeInfo :=
  let others := wrap_uint64 (Z.of_nat (ch_num_nodes sm) - 1) in
  replica_loop sm (Z.to_nat (Z.min (Z.of_nat num_replicas) others)) node no_node.

Definition num_nodes (sm : ServerMap) : nat := ch_num_nodes sm.

Definition get_partitions (sm : ServerMap) : list Z :=
  if empty sm then [] else ch_get_partitions sm.

Definition get_ch_ring_as_map (sm : ServerMap) : gmap Z NodeInfo :=
  foldl (λ m p, <[p.1:=p.2]> m) ∅ (take (ch_num_nodes sm) (ch_entries sm)).
End server_map.

(** ** Lemmas *)

Section lemmas.
Context {R : Type} `{!ConsistentHashMap R NodeInfo, !ConsistentHashMapSpec R NodeInfo, !MD5}.

Lemma get_spec (sm : R) h :
  get sm h = match ring_owner (ch_view sm) h with
             | Some node => (OK, Some node)
             | None => (Err (- ENOENT) "Can't find any Server.", None)
             end.
Proof.
  unfold get. destruct (ring_owner (ch_view sm) h) as [v|] eqn:Hv.
  - by rewrite (ch_get_spec _ _ _ Hv).
  - destruct (ch_get_empty sm h) as (st&->&Hst); [|by rewrite Hst].
    apply dec_stable. intros Hne. destruct (ring_owner_total _ h Hne). congruence.
Qed.

Lemma get_ch_ring_as_map_spec (sm : R) : get_ch_ring_as_map sm = ch_view sm.
Proof.
  unfold get_ch_ring_as_map. rewrite ch_entries_spec, ch_num_nodes_spec.
  rewrite take_ge by by rewrite (length_sorted_map Z.le).
  rewrite foldl_insert by apply NoDup_sorted_map_fst.
  by rewrite (right_id_L ∅ (∪)), list_to_map_sorted_map.
Qed.

Lemma add_at_spec (sm : R) pos node :
  if decide (is_Some (ch_view sm !! pos))
  then add_at sm pos node = (Err (- EEXIST) "This position is already used.", sm)
  else ∃ sm', add_at sm pos node = (OK, sm') ∧ ch_view sm' = <[pos:=node]> (ch_view sm).
Proof.
  unfold add_at. rewrite ch_has_key_spec. case_decide as Hk.
  - by rewrite bool_decide_eq_true_2.
  - rewrite bool_decide_eq_false_2 by done. apply ch_insert_spec. by apply eq_None_not_Some.
Qed.
End lemmas.

(** ** Properties *)

Section properties.
Context {R : Type} `{!ConsistentHashMap R NodeInfo, !ConsistentHashMapSpec R NodeInfo, !MD5}.

(** A path belongs to exactly one server of a non-empty ring: the lookup
    returns the server at the greatest position not above the hash of the
    path, or the last one when the hash is below every position; an empty
    ring reports [ENOENT]. *)
Theorem server_map_routing (sm : R) (path : string) :
  if decide (ch_view sm = ∅) then get_path sm path = (Err (- ENOENT) "Can't find any Server.", None)
  else ∃ pos node, get_path sm path = (OK, Some node) ∧ ch_view sm !! pos = Some node ∧
    ∀ pos', is_Some (ch_view sm !! pos') →
      if decide (pos ≤ path_to_hash path)%Z then (pos' ≤ path_to_hash path → pos' ≤ pos)%Z
      else (path_to_hash path < pos' ≤ pos)%Z.
Proof.
  unfold get_path. rewrite get_spec. case_decide as Hv.
  - by rewrite Hv.
  - destruct (ring_owner_spec (ch_view sm) (path_to_hash path) Hv) as (k&v&->&?&?). eauto 10.
Qed.

(** C40: the position chosen for a joining server.  For non-negative ends of
    the widest range, the middle is computed without overflow and lies
    inside the range: between the ends, half of the ring beyond the only
    server, or beyond the lower end of a range that crosses zero, provided
    the sum of the two ends fits in an [int64_t]. *)
Theorem join_position_in_range (lower upper : Z) :
  (0 ≤ lower)%Z → (0 ≤ upper)%Z → (lower + upper ≤ int64_max)%Z →
  ∃ pos, middle lower upper = Done pos ∧
    (lower < upper → lower ≤ pos < upper)%Z ∧
    (lower = upper → pos = lower + 2 ^ 62 - 1)%Z ∧
    (upper < lower → lower ≤ pos ≤ int64_max)%Z.
Proof.
  intros Hl Hu Hsum. unfold middle, int64_ret.
  rewrite !Z.quot_div_nonneg by (unfold int64_max; lia).
  assert (∀ z, (int64_min ≤ z ≤ int64_max)%Z → in_int64 z = true) as Hin.
  { intros z Hz. unfold in_int64. by apply bool_decide_eq_true_2. }
  unfold int64_min, int64_max in *.
  pose proof (Z.div_mod lower 2). pose proof (Z.mod_pos_bound lower 2).
  pose proof (Z.div_mod upper 2). pose proof (Z.mod_pos_bound upper 2).
  pose proof (Z.div_mod (lower + upper) 2). pose proof (Z.mod_pos_bound (lower + upper) 2).
  change ((2 ^ 63 - 1) / 2)%Z with (2 ^ 62 - 1)%Z.
  case_bool_decide; [|case_bool_decide].
  - rewrite Hin by lia. simpl. rewrite Z.quot_div_nonneg by lia. eexists. split; [done|]. lia.
  - rewrite Hin by lia. eexists. split; [done|]. lia.
  - rewrite Hin by lia. simpl. rewrite Hin by lia. simpl. rewrite Hin by lia.
    eexists. split; [done|]. lia.
Qed.

(** Beyond that the midpoint overflows.  Both for a range inside the upper
    half of the positions and for one that crosses zero, the sums of the
    code exceed [int64_t], so the behaviour is undefined. *)
Theorem join_position_overflows :
  middle (2 ^ 62) (2 ^ 62 + 2) = Fatal "signed overflow" ∧
  middle (2 ^ 63 - 1) (2 ^ 62) = Fatal "signed overflow".
Proof. by vm_compute. Qed.
End properties.

Lemma join_position_in_range_witness :
  ∃ pos, middle 10 4 = Done pos ∧ (10 ≤ pos ≤ int64_max)%Z.
Proof.
  destruct (join_position_in_range 10 4) as (pos&H&_&_&Hp); [done|done|done|].
  exists pos. split; [exact H|]. by apply Hp.
Defined.

Section witnesses.
Import Reference.

Lemma server_map_routing_witness :
  let sm : gmap Z NodeInfo := {[10%Z := node_of {| host := "a"; port := 1 |};
                                20%Z := node_of {| host := "b"; port := 2 |}]} in
  ∃ pos node, get_path sm "/a" = (OK, Some node) ∧ ch_view sm !! pos = Some node ∧
    ∀ pos', is_Some (ch_view sm !! pos') →
      if decide (pos ≤ path_to_hash "/a")%Z then (pos' ≤ path_to_hash "/a" → pos' ≤ pos)%Z
      else (path_to_hash "/a" < pos' ≤ pos)%Z.
Proof. intros sm. exact (server_map_routing sm "/a"). Defined.
End witnesses.
