(* ===== verification/MasterController.v ===== *)
(** * The master server (masterd/master_controller.cpp, masterd/master_server.cpp)

    [MasterController] composes the file namespace, the index namespace, the
    partition manager and, on the primary node, the maps of the servers.
    [MasterServer] is the RPC front end: it turns a failed status into an
    exception.  Threads and the network loop are not modelled: the handlers
    run one after another. *)

From S2P Require Import Prelude CxxString Platform PathUtil ThriftUtils IndexManager KVStore.
From S2P Require Import ServerMap PartitionManager IndexNamespace Namespace.

Record MasterController (S P R : Type) := {
  mc_is_primary : bool;
  namespace_ : Namespace S;
  index_namespace_ : IndexNamespace S;
  index_partition_manager_ : PartitionManager S P;
  (** null on a secondary node *)
  master_server_manager_ : option R;
  index_server_manager_ : option R;
}.
Arguments mc_is_primary {S P R}. Arguments namespace_ {S P R}.
Arguments index_namespace_ {S P R}. Arguments index_partition_manager_ {S P R}.
Arguments master_server_manager_ {S P R}. Arguments index_server_manager_ {S P R}.

Section master_controller.
Context {S P R : Type} `{KeyValueStore S, ConsistentHashMap P string, ConsistentHashMap R NodeInfo}.
Context `{VoblaStatus, MD5, BoostFilesystem}.
Context `{ThriftCodec FileMetadata, ThriftCodec IndexNamespaceNode, ThriftCodec IndexConsistentHashRing}.
(** The content of an uninitialised [refcount_]. *)
Context (indeterminate : Z).

Abbreviation state := (MasterController S P R).
Implicit Types mc : state.

Definition set_namespace mc (ns : Namespace S) : state :=
  {| mc_is_primary := mc_is_primary mc; namespace_ := ns; index_namespace_ := index_namespace_ mc;
     index_partition_manager_ := index_partition_manager_ mc;
     master_server_manager_ := master_server_manager_ mc;
     index_server_manager_ := index_server_manager_ mc |}.
Definition set_index_namespace mc (ins : IndexNamespace S) : state :=
  {| mc_is_primary := mc_is_primary mc; namespace_ := namespace_ mc; index_namespace_ := ins;
     index_partition_manager_ := index_partition_manager_ mc;
     master_server_manager_ := master_server_manager_ mc;
     index_server_manager_ := index_server_manager_ mc |}.
Definition set_partition_manager mc (pm : PartitionManager S P) : state :=
  {| mc_is_primary := mc_is_primary mc; namespace_ := namespace_ mc;
     index_namespace_ := index_namespace_ mc; index_partition_manager_ := pm;
     master_server_manager_ := master_server_manager_ mc;
     index_server_manager_ := index_server_manager_ mc |}.
Definition set_masters mc (sm : R) : state :=
  {| mc_is_primary := mc_is_primary mc; namespace_ := namespace_ mc;
     index_namespace_ := index_namespace_ mc;
     index_partition_manager_ := index_partition_manager_ mc;
     master_server_manager_ := Some sm; index_server_manager_ := index_server_manager_ mc |}.
Definition set_index_servers mc (sm : R) : state :=
  {| mc_is_primary := mc_is_primary mc; namespace_ := namespace_ mc;
     index_namespace_ := index_namespace_ mc;
     index_partition_manager_ := index_partition_manager_ mc;
     master_server_manager_ := master_server_manager_ mc; index_server_manager_ := Some sm |}.

(** The constructor; [self] is the address of this node, [garbage] the
    uninitialised object id counter, [r1] and [r2] the values of [rand()]. *)
Definition new_controller (primary : bool) (self : NodeInfo) (ns_db in_db pm_db : S)
    (garbage r1 r2 : Z) : run state :=
  masters ← (if primary then '(_, sm) ← ServerMap.add ch_new self r1 r2; Done (Some sm)
             else Done None);
  Done {| mc_is_primary := primary;
          namespace_ := Namespace.new ns_db garbage;
          index_namespace_ := IndexNamespace.new in_db;
          index_partition_manager_ := PartitionManager.new pm_db;
          master_server_manager_ := masters;
          index_server_manager_ := if primary then Some ch_new else None |}.

Definition init mc : run (Status * state) :=
  '(status, ins) ← IndexNamespace.init (index_namespace_ mc);
  let mc := set_index_namespace mc ins in
  if negb (ok status) then Done (status, mc) else
  '(status, pm) ← PartitionManager.init indeterminate (index_partition_manager_ mc);
  let mc := set_partition_manager mc pm in
  if negb (ok status) then Done (status, mc) else
  '(status, ns) ← Namespace.init (namespace_ mc);
  Done (status, set_namespace mc ns).

(** *** Membership *)

(** [manager->...] on a secondary node dereferences a null pointer. *)
Definition deref (sm : option R) : run R :=
  match sm with Some sm => Done sm | None => Fatal "null ServerMap" end.

Definition join_master_server mc (node : NodeInfo) (r1 r2 : Z) : run (Status * state) :=
  if mc_is_primary mc then
    sm ← deref (master_server_manager_ mc);
    '(status, sm) ← ServerMap.add sm node r1 r2;
    Done (status, set_masters mc sm)
  else Done (Err (-1) "Attempt to join a non-primary master node.", mc).

Definition kNumReplicaServers : nat := 2.

Definition join_index_server mc (node : NodeInfo) (r1 r2 : Z)
    : run (Status * list RpcNodeAddress * state) :=
  sm ← deref (index_server_manager_ mc);
  '(status, sm) ← ServerMap.add sm node r1 r2;
  let mc := set_index_servers mc sm in
  if ok status then
    Done (status, address <$> get_replica_servers sm node kNumReplicaServers, mc)
  else Done (status, [], mc).

Definition ring_addresses (sm : R) : gmap Z RpcNodeAddress :=
  address <$> get_ch_ring_as_map sm.

Definition get_all_masters mc : run (Status * gmap Z RpcNodeAddress) :=
  if mc_is_primary mc then
    sm ← deref (master_server_manager_ mc); Done (OK, ring_addresses sm)
  else Done (Err (-1) "This is not the primary node.", ∅).

Definition get_all_index_servers mc : run (Status * gmap Z RpcNodeAddress) :=
  if mc_is_primary mc then
    sm ← deref (index_server_manager_ mc); Done (OK, ring_addresses sm)
  else Done (Err (-1) "This is not the primary node.", ∅).

(** *** Files and directories *)

Definition is_valid_path (path : string) : bool := fs_is_absolute path.
Definition not_absolute : Status := Err (-1) "The path must be absolute path.".

(** The result of a call on [namespace_]. *)
Definition on_namespace mc (r : run (Status * Namespace S)) : run (Status * state) :=
  '(status, ns) ← r; Done (status, set_namespace mc ns).

Definition mkdir mc (path : string) (mode uid gid : Z) (now : double) : run (Status * state) :=
  if is_valid_path path then
    on_namespace mc (Namespace.mkdir (namespace_ mc) path mode uid gid now)
  else Done (not_absolute, mc).

Definition rmdir mc (path : string) : run (Status * state) :=
  on_namespace mc (Namespace.rmdir (namespace_ mc) path).

Definition add_subfile mc (parent subfile : string) : run (Status * state) :=
  if is_valid_path parent then
    on_namespace mc (Namespace.add_subfile (namespace_ mc) parent subfile)
  else Done (not_absolute, mc).

Definition remove_subfile mc (parent subfile : string) : run (Status * state) :=
  on_namespace mc (Namespace.remove_subfile (namespace_ mc) parent subfile).

Definition readdir mc (path : string) : Status * list string :=
  if is_valid_path path then Namespace.readdir (namespace_ mc) path else (not_absolute, []).

Definition create mc (path : string) (mode uid gid : Z) (now : double) : run (Status * Z * state) :=
  if is_valid_path path then
    '(status, oid, ns) ← Namespace.create (namespace_ mc) path mode uid gid now;
    Done (status, oid, set_namespace mc ns)
  else Done (not_absolute, 0%Z, mc).

Definition remove mc (path : string) : run (Status * option Z * state) :=
  '(status, oid, ns) ← Namespace.remove (namespace_ mc) path;
  Done (status, oid, set_namespace mc ns).

Definition object_id mc (path : string) : Status * option Z :=
  Namespace.object_id (namespace_ mc) path.
Definition getattr mc (path : string) : Status * option RpcFileInfo :=
  Namespace.getattr (namespace_ mc) path.
Definition setattr mc (path : string) (info : RpcFileInfo) : run (Status * state) :=
  on_namespace mc (Namespace.setattr (namespace_ mc) path info).
Definition find_objects mc (files : list string) : list Z :=
  Namespace.find_objects (namespace_ mc) files.
Definition find_files mc (objects : list Z) : Status * list string :=
  Namespace.find_files (namespace_ mc) objects.

(** *** Indices *)

Definition create_index mc (request : RpcIndexCreateRequest) (now : double)
    : run (Status * state) :=
  '(status, ins) ← IndexNamespace.insert (index_namespace_ mc) (cr_root request) (cr_name request);
  let mc := set_index_namespace mc ins in
  if negb (ok status) then Done (status, mc) else
  let full_path := index_path (cr_root request) (cr_name request) in
  '(status, ns) ← Namespace.mkdir (namespace_ mc) full_path (wrap_uint32 (cr_mode request))
                    (wrap_uint32 (cr_uid request)) (wrap_uint32 (cr_gid request)) now;
  let mc := set_namespace mc ns in
  if ok status then Done (status, mc)
  else
    '(_, ins) ← IndexNamespace.remove_name (index_namespace_ mc) (cr_root request) (cr_name request);
    Done (status, set_index_namespace mc ins).

Definition remove_index mc (root name : string) : run (Status * state) :=
  '(status, ins) ← IndexNamespace.remove_name (index_namespace_ mc) root name;
  let mc := set_index_namespace mc ins in
  '(_, pm) ← PartitionManager.remove_index (index_partition_manager_ mc) (index_path root name);
  Done (status, set_partition_manager mc pm).

Definition locate_indices_for_names mc (root : string) (names : list string)
    : Status * list string :=
  (OK, name ← names;
       (λ idx_root, fs_append (fs_append idx_root ".vsfs") name)
         <$> IndexNamespace.collect (index_namespace_ mc) root name).

Definition locate_indices mc (root : string) (recursive : bool) : list string :=
  IndexNamespace.get_indices (index_namespace_ mc) root recursive.

(** *** [MasterServer]: the RPC handlers

    [int64_t] arguments are narrowed to [int], [mode_t], [uid_t] and [gid_t]. *)

Definition rpc_join_index_server mc (info : NodeInfo) (r1 r2 : Z)
    : run (rpc (list RpcNodeAddress) * state) :=
  '(status, replicas, mc) ← join_index_server mc info r1 r2;
  Done (check_status status replicas, mc).
Definition rpc_join_master_server mc (info : NodeInfo) (r1 r2 : Z) : run (rpc () * state) :=
  '(status, mc) ← join_master_server mc info r1 r2; Done (check_status status (), mc).
Definition rpc_get_all_masters mc : run (rpc (gmap Z RpcNodeAddress)) :=
  '(status, ring) ← get_all_masters mc; Done (check_status status ring).
Definition rpc_get_all_index_servers mc : run (rpc (gmap Z RpcNodeAddress)) :=
  '(status, ring) ← get_all_index_servers mc; Done (check_status status ring).

(** A handler of a call that returns only a status. *)
Definition rpc_void (r : run (Status * state)) : run (rpc () * state) :=
  '(status, mc) ← r; Done (check_status status (), mc).

Definition rpc_mkdir mc (path : string) (info : RpcFileInfo) (now : double) :=
  rpc_void (mkdir mc path (wrap_uint32 (default 0%Z (fi_mode info)))
    (wrap_uint32 (default 0%Z (fi_uid info))) (wrap_uint32 (default 0%Z (fi_gid info))) now).
Definition rpc_rmdir mc (path : string) := rpc_void (rmdir mc path).
Definition rpc_add_subfile mc (parent subfile : string) := rpc_void (add_subfile mc parent subfile).
Definition rpc_remove_subfile mc (parent subfile : string) :=
  rpc_void (remove_subfile mc parent subfile).
Definition rpc_readdir mc (path : string) : rpc (list string) :=
  let '(status, subfiles) := readdir mc path in check_status status subfiles.
Definition rpc_create mc (path : string) (mode uid gid : Z) (now : double) : run (rpc Z * state) :=
  '(status, oid, mc) ← create mc path (wrap_int32 mode) (wrap_uint32 uid) (wrap_uint32 gid) now;
  Done (check_status status oid, mc).
Definition rpc_remove mc (path : string) : run (rpc Z * state) :=
  '(status, oid, mc) ← remove mc path; Done (check_status status (default 0%Z oid), mc).
Definition rpc_object_id mc (path : string) : rpc Z :=
  let '(status, oid) := object_id mc path in check_status status (default 0%Z oid).
Definition no_info : RpcFileInfo :=
  {| fi_object_id := None; fi_uid := None; fi_gid := None; fi_mode := None;
     fi_size := None; fi_ctime := None; fi_mtime := None; fi_atime := None |}.
Definition rpc_getattr mc (path : string) : rpc RpcFileInfo :=
  let '(status, info) := getattr mc path in check_status status (default no_info info).
Definition rpc_setattr mc (path : string) (info : RpcFileInfo) := rpc_void (setattr mc path info).
Definition rpc_find_objects mc (files : list string) : rpc (list Z) :=
  Return (find_objects mc files).
Definition rpc_find_files mc (objects : list Z) : rpc (list string) :=
  let '(status, files) := find_files mc objects in check_status status files.
Definition rpc_create_index mc (request : RpcIndexCreateRequest) (now : double) :=
  rpc_void (create_index mc request now).
Definition rpc_remove_index mc (root name : string) := rpc_void (remove_index mc root name).
Definition rpc_locate_indices_for_search mc (root : string) (names : list string)
    : rpc (list string) :=
  let '(status, results) := locate_indices_for_names mc root names in check_status status results.
Definition rpc_locate_indices mc (request : RpcIndexInfoRequest) : rpc (list string) :=
  Return (locate_indices mc (ir_path request) (ir_recursive request)).
End master_controller.

(** ** Properties *)

Section properties.
Context {S P R : Type} `{!KeyValueStore S, !KeyValueStoreSpec S}.
Context `{!ConsistentHashMap P string, !ConsistentHashMap R NodeInfo}.
Context `{!VoblaStatus, !MD5, !BoostFilesystem, !BoostFilesystemSpec}.
Context `{!ThriftCodec FileMetadata, !ThriftCodecSpec FileMetadata}.
Context `{!ThriftCodec IndexNamespaceNode, !ThriftCodecSpec IndexNamespaceNode}.
Context `{!ThriftCodec IndexConsistentHashRing}.

Abbreviation state := (MasterController S P R).

Lemma create_index_ok (mc mc' : state) request now st :
  create_index mc request now = Done (st, mc') → ok st = true →
  (∃ st' , ok st' = true ∧
     IndexNamespace.insert (index_namespace_ mc) (cr_root request) (cr_name request)
     = Done (st', index_namespace_ mc')) ∧
  Namespace.mkdir (namespace_ mc) (index_path (cr_root request) (cr_name request))
    (wrap_uint32 (cr_mode request)) (wrap_uint32 (cr_uid request))
    (wrap_uint32 (cr_gid request)) now = Done (st, namespace_ mc').
Proof.
  unfold create_index. intros Hc Hok.
  destruct (IndexNamespace.insert _ _ _) as [[st1 ins]|] eqn:Hins; [|done]. simpl in Hc.
  destruct (ok st1) eqn:Hok1; simpl in Hc; [|simplify_eq; congruence].
  destruct (Namespace.mkdir _ _ _ _ _ _) as [[st2 ns]|] eqn:Hmk; [|done]. simpl in Hc.
  destruct (ok st2) eqn:Hok2; [by simplify_eq; eauto|].
  destruct (IndexNamespace.remove_name _ _ _) as [[st3 ins']|]; simpl in Hc;
    [simplify_eq; congruence|done].
Qed.

(** An index that was created is found.  After a successful
    [create_index], [locate_indices_for_search] returns the path of the index
    for its name and every search root that is a prefix of the root of the
    index, and the path is a directory of the namespace, which is what the
    clients check before they update an index. *)
Theorem created_index_is_located (mc mc' : state) request now st root :
  index_root (cr_root request) → mkdir_mode (wrap_uint32 (cr_mode request)) →
  create_index mc request now = Done (st, mc') → ok st = true →
  starts_with root (cr_root request) = true →
  let path := index_path (cr_root request) (cr_name request) in
  path ∈ (locate_indices_for_names mc' root [cr_name request]).2 ∧
  ∃ m, metadata_map_ (namespace_ mc') !! path = Some m ∧ is_dir m = true.
Proof.
  intros Hroot Hmode Hc Hok Hpre path.
  destruct (create_index_ok _ _ _ _ _ Hc Hok) as [(st'&Hok'&Hins) Hmk]. split.
  - unfold locate_indices_for_names; simpl. rewrite app_nil_r.
    apply list_elem_of_fmap. exists (cr_root request). split; [done|].
    apply elem_of_collect. split; [done|].
    eapply insert_ok_names; [exact Hins|done|]. apply cleanup_path_id.
    destruct Hroot as [?|[(?&?&_) _]]; auto.
  - apply Namespace.mkdir_ok_exists in Hmk; [|done]. eexists. split; [exact Hmk|].
    unfold is_dir. by apply S_ISDIR_mkdir.
Qed.


(** An index cannot be created again after it was removed.  [remove_index]
    takes the index out of the index namespace and the partition table but
    leaves its directory in the file namespace, so every later
    [create_index] with the same root and name fails. *)
Theorem removed_index_cannot_be_recreated (mc mc1 mc2 mc3 : state) request request' now now' st st2 st3 :
  create_index mc request now = Done (st, mc1) → ok st = true →
  remove_index mc1 (cr_root request) (cr_name request) = Done (st2, mc2) →
  cr_root request' = cr_root request → cr_name request' = cr_name request →
  create_index mc2 request' now' = Done (st3, mc3) →
  ok st3 = false.
Proof.
  intros Hc Hok Hrm Hr Hn Hc3. apply not_true_is_false. intros Hok3.
  destruct (create_index_ok _ _ _ _ _ Hc Hok) as [_ Hmk].
  apply Namespace.mkdir_ok_exists in Hmk; [|done].
  assert (namespace_ mc2 = namespace_ mc1) as Hns.
  { unfold remove_index in Hrm.
    destruct (IndexNamespace.remove_name _ _ _) as [[??]|]; [|done]. simpl in Hrm.
    destruct (PartitionManager.remove_index _ _) as [[??]|]; [|done]. by simplify_eq/=. }
  destruct (create_index_ok _ _ _ _ _ Hc3 Hok3) as [_ Hmk3].
  unfold Namespace.mkdir in Hmk3. rewrite Hns, Hr, Hn, Hmk in Hmk3. by simplify_eq/=.
Qed.
End properties.

(** ** A concrete master *)

Section witnesses.
Import Reference.
#[local] Existing Instances TestLevelDBStore.test_store TestLevelDBStore.test_store_spec.
#[local] Instance metadata_codec : ThriftCodec FileMetadata := codec FileMetadata.
#[local] Instance metadata_codec_spec : ThriftCodecSpec FileMetadata := codec_spec FileMetadata.
#[local] Instance node_codec : ThriftCodec IndexNamespaceNode := codec IndexNamespaceNode.
#[local] Instance node_codec_spec : ThriftCodecSpec IndexNamespaceNode :=
  codec_spec IndexNamespaceNode.
#[local] Instance ring_codec : ThriftCodec IndexConsistentHashRing := codec (list IndexPartition).

Abbreviation demo_state :=
  (MasterController (gmap string string) (gmap Z string) (gmap Z NodeInfo)).
Definition demo_result (mc : demo_state) (r : run (Status * demo_state)) : demo_state :=
  match r with Done (_, mc') => mc' | Fatal _ => mc end.

Definition demo0 : demo_state :=
  {| mc_is_primary := true; namespace_ := Namespace.new ∅ 0;
     index_namespace_ := IndexNamespace.new ∅;
     index_partition_manager_ := PartitionManager.new ∅;
     master_server_manager_ := Some ∅; index_server_manager_ := Some ∅ |}.
Definition demo_request : RpcIndexCreateRequest :=
  {| cr_root := "/foo"; cr_name := "energy"; cr_index_type := 1; cr_key_type := 1;
     cr_mode := 493; cr_uid := 0; cr_gid := 0 |}.
Definition demo1 := demo_result demo0 (create_index demo0 demo_request noon).
Definition demo2 := demo_result demo1 (remove_index demo1 "/foo" "energy").
Definition demo3 := demo_result demo2 (create_index demo2 demo_request noon).

Lemma demo_create : create_index demo0 demo_request noon = Done (OK, demo1).
Proof. vm_compute. reflexivity. Qed.
Lemma demo_remove : remove_index demo1 "/foo" "energy" = Done (OK, demo2).
Proof. vm_compute. reflexivity. Qed.
Lemma demo_recreate :
  create_index demo2 demo_request noon = Done (Err (- EEXIST) (strerror EEXIST), demo3).
Proof. vm_compute. reflexivity. Qed.

Lemma created_index_is_located_witness :
  index_path "/foo" "energy" ∈ (locate_indices_for_names demo1 "/" ["energy"]).2.
Proof.
  destruct (created_index_is_located demo0 demo1 demo_request noon OK "/") as [Hin _];
    [right; by vm_compute|by left|exact demo_create|done|done|exact Hin].
Defined.

Lemma removed_index_cannot_be_recreated_witness : ok (Err (- EEXIST) (strerror EEXIST)) = false.
Proof.
  exact (removed_index_cannot_be_recreated demo0 demo1 demo2 demo3 demo_request demo_request
    noon noon OK OK (Err (- EEXIST) (strerror EEXIST)) demo_create eq_refl demo_remove
    eq_refl eq_refl demo_recreate).
Defined.

Lemma demo2_wf : ns_wf (namespace_ demo2).
Proof.
  apply (reachable_wf (Namespace.new ∅ 0)).
  - exists (∅ : gmap string string), 0%Z, OK. by split_and!.
  - eapply rtc_once, (step_mkdir _ "/foo/.vsfs/energy" 493 0 0 noon OK);
      [done|by left|vm_compute; reflexivity].
Qed.

End witnesses.
