(* ===== verification/Restart.v ===== *)
(** * A master server comes back (masterd/masterd.cpp, master_controller.cpp)

    A master keeps its tables in three stores.  After a crash [main] constructs
    a new [MasterController] on what the stores hold and calls [init].  The
    theorems say what such a server has of the old one: its files, indices and
    partitions, but neither the object id counter nor, on the primary, the
    servers that had joined. *)

From S2P Require Import Prelude CxxString Platform PathUtil ThriftUtils KVStore.
From S2P Require Import ServerMap PartitionManager IndexNamespace Namespace MasterController.

Section restart.
Context {S P R : Type} `{KeyValueStore S, ConsistentHashMap P string, ConsistentHashMap R NodeInfo}.
Context `{VoblaStatus, MD5, BoostFilesystem}.
Context `{ThriftCodec FileMetadata, ThriftCodec IndexNamespaceNode, ThriftCodec IndexConsistentHashRing}.
(** A store as the next process finds it, and the content of an uninitialised
    [refcount_]. *)
Context (disk : S → S) (indeterminate : Z).

(** The end of [main]. [garbage] is the uninitialised counter, [r1] and [r2] are
    the values of [rand()]. *)
Definition restart (mc : MasterController S P R) (self : NodeInfo) (garbage r1 r2 : Z)
    : run (Status * MasterController S P R) :=
  mc' ← new_controller (mc_is_primary mc) self (disk (store_ (namespace_ mc)))
          (disk (in_store_ (index_namespace_ mc))) (disk (pm_store_ (index_partition_manager_ mc)))
          garbage r1 r2;
  init indeterminate mc'.
End restart.

(** The stores survive a crash and can be opened again. *)
Record durable {S} `{KeyValueStoreSpec S} (disk : S → S) : Prop := {
  du_view s : kv_view (disk s) = kv_view s;
  du_open s : ok (kv_open (disk s)).1 = true;
}.

(** [rand()] is between 0 and [RAND_MAX]. *)
Definition rand_value (r : Z) : Prop := (0 ≤ r < 2 ^ 31)%Z.

Section recovery.
Context {S P R : Type} `{!KeyValueStore S, !KeyValueStoreSpec S}.
Context `{!ConsistentHashMap P string, !ConsistentHashMapSpec P string}.
Context `{!ConsistentHashMap R NodeInfo, !ConsistentHashMapSpec R NodeInfo}.
Context `{!VoblaStatus, !MD5, !BoostFilesystem, !BoostFilesystemSpec}.
Context `{!ThriftCodec FileMetadata, !ThriftCodecSpec FileMetadata}.
Context `{!ThriftCodec IndexNamespaceNode, !ThriftCodecSpec IndexNamespaceNode}.
Context `{!ThriftCodec IndexConsistentHashRing, !ThriftCodecSpec IndexConsistentHashRing}.
Context (disk : S → S) (Hdisk : durable disk) (indeterminate : Z).
Implicit Types mc : MasterController S P R.

(** The tables of the indices agree with their stores. *)
Definition indices_wf mc : Prop := in_wf (index_namespace_ mc) ∧ pm_wf (index_partition_manager_ mc).

(** What a new server has of an old one. *)
Record same_data mc mc' : Prop := {
  sd_files : same_tables (namespace_ mc) (namespace_ mc');
  sd_indices : same_indices (index_namespace_ mc) (index_namespace_ mc');
  sd_partitions : rings (index_partition_manager_ mc') = rings (index_partition_manager_ mc);
  sd_primary : mc_is_primary mc' = mc_is_primary mc;
}.

(** The servers a new primary knows: itself. *)
Definition alone (self : NodeInfo) (pos : Z) mc : Prop :=
  if mc_is_primary mc then
    ∃ masters indexds, master_server_manager_ mc = Some masters ∧ index_server_manager_ mc = Some indexds ∧
      ch_view masters = {[pos := self]} ∧ ch_view indexds = ∅
  else master_server_manager_ mc = None ∧ index_server_manager_ mc = None.

Lemma first_position r1 r2 : rand_value r1 → rand_value r2 → int64_ret (r1 * r2) = Done (r1 * r2)%Z.
Proof.
  intros [??] [??]. unfold int64_ret. replace (in_int64 (r1 * r2)) with true; [done|].
  symmetry. apply bool_decide_eq_true. unfold int64_min, int64_max. nia.
Qed.

Lemma new_controller_starts (primary : bool) self s1 s2 s3 garbage r1 r2 :
  rand_value r1 → rand_value r2 →
  ∃ mc, new_controller (P:=P) (R:=R) primary self s1 s2 s3 garbage r1 r2 = Done mc ∧
    mc_is_primary mc = primary ∧ namespace_ mc = Namespace.new s1 garbage ∧
    index_namespace_ mc = IndexNamespace.new s2 ∧ index_partition_manager_ mc = PartitionManager.new s3 ∧
    alone self (r1 * r2) mc.
Proof.
  intros Hr1 Hr2. unfold new_controller, alone. destruct primary; simpl; [|by eexists].
  unfold ServerMap.add, ServerMap.empty. rewrite ch_num_nodes_spec, ch_new_spec, map_size_empty.
  rewrite bool_decide_eq_true_2, first_position by done. simpl.
  destruct (ch_insert_spec (ch_new (R:=R)) (r1 * r2) self) as (r&Hins&Hview);
    [by rewrite ch_new_spec, lookup_empty|].
  rewrite Hins. simpl. eexists. split_and!; [done..|]. eexists _, _. split_and!; [done..| |by rewrite ch_new_spec].
  by rewrite Hview, ch_new_spec.
Qed.

Theorem restart_recovers mc self garbage r1 r2 :
  ns_wf (namespace_ mc) → indices_wf mc → rand_value r1 → rand_value r2 →
  ∃ mc', restart disk indeterminate mc self garbage r1 r2 = Done (OK, mc') ∧
    same_data mc mc' ∧ ns_wf (namespace_ mc') ∧ indices_wf mc' ∧
    next_obj_id_ (namespace_ mc') = garbage ∧ alone self (r1 * r2) mc'.
Proof.
  intros Hns [Hin Hpm] Hr1 Hr2. unfold restart.
  destruct (new_controller_starts (mc_is_primary mc) self (disk (store_ (namespace_ mc)))
    (disk (in_store_ (index_namespace_ mc))) (disk (pm_store_ (index_partition_manager_ mc))) garbage r1 r2)
    as (mc0&->&Hp&Hn0&Hi0&Hp0&Ha); [done..|].
  destruct (registry_init_recovers (index_namespace_ mc) (disk (in_store_ (index_namespace_ mc))))
    as (ins&Hins&Hsi&Hwi&_); [done|apply (du_view _ Hdisk)|apply (du_open _ Hdisk)|].
  destruct (partitions_init_recovers indeterminate (index_partition_manager_ mc)
    (disk (pm_store_ (index_partition_manager_ mc))))
    as (pm&Hpmi&Hrings&Hwp); [done|apply (du_view _ Hdisk)|apply (du_open _ Hdisk)|].
  destruct (namespace_init_recovers (namespace_ mc) (disk (store_ (namespace_ mc))) garbage)
    as (ns&Hnsi&Hsame&Hnext&Hopen); [done|apply (du_view _ Hdisk)|apply (du_open _ Hdisk)|].
  simpl. unfold init. rewrite Hi0, Hins. simpl. rewrite Hp0, Hpmi. simpl. rewrite Hn0, Hnsi. simpl.
  eexists. split; [done|]. split_and!; [done| |done|done|exact Ha].
  by eapply same_tables_wf.
Qed.
End recovery.

(** ** Properties *)

Section properties.
Context {S P R : Type} `{!KeyValueStore S, !KeyValueStoreSpec S}.
Context `{!ConsistentHashMap P string, !ConsistentHashMapSpec P string}.
Context `{!ConsistentHashMap R NodeInfo, !ConsistentHashMapSpec R NodeInfo}.
Context `{!VoblaStatus, !MD5, !BoostFilesystem, !BoostFilesystemSpec}.
Context `{!ThriftCodec FileMetadata, !ThriftCodecSpec FileMetadata}.
Context `{!ThriftCodec IndexNamespaceNode, !ThriftCodecSpec IndexNamespaceNode}.
Context `{!ThriftCodec IndexConsistentHashRing, !ThriftCodecSpec IndexConsistentHashRing}.

(** The rings a lone primary hands to its clients. *)
Lemma alone_rings (mc : MasterController S P R) self pos :
  mc_is_primary mc = true → alone self pos mc →
  get_all_masters mc = Done (OK, {[pos := address self]}) ∧ get_all_index_servers mc = Done (OK, ∅).
Proof.
  intros Hp Ha. unfold alone in Ha. rewrite Hp in Ha. destruct Ha as (masters&indexds&Hm&Hi&Hvm&Hvi).
  unfold get_all_masters, get_all_index_servers. rewrite Hp, Hm, Hi. simpl. unfold ring_addresses.
  rewrite !get_ch_ring_as_map_spec, Hvm, Hvi, map_fmap_singleton. by rewrite fmap_empty.
Qed.

(** C7: a master server survives a crash.  After a crash of a master whose
    tables agree with its stores, the constructor and [init] bring up a server
    that answers every read of files ([getattr], [object_id], [readdir],
    [find_files], [find_objects]), every search for indices and every routing
    of a hash value to a partition as the old one did.  A primary has
    forgotten the servers that joined it, though: it hands out a ring of
    masters with itself alone, and no index server. *)
Theorem restarted_master_answers_alike (disk : S → S) indeterminate (mc : MasterController S P R)
    self garbage r1 r2 :
  durable disk → ns_wf (namespace_ mc) → indices_wf mc → rand_value r1 → rand_value r2 →
  ∃ mc', restart disk indeterminate mc self garbage r1 r2 = Done (OK, mc') ∧
    (∀ p, rpc_getattr mc' p = rpc_getattr mc p) ∧ (∀ p, rpc_object_id mc' p = rpc_object_id mc p) ∧
    (∀ p, rpc_readdir mc' p = rpc_readdir mc p) ∧ (∀ ids, rpc_find_files mc' ids = rpc_find_files mc ids) ∧
    (∀ ps, rpc_find_objects mc' ps = rpc_find_objects mc ps) ∧
    (∀ root names, rpc_locate_indices_for_search mc' root names
                   = rpc_locate_indices_for_search mc root names) ∧
    (∀ path h, get_partition_path (index_partition_manager_ mc') path h
               = get_partition_path (index_partition_manager_ mc) path h) ∧
    (mc_is_primary mc = true →
       get_all_masters mc' = Done (OK, {[(r1 * r2)%Z := address self]}) ∧
       get_all_index_servers mc' = Done (OK, ∅)).
Proof.
  intros Hdisk Hns Hix Hr1 Hr2.
  destruct (restart_recovers disk Hdisk indeterminate mc self garbage r1 r2 Hns Hix Hr1 Hr2)
    as (mc'&Hr&[(Hm&Hd&Hi&_) Hsi Hrings Hp]&_&_&_&Ha).
  exists mc'. split_and!; [exact Hr|intros..|].
  - unfold rpc_getattr, MasterController.getattr, Namespace.getattr. by rewrite Hm.
  - unfold rpc_object_id, MasterController.object_id, Namespace.object_id. by rewrite Hm.
  - unfold rpc_readdir, MasterController.readdir, Namespace.readdir. by rewrite Hd.
  - unfold rpc_find_files, MasterController.find_files, Namespace.find_files. by rewrite Hi.
  - unfold rpc_find_objects, MasterController.find_objects, Namespace.find_objects. by rewrite Hm.
  - unfold rpc_locate_indices_for_search, locate_indices_for_names. f_equal.
    induction names as [|name names IH]; simpl; [done|]. f_equal; [|done].
    f_equal. by apply collect_proper.
  - by rewrite !get_partition_path_rings, Hrings.
  - intros Hprimary. apply alone_rings; [congruence|done].
Qed.
End properties.

(** ** Witness: the primary of [MasterController], with an index *)

Section witnesses.
Import Reference.
#[local] Existing Instances TestLevelDBStore.test_store TestLevelDBStore.test_store_spec.
#[local] Existing Instances MasterController.metadata_codec MasterController.metadata_codec_spec.
#[local] Existing Instances MasterController.node_codec MasterController.node_codec_spec.
#[local] Existing Instance MasterController.ring_codec.
#[local] Instance ring_codec_spec : ThriftCodecSpec IndexConsistentHashRing := codec_spec (list IndexPartition).

Definition itself : NodeInfo := node_of {| host := "a"; port := 9876 |}.

Lemma test_disk : durable (id : gmap string string → gmap string string).
Proof. by split. Qed.
Lemma demo1_ns_wf : ns_wf (namespace_ demo1).
Proof.
  apply (reachable_wf (Namespace.new ∅ 0)).
  - exists (∅ : gmap string string), 0%Z, OK. by split_and!.
  - eapply rtc_once, (step_mkdir _ "/foo/.vsfs/energy" 493 0 0 noon OK);
      [done|by left|vm_compute; reflexivity].
Qed.
Lemma demo1_indices_wf : indices_wf demo1.
Proof.
  split.
  - assert (IndexNamespace.insert (IndexNamespace.new ∅) "/foo" "energy" = Done (OK, index_namespace_ demo1)) as Hi
      by (vm_compute; reflexivity).
    eapply (in_step_wf (IndexNamespace.new ∅)); [by apply in_wf_empty|].
    by eapply IndexNamespace.step_insert.
  - by apply pm_wf_empty.
Qed.

Lemma restarted_master_answers_alike_witness :
  ∃ mc', restart id 0 demo1 itself 7 3 5 = Done (OK, mc') ∧
    rpc_getattr mc' "/foo/.vsfs/energy" = rpc_getattr demo1 "/foo/.vsfs/energy" ∧
    get_all_index_servers mc' = Done (OK, ∅).
Proof.
  destruct (restarted_master_answers_alike id 0 demo1 itself 7 3 5 test_disk demo1_ns_wf demo1_indices_wf)
    as (mc'&Hr&Hg&_&_&_&_&_&_&Hp); [done|done|].
  exists mc'. split_and!; [exact Hr|apply Hg|by apply Hp].
Defined.
End witnesses.
