(* ===== verification/ComplexQuery.v ===== *)
(** * Query paths (common/complex_query.cpp, common/posix_path.cpp)

    A file query is a path [<root>/?<condition>&<condition>...]; the parser
    fills in the root and one range per field.  [pos] variables are [size_t]
    positions, with [None] for [string::npos]. *)

From S2P Require Import Prelude CxxString Platform.
From Stdlib Require Import Ascii.

(** ** Data *)

Record StringRange := {
  lower : string;
  lower_closed : bool;
  upper : string;
  upper_closed : bool;
}.
#[export] Instance StringRange_eq_dec : EqDecision StringRange.
Proof. solve_decision. Defined.

(** [range_query_map_[field]] of a new field: a value-initialised range. *)
Definition new_range : StringRange :=
  {| lower := ""; lower_closed := false; upper := ""; upper_closed := false |}.

Record ComplexQuery := {
  root_ : string;
  range_query_map_ : gmap string StringRange;
}.
Definition new_query : ComplexQuery := {| root_ := ""; range_query_map_ := ∅ |}.

(** The operators; [None] is the result -1 of [parse_cond_op]. *)
Inductive cond_op := EQ | NEQ | GT | GE | LT | LE.
#[export] Instance cond_op_eq_dec : EqDecision cond_op.
Proof. solve_decision. Defined.

Definition parse_cond_op (op : string) : option cond_op :=
  if bool_decide (op = "=") then Some EQ
  else if bool_decide (op = "!=") then Some NEQ
  else if bool_decide (op = ">") then Some GT
  else if bool_decide (op = ">=") then Some GE
  else if bool_decide (op = "<") then Some LT
  else if bool_decide (op = "<=") then Some LE
  else None.

Definition DAY : Z := 60 * 60 * 24.
Definition WEEK : Z := DAY * 7.
Definition KB : Z := 1024.
Definition MB : Z := KB * 1024.
Definition GB : Z := MB * 1024.
Definition TB : Z := GB * 1024.

Definition is_time (field : string) : bool :=
  bool_decide (field = "atime") || bool_decide (field = "ctime") || bool_decide (field = "mtime").

(** The unit of a value, or the error for an unknown one. *)
Definition unit_value (field unit : string) : Status + Z :=
  if is_time field then
    if bool_decide (unit = "d") then inr DAY
    else if bool_decide (unit = "w") then inr WEEK
    else inl (Err (-1) ("Un-recognized time unit: " +:+ unit))
  else if bool_decide (field = "size") then
    if bool_decide (unit = "k") then inr KB
    else if bool_decide (unit = "m") then inr MB
    else if bool_decide (unit = "g") then inr GB
    else if bool_decide (unit = "t") then inr TB
    else inl (Err (-1) ("Un-recognized file-size unit: " +:+ unit))
  else inr 1%Z.

Section complex_query.
(** [boost::lexical_cast<uint64_t>]; [bad_lexical_cast] is not caught here. *)
Context `{LexicalCast Z}.
(** [static_cast<uint64_t>(global_clock->now())] *)
Context (now : Z).

Definition to_uint64 (s : string) : run Z :=
  match lexical_cast s with Some z => Done z | None => Fatal "bad_lexical_cast" end.

Definition parse_value (field value : string) : run (Status * string) :=
  match find_first_not_of "0123456789.+-" 0 value with
  | None => Done (OK, value)
  | Some unit_pos =>
      match unit_value field (str_drop unit_pos value) with
      | inl status => Done (status, value)
      | inr num_value =>
          let num := str_take unit_pos value in
          let first := String.get 0 value in
          if is_time field &&
             (bool_decide (first = Some "+"%char) || bool_decide (first = Some "-"%char))
          then
            let symbol := if bool_decide (first = Some "+"%char) then 1%Z else (-1)%Z in
            n ← to_uint64 (str_drop 1 num);
            Done (OK, to_string (wrap_uint64 (now + symbol * (num_value * n))))
          else
            n ← to_uint64 num;
            Done (OK, to_string (wrap_uint64 (num_value * n)))
      end
  end.

Definition set_upper (r : StringRange) (value : string) (closed : bool) : StringRange :=
  {| lower := lower r; lower_closed := lower_closed r; upper := value; upper_closed := closed |}.
Definition set_lower (r : StringRange) (value : string) (closed : bool) : StringRange :=
  {| lower := value; lower_closed := closed; upper := upper r; upper_closed := upper_closed r |}.

(** The [switch] of [parse_expression]; [None] is its default case. *)
Definition set_range (op : cond_op) (value : string) (r : StringRange) : option StringRange :=
  match op with
  | LE => Some (set_upper r value true)
  | LT => Some (set_upper r value false)
  | GE => Some (set_lower r value true)
  | GT => Some (set_lower r value false)
  | EQ => Some (set_lower (set_upper r value true) value true)
  | NEQ => None
  end.

Definition set_field (q : ComplexQuery) (field : string) (r : StringRange) : ComplexQuery :=
  {| root_ := root_ q; range_query_map_ := <[field:=r]> (range_query_map_ q) |}.

Definition OPCHAR : string := "=!<>".

Definition parse_expression (q : ComplexQuery) (exp : string) : run (Status * ComplexQuery) :=
  CHECK negb (str_empty exp) ELSE "!exp.empty()";;
  match find_first_of OPCHAR 0 exp with
  | None => Done (Err (-1) "Bad expression.", q)
  | Some op_pos =>
      match find_first_not_of OPCHAR op_pos exp with
      | None => Done (Err (-1) "Bad expression.", q)
      | Some value_pos =>
          let field := trim_copy (str_take op_pos exp) in
          let opstr := substr op_pos (value_pos - op_pos) exp in
          let value := trim_copy (str_drop value_pos exp) in
          match parse_cond_op opstr with
          | None => Done (Err (-1) "Bad operation.", q)
          | Some op =>
              '(status, value) ← parse_value field value;
              if ok status then
                match set_range op value (default new_range (range_query_map_ q !! field)) with
                | Some r => Done (OK, set_field q field r)
                | None => Done (Err (-1) "Unknown op code.", q)
                end
              else Done (status, q)
          end
      end
  end.

(** The loop of [parse_condition]; [None] when it has not ended after [fuel]
    turns. *)
Fixpoint condition_loop (fuel : nat) (q : ComplexQuery) (buf : string) (pos : nat)
    : option (run (Status * ComplexQuery)) :=
  match fuel with
  | 0 => None
  | S fuel' =>
      let next := find_char "&" pos buf in
      let exp := match next with
                 | None => str_drop pos buf
                 | Some e => substr pos (e - pos) buf
                 end in
      match parse_expression q exp with
      | Done (status, q) =>
          if ok status then
            match next with
            | None => Some (Done (status, q))
            | Some e => condition_loop fuel' q buf (e + 1)
            end
          else Some (Done (status, q))
      | Fatal why => Some (Fatal why)
      end
  end.

Definition no_fuel {A} : run A := Fatal "out of fuel".

(** Every turn starts at a later position, so the length of the buffer bounds
    the number of turns. *)
Definition parse_condition (q : ComplexQuery) (buf : string) : run (Status * ComplexQuery) :=
  CHECK negb (str_empty buf) ELSE "!buf.empty()";;
  default no_fuel (condition_loop (S (String.length buf)) q buf 0).

Definition parse_segment (q : ComplexQuery) (seg : string) : run (Status * ComplexQuery) :=
  if str_empty seg then Done (Err (-1) "Segment is empty.", q)
  else
    match find_first_of "<>=!" 0 seg with
    | Some _ => parse_condition q seg
    | None => Done (OK, q)
    end.

(** The loop of [parse]. *)
Fixpoint segment_loop (fuel : nat) (q : ComplexQuery) (buf : string) (last : nat)
    : option (run (Status * ComplexQuery)) :=
  match fuel with
  | 0 => None
  | S fuel' =>
      match find_char slash (last + 1) buf with
      | None =>
          Some (parse_segment q (str_drop last buf))
      | Some pos =>
          if bool_decide (pos = last + 1) then segment_loop fuel' q buf pos
          else
            match parse_segment q (substr (last + 1) (pos - last - 1) buf) with
            | Done (status, q) =>
                if ok status then segment_loop fuel' q buf (pos + 1) else Some (Done (status, q))
            | Fatal why => Some (Fatal why)
            end
      end
  end.

Definition parse (q : ComplexQuery) (buf : string) : run (Status * ComplexQuery) :=
  CHECK negb (str_empty buf) ELSE "!buf.empty()";;
  CHECK bool_decide (String.get 0 buf = Some slash) ELSE "buf[0] == '/'";;
  match find_char "?" 0 buf with
  | None => Done (Err (-2) ("This path is not a file query." +:+ buf), q)
  | Some pos =>
      let q := {| root_ := if bool_decide (1 < pos) then str_take (pos - 1) buf else "/";
                  range_query_map_ := range_query_map_ q |} in
      default no_fuel (segment_loop (S (String.length buf)) q buf (pos + 1))
  end.

(** [debug_string()]: the part on the ranges is commented out. *)
Definition debug_string (q : ComplexQuery) : string := "ComplexQuery(" +:+ root_ q +:+ "):".

Definition range_query (q : ComplexQuery) (name : string) : option StringRange :=
  range_query_map_ q !! name.

(** The keys of an [unordered_map], in no particular order. *)
Definition get_names_of_range_queries (q : ComplexQuery) : list string :=
  (map_to_list (range_query_map_ q)).*1.
End complex_query.

(** ** [PosixPath] *)

Record PosixPath := {
  pp_path : string;
  pp_root : string;
  pp_query : string;
  pp_result : string;
}.

(** A path that starts with a question mark makes [question_mark - 1] wrap
    around, so [substr] takes the whole path. *)
Definition new_path (posix_path : string) : run PosixPath :=
  CHECK negb (str_empty posix_path) ELSE "!posix_path.empty()";;
  match find_char "?" 0 posix_path with
  | None => Done {| pp_path := posix_path; pp_root := posix_path; pp_query := ""; pp_result := "" |}
  | Some question_mark =>
      let root := match question_mark with 0 => posix_path | S n => str_take n posix_path end in
      match find_char slash question_mark posix_path with
      | None =>
          Done {| pp_path := posix_path; pp_root := root;
                  pp_query := str_drop (question_mark + 1) posix_path; pp_result := "" |}
      | Some result_begin =>
          Done {| pp_path := posix_path; pp_root := root;
                  pp_query := substr (question_mark + 1) (result_begin - question_mark - 1) posix_path;
                  pp_result := str_drop (result_begin + 1) posix_path |}
      end
  end.

(** [complex_query(result)] *)
Definition complex_query `{LexicalCast Z} (now : Z) (p : PosixPath) (result : ComplexQuery)
    : run (Status * ComplexQuery) := parse now result (pp_path p).

Definition is_validate (p : PosixPath) : bool := true.
Definition is_query (p : PosixPath) : bool := negb (str_empty (pp_query p)) && str_empty (pp_result p).
Definition is_result (p : PosixPath) : bool :=
  negb (str_empty (pp_query p)) && negb (str_empty (pp_result p)).

(** ** Printing queries *)

Definition op_string (op : cond_op) : string :=
  match op with EQ => "=" | NEQ => "!=" | GT => ">" | GE => ">=" | LT => "<" | LE => "<=" end.

Record condition := { c_field : string; c_op : cond_op; c_value : string }.

Definition print_condition (c : condition) : string :=
  c_field c +:+ op_string (c_op c) +:+ c_value c.

Fixpoint print_conditions (c : condition) (cs : list condition) : string :=
  match cs with
  | [] => print_condition c
  | c' :: cs' => print_condition c +:+ "&" +:+ print_conditions c' cs'
  end.

Definition print_query (root : string) (c : condition) (cs : list condition) : string :=
  (if bool_decide (root = "/") then "/" else root +:+ "/") +:+ "?" +:+ print_conditions c cs.

(** A field name: no operator, separator or space. *)
Definition special (c : ascii) : bool := str_mem c "=!<>&/?" || Ascii.is_space c.
Definition is_numeral (c : ascii) : bool := str_mem c "0123456789.+-".
Definition plain_condition (c : condition) : Prop :=
  find_if special (c_field c) = None ∧
  c_value c ≠ "" ∧ find_if (λ x, negb (is_numeral x)) (c_value c) = None ∧ c_op c ≠ NEQ.
#[export] Instance plain_condition_dec c : Decision (plain_condition c).
Proof. unfold plain_condition. apply _. Defined.

(** What a condition does to the ranges of a query. *)
Definition add_condition (q : ComplexQuery) (c : condition) : ComplexQuery :=
  let r := default new_range (range_query_map_ q !! c_field c) in
  set_field q (c_field c) (default r (set_range (c_op c) (c_value c) r)).

(** ** Lemmas *)

Lemma find_if_weaken (p p' : ascii → bool) s :
  (∀ c, p c = true → p' c = true) → find_if p' s = None → find_if p s = None.
Proof.
  intros Hp. induction s as [|c s IH]; [done|]. simpl.
  specialize (Hp c). destruct (p c), (p' c); try done; [naive_solver|].
  rewrite !fmap_None. auto.
Qed.

Lemma numeral_not_special c : special c = true → negb (is_numeral c) = true.
Proof. by destruct c as [[] [] [] [] [] [] [] []]. Qed.

Lemma find_if_None_inv p s : find_if p s = None → ∀ c t, s = String c t → p c = false ∧ find_if p t = None.
Proof.
  intros Hs c t ->. simpl in Hs. destruct (p c); [done|]. by rewrite fmap_None in Hs.
Qed.

Lemma trim_left_id s : find_if Ascii.is_space s = None → trim_left s = s.
Proof. destruct s as [|c s]; [done|]. simpl. by destruct (Ascii.is_space c). Qed.
Lemma trim_right_id s : find_if Ascii.is_space s = None → trim_right s = s.
Proof.
  induction s as [|c s IH]; [done|]. intros Hs.
  destruct (find_if_None_inv _ _ Hs c s eq_refl) as [Hc Ht]. simpl.
  rewrite IH by done. destruct s; [by rewrite Hc|done].
Qed.
Lemma trim_copy_id s : find_if Ascii.is_space s = None → trim_copy s = s.
Proof. intros Hs. unfold trim_copy. rewrite trim_left_id by done. by apply trim_right_id. Qed.

Lemma find_if_app_Some p s c t :
  find_if p s = None → p c = true → find_if p (s +:+ String c t) = Some (String.length s).
Proof. intros Hs Hc. rewrite find_if_None_app by done. simpl. rewrite Hc. simpl. by rewrite Nat.add_0_r. Qed.
Lemma find_if_app_None p s t : find_if p s = None → find_if p t = None → find_if p (s +:+ t) = None.
Proof. intros Hs Ht. rewrite find_if_None_app by done. by rewrite Ht. Qed.

Lemma print_condition_no p c :
  (∀ x, p x = true → special x = true) → (∀ x, p x = true → str_mem x "=!<>" = false) →
  plain_condition c → find_if p (print_condition c) = None.
Proof.
  intros Hp Hop (Hf&_&Hv&_). unfold print_condition. apply find_if_app_None.
  { by eapply find_if_weaken. }
  apply find_if_app_None.
  - assert (∀ x, str_mem x "=!<>" = true → p x = false) as Hno.
    { intros x Hx. destruct (p x) eqn:E; [|done]. rewrite Hop in Hx; done. }
    destruct (c_op c); simpl; rewrite ?Hno by done; done.
  - eapply find_if_weaken; [|exact Hv]. eauto using numeral_not_special.
Qed.

Section lemmas.
Context `{LexicalCast Z} (now : Z).

Lemma parse_expression_print q c :
  plain_condition c →
  parse_expression now q (print_condition c) = Done (OK, add_condition q c).
Proof.
  intros (Hf&Hv&Hnum&Hop). destruct c as [f op v]; simpl in *.
  unfold parse_expression, print_condition; simpl.
  assert (∃ x o, op_string op = String x o ∧ str_mem x OPCHAR = true ∧
                 find_if (λ x, negb (str_mem x OPCHAR)) (op_string op) = None) as (x&o&Ho&Hx&Ho').
  { destruct op; eexists _, _; split_and!; reflexivity. }
  destruct v as [|d v]; [done|].
  assert (str_mem d OPCHAR = false) as Hd.
  { destruct (find_if_None_inv _ _ Hnum d v eq_refl) as [Hd _].
    apply not_true_is_false. intros Hmem. rewrite numeral_not_special in Hd; [done|].
    unfold special. apply orb_true_iff. left. revert Hmem. by destruct d as [[] [] [] [] [] [] [] []]. }
  assert (find_if (λ x, str_mem x OPCHAR) f = None) as Hfop.
  { apply (find_if_weaken _ special); [|done]. intros c Hc. unfold special.
    apply orb_true_iff. left. revert Hc. by destruct c as [[] [] [] [] [] [] [] []]. }
  assert (find_if Ascii.is_space f = None) as Hfsp.
  { apply (find_if_weaken _ special); [|done]. intros c Hc. unfold special.
    by rewrite Hc, orb_true_r. }
  assert (find_if Ascii.is_space (String d v) = None) as Hvsp.
  { apply (find_if_weaken _ (λ x, negb (is_numeral x))); [|done]. intros c Hc.
    apply numeral_not_special. unfold special. by rewrite Hc, orb_true_r. }
  assert (str_empty (f +:+ op_string op +:+ String d v) = false) as ->.
  { rewrite Ho. by destruct f. }
  unfold find_first_of, find_first_not_of, find_if_from; simpl str_drop at 1.
  rewrite Ho, str_app_cons.
  rewrite find_if_app_Some by done.
  cbn [fmap option_fmap option_map]. rewrite !Nat.add_0_l, !str_drop_app.
  rewrite <-str_app_cons, <-Ho.
  rewrite (find_if_app_Some _ (op_string op) d v Ho') by by rewrite Hd.
  cbn [fmap option_fmap option_map negb mbind run_bind check].
  rewrite str_take_app, (trim_copy_id f Hfsp).
  unfold substr. rewrite str_drop_app, str_drop_add, str_drop_app, str_drop_app.
  replace (String.length f + String.length (op_string op) - String.length f)
    with (String.length (op_string op)) by lia.
  rewrite str_take_app.
  rewrite (trim_copy_id _ Hvsp).
  assert (parse_cond_op (op_string op) = Some op) as -> by by destruct op.
  unfold parse_value, find_first_not_of, find_if_from. simpl str_drop.
  change (λ x, negb (str_mem x "0123456789.+-")) with (λ x, negb (is_numeral x)).
  rewrite Hnum. simpl. unfold add_condition; simpl. by destruct op.
Qed.

Lemma print_conditions_cons c cs :
  ∃ x t, print_conditions c cs = String x t ∧ String.length (print_conditions c cs) ≥ 1.
Proof.
  assert (∃ x t, print_condition c = String x t) as (x&t&Hc).
  { unfold print_condition. destruct (c_field c); [|by rewrite str_app_cons; eauto].
    rewrite str_app_nil_l. destruct (c_op c); simpl; eauto. }
  destruct cs as [|c' cs]; simpl; rewrite Hc; rewrite ?str_app_cons; do 2 eexists; (split; [done|]); simpl; lia.
Qed.

Lemma condition_loop_print q pre c cs fuel :
  Forall plain_condition (c :: cs) → length cs < fuel →
  condition_loop now fuel q (pre +:+ print_conditions c cs) (String.length pre)
  = Some (Done (OK, foldl add_condition q (c :: cs))).
Proof.
  revert q pre c fuel. induction cs as [|c' cs IH]; intros q pre c fuel Hcs Hfuel;
    (destruct fuel as [|fuel]; [simpl in Hfuel; lia|]); inversion_clear Hcs as [|? ? Hc Hcs'];
    assert (find_if (λ x, bool_decide (x = "&"%char)) (print_condition c) = None) as Hamp
      by (apply print_condition_no; [| |done]; intros x Hx%bool_decide_eq_true; by subst);
    cbn [condition_loop print_conditions]; unfold find_char, find_if_from; rewrite str_drop_app.
  - rewrite Hamp. cbn [fmap option_fmap option_map].
    by rewrite parse_expression_print.
  - change ("&" +:+ print_conditions c' cs) with (String "&" (print_conditions c' cs)).
    rewrite find_if_app_Some by (done || by apply bool_decide_eq_true).
    cbn [fmap option_fmap option_map]. unfold substr.
    rewrite Nat.add_comm, Nat.add_sub, str_drop_app, str_take_app.
    rewrite parse_expression_print by done. cbn [ok].
    specialize (IH (add_condition q c) (pre +:+ print_condition c +:+ "&") c' fuel).
    rewrite !str_app_assoc, !str_length_app in IH. simpl String.length in IH.
    change ("&" +:+ print_conditions c' cs) with (String "&" (print_conditions c' cs)) in IH.
    replace (String.length (print_condition c) + String.length pre + 1)
      with (String.length pre + (String.length (print_condition c) + 1)) by lia.
    rewrite IH; [done|done|simpl in Hfuel; lia].
Qed.
End lemmas.

Section segments.
Context `{LexicalCast Z} (now : Z).

Lemma print_conditions_length c cs : length cs < String.length (print_conditions c cs).
Proof.
  revert c. induction cs as [|c' cs IH]; intros c.
  - destruct (print_conditions_cons c []) as (?&?&_&?). simpl in *. lia.
  - simpl. rewrite str_length_app. specialize (IH c').
    change ("&" +:+ print_conditions c' cs) with (String "&" (print_conditions c' cs)).
    simpl. lia.
Qed.

Lemma print_conditions_no_slash c cs :
  Forall plain_condition (c :: cs) → no_char slash (print_conditions c cs).
Proof.
  assert (∀ c, plain_condition c → no_char slash (print_condition c)) as Hone.
  { intros c0 Hc. apply print_condition_no; [| |done]; intros x Hx%bool_decide_eq_true; by subst. }
  revert c. induction cs as [|c' cs IH]; intros c Hcs; inversion_clear Hcs; simpl; [by apply Hone|].
  apply no_char_app. split; [by apply Hone|]. apply no_char_app. split; [done|]. by apply IH.
Qed.

Lemma print_conditions_has_op c cs :
  Forall plain_condition (c :: cs) →
  ∃ i, find_first_of "<>=!" 0 (print_conditions c cs) = Some i.
Proof.
  intros Hcs. unfold find_first_of, find_if_from. simpl str_drop.
  assert (∀ s t x, str_mem x "<>=!" = true → is_Some (find_if (λ x, str_mem x "<>=!") (s +:+ String x t))) as Hfind.
  { intros s t x Hx. induction s as [|y s IH]; rewrite ?str_app_nil_l, ?str_app_cons; cbn [find_if].
    - rewrite Hx. eauto.
    - destruct (str_mem y "<>=!"); [eauto|]. by apply fmap_is_Some. }
  assert (∃ s x t, print_conditions c cs = s +:+ String x t ∧ str_mem x "<>=!" = true) as (s&x&t&->&Hx).
  { exists (c_field c). destruct cs as [|c' cs]; simpl; unfold print_condition;
      rewrite ?str_app_assoc; destruct (c_op c); simpl; by do 2 eexists. }
  destruct (Hfind s t x Hx) as [i ->]. eauto.
Qed.

Lemma segment_loop_print q pre c cs fuel :
  Forall plain_condition (c :: cs) → String.length (pre +:+ print_conditions c cs) < fuel →
  default no_fuel (segment_loop now fuel q (pre +:+ print_conditions c cs) (String.length pre))
  = Done (OK, foldl add_condition q (c :: cs)).
Proof.
  intros Hcs Hfuel. destruct fuel as [|fuel]; [lia|]. cbn [segment_loop].
  destruct (print_conditions_cons c cs) as (x&t&Hp&_).
  pose proof (print_conditions_no_slash c cs Hcs) as Hns.
  assert (find_char slash (String.length pre + 1) (pre +:+ print_conditions c cs) = None) as ->.
  { unfold find_char, find_if_from. rewrite str_drop_add, str_drop_app, Hp. rewrite Hp in Hns.
    simpl str_drop. apply no_char_cons in Hns as [_ Hns]. unfold no_char in Hns. by rewrite Hns. }
  cbn [default from_option id]. rewrite str_drop_app. unfold parse_segment.
  destruct (print_conditions_has_op c cs Hcs) as [i ->].
  assert (str_empty (print_conditions c cs) = false) as Hne by by rewrite Hp.
  rewrite Hne. unfold parse_condition. rewrite Hne. cbn [negb check mbind run_bind].
  pose proof (condition_loop_print now q "" c cs (S (String.length (print_conditions c cs))) Hcs) as Hl.
  rewrite str_app_nil_l in Hl. change (String.length "") with 0 in Hl. rewrite Hl; [done|].
  pose proof (print_conditions_length c cs). lia.
Qed.
End segments.

Section termination.
Context `{LexicalCast Z} (now : Z).

Lemma condition_loop_total fuel q buf pos :
  String.length buf - pos < fuel → pos ≤ String.length buf →
  ∃ r, condition_loop now fuel q buf pos = Some r.
Proof.
  revert q pos. induction fuel as [|fuel IH]; intros q pos Hfuel Hpos; [lia|]. simpl.
  destruct (parse_expression _ _ _) as [[st q']|]; [|by eauto].
  destruct (ok st); [|by eauto]. destruct (find_char "&" pos buf) as [e|] eqn:He; [|by eauto].
  apply find_if_from_bounds in He. apply IH; lia.
Qed.

Lemma segment_loop_total fuel q buf last :
  String.length buf - last < fuel → last ≤ String.length buf →
  ∃ r, segment_loop now fuel q buf last = Some r.
Proof.
  revert q last. induction fuel as [|fuel IH]; intros q last Hfuel Hlast; [lia|]. simpl.
  destruct (find_char slash (last + 1) buf) as [pos|] eqn:Hpos; [|by eauto].
  apply find_if_from_bounds in Hpos. case_bool_decide; [apply IH; lia|].
  destruct (parse_segment _ _ _) as [[st q']|]; [|by eauto].
  destruct (ok st); [apply IH; lia|by eauto].
Qed.
End termination.

(** ** Properties *)

Section properties.
Context `{LexicalCast Z} (now : Z).

(** The parser ends on every input.  The bounds the model puts on the loops
    of [parse_condition] and [parse] (one turn more than the length of the
    buffer) are never reached, so the results are those of the unbounded
    loops of the code. *)
Theorem query_parser_terminates (q : ComplexQuery) (buf : string) (pos : nat) :
  (∃ r, condition_loop now (S (String.length buf)) q buf 0 = Some r) ∧
  (find_char "?" 0 buf = Some pos →
   ∃ r, segment_loop now (S (String.length buf)) q buf (pos + 1) = Some r).
Proof.
  split; [apply condition_loop_total; lia|].
  intros Hpos%find_if_from_bounds. apply segment_loop_total; lia.
Qed.

Lemma parse_print (q : ComplexQuery) (root : string) c cs :
  starts_with "/" root = true → no_char "?" root → Forall plain_condition (c :: cs) →
  parse now q (print_query root c cs)
  = Done (OK, foldl add_condition {| root_ := root; range_query_map_ := range_query_map_ q |} (c :: cs)).
Proof.
  intros Hroot Hq Hcs. unfold print_query.
  set (dir := if bool_decide (root = "/") then "/" else root +:+ "/").
  set (conds := print_conditions c cs).
  assert (∃ t, dir = String slash t) as [t Hdir].
  { apply starts_with_spec in Hroot as [r ->]. unfold dir. case_bool_decide; [by eauto|].
    rewrite str_app_assoc. by eexists. }
  assert (find_if (λ x, bool_decide (x = "?"%char)) dir = None) as Hdq.
  { unfold dir. case_bool_decide; [done|]. apply find_if_app_None; done. }
  unfold parse.
  assert (str_empty (dir +:+ "?" +:+ conds) = false) as -> by by rewrite Hdir.
  assert (String.get 0 (dir +:+ "?" +:+ conds) = Some slash) as -> by by rewrite Hdir.
  cbn [negb check mbind run_bind]. rewrite bool_decide_eq_true_2 by done.
  cbn [check mbind run_bind].
  change ("?" +:+ conds) with (String "?" conds).
  unfold find_char, find_if_from. simpl str_drop at 1.
  rewrite find_if_app_Some by (done || by apply bool_decide_eq_true).
  cbn [fmap option_fmap option_map]. rewrite Nat.add_0_l.
  assert ((if bool_decide (1 < String.length dir)
           then str_take (String.length dir - 1) (dir +:+ String "?" conds) else "/") = root) as ->.
  { unfold dir. destruct (bool_decide_reflect (root = "/")) as [->|Hne]; [done|].
    rewrite str_length_app. simpl String.length. rewrite Nat.add_sub.
    rewrite bool_decide_eq_true_2.
    - by rewrite str_app_assoc, str_take_app.
    - apply starts_with_spec in Hroot as [r ->]. rewrite str_length_app. simpl. lia. }
  replace (dir +:+ String "?" conds) with ((dir +:+ "?") +:+ conds) by by rewrite str_app_assoc.
  replace (String.length dir + 1) with (String.length (dir +:+ "?")) by by rewrite str_length_app.
  apply segment_loop_print; [done|].
  unfold conds. lia.
Qed.

(** C26: queries survive printing and parsing.  For a search root that is [/] or
    an absolute path without question mark, and any non-empty list of
    conditions on numeric values (with the operators =, <, <=, > and >=),
    parsing [<root>/?<c1>&<c2>...] succeeds with that root and with exactly
    the ranges the conditions describe, later bounds replacing earlier ones
    on the same field. *)
Theorem query_print_parse (q : ComplexQuery) (root : string) c cs :
  starts_with "/" root = true → no_char "?" root → Forall plain_condition (c :: cs) →
  parse now q (print_query root c cs)
  = Done (OK, foldl add_condition {| root_ := root; range_query_map_ := range_query_map_ q |} (c :: cs)).
Proof. apply parse_print. Qed.
End properties.

(** ** Examples *)

(** [lexical_cast<uint64_t>] on decimal digits. *)
Module Decimal.
Fixpoint digits (acc : Z) (s : string) : option Z :=
  match s with
  | EmptyString => Some acc
  | String c s' =>
      let d := (Z.of_N (N_of_ascii c) - 48)%Z in
      if bool_decide (0 ≤ d ≤ 9)%Z then digits (10 * acc + d) s' else None
  end.
#[export] Instance cast : LexicalCast Z := λ s, if str_empty s then None else digits 0 s.
End Decimal.

Section witnesses.
Import Decimal.

Definition energy_above : condition := {| c_field := "energy"; c_op := GT; c_value := "10" |}.
Definition energy_upto : condition := {| c_field := "energy"; c_op := LE; c_value := "25" |}.

Lemma query_parser_terminates_witness :
  ∃ r, segment_loop 0 (S (String.length "/foo/?a=1")) new_query "/foo/?a=1" 6 = Some r.
Proof.
  exact (proj2 (query_parser_terminates 0 new_query "/foo/?a=1" 5) eq_refl).
Defined.

Lemma query_print_parse_witness :
  parse 0 new_query "/foo/?energy>10&energy<=25"
  = Done (OK, foldl add_condition {| root_ := "/foo"; range_query_map_ := ∅ |} [energy_above; energy_upto]).
Proof.
  apply (query_print_parse 0 new_query "/foo" energy_above [energy_upto]); [done|done|].
  repeat constructor; by vm_compute.
Defined.

(** Malformed queries abort the process instead of returning an error.  An
    empty condition (a doubled or trailing [&]) fails a [CHECK]; a value that
    is not a number, on a field other than the file attributes, raises
    [bad_lexical_cast]. *)
Theorem malformed_queries_abort :
  parse 0 new_query "/foo/?a>1&" = Fatal "!exp.empty()" ∧
  parse 0 new_query "/foo/?name=alice" = Fatal "bad_lexical_cast".
Proof. by vm_compute. Qed.

(** A path that continues after the query is cut one character short.  The
    first segment loses its first character when a slash follows it, so the
    field is misread, and a trailing slash makes the whole query fail. *)
Theorem slash_after_query_is_misparsed :
  (∃ q, parse 0 new_query "/foo/?energy>10/x" = Done (OK, q) ∧
        range_query q "energy" = None ∧ range_query q "nergy" ≠ None) ∧
  (∃ q, parse 0 new_query "/foo/?energy>10/" = Done (Err (-1) "Segment is empty.", q)).
Proof. split; eexists; vm_compute; [split_and!; [reflexivity..|discriminate]|reflexivity]. Qed.
End witnesses.
