(* ===== verification/QueryAst.v ===== *)
(** * The query syntax tree (query/ast.cpp, ast.h)

    [BinaryOpAst] is the only class of the hierarchy that can be instantiated.
    Nothing in the sources builds such a tree from a query yet; the textual
    queries are parsed by [ComplexQuery]. *)

From S2P Require Import Prelude CxxString.

(** ** Operators *)

Inductive OpCode :=
  | OP_UNKNOWN | OP_EQ | OP_NEQ | OP_GT | OP_GE | OP_LT | OP_LE | OP_ADD | OP_SUB | OP_MUL | OP_DIV
  | OP_MOD | OP_AND | OP_OR | OP_XOR.
#[export] Instance OpCode_eq_dec : EqDecision OpCode.
Proof. solve_decision. Defined.

(** The position in the enumeration. *)
Definition op_index (c : OpCode) : nat :=
  match c with
  | OP_UNKNOWN => 0 | OP_EQ => 1 | OP_NEQ => 2 | OP_GT => 3 | OP_GE => 4 | OP_LT => 5 | OP_LE => 6
  | OP_ADD => 7 | OP_SUB => 8 | OP_MUL => 9 | OP_DIV => 10 | OP_MOD => 11 | OP_AND => 12 | OP_OR => 13
  | OP_XOR => 14
  end.

Definition parse_op (op : string) : OpCode :=
  if bool_decide (op = "=") then OP_EQ
  else if bool_decide (op = "!=") then OP_NEQ
  else if bool_decide (op = ">") then OP_GT
  else if bool_decide (op = ">=") then OP_GE
  else if bool_decide (op = "<") then OP_LT
  else if bool_decide (op = "<=") then OP_LE
  else if bool_decide (op = "+") then OP_ADD
  else if bool_decide (op = "-") then OP_SUB
  else if bool_decide (op = "*") then OP_MUL
  else if bool_decide (op = "/") then OP_DIV
  else if bool_decide (op = "%") then OP_MOD
  else if bool_decide (op = "&") then OP_AND
  else if bool_decide (op = "|") then OP_OR
  else if bool_decide (op = "^") then OP_XOR
  else OP_UNKNOWN.

Inductive ValueType :=
  | VT_UNKNOWN | VT_BOOL | VT_INT8 | VT_UINT8 | VT_INT16 | VT_UINT16 | VT_INT32 | VT_UINT32 | VT_INT64
  | VT_UINT64 | VT_FLOAT | VT_DOUBLE | VT_STRING.

(** ** Trees *)

(** A null pointer is [None]. *)
Inductive AST := BinaryOpAst (opcode_ : OpCode) (left_ right_ : option AST).

Definition opcode (t : AST) : OpCode := let '(BinaryOpAst c _ _) := t in c.
Definition left (t : AST) : option AST := let '(BinaryOpAst _ l _) := t in l.
Definition right (t : AST) : option AST := let '(BinaryOpAst _ _ r) := t in r.

Definition new_ast : AST := BinaryOpAst OP_UNKNOWN None None.
Definition new_op (code : OpCode) : AST := BinaryOpAst code None None.
Definition new_op_string (opstr : string) : AST := BinaryOpAst (parse_op opstr) None None.
Definition set_opcode (code : OpCode) (t : AST) : AST := BinaryOpAst code (left t) (right t).
Definition set_left (l : option AST) (t : AST) : AST := BinaryOpAst (opcode t) l (right t).
Definition set_right (r : option AST) (t : AST) : AST := BinaryOpAst (opcode t) (left t) r.

Fixpoint valid (t : AST) : bool :=
  match t with
  | BinaryOpAst _ (Some l) (Some r) => valid l && valid r
  | _ => false
  end.

Definition value_type (t : AST) : ValueType :=
  if bool_decide (op_index OP_AND ≤ op_index (opcode t)) && bool_decide (op_index (opcode t) ≤ op_index OP_XOR)
  then VT_BOOL else VT_INT64.

(** ** Properties *)

(** The string of an operator, as the constructor takes it. *)
Definition op_string (c : OpCode) : option string :=
  match c with
  | OP_UNKNOWN => None
  | OP_EQ => Some "=" | OP_NEQ => Some "!=" | OP_GT => Some ">" | OP_GE => Some ">=" | OP_LT => Some "<"
  | OP_LE => Some "<=" | OP_ADD => Some "+" | OP_SUB => Some "-" | OP_MUL => Some "*" | OP_DIV => Some "/"
  | OP_MOD => Some "%" | OP_AND => Some "&" | OP_OR => Some "|" | OP_XOR => Some "^"
  end.

(** Every operator has exactly one spelling, and every other string is the
    unknown operator. *)
Lemma parse_op_spec s c : parse_op s = c ↔ op_string c = Some s ∨ (c = OP_UNKNOWN ∧ ∀ c', op_string c' ≠ Some s).
Proof.
  split.
  - intros <-. unfold parse_op. repeat (case_bool_decide; [subst; by left|]). right. split; [done|].
    intros [] [=]; congruence.
  - intros [Hc|[-> Hn]]; [destruct c; simplify_eq/=; reflexivity|].
    unfold parse_op. repeat (case_bool_decide; [subst; exfalso|]); [..|done].
    all: first [by apply (Hn OP_EQ)|by apply (Hn OP_NEQ)|by apply (Hn OP_GT)|by apply (Hn OP_GE)
      |by apply (Hn OP_LT)|by apply (Hn OP_LE)|by apply (Hn OP_ADD)|by apply (Hn OP_SUB)|by apply (Hn OP_MUL)
      |by apply (Hn OP_DIV)|by apply (Hn OP_MOD)|by apply (Hn OP_AND)|by apply (Hn OP_OR)|by apply (Hn OP_XOR)].
Qed.

(** No tree is valid: a valid operator has two valid operands, and there is no
    other kind of node to end with. *)
Lemma never_valid t : valid t = false.
Proof.
  revert t. fix IH 1. intros [c l r]. destruct l as [l|]; [|done]. destruct r as [r|]; [|done].
  simpl. by rewrite (IH l).
Qed.

(** Comparisons have the type of a number. *)
Lemma comparison_value_type l r : value_type (BinaryOpAst OP_EQ l r) = VT_INT64.
Proof. done. Qed.
