(* ===== verification/Client.v ===== *)
(** * The RPC client (client/vsfs_rpc_client.cpp)

    The client keeps copies of the rings of the master and index servers, finds
    the server in charge of a path or of an object id, and calls it.  The
    servers are behind the interface [ClusterRpc]: a world [W] and one function
    per remote call, whose outcome is a reply, an [RpcInvalidOp] exception or a
    [TTransportException].  [add_subfile] and [remove_subfile] contain a loop
    that need not end: the functions that call them take a bound on the turns of
    that loop, and return [None] when it is reached. *)

From S2P Require Import Prelude CxxString Platform PathUtil ThriftUtils LogManager IndexManager.
From S2P Require Import RangeIndex ServerMap Namespace ComplexQuery Posix.
From Stdlib Require Import Ascii.

(** ** Remote calls *)

Inductive outcome (A : Type) :=
  | Reply (a : A)
  | Invalid (ouch : RpcInvalidOp)
  | Transport (type : Z) (what : string).
Arguments Reply {A} a. Arguments Invalid {A} ouch. Arguments Transport {A} type what.

Class ClusterRpc (W : Type) := {
  m_get_all_masters : W → RpcNodeAddress → outcome (gmap Z RpcNodeAddress) * W;
  m_get_all_index_servers : W → RpcNodeAddress → outcome (gmap Z RpcNodeAddress) * W;
  m_create : W → RpcNodeAddress → string → Z → Z → Z → outcome Z * W;
  m_remove : W → RpcNodeAddress → string → outcome Z * W;
  m_object_id : W → RpcNodeAddress → string → outcome Z * W;
  m_mkdir : W → RpcNodeAddress → string → RpcFileInfo → outcome () * W;
  m_rmdir : W → RpcNodeAddress → string → outcome () * W;
  m_add_subfile : W → RpcNodeAddress → string → string → outcome () * W;
  m_remove_subfile : W → RpcNodeAddress → string → string → outcome () * W;
  m_readdir : W → RpcNodeAddress → string → outcome (list string) * W;
  m_getattr : W → RpcNodeAddress → string → outcome RpcFileInfo * W;
  m_setattr : W → RpcNodeAddress → string → RpcFileInfo → outcome () * W;
  m_find_files : W → RpcNodeAddress → list Z → outcome (list string) * W;
  m_locate_indices_for_search :
    W → RpcNodeAddress → string → list string → outcome (list string) * W;
  i_search : W → RpcNodeAddress → RpcComplexQuery → outcome (list Z) * W;
}.

(** [catch (RpcInvalidOp)] and [catch (TTransportException)] of most calls:
    the [Status] of an exception; [None] for a reply. *)
Definition status_of_outcome {A} (o : outcome A) : option Status :=
  match o with
  | Reply _ => None
  | Invalid ouch => Some (status_of_exception ouch)
  | Transport type what => Some (Err type what)
  end.

(** A loop that may not have ended yet. *)
Definition late (A : Type) : Type := option (run A).
Definition late_bind {A B} (p : late A) (f : A → late B) : late B :=
  match p with
  | None => None
  | Some (Fatal why) => Some (Fatal why)
  | Some (Done a) => f a
  end.
Notation "'AWAIT' x ⇐ p ;; e" := (late_bind p (λ x, e))
  (at level 100, x strict pattern, p at level 50, e at level 200, right associativity) : vsfs_scope.
Definition ends {A} (a : A) : late A := Some (Done a).

Record VSFSRpcClient (R : Type) := {
  primary_ : RpcNodeAddress;
  master_map_ : R;
  index_server_map_ : R;
}.
Arguments primary_ {R}. Arguments master_map_ {R}. Arguments index_server_map_ {R}.

Definition kNumBackOffs : nat := 3.

(** ** Addresses as strings *)

Definition address_to_string (addr : RpcNodeAddress) : string :=
  host addr +:+ ":" +:+ to_string (port addr).

(** [std::stoi] on an optional minus sign and decimal digits. *)
Definition stoi (s : string) : run Z :=
  let parse s := match s with
                 | String c s' => match is_digit c with
                                  | Some d => Done (Z.of_N (read_digits d s').1)
                                  | None => Fatal "std::invalid_argument"
                                  end
                 | EmptyString => Fatal "std::invalid_argument"
                 end in
  match trim_left s with
  | String "-" s' => Z.opp <$> parse s'
  | s' => parse s'
  end.

Definition string_to_address (addr_str : string) : run RpcNodeAddress :=
  match find_char ":" 0 addr_str with
  | None => Fatal "2u == fields.size()"
  | Some i =>
      let rest := str_drop (S i) addr_str in
      match find_char ":" 0 rest with
      | Some _ => Fatal "2u == fields.size()"
      | None => p ← stoi rest; Done {| host := str_take i addr_str; port := p |}
      end
  end.

Section client.
Context {W R : Type} `{ClusterRpc W, ConsistentHashMap R NodeInfo, MD5, BoostFilesystem}.

Abbreviation client := (VSFSRpcClient R).

(** *** Membership *)

Definition add_all (sm : R) (ring : gmap Z RpcNodeAddress) : R :=
  foldl (λ sm p, (add_at sm p.1 (node_of p.2)).2) sm (sorted_map Z.le ring).

(** [RpcInvalidOp] is not caught by the two [sync] functions. *)
Definition sync_master_server_map (c : client) (w : W) : run (Status * client * W) :=
  match m_get_all_masters w (primary_ c) with
  | (Reply ring, w) =>
      Done (OK, {| primary_ := primary_ c; master_map_ := add_all (master_map_ c) ring;
                   index_server_map_ := index_server_map_ c |}, w)
  | (Transport type what, w) => Done (Err type what, c, w)
  | (Invalid _, w) => Fatal "uncaught RpcInvalidOp"
  end.

Definition sync_index_server_map (c : client) (w : W) : run (Status * client * W) :=
  match m_get_all_index_servers w (primary_ c) with
  | (Reply ring, w) =>
      Done (OK, {| primary_ := primary_ c; master_map_ := master_map_ c;
                   index_server_map_ := add_all (index_server_map_ c) ring |}, w)
  | (Transport type what, w) => Done (Err type what, c, w)
  | (Invalid _, w) => Fatal "uncaught RpcInvalidOp"
  end.

(** The constructor, from the address of the primary. *)
Definition new_client (host : string) (port : Z) : client :=
  {| primary_ := {| host := host; port := port |}; master_map_ := ch_new; index_server_map_ := ch_new |}.

Definition is_initialized (c : client) : bool := negb (empty (master_map_ c)).

(** [connect], [init]; [dial] opens the connection to a server. *)
Definition connect (dial : W → RpcNodeAddress → outcome () * W) (c : client) (host : string) (port : Z)
    (w : W) : Status * client * W :=
  let addr := {| host := host; port := port |} in
  let c := {| primary_ := addr; master_map_ := master_map_ c;
              index_server_map_ := index_server_map_ c |} in
  match dial w addr with
  | (Reply _, w) => (OK, c, w)
  | (Transport type what, w) => (Err type what, c, w)
  | (Invalid _, w) => (Err (-1) "Unknown connection error", c, w)
  end.

Definition init (dial : W → RpcNodeAddress → outcome () * W) (c : client) (w : W)
    : run (Status * client * W) :=
  let '(status, c, w) := connect dial c (host (primary_ c)) (port (primary_ c)) w in
  if negb (ok status) then Done (status, c, w) else
  '(status, c, w) ← sync_master_server_map c w;
  if negb (ok status) then Done (status, c, w) else
  '(status, c, w) ← sync_index_server_map c w;
  if negb (ok status) then Done (status, c, w) else Done (OK, c, w).

(** [CHECK(master_map_.get(...).ok())] *)
Definition check_get (r : Status * option NodeInfo) : run NodeInfo :=
  if ok r.1 then Done (default no_node r.2) else Fatal "master_map_.get().ok()".

(** *** Directory entries *)

(** The retry loop: an [RpcInvalidOp] does not use up a retry. *)
Fixpoint subfile_loop (call : W → outcome () * W) (fuel backoff : nat) (status : Status) (w : W)
    : late (Status * W) :=
  match backoff with
  | 0 => ends (status, w)
  | S backoff' =>
      match fuel with
      | 0 => None
      | S fuel' =>
          match call w with
          | (Reply _, w) => ends (status, w)
          | (Invalid ouch, w) => subfile_loop call fuel' backoff (status_of_exception ouch) w
          | (Transport type what, w) => subfile_loop call fuel' backoff' (Err type what) w
          end
      end
  end.

Definition change_subfile (call : W → RpcNodeAddress → string → string → outcome () * W)
    (fuel : nat) (c : client) (path : string) (w : W) : late (Status * W) :=
  if bool_decide (path = "/") then ends (OK, w)
  else
    let parent := fs_parent_path path in
    let filename := fs_filename path in
    let '(status, node) := get (master_map_ c) (path_to_hash parent) in
    if ok status then
      subfile_loop (λ w, call w (address (default no_node node)) parent filename)
        fuel kNumBackOffs status w
    else Some (Fatal "status.ok()").

Definition add_subfile := change_subfile m_add_subfile.
Definition remove_subfile := change_subfile m_remove_subfile.

(** *** Files *)

(** A successful attempt does not reset the status of a failed one. *)
Fixpoint create_loop (addr : RpcNodeAddress) (path : string) (mode uid gid : Z) (backoff : nat)
    (status : Status) (id : option Z) (w : W) : Status * option Z * W :=
  match backoff with
  | 0 => (status, id, w)
  | S backoff' =>
      match m_create w addr path mode uid gid with
      | (Reply id', w) => (status, Some id', w)
      | (Invalid ouch, w) =>
          create_loop addr path mode uid gid backoff' (status_of_exception ouch) id w
      | (Transport type what, w) =>
          create_loop addr path mode uid gid backoff' (Err type what) id w
      end
  end.

Definition not_initialized : Status := Err (-1) "The client has not initialized yet.".

Definition create (fuel : nat) (c : client) (path : string) (mode uid gid : Z) (w : W)
    : late (Status * option Z * W) :=
  if negb (is_initialized c) then ends (not_initialized, None, w) else
  let '(status, file_node) := get (master_map_ c) (path_to_hash path) in
  if negb (ok status) then ends (status, None, w) else
  let addr := address (default no_node file_node) in
  let '(status, id, w) :=
    create_loop addr path (Z.lor mode S_IFREG) uid gid kNumBackOffs status None w in
  if negb (ok status) then ends (status, id, w) else
  AWAIT (status, w) ⇐ add_subfile fuel c path w;;
  if ok status then ends (OK, id, w)
  else
    let '(o, w) := m_remove w addr path in
    ends (default OK (status_of_outcome o), id, w).

(** [RpcInvalidOp] is not caught. *)
Definition open (c : client) (path : string) (w : W) : run (Status * option Z * W) :=
  let '(status, node) := get (master_map_ c) (path_to_hash path) in
  if negb (ok status) then Done (status, None, w) else
  match m_object_id w (address (default no_node node)) path with
  | (Reply oid, w) => Done (OK, Some oid, w)
  | (Invalid _, w) => Fatal "uncaught RpcInvalidOp"
  | (Transport type what, w) => Done (Err type what, None, w)
  end.

Definition unlink (fuel : nat) (c : client) (path : string) (w : W) : late (Status * option Z * W) :=
  AWAIT (status, w) ⇐ remove_subfile fuel c path w;;
  if negb (ok status) then ends (status, None, w) else
  late_bind (Some (check_get (get_path (master_map_ c) path))) (λ node,
    match m_remove w (address node) path with
    | (Reply oid, w) => ends (OK, Some oid, w)
    | (o, w) => ends (default OK (status_of_outcome o), None, w)
    end).

Definition dir_info (mode uid gid : Z) : RpcFileInfo :=
  {| fi_object_id := None; fi_uid := Some uid; fi_gid := Some gid;
     fi_mode := Some (Z.lor mode S_IFDIR);
     fi_size := None; fi_ctime := None; fi_mtime := None; fi_atime := None |}.

(** The roll back calls [remove], and does not catch [RpcInvalidOp]. *)
Definition mkdir (fuel : nat) (c : client) (path : string) (mode uid gid : Z) (w : W)
    : late (Status * W) :=
  if negb (is_initialized c) then ends (not_initialized, w) else
  let '(status, node) := get (master_map_ c) (path_to_hash path) in
  if negb (ok status) then ends (status, w) else
  let addr := address (default no_node node) in
  match m_mkdir w addr path (dir_info mode uid gid) with
  | (Reply _, w) =>
      AWAIT (status, w) ⇐ add_subfile fuel c path w;;
      if ok status then ends (OK, w)
      else
        match m_remove w addr path with
        | (Reply _, w) => ends (OK, w)
        | (Invalid _, w) => Some (Fatal "uncaught RpcInvalidOp")
        | (Transport type what, w) => ends (Err type what, w)
        end
  | (o, w) => ends (default OK (status_of_outcome o), w)
  end.

Definition rmdir (fuel : nat) (c : client) (path : string) (w : W) : late (Status * W) :=
  if negb (is_initialized c) then ends (not_initialized, w) else
  let '(status, node) := get (master_map_ c) (path_to_hash path) in
  if negb (ok status) then ends (status, w) else
  match m_rmdir w (address (default no_node node)) path with
  | (Reply _, w) =>
      AWAIT (status, w) ⇐ remove_subfile fuel c path w;;
      if ok status then ends (OK, w) else ends (status, w)
  | (o, w) => ends (default OK (status_of_outcome o), w)
  end.

(** A call to the master of a path whose exceptions become the status. *)
Definition at_master {A} (c : client) (path : string) (call : RpcNodeAddress → W → outcome A * W)
    (w : W) : run (Status * option A * W) :=
  node ← check_get (get_path (master_map_ c) path);
  match call (address node) w with
  | (Reply a, w) => Done (OK, Some a, w)
  | (o, w) => Done (default OK (status_of_outcome o), None, w)
  end.

Definition readdir (c : client) (dirpath : string) (w : W) :=
  at_master c dirpath (λ addr w, m_readdir w addr dirpath) w.
Definition getattr (c : client) (path : string) (w : W) :=
  at_master c path (λ addr w, m_getattr w addr path) w.
Definition no_file_info : RpcFileInfo :=
  {| fi_object_id := None; fi_uid := None; fi_gid := None; fi_mode := None;
     fi_size := None; fi_ctime := None; fi_mtime := None; fi_atime := None |}.
(** [getattr(path, struct stat* stbuf)]; a field that the reply leaves out is 0. *)
Definition stat_of_info (info : RpcFileInfo) (stbuf : Stat) : Stat :=
  {| st_dev := st_dev stbuf; st_ino := st_ino stbuf; st_mode := default 0%Z (fi_mode info);
     st_nlink := st_nlink stbuf; st_uid := default 0%Z (fi_uid info);
     st_gid := default 0%Z (fi_gid info); st_rdev := st_rdev stbuf;
     st_size := default 0%Z (fi_size info); st_blksize := st_blksize stbuf;
     st_blocks := st_blocks stbuf; st_atime := default 0%Z (fi_atime info);
     st_mtime := default 0%Z (fi_mtime info); st_ctime := default 0%Z (fi_ctime info) |}.
Definition getattr_stat (c : client) (path : string) (stbuf : Stat) (w : W) : run (Status * Stat * W) :=
  '(status, info, w) ← getattr c path w;
  if ok status then Done (OK, stat_of_info (default no_file_info info) stbuf, w)
  else Done (status, stbuf, w).
Definition object_id (c : client) (path : string) (w : W) :=
  at_master c path (λ addr w, m_object_id w addr path) w.
Definition setattr (c : client) (path : string) (info : RpcFileInfo) (w : W) :=
  at_master c path (λ addr w, m_setattr w addr path info) w.

Definition chmod (c : client) (path : string) (mode : Z) (w : W) :=
  setattr c path (set_mode mode) w.
Definition chown (c : client) (path : string) (uid gid : Z) (w : W) :=
  setattr c path
    {| fi_object_id := None; fi_uid := Some uid; fi_gid := Some gid; fi_mode := None;
       fi_size := None; fi_ctime := None; fi_mtime := None; fi_atime := None |} w.
Definition utimens (c : client) (path : string) (atime mtime : Z) (w : W) :=
  setattr c path
    {| fi_object_id := None; fi_uid := None; fi_gid := None; fi_mode := None;
       fi_size := None; fi_ctime := None; fi_mtime := Some mtime; fi_atime := Some atime |} w.

(** *** Search *)

Fixpoint locate_on (root : string) (names : list string) (nodes : list (Z * NodeInfo))
    (indices : list string) (w : W) : Status * list string * W :=
  match nodes with
  | [] => (OK, indices, w)
  | (_, node) :: nodes' =>
      match m_locate_indices_for_search w (address node) root names with
      | (Reply results, w) => locate_on root names nodes' (indices ++ results) w
      | (o, w) =>
          let status := default OK (status_of_outcome o) in
          if ok status then locate_on root names nodes' indices w else (status, indices, w)
      end
  end.

Definition locate_index_for_search (c : client) (q : ComplexQuery) (w : W)
    : Status * list string * W :=
  locate_on (root_ q) (get_names_of_range_queries q)
    (sorted_map Z.le (get_ch_ring_as_map (master_map_ c))) [] w.

Fixpoint plan_partitions (c : client) (indices : list string) (plan : gmap string (gset string))
    : run (gmap string (gset string)) :=
  match indices with
  | [] => Done plan
  | index_path :: indices' =>
      let partition_path := index_path +:+ "/0" in
      node ← check_get (get (index_server_map_ c) (path_to_hash partition_path));
      let addr := address_to_string (address node) in
      plan_partitions c indices'
        (<[addr := {[partition_path]} ∪ default ∅ (plan !! addr)]> plan)
  end.

Definition gen_search_plan (c : client) (q : ComplexQuery) (w : W)
    : run (Status * gmap string (gset string) * W) :=
  let '(status, indices, w) := locate_index_for_search c q w in
  if ok status then plan ← plan_partitions c indices ∅; Done (OK, plan, w)
  else Done (status, ∅, w).

(** The query sent for one partition [<root>/.vsfs/<name>/<sep>]. *)
Definition sub_query (q : ComplexQuery) (part : string) : run RpcRangeQuery :=
  let index_name := fs_filename (fs_parent_path part) in
  match range_query q index_name with
  | None => Fatal "range is null"
  | Some range =>
      Done {| q_index_path := part; q_name := index_name;
              q_lower := lower range; q_lower_open := negb (lower_closed range);
              q_upper := upper range; q_upper_open := negb (upper_closed range) |}
  end.

Fixpoint sub_queries (q : ComplexQuery) (parts : list string) : run (list RpcRangeQuery) :=
  match parts with
  | [] => Done []
  | part :: parts' => s ← sub_query q part; l ← sub_queries q parts'; Done (s :: l)
  end.

(** [txn_id] is never set: a default-constructed request has 0. *)
Fixpoint search_servers (q : ComplexQuery) (plan : list (string * gset string)) (objects : list Z)
    (w : W) : run (Status * list Z * W) :=
  match plan with
  | [] => Done (OK, objects, w)
  | (addr, parts) :: plan' =>
      a ← string_to_address addr;
      queries ← sub_queries q (sorted_elements String.le parts);
      match i_search w a {| cq_txn_id := 0; cq_root := root_ q; cq_range_queries := queries |} with
      | (Reply tmp, w) => search_servers q plan' (objects ++ tmp) w
      | (o, w) => Done (default OK (status_of_outcome o), objects, w)
      end
  end.

Fixpoint plan_objects (c : client) (objects : list Z) (plan : gmap string (list Z))
    : run (gmap string (list Z)) :=
  match objects with
  | [] => Done plan
  | obj :: objects' =>
      node ← check_get (get (master_map_ c) obj);
      let addr := address_to_string (address node) in
      plan_objects c objects' (<[addr := default [] (plan !! addr) ++ [obj]]> plan)
  end.

Fixpoint resolve_objects (plan : list (string * list Z)) (paths : list string) (w : W)
    : run (Status * list string * W) :=
  match plan with
  | [] => Done (OK, paths, w)
  | (addr, objs) :: plan' =>
      a ← string_to_address addr;
      match m_find_files w a objs with
      | (Reply tmp, w) => resolve_objects plan' (paths ++ tmp) w
      | (o, w) => Done (default OK (status_of_outcome o), paths, w)
      end
  end.

Definition get_file_paths_from_objects (c : client) (objects : list Z) (w : W)
    : run (Status * list string * W) :=
  plan ← plan_objects c objects ∅;
  resolve_objects (sorted_map String.le plan) [] w.

Definition search (c : client) (q : ComplexQuery) (w : W) : run (Status * list string * W) :=
  '(status, plan, w) ← gen_search_plan c q w;
  if negb (ok status) then Done (status, [], w) else
  '(status, objects, w) ← search_servers q (sorted_map String.le plan) [] w;
  if negb (ok status) then Done (status, [], w) else
  '(status, paths, w) ← get_file_paths_from_objects c objects w;
  if ok status then Done (OK, paths, w) else Done (status, paths, w).
End client.

(** ** Lemmas *)

Section lemmas.
Context {W R : Type} `{!ClusterRpc W, !ConsistentHashMap R NodeInfo, !MD5, !BoostFilesystem}.
Context `{!ConsistentHashMapSpec R NodeInfo, !MD5Spec}.

Lemma add_all_view (sm : R) (l : list (Z * RpcNodeAddress)) :
  NoDup l.*1 → (∀ k, k ∈ l.*1 → ch_view sm !! k = None) →
  ch_view (foldl (λ sm p, (add_at sm p.1 (node_of p.2)).2) sm l)
  = (node_of <$> list_to_map l) ∪ ch_view sm.
Proof.
  revert sm. induction l as [|[k a] l IH]; intros sm Hnd Hnew; simpl.
  { by rewrite fmap_empty, (left_id_L ∅ (∪)). }
  simpl in *. apply NoDup_cons in Hnd as [Hk Hnd].
  pose proof (add_at_spec sm k (node_of a)) as Hadd.
  assert (ch_view sm !! k = None) as Hnone by (apply Hnew; left).
  rewrite decide_False in Hadd by (by rewrite Hnone; intros []).
  destruct Hadd as (sm'&->&Hview). simpl. rewrite IH; [|done|].
  - rewrite Hview, fmap_insert, <-insert_union_l, insert_union_r; [done|].
    by rewrite lookup_fmap, not_elem_of_list_to_map_1.
  - intros k' Hk'. rewrite Hview, lookup_insert_ne by (by intros ->). apply Hnew. by right.
Qed.

Lemma add_all_new (ring : gmap Z RpcNodeAddress) :
  ch_view (add_all ch_new ring) = node_of <$> ring.
Proof.
  unfold add_all. rewrite add_all_view.
  - by rewrite ch_new_spec, (right_id_L ∅ (∪)), list_to_map_sorted_map.
  - apply NoDup_sorted_map_fst.
  - intros k _. by rewrite ch_new_spec, lookup_empty.
Qed.

Lemma subfile_loop_refused (call : W → outcome () * W) ouch w fuel backoff status :
  call w = (Invalid ouch, w) → subfile_loop call fuel (S backoff) status w = None.
Proof.
  intros Hcall. revert status. induction fuel as [|fuel IH]; intros status; simpl; [done|].
  rewrite Hcall. apply IH.
Qed.

(** With no refusals, one turn per retry is enough. *)
Lemma subfile_loop_ends (call : W → outcome () * W) fuel backoff status w :
  (∀ w ouch w', call w ≠ (Invalid ouch, w')) → backoff ≤ fuel →
  ∃ r, subfile_loop call fuel backoff status w = ends r.
Proof.
  intros Hcall. revert backoff status w. induction fuel as [|fuel IH]; intros backoff status w Hle;
    (destruct backoff as [|backoff]; simpl; [by eauto|]); [lia|].
  destruct (call w) as [[| |] w'] eqn:Hw; [by eauto|by destruct (Hcall w ouch w')|].
  apply IH. lia.
Qed.

Lemma elem_of_plan_partitions (c : VSFSRpcClient R) indices plan0 plan :
  plan_partitions c indices plan0 = Done plan →
  ∀ addr part, part ∈ default ∅ (plan !! addr) ↔
    part ∈ default ∅ (plan0 !! addr) ∨
    ∃ idx node, idx ∈ indices ∧ part = idx +:+ "/0" ∧
      get (index_server_map_ c) (path_to_hash part) = (OK, Some node) ∧
      addr = address_to_string (address node).
Proof.
  revert plan0. induction indices as [|idx indices IH]; intros plan0 Hp addr part; simpl in Hp.
  { simplify_eq. split; [by left|]. intros [?|(?&?&?%elem_of_nil&_)]; done. }
  pose proof (get_spec (index_server_map_ c) (path_to_hash (idx +:+ "/0"))) as Hget.
  unfold check_get in Hp. rewrite Hget in Hp.
  destruct (ring_owner _ _) as [node|]; [|done]. simpl in Hp.
  rewrite (IH _ Hp). rewrite lookup_insert. case_decide as Ha; subst; simpl.
  - rewrite elem_of_union, elem_of_singleton. split.
    + intros [[->|?]|(idx'&node'&?&?)]; [|by left|].
      * right. exists idx, node. split_and!; [left|done..].
      * right. exists idx', node'. split; [by right|done].
    + intros [?|(idx'&node'&[->|?]%elem_of_cons&->&?&?)]; [by left; right|by left; left|].
      right. exists idx', node'. split_and!; done.
  - split.
    + intros [?|(idx'&node'&?&?)]; [by left|]. right. exists idx', node'. split; [by right|done].
    + intros [?|(idx'&node'&[->|?]%elem_of_cons&->&?&?)]; [by left| |].
      * destruct Ha. congruence.
      * right. exists idx', node'. split_and!; done.
Qed.

(** Between the hash of a path and its object ids there is no position. *)
Lemma object_id_same_owner (sm : R) (path : string) (counter : Z) :
  (∀ pos, is_Some (ch_view sm !! pos) → Z.shiftr pos 48 ≠ Z.shiftr (path_to_hash path) 48) →
  get sm (object_id_of path counter) = get_path sm path.
Proof.
  intros Hfree. unfold get_path. rewrite !get_spec.
  assert (ring_owner (ch_view sm) (object_id_of path counter)
          = ring_owner (ch_view sm) (path_to_hash path)) as ->; [|done].
  apply ring_owner_between. intros k Hk. specialize (Hfree k Hk).
  pose proof (object_id_high path counter) as Hhigh.
  rewrite !Z.shiftr_div_pow2 in * by lia.
  pose proof (Z.div_mod k (2 ^ 48)). pose proof (Z.mod_pos_bound k (2 ^ 48)).
  set (h := path_to_hash path) in *. set (o := object_id_of path counter) in *.
  pose proof (Z.div_mod h (2 ^ 48)). pose proof (Z.mod_pos_bound h (2 ^ 48)).
  pose proof (Z.div_mod o (2 ^ 48)). pose proof (Z.mod_pos_bound o (2 ^ 48)).
  nia.
Qed.
End lemmas.

(** ** Properties *)

Section properties.
Context {W R : Type} `{!ClusterRpc W, !ConsistentHashMap R NodeInfo, !MD5, !BoostFilesystem}.
Context `{!ConsistentHashMapSpec R NodeInfo, !MD5Spec}.

(** C35: a client routes like the primary.  When the primary answers
    [get_all_masters] with the addresses of its ring, a client that connects
    ends up with a ring in which every hash value belongs to a server at the
    same address as in the primary's own ring. *)
Theorem client_routes_like_primary (c : VSFSRpcClient R) (primary : R) (w w' : W) :
  master_map_ c = ch_new →
  m_get_all_masters w (primary_ c) = (Reply (address <$> get_ch_ring_as_map primary), w') →
  ∃ c', sync_master_server_map c w = Done (OK, c', w') ∧
    ∀ h, (get (master_map_ c') h).1 = (get primary h).1 ∧
         address <$> (get (master_map_ c') h).2 = address <$> (get primary h).2.
Proof.
  intros Hc Hcall. unfold sync_master_server_map. rewrite Hcall. eexists. split; [done|].
  intros h. simpl. rewrite !get_spec, Hc, add_all_new, get_ch_ring_as_map_spec.
  rewrite !ring_owner_fmap. by destruct (ring_owner (ch_view primary) h).
Qed.

(** An object id leads to the master of its file.  The id of a file shares
    the top 16 bits of the hash of its path, so when no server sits at a
    position with these same top bits, [get_file_paths_from_objects] plans to
    ask for the object at the server that [create] used for the path. *)
Theorem object_ids_route_like_paths (c : VSFSRpcClient R) (path : string) (counter : Z) node
    (objects : list Z) (plan : gmap string (list Z)) :
  (∀ pos, is_Some (ch_view (master_map_ c) !! pos) →
          Z.shiftr pos 48 ≠ Z.shiftr (path_to_hash path) 48) →
  get_path (master_map_ c) path = (OK, Some node) →
  let oid := object_id_of path counter in
  let addr := address_to_string (address node) in
  plan_objects c (oid :: objects) plan
  = plan_objects c objects (<[addr := default [] (plan !! addr) ++ [oid]]> plan).
Proof.
  intros Hfree Hget oid addr. simpl. unfold oid. by rewrite object_id_same_owner, Hget.
Qed.

(** A search reaches every index that was located.  The plan holds, for
    every index path the masters returned, its partition 0 under the address
    of the index server in charge of it, and holds nothing else. *)
Theorem search_plan_exact (c : VSFSRpcClient R) (q : ComplexQuery) (w w' : W) indices plan :
  locate_index_for_search c q w = (OK, indices, w') →
  gen_search_plan c q w = Done (OK, plan, w') →
  ∀ addr part, part ∈ default ∅ (plan !! addr) ↔
    ∃ idx node, idx ∈ indices ∧ part = idx +:+ "/0" ∧
      get (index_server_map_ c) (path_to_hash part) = (OK, Some node) ∧
      addr = address_to_string (address node).
Proof.
  intros Hloc Hgen addr part. unfold gen_search_plan in Hgen. rewrite Hloc in Hgen. simpl in Hgen.
  destruct (plan_partitions c indices ∅) as [plan'|] eqn:Hp; simplify_eq/=.
  rewrite (elem_of_plan_partitions _ _ _ _ Hp), lookup_empty. set_solver.
Qed.

(** A refused directory entry hangs the client.  When the master of the
    parent directory refuses [add_subfile] and its state does not change (a
    missing parent, or an entry that exists), the retry loop never uses up a
    retry: [create] and [mkdir] of the client do not return, whatever the
    bound. *)
Theorem refused_entry_hangs_client (c : VSFSRpcClient R) (path : string) (w : W) node ouch :
  path ≠ "/" → get_path (master_map_ c) (fs_parent_path path) = (OK, Some node) →
  m_add_subfile w (address node) (fs_parent_path path) (fs_filename path) = (Invalid ouch, w) →
  ∀ fuel, add_subfile fuel c path w = None.
Proof.
  intros Hpath Hget Hcall fuel. unfold add_subfile, change_subfile.
  rewrite bool_decide_eq_false_2 by done. unfold get_path in Hget. rewrite Hget. simpl ok. cbv iota.
  by eapply subfile_loop_refused.
Qed.

(** A retry that succeeds is reported as a failure.  When the first attempt
    to create a file fails in the transport with a non-zero code and the
    second one succeeds, [create] returns the error of the first attempt,
    although the master has created the file, and the entry in the parent
    directory is missing. *)
Theorem successful_retry_is_reported_as_failure (c : VSFSRpcClient R) path mode uid gid
    (w w1 w2 : W) node type what oid fuel :
  empty (master_map_ c) = false → get_path (master_map_ c) path = (OK, Some node) →
  m_create w (address node) path (Z.lor mode S_IFREG) uid gid = (Transport type what, w1) →
  type ≠ 0%Z →
  m_create w1 (address node) path (Z.lor mode S_IFREG) uid gid = (Reply oid, w2) →
  create fuel c path mode uid gid w = ends (Err type what, Some oid, w2).
Proof.
  intros Hinit Hget Hc1 Htype Hc2. unfold create, is_initialized. rewrite Hinit. simpl negb. cbv iota.
  unfold get_path in Hget. rewrite Hget. simpl. rewrite Hc1. simpl. rewrite Hc2.
  simpl. by rewrite (proj2 (Z.eqb_neq type 0)).
Qed.
End properties.

(** ** Witnesses: servers that answer from a script *)

Section witnesses.
Import Reference.

Definition addr_a : RpcNodeAddress := {| host := "a"; port := 9876 |}.
Definition addr_b : RpcNodeAddress := {| host := "b"; port := 9877 |}.
Definition two_nodes : gmap Z NodeInfo := {[0%Z := node_of addr_a; 1000%Z := node_of addr_b]}.

(** The world counts the calls of [create]; the first one is lost. *)
Definition lost {A} (w : nat) : outcome A * nat := (Transport 4 "No more data to read.", w).
#[local] Instance scripted : ClusterRpc nat := {
  m_get_all_masters w _ := (Reply (address <$> get_ch_ring_as_map two_nodes), w);
  m_get_all_index_servers w _ := (Reply (address <$> get_ch_ring_as_map two_nodes), w);
  m_create w _ _ _ _ _ :=
    match w with 0 => (Transport 4 "No more data to read.", 1) | _ => (Reply 7%Z, S w) end;
  m_remove w _ _ := lost w;
  m_object_id w _ _ := lost w;
  m_mkdir w _ _ _ := lost w;
  m_rmdir w _ _ := lost w;
  m_add_subfile w _ _ _ := lost w;
  m_remove_subfile w _ _ _ := lost w;
  m_readdir w _ _ := lost w;
  m_getattr w _ _ := lost w;
  m_setattr w _ _ _ := lost w;
  m_find_files w _ _ := lost w;
  m_locate_indices_for_search w _ _ _ := (Reply ["/a/.vsfs/x"], w);
  i_search w _ _ := lost w;
}.

Definition fresh_client : VSFSRpcClient (gmap Z NodeInfo) :=
  new_client (host addr_a) (port addr_a).
Definition connected : VSFSRpcClient (gmap Z NodeInfo) :=
  {| primary_ := addr_a; master_map_ := {[0%Z := node_of addr_a]}; index_server_map_ := two_nodes |}.
Definition two_masters : VSFSRpcClient (gmap Z NodeInfo) :=
  {| primary_ := addr_a; master_map_ := two_nodes; index_server_map_ := two_nodes |}.
Definition demo_query : ComplexQuery :=
  {| root_ := "/a"; range_query_map_ := {["x" := {| lower := "1"; lower_closed := true;
                                                  upper := "5"; upper_closed := true |}]} |}.

Lemma client_routes_like_primary_witness :
  ∃ c', sync_master_server_map fresh_client 0 = Done (OK, c', 0) ∧
    ∀ h, (get (master_map_ c') h).1 = (get two_nodes h).1 ∧
         address <$> (get (master_map_ c') h).2 = address <$> (get two_nodes h).2.
Proof. apply (client_routes_like_primary fresh_client two_nodes 0 0); reflexivity. Defined.

Lemma object_ids_route_like_paths_witness :
  plan_objects two_masters [object_id_of "/data/file" 3] ∅
  = Done {["b:9877" := [object_id_of "/data/file" 3]]}.
Proof.
  rewrite (object_ids_route_like_paths two_masters "/data/file" 3 (node_of addr_b) [] ∅);
    [vm_compute; reflexivity| |vm_compute; reflexivity].
  intros pos [v Hv]. simpl in Hv. unfold two_nodes in Hv.
  apply lookup_insert_Some in Hv as [[<- _]|[_ [<- _]%lookup_singleton_Some]];
    intros Hbits; vm_compute in Hbits; discriminate Hbits.
Defined.

Lemma search_plan_exact_witness :
  ∃ plan, gen_search_plan connected demo_query 0 = Done (OK, plan, 0) ∧
    ∀ addr part, part ∈ default ∅ (plan !! addr) ↔
      ∃ idx node, idx ∈ ["/a/.vsfs/x"] ∧ part = idx +:+ "/0" ∧
        get (index_server_map_ connected) (path_to_hash part) = (OK, Some node) ∧
        addr = address_to_string (address node).
Proof.
  eexists. split; [vm_compute; reflexivity|].
  apply (search_plan_exact connected demo_query 0 0); vm_compute; reflexivity.
Defined.

Lemma successful_retry_is_reported_as_failure_witness :
  create 5 connected "/f" 420 0 0 0 = ends (Err 4 "No more data to read.", Some 7%Z, 2).
Proof.
  apply (successful_retry_is_reported_as_failure connected "/f" 420 0 0 0 1 2 (node_of addr_a));
    [vm_compute; reflexivity|vm_compute; reflexivity|reflexivity|lia|reflexivity].
Defined.
End witnesses.
