(* ===== verification/QuerySearch.v ===== *)
(** * What a query string asks for

    From the text of a query to the answer of one index: the conditions of the
    text, the ranges the parser makes of them, the range query that the client
    sends for a partition, and the objects that an integer index returns.  The
    other conversion of a query to its RPC form, that of rpc/thrift_utils.cpp,
    describes the same ranges. *)

From S2P Require Import Prelude CxxString Platform PathUtil IndexImpl RangeIndex RangeIndexWrapper.
From S2P Require Import IndexManager ServerMap Client ComplexQuery.
From Stdlib Require Import Ascii.

(** ** [ThriftUtils::complex_query_to_rpc_complex_query] *)

(** The fields that are not assigned keep their default values. *)
Definition rpc_range_query (name : string) (range : StringRange) : RpcRangeQuery :=
  {| q_index_path := ""; q_name := name;
     q_lower := lower range; q_lower_open := negb (lower_closed range);
     q_upper := upper range; q_upper_open := negb (upper_closed range) |}.
Fixpoint rpc_range_queries (query : ComplexQuery) (range_names : list string) : run (list RpcRangeQuery) :=
  match range_names with
  | [] => Done []
  | name :: range_names' =>
      match range_query query name with
      | None => Fatal "range is null"
      | Some range => l ← rpc_range_queries query range_names'; Done (rpc_range_query name range :: l)
      end
  end.
Definition complex_query_to_rpc_complex_query (query : ComplexQuery) : run RpcComplexQuery :=
  l ← rpc_range_queries query (get_names_of_range_queries query);
  Done {| cq_txn_id := 0; cq_root := root_ query; cq_range_queries := l |}.

(** ** What a condition means *)

Definition sets_lower (c : condition) : bool :=
  match c_op c with EQ | GT | GE => true | _ => false end.
Definition sets_upper (c : condition) : bool :=
  match c_op c with EQ | LT | LE => true | _ => false end.

Definition compare_with (op : cond_op) (k v : Z) : Prop :=
  match op with
  | EQ => k = v
  | NEQ => k ≠ v
  | GT => (v < k)%Z
  | GE => (v ≤ k)%Z
  | LT => (k < v)%Z
  | LE => (k ≤ v)%Z
  end.

(** The key [k] of an index with key type [t] satisfies the condition. *)
Definition holds `{KeyCasts} (t : TypeID) (k : Z) (c : condition) : Prop :=
  ∃ v, cast_int t (c_value c) = Some v ∧ compare_with (c_op c) k v.

(** The conditions on one field, at most one of which bounds it from each side. *)
Definition conditions_on (field : string) (cs : list condition) : list condition :=
  filter (λ c, c_field c = field) cs.
Definition bounded_once (cs : list condition) : Prop :=
  length (filter (λ c, sets_lower c = true) cs) ≤ 1 ∧ length (filter (λ c, sets_upper c = true) cs) ≤ 1.

(** A side without a condition is cut off at the limit of the key type, and
    the limit itself is left out. *)
Definition inside_limits (t : TypeID) (k : Z) (cs : list condition) : Prop :=
  (filter (λ c, sets_lower c = true) cs = [] → ((int_limits t).1 < k)%Z) ∧
  (filter (λ c, sets_upper c = true) cs = [] → (k < (int_limits t).2)%Z).

(** ** Lemmas *)

Definition add_range (r : StringRange) (c : condition) : StringRange :=
  default r (set_range (c_op c) (c_value c) r).

Lemma range_after_conditions q cs f :
  range_query (foldl add_condition q cs) f =
  match conditions_on f cs with
  | [] => range_query q f
  | fs => Some (foldl add_range (default new_range (range_query q f)) fs)
  end.
Proof.
  revert q. induction cs as [|c cs IH]; intros q; [done|]. cbn [foldl]. rewrite IH.
  unfold conditions_on. rewrite filter_cons. fold (conditions_on f cs).
  assert (range_query (add_condition q c) f =
          if decide (c_field c = f) then Some (add_range (default new_range (range_query q f)) c)
          else range_query q f) as ->.
  { unfold add_condition, range_query, set_field. cbn [range_query_map_]. case_decide as Hf.
    - subst f. by rewrite lookup_insert_eq.
    - by rewrite lookup_insert_ne. }
  case_decide; [|done]. simpl. by destruct (conditions_on f cs).
Qed.

(** The bounds after some conditions: those of the last condition on the side. *)
Lemma lower_after cs r :
  (lower (foldl add_range r cs), lower_closed (foldl add_range r cs)) =
  match last (filter (λ c, sets_lower c = true) cs) with
  | Some c => (c_value c, bool_decide (c_op c ≠ GT))
  | None => (lower r, lower_closed r)
  end.
Proof.
  revert r. induction cs as [|c cs IH]; intros r; [done|]. cbn [foldl]. rewrite IH, filter_cons.
  destruct (sets_lower c) eqn:Hc; (rewrite decide_True by done; rewrite last_cons) || rewrite decide_False by done;
    destruct (last _); [done| |done|]; destruct c as [f [] v]; done.
Qed.
Lemma upper_after cs r :
  (upper (foldl add_range r cs), upper_closed (foldl add_range r cs)) =
  match last (filter (λ c, sets_upper c = true) cs) with
  | Some c => (c_value c, bool_decide (c_op c ≠ LT))
  | None => (upper r, upper_closed r)
  end.
Proof.
  revert r. induction cs as [|c cs IH]; intros r; [done|]. cbn [foldl]. rewrite IH, filter_cons.
  destruct (sets_upper c) eqn:Hc; (rewrite decide_True by done; rewrite last_cons) || rewrite decide_False by done;
    destruct (last _); [done| |done|]; destruct c as [f [] v]; done.
Qed.

Section one_field.
Context `{TypeIDs, KeyCasts} (t : TypeID).
Implicit Types (c : condition) (cs : list condition) (k : Z).

(** One side of a condition, and the operator that leaves its end out. *)
Definition side (rel : relation Z) (strict : cond_op) c k : Prop :=
  ∃ v, cast_int t (c_value c) = Some v ∧ rel v k ∧ (c_op c = strict → k ≠ v).
Abbreviation above := (side Z.le GT).
Abbreviation below := (side (flip Z.le) LT).

Lemma holds_sides c k :
  is_Some (cast_int t (c_value c)) → c_op c ≠ NEQ →
  holds t k c ↔ (sets_lower c = true → above c k) ∧ (sets_upper c = true → below c k).
Proof.
  intros [v Hv] Hop. unfold holds, side, flip, sets_lower, sets_upper. rewrite Hv.
  assert (∀ P : Z → Prop, (∃ w, Some v = Some w ∧ P w) ↔ P v) as Hex by naive_solver.
  rewrite !Hex. destruct (c_op c); simpl; try done; split;
    try (intros; repeat split; intros; try done; lia);
    intros [Hl Hu]; try specialize (Hl eq_refl); try specialize (Hu eq_refl);
    repeat match goal with H : _ ∧ (?a = ?a → _) |- _ => destruct H as [? H]; specialize (H eq_refl) end; lia.
Qed.

Lemma forall_sides cs k :
  Forall (λ c, is_Some (cast_int t (c_value c))) cs → Forall (λ c, c_op c ≠ NEQ) cs →
  Forall (holds t k) cs ↔
  Forall (λ c, above c k) (filter (λ c, sets_lower c = true) cs) ∧
  Forall (λ c, below c k) (filter (λ c, sets_upper c = true) cs).
Proof.
  rewrite !Forall_forall. intros Hv Hop. setoid_rewrite list_elem_of_filter. split.
  - intros Hall. split; intros c [Hs Hc];
      destruct (proj1 (holds_sides c k (Hv c Hc) (Hop c Hc)) (Hall c Hc)); auto.
  - intros [Hl Hu] c Hc. apply holds_sides; [auto..|]. split; intros; auto.
Qed.

Lemma Forall_short {A} (P : A → Prop) (l : list A) :
  length l ≤ 1 → Forall P l ↔ from_option P True (last l).
Proof.
  destruct l as [|x [|]]; simpl; intros; [|by rewrite Forall_singleton|lia].
  split; [done|constructor].
Qed.

(** An end of the range that the conditions leave. *)
Lemma range_end (sets : condition → bool) (rel : relation Z) (strict : cond_op) (s : string) (closed : bool)
    (limit : Z) cs :
  length (filter (λ c, sets c = true) cs) ≤ 1 →
  Forall (λ c, is_Some (cast_int t (c_value c))) cs → Forall (λ c, c_value c ≠ "") cs →
  (s, closed) = match last (filter (λ c, sets c = true) cs) with
                | Some c => (c_value c, bool_decide (c_op c ≠ strict))
                | None => ("", false)
                end →
  ∃ v, bound_of (key_cast:=cast_int t) s limit = Some v ∧
    ∀ k, rel v k ∧ (negb closed = true → k ≠ v) ↔
      Forall (λ c, side rel strict c k) (filter (λ c, sets c = true) cs) ∧
      (filter (λ c, sets c = true) cs = [] → rel limit k ∧ k ≠ limit).
Proof.
  intros Hone Hv Hne. unfold bound_of.
  destruct (last (filter _ cs)) as [c|] eqn:Hlast; intros [= -> ->].
  - pose proof (last_Some_elem_of _ _ Hlast) as [_ Hin]%list_elem_of_filter.
    rewrite Forall_forall in Hv, Hne. destruct (Hv c Hin) as [v Hcast]. specialize (Hne c Hin).
    assert (str_empty (c_value c) = false) as -> by by destruct (c_value c).
    exists v. split; [done|]. intros k. rewrite (Forall_short _ _ Hone), Hlast. simpl. unfold side.
    rewrite negb_true_iff, bool_decide_eq_false, Hcast.
    assert (filter (λ c, sets c = true) cs ≠ []) by (intros Hnil; by rewrite Hnil in Hlast).
    destruct (decide (c_op c = strict)); naive_solver.
  - apply last_None in Hlast. rewrite Hlast. eexists. split; [done|]. intros k.
    rewrite Forall_nil. naive_solver.
Qed.
End one_field.

(** The conversion of rpc/thrift_utils.cpp makes, for every name of the query,
    the range query that the client sends, but for the path. *)
Lemma rpc_range_queries_exact (q : ComplexQuery) names l :
  rpc_range_queries q names = Done l ↔
  Forall2 (λ name rq, ∃ range, range_query q name = Some range ∧ rq = rpc_range_query name range) names l.
Proof.
  revert l. induction names as [|name names IH]; intros l; simpl.
  { split; [intros [= <-]; constructor|]. by intros ->%Forall2_nil_inv_l. }
  split.
  - destruct (range_query q name) as [range|] eqn:Hr; [|done].
    destruct (rpc_range_queries q names) as [l'|]; [|done]. intros [= <-].
    constructor; [by eauto|by apply IH].
  - intros (rq&l'&(range&Hr&->)&Hl'%IH&->)%Forall2_cons_inv_l. by rewrite Hr, Hl'.
Qed.

Lemma rpc_range_query_sub_query `{!BoostFilesystem} (q : ComplexQuery) part range :
  range_query q (fs_filename (fs_parent_path part)) = Some range →
  let rq := rpc_range_query (fs_filename (fs_parent_path part)) range in
  sub_query q part = Done {| q_index_path := part; q_name := q_name rq;
    q_lower := q_lower rq; q_lower_open := q_lower_open rq;
    q_upper := q_upper rq; q_upper_open := q_upper_open rq |}.
Proof. intros Hr. unfold sub_query. by rewrite Hr. Qed.

Lemma complex_query_to_rpc_total (q : ComplexQuery) :
  ∃ r, complex_query_to_rpc_complex_query q = Done r ∧ cq_root r = root_ q ∧
    length (cq_range_queries r) = size (range_query_map_ q).
Proof.
  unfold complex_query_to_rpc_complex_query, get_names_of_range_queries.
  assert (∃ l, rpc_range_queries q (map_to_list (range_query_map_ q)).*1 = Done l) as [l Hl].
  { assert (∀ name, name ∈ (map_to_list (range_query_map_ q)).*1 → is_Some (range_query q name)) as Hin.
    { intros name ([name' range]&->&Hin%elem_of_map_to_list)%list_elem_of_fmap. by eexists. }
    induction (map_to_list (range_query_map_ q)).*1 as [|name names IH]; simpl; [by eexists|].
    destruct (Hin name) as [range ->]; [left|]. destruct IH as [l Hl]; [intros; apply Hin; by right|].
    rewrite Hl. by eexists. }
  rewrite Hl. eexists. split_and!; [done..|]. cbn [cq_range_queries].
  apply rpc_range_queries_exact, Forall2_length in Hl. rewrite <-Hl, length_fmap. apply length_map_to_list.
Qed.

(** ** Properties *)

(** C16: a query string means what its conditions say.  For a search root that is
    [/] or an absolute path without question mark, and conditions on numeric
    values, the text [<root>/?<c1>&<c2>...] is parsed, and for a partition of
    the index of a field that the conditions bound at most once from each side,
    the client sends a range query to which an integer index answers exactly
    the objects indexed under a key that satisfies every condition on the
    field; a side without a condition leaves out the limit of the key type. *)
Theorem query_text_exact `{!BoostFilesystem, !TypeIDs, !KeyCasts, !LexicalCast Z}
    (now : Z) (root : string) (c : condition) (cs : list condition) (t : TypeID)
    (m : gmap Z (gset Z)) (part : string) :
  let field_conditions := conditions_on (fs_filename (fs_parent_path part)) (c :: cs) in
  starts_with "/" root = true → no_char "?" root → Forall plain_condition (c :: cs) →
  field_conditions ≠ [] → bounded_once field_conditions →
  Forall (λ c', is_Some (cast_int t (c_value c'))) field_conditions →
  ∃ q rq found, parse now new_query (print_query root c cs) = Done (OK, q) ∧ root_ q = root ∧
    sub_query q part = Done rq ∧ search_object rq (IntIndex t m) = (OK, found) ∧
    ∀ o, o ∈ found ↔
      ∃ k, has m k o ∧ Forall (holds t k) field_conditions ∧ inside_limits t k field_conditions.
Proof.
  intros fs Hroot Hq Hplain Hfs Hone Hcast.
  assert (Forall plain_condition fs) as Hfplain.
  { rewrite Forall_forall in Hplain |- *; intros x [_ Hx]%list_elem_of_filter; auto. }
  pose proof (parse_print now new_query root c cs Hroot Hq Hplain) as Hparse.
  set (q := foldl _ _ _) in Hparse. set (r := foldl add_range new_range fs).
  assert (range_query q (fs_filename (fs_parent_path part)) = Some r) as Hr.
  { unfold q. rewrite range_after_conditions. fold fs. by destruct fs. }
  destruct (range_end t (λ c, sets_lower c) Z.le GT (lower r) (lower_closed r) (int_limits t).1 fs)
    as (lo&Hlo&Hlow); [by destruct Hone|done| |apply lower_after|].
  { eapply Forall_impl; [done|]. by intros ? (_&?&_). }
  destruct (range_end t (λ c, sets_upper c) (flip Z.le) LT (upper r) (upper_closed r) (int_limits t).2 fs)
    as (hi&Hhi&Hupp); [by destruct Hone|done| |apply upper_after|].
  { eapply Forall_impl; [done|]. by intros ? (_&?&_). }
  eexists q, _, _. split_and!; [done| |by apply rpc_range_query_sub_query| |].
  { unfold q. clear. generalize (c :: cs). intros l.
    assert (∀ q, root_ (foldl add_condition q l) = root_ q) as Hf; [|by rewrite Hf].
    induction l as [|x l IH]; intros q; [done|]. simpl. by rewrite IH. }
  { unfold search_object, search_query, rpc_range_query.
    cbn [q_lower q_upper q_lower_open q_upper_open]. by rewrite Hlo, Hhi. }
  assert (∀ k, in_range Z.le lo (negb (lower_closed r)) hi (negb (upper_closed r)) k ↔
    Forall (holds t k) fs ∧ inside_limits t k fs) as Hk.
  { intros k. rewrite forall_sides; [|done|].
    - specialize (Hlow k). specialize (Hupp k). unfold in_range, inside_limits. unfold flip in Hupp at 1.
      assert (∀ a b : Z, (a ≤ b ∧ b ≠ a ↔ a < b)%Z) as Hlt1 by lia.
      assert (∀ a b : Z, (flip Z.le a b ∧ b ≠ a ↔ b < a)%Z) as Hlt2 by (unfold flip; lia).
      rewrite Hlt1 in Hlow. rewrite Hlt2 in Hupp. tauto.
    - eapply Forall_impl; [done|]. by intros ? (_&_&_&?). }
  intros o. rewrite (elem_of_search_range Z.le), elem_of_nil by apply _.
  setoid_rewrite Hk. naive_solver.
Qed.

(** ** Examples *)

Section witnesses.
Import Decimal Reference.
#[local] Instance unsigned_cast : KeyCasts := {|
  cast_int := λ _ s, if str_empty s then None else digits 0 s;
  cast_float := λ _ _, None;
  cast_string := Some |}.
#[local] Instance some_types : TypeIDs := λ _, Some UINT64.

Definition sizes : gmap Z (gset Z) := {[0%Z := {[1%Z]}; 5%Z := {[2%Z]}; 10%Z := {[3%Z]}; 25%Z := {[4%Z]}]}.
Definition size_below : condition := {| c_field := "size"; c_op := LT; c_value := "10" |}.
Definition size_from : condition := {| c_field := "size"; c_op := GE; c_value := "5" |}.
Definition size_part : string := "/.vsfs/size/0".

Lemma query_text_exact_witness :
  ∃ q rq found, parse 0 new_query "/?size<10&energy>3&size>=5" = Done (OK, q) ∧
    sub_query q size_part = Done rq ∧ search_object rq (IntIndex UINT64 sizes) = (OK, found) ∧
    ∀ o, o ∈ found ↔ ∃ k, has sizes k o ∧ Forall (holds UINT64 k) [size_below; size_from] ∧
      inside_limits UINT64 k [size_below; size_from].
Proof.
  destruct (query_text_exact 0 "/" size_below
    [{| c_field := "energy"; c_op := GT; c_value := "3" |}; size_from] UINT64 sizes size_part)
    as (q&rq&found&Hp&_&H); [done|done| |done| | |].
  - repeat constructor; by vm_compute.
  - split; vm_compute; lia.
  - repeat constructor; eexists; by vm_compute.
  - exists q, rq, found. by split.
Defined.

(** Without a lower bound the parser leaves [lower_closed] false, so that the
    range is open at the smallest key: an empty file is not below ten bytes. *)
Theorem zero_is_never_below :
  ∃ q rq, parse 0 new_query "/?size<10" = Done (OK, q) ∧ sub_query q size_part = Done rq ∧
    search_object rq (IntIndex UINT64 sizes) = (OK, [2%Z]) ∧ has sizes 0%Z 1%Z.
Proof.
  eexists _, _. split_and!; [vm_compute; reflexivity..|]. exists {[1%Z]}. split; [by vm_compute|set_solver].
Qed.
End witnesses.
