(* ===== verification/Fuse.v ===== *)
(** * The FUSE file system (fuse/vsfs_ops.cpp, vsfs_ops.h)

    The operations FUSE calls, on top of the RPC client (metadata, in the
    masters) and of a storage manager (data, in the local file system).  The
    state of the process is the [VsfsFuse] object with its table of open files;
    the cluster and the operating system are the worlds [W] and [OS].  An
    operation returns the number FUSE gets.  It may not return at all: the
    process dies ([Fatal]), or a loop of the client does not end ([None]), so
    operations live in the monad [fuse]. *)

From S2P Require Import Prelude CxxString Platform Posix PathUtil RangeIndex ServerMap Namespace.
From S2P Require Import ComplexQuery Client Storage.
From Stdlib Require Import Ascii.

(** ** The storage manager chosen by name *)

Inductive AnyStorageManager :=
  | UsePosix (m : PosixStorageManager)
  | UseObject (m : ObjectStorageManager).

#[export] Instance any_storage_manager {OS} `{Posix OS, BoostFilesystem} :
  StorageManager AnyStorageManager OS := {|
  sm_init m := match m with UsePosix m => sm_init m | UseObject m => sm_init m end;
  sm_destroy m := match m with UsePosix m => sm_destroy m | UseObject m => sm_destroy m end;
  sm_open m := match m with UsePosix m => sm_open m | UseObject m => sm_open m end;
  sm_unlink m := match m with UsePosix m => sm_unlink m | UseObject m => sm_unlink m end;
  sm_mkdir m := match m with UsePosix m => sm_mkdir m | UseObject m => sm_mkdir m end;
  sm_rmdir m := match m with UsePosix m => sm_rmdir m | UseObject m => sm_rmdir m end;
  sm_readlink m := match m with UsePosix m => sm_readlink m | UseObject m => sm_readlink m end;
  sm_getattr m := match m with UsePosix m => sm_getattr m | UseObject m => sm_getattr m end;
  sm_statfs m := match m with UsePosix m => sm_statfs m | UseObject m => sm_statfs m end;
  sm_symlink m := match m with UsePosix m => sm_symlink m | UseObject m => sm_symlink m end;
|}.

#[export] Instance any_storage_manager_spec {OS} `{!Posix OS, !BoostFilesystem, !BoostFilesystemSpec} :
  StorageManagerSpec AnyStorageManager OS.
Proof.
  refine {| sm_valid m := match m with UsePosix m => sm_valid (OS:=OS) m
                          | UseObject m => sm_valid (OS:=OS) m end;
            sm_location m := match m with UsePosix m => sm_location (OS:=OS) m
                             | UseObject m => sm_location (OS:=OS) m end |};
    intros [m|m].
  - exact (sm_open_spec (OS:=OS) m). - exact (sm_open_spec (OS:=OS) m).
  - exact (sm_unlink_spec (OS:=OS) m). - exact (sm_unlink_spec (OS:=OS) m).
  - exact (sm_readlink_spec (OS:=OS) m). - exact (sm_readlink_spec (OS:=OS) m).
  - exact (sm_getattr_spec (OS:=OS) m). - exact (sm_getattr_spec (OS:=OS) m).
  - exact (sm_symlink_spec (OS:=OS) m). - exact (sm_symlink_spec (OS:=OS) m).
  - exact (sm_mkdir_spec (OS:=OS) m). - exact (sm_mkdir_spec (OS:=OS) m).
  - exact (sm_rmdir_spec (OS:=OS) m). - exact (sm_rmdir_spec (OS:=OS) m).
  - exact (sm_statfs_spec (OS:=OS) m). - exact (sm_statfs_spec (OS:=OS) m).
  - exact (sm_location_inj (OS:=OS) m). - exact (sm_location_inj (OS:=OS) m).
Defined.

(** ** The state and its monad *)

Record VsfsFuse (M R : Type) := {
  basedir_ : string;
  mount_point_ : string;
  storage_manager_ : M;
  client_ : VSFSRpcClient R;
  fh_to_obj_map_ : gmap Z File;
}.
Arguments basedir_ {M R}. Arguments mount_point_ {M R}. Arguments storage_manager_ {M R}.
Arguments client_ {M R}. Arguments fh_to_obj_map_ {M R}.

Record State (M R W OS : Type) := { vsfs : VsfsFuse M R; world : W; system : OS }.
Arguments vsfs {M R W OS}. Arguments world {M R W OS}. Arguments system {M R W OS}.

Definition fuse (S A : Type) : Type := S → late (A * S).
#[export] Instance fuse_ret S : MRet (fuse S) := λ A a s, ends (a, s).
#[export] Instance fuse_bind S : MBind (fuse S) := λ A B f m s, late_bind (m s) (λ p, f p.1 p.2).
Definition fuse_fatal {S A} (why : string) : fuse S A := λ _, Some (Fatal why).

(** [fuse_get_context()] and [getuid()], [getgid()]. *)
Record Context := { ctx_uid : Z; ctx_gid : Z; ctx_umask : Z; proc_uid : Z; proc_gid : Z }.

(** [c == '/' ? '#' : c] and back. *)
Fixpoint str_map (f : ascii → ascii) (s : string) : string :=
  match s with EmptyString => "" | String c s' => String (f c) (str_map f s') end.
Definition hash_sign : ascii := "#"%char.
Definition result_name (file : string) : string :=
  str_map (λ c, if bool_decide (c = slash) then hash_sign else c) file.
Definition linked_file (result : string) : string :=
  str_map (λ c, if bool_decide (c = hash_sign) then slash else c) result.

Section fuse.
Context {M R W OS : Type}.
Context `{ClusterRpc W, ConsistentHashMap R NodeInfo, MD5, BoostFilesystem, VoblaStatus}.
Context `{Posix OS, !StorageManager M OS}.
(** [lexical_cast<uint64_t>] and [time(NULL)] for queries, the user of the
    call, and the bound on the turns of the client's retry loops. *)
Context `{LexicalCast Z} (now : Z) (ctx : Context) (fuel : nat).

Abbreviation St := (State M R W OS).
Abbreviation F := (fuse St).

Definition set_table (v : VsfsFuse M R) (t : gmap Z File) : VsfsFuse M R :=
  {| basedir_ := basedir_ v; mount_point_ := mount_point_ v; storage_manager_ := storage_manager_ v;
     client_ := client_ v; fh_to_obj_map_ := t |}.

Definition instance : F (VsfsFuse M R) := λ s, ends (vsfs s, s).
Definition get_errno : F Z := λ s, ends (errno (system s), s).

(** A call of the client, of the system, of the storage manager. *)
Definition rpc_late {A} (call : VSFSRpcClient R → W → late (A * W)) : F A := λ s,
  AWAIT (a, w) ⇐ call (client_ (vsfs s)) (world s);;
  ends (a, {| vsfs := vsfs s; world := w; system := system s |}).
Definition rpc {A} (call : VSFSRpcClient R → W → run (A * W)) : F A :=
  rpc_late (λ c w, Some (call c w)).
Definition sys {A} (call : OS → A * OS) : F A := λ s,
  let '(a, os) := call (system s) in ends (a, {| vsfs := vsfs s; world := world s; system := os |}).
Definition storage {A} (call : M → OS → run (A * OS)) : F A := λ s,
  AWAIT (a, os) ⇐ Some (call (storage_manager_ (vsfs s)) (system s));;
  ends (a, {| vsfs := vsfs s; world := world s; system := os |}).
Definition put_table (t : gmap Z File) : F () := λ s,
  ends ((), {| vsfs := set_table (vsfs s) t; world := world s; system := system s |}).

(** *** The table of open files *)

(** [add_file(fd, file)]: [reset] destroys the file that was there. *)
Definition add_file (fd : Z) (file : File) : F () :=
  v ← instance;
  let old := fh_to_obj_map_ v !! wrap_uint64 fd in
  _ ← put_table (<[wrap_uint64 fd := file]> (fh_to_obj_map_ v));
  match old with
  | None => mret ()
  | Some f => sys (λ os, ((), file_destroy f os))
  end.

Definition close_file (fd : Z) : F Status :=
  v ← instance;
  match fh_to_obj_map_ v !! fd with
  | None => fuse_fatal "it != fh_to_obj_map_.end()"
  | Some file_obj =>
      '(status, file_obj) ← sys (λ os, file_close file_obj os);
      _ ← put_table (delete fd (fh_to_obj_map_ v));
      _ ← sys (λ os, ((), file_destroy file_obj os));
      mret status
  end.

Definition get_file (fd : Z) : F (option File) :=
  v ← instance; mret (fh_to_obj_map_ v !! fd).

Definition mnt_path (v : VsfsFuse M R) (vsfs_path : string) : string :=
  fs_append (mount_point_ v) vsfs_path.

(** *** Operations on paths *)

Definition parse_path (path : string) : F PosixPath :=
  λ s, AWAIT vsp ⇐ Some (new_path path);; ends (vsp, s).

Definition vsfs_statfs : F (Z * option StatVfs) :=
  '(status, stbuf) ← storage (λ m os, Done (sm_statfs m os));
  if negb (ok status) then mret (error_of status, stbuf) else mret (0%Z, stbuf).

Definition vsfs_access (path : string) (flag : Z) : F Z :=
  vsp ← parse_path path;
  if negb (is_validate vsp) then mret (- EINVAL)%Z
  else if negb (is_query vsp) then mret 0%Z
  else mret 0%Z.

Definition set_mode_size (stbuf : Stat) (mode size : Z) : Stat :=
  {| st_dev := st_dev stbuf; st_ino := st_ino stbuf; st_mode := mode; st_nlink := st_nlink stbuf;
     st_uid := st_uid stbuf; st_gid := st_gid stbuf; st_rdev := st_rdev stbuf; st_size := size;
     st_blksize := st_blksize stbuf; st_blocks := st_blocks stbuf; st_atime := st_atime stbuf;
     st_mtime := st_mtime stbuf; st_ctime := st_ctime stbuf |}.
(** The fields that come from the local file. *)
Definition set_local (stbuf buf : Stat) : Stat :=
  {| st_dev := st_dev buf; st_ino := st_ino buf; st_mode := st_mode stbuf; st_nlink := st_nlink buf;
     st_uid := st_uid stbuf; st_gid := st_gid stbuf; st_rdev := st_rdev buf; st_size := st_size buf;
     st_blksize := st_blksize buf; st_blocks := st_blocks buf; st_atime := st_atime stbuf;
     st_mtime := st_mtime stbuf; st_ctime := st_ctime stbuf |}.

(** [stbuf] is the buffer FUSE passes, and the result what it holds then. *)
Definition vsfs_getattr (path : string) (stbuf : Stat) : F (Z * Stat) :=
  vsp ← parse_path path;
  if negb (is_validate vsp) then mret ((- EINVAL)%Z, stbuf)
  else if is_query vsp then
    mret (0%Z, set_mode_size stbuf (Z.lor (st_mode stbuf) S_IFDIR) (st_size stbuf))
  else if is_result vsp then
    mret (0%Z, set_mode_size stbuf (Z.lor (st_mode stbuf) S_IFLNK)
                 (Z.of_nat (String.length (pp_result vsp))))
  else
    '(status, file_info) ← rpc (λ c w, getattr c path w);
    if negb (ok status) then mret (error_of status, stbuf) else
    let file_info := default no_file_info file_info in
    let mode := default 0%Z (fi_mode file_info) in
    let old_size := st_size stbuf in
    let stbuf := stat_of_info file_info stbuf in
    if S_ISDIR mode || S_ISLNK mode then mret (0%Z, stbuf) else
    let stbuf := set_mode_size stbuf mode old_size in
    '(status, buf) ← storage (λ m os, sm_getattr m path (default 0%Z (fi_object_id file_info)) os);
    match buf with
    | Some buf => if negb (ok status) then mret (error_of status, stbuf) else mret (0%Z, set_local stbuf buf)
    | None => mret (error_of status, stbuf)
    end.

Definition vsfs_utimens (path : string) (atime mtime : Z) : F Z :=
  '(status, _) ← rpc (λ c w, utimens c path atime mtime w); mret (error_of status).
Definition vsfs_chmod (path : string) (mode : Z) : F Z :=
  '(status, _) ← rpc (λ c w, chmod c path mode w); mret (error_of status).
Definition vsfs_chown (path : string) (uid gid : Z) : F Z :=
  '(status, _) ← rpc (λ c w, chown c path uid gid w); mret (error_of status).

Definition vsfs_mkdir (path : string) (mode : Z) : F Z :=
  status ← rpc_late (λ c w, mkdir fuel c path mode (ctx_uid ctx) (ctx_gid ctx) w);
  if negb (ok status) then mret (error_of status) else
  status ← storage (λ m os, sm_mkdir m path mode os);
  mret (error_of status).

Definition vsfs_mknod (path : string) (mode : Z) : F Z :=
  '(status, _) ← rpc_late (λ c w, create fuel c path mode (proc_uid ctx) (proc_gid ctx) w);
  if negb (ok status) then mret (error_of status) else mret 0%Z.

Definition vsfs_rmdir (path : string) : F Z :=
  status ← rpc_late (λ c w, rmdir fuel c path w);
  if negb (ok status) then mret (error_of status) else
  status ← storage (λ m os, sm_rmdir m path os);
  mret (error_of status).

Definition vsfs_unlink (path : string) : F Z :=
  '(status, obj_id) ← rpc_late (λ c w, unlink fuel c path w);
  if negb (ok status) then mret (error_of status) else
  status ← storage (λ m os, sm_unlink m path (default 0%Z obj_id) os);
  mret (error_of status).

(** [0666 && umask] is a truth value. *)
Definition vsfs_symlink (fpath link_path : string) : F Z :=
  let mode := Z.lor (if bool_decide (ctx_umask ctx = 0%Z) then 0 else 1) S_IFLNK in
  '(status, oid) ← rpc_late (λ c w, create fuel c link_path mode (ctx_uid ctx) (ctx_gid ctx) w);
  if negb (ok status) then mret (error_of status) else
  status ← storage (λ m os, sm_symlink m fpath link_path (default 0%Z oid) os);
  if negb (ok status) then mret (error_of status) else mret 0%Z.

(** *** Directories *)

(** The loop over the results of a query: [junk] is what the uninitialised
    [stbuf] of the loop holds. *)
Fixpoint fill_results (junk : Stat) (files : list string) (filled : list (string * option Stat))
    : F (Z * list (string * option Stat)) :=
  match files with
  | [] => mret (0%Z, filled)
  | file :: files' =>
      '(status, stbuf) ← rpc (λ c w, getattr_stat c file junk w);
      if negb (ok status) then mret (error_of status, filled) else
      let stbuf := set_mode_size stbuf (Z.lor (st_mode stbuf) S_IFLNK) (st_size stbuf) in
      fill_results junk files' (filled ++ [(result_name file, Some stbuf)])
  end.

Definition parse_query (path : string) : F ComplexQuery := λ s,
  AWAIT (status, q) ⇐ Some (parse now new_query path);; ends (q, s).

(** The second component are the calls of [filler]; the status of the query
    parser is not looked at. *)
Definition vsfs_readdir (junk : Stat) (path : string) : F (Z * list (string * option Stat)) :=
  vsp ← parse_path path;
  let filled := [(".", None); ("..", None)] in
  if is_query vsp then
    complex_query ← parse_query path;
    '(status, result_files) ← rpc (λ c w, search c complex_query w);
    if negb (ok status) then mret (error_of status, filled) else
    fill_results junk result_files filled
  else
    '(status, subfiles) ← rpc (λ c w, readdir c path w);
    if negb (ok status) then mret (error_of status, filled) else
    mret (0%Z, filled ++ ((λ subfile, (subfile, None)) <$> default [] subfiles)).

(** What a call of [readlink] leaves in the buffer: nothing, a string with its
    terminating zero, or the bytes readlink(2) stores, without one. *)
Inductive link_buffer := Untouched | Terminated (s : string) | Unterminated (s : string).

Definition vsfs_readlink (path : string) (size : Z) : F (Z * link_buffer) :=
  vsp ← parse_path path;
  if is_query vsp then mret (0%Z, Untouched)
  else if is_result vsp then
    v ← instance;
    let mnt := mnt_path v (linked_file (pp_result vsp)) in
    if bool_decide (Z.of_nat (String.length mnt) < size)%Z then mret (0%Z, Terminated mnt)
    else fuse_fatal "buf[mnt_path.size()] is outside the buffer"
  else
    '(status, oid) ← rpc (λ c w, object_id c path w);
    if negb (ok status) then mret (error_of status, Untouched) else
    '(status, target) ← storage (λ m os, sm_readlink m path (default 0%Z oid) size os);
    if negb (ok status) then mret (error_of status, Untouched) else
    mret (0%Z, Unterminated target).

(** *** Open files; [fh] is [fi->fh] *)

Definition vsfs_create (path : string) (mode flags : Z) : F (Z * option Z) :=
  '(status, oid) ← rpc_late (λ c w, create fuel c path mode (proc_uid ctx) (proc_gid ctx) w);
  if negb (ok status) then mret (error_of status, None) else
  '(status, file) ← storage (λ m os,
     sm_open m path (default 0%Z oid) (Z.lor flags O_CREAT) (Some mode) os);
  match file with
  | Some file =>
      if negb (ok status) then mret (error_of status, None) else
      let fd := file_fd file in
      _ ← add_file fd file;
      mret (0%Z, Some (wrap_uint64 fd))
  | None => mret (error_of status, None)
  end.

Definition vsfs_open (path : string) (flags : Z) : F (Z * option Z) :=
  '(status, oid) ← rpc (λ c w, Client.open c path w);
  if negb (ok status) then mret (error_of status, None) else
  '(status, file) ← storage (λ m os, sm_open m path (default 0%Z oid) flags None os);
  match file with
  | Some file =>
      if negb (ok status) then mret (error_of status, None) else
      let fd := file_fd file in
      _ ← add_file fd file;
      mret (0%Z, Some (wrap_uint64 fd))
  | None => mret (error_of status, None)
  end.

Definition vsfs_release (fh : Z) : F Z :=
  status ← close_file fh; mret (error_of status).

(** The descriptor argument of a system call is an [int]. *)
Definition vsfs_read (fh size offset : Z) : F (Z * bytes) :=
  file_obj ← get_file fh;
  match file_obj with
  | None => mret ((- EBADF)%Z, [])
  | Some _ =>
      r ← sys (sys_pread (wrap_int32 fh) size offset);
      match r with
      | Ret bs => mret (wrap_int32 (Z.of_nat (length bs)), bs)
      | Errno e => mret ((- e)%Z, [])
      end
  end.

Definition vsfs_write (fh : Z) (buf : bytes) (offset : Z) : F Z :=
  file_obj ← get_file fh;
  match file_obj with
  | None => mret (- EBADF)%Z
  | Some file_obj =>
      nwrite ← sys (file_write file_obj buf offset);
      match nwrite with
      | Some (Ret n) => mret (wrap_int32 n)
      | Some (Errno e) => mret (- e)%Z
      | None => e ← get_errno; mret (- e)%Z
      end
  end.

(** The fragments of [write_buf] are all written at [off]. *)
Fixpoint write_fragments (file : File) (bufs : list bytes) (off total_write : Z) : F Z :=
  match bufs with
  | [] => mret (wrap_int32 total_write)
  | buf :: bufs' =>
      nwrite ← sys (file_write file buf off);
      match nwrite with
      | Some (Ret n) => write_fragments file bufs' off (total_write + n)
      | Some (Errno e) => mret (- e)%Z
      | None => e ← get_errno; mret (- e)%Z
      end
  end.
Definition vsfs_write_buf (fh : Z) (bufs : list bytes) (off : Z) : F Z :=
  file ← get_file fh;
  match file with
  | None => mret (- EINVAL)%Z
  | Some file => write_fragments file bufs off 0
  end.

(** [close(dup(fi->fh))] *)
Definition vsfs_flush (fh : Z) : F Z :=
  d ← sys (sys_dup (wrap_int32 fh));
  res ← sys (sys_close (match d with Ret fd => fd | Errno _ => (-1)%Z end));
  match res with Ret _ => mret 0%Z | Errno e => mret (- e)%Z end.

Definition on_descriptor (call : Z → OS → sysret () * OS) (fh : Z) : F Z :=
  res ← sys (call (wrap_int32 fh));
  match res with Ret _ => mret 0%Z | Errno e => mret (- e)%Z end.
Definition vsfs_ioctl (fh cmd : Z) : F Z := on_descriptor (λ fd, sys_ioctl fd cmd) fh.
Definition vsfs_lock (fh cmd : Z) : F Z := on_descriptor (λ fd, sys_fcntl_lock fd cmd) fh.
Definition vsfs_flock (fh op : Z) : F Z := on_descriptor (λ fd, sys_flock fd op) fh.
Definition vsfs_fsync (fh : Z) : F Z := on_descriptor sys_fsync fh.
Definition vsfs_fgetattr (fh : Z) (stbuf : Stat) : F (Z * Stat) :=
  ret ← sys (sys_fstat (wrap_int32 fh));
  match ret with Ret st => mret (0%Z, st) | Errno e => mret ((- e)%Z, stbuf) end.

(** *** Operations that do nothing *)

Definition vsfs_truncate (path : string) (offset : Z) : F Z := mret 0%Z.
Definition vsfs_opendir (path : string) : F Z := mret 0%Z.
Definition vsfs_releasedir (path : string) : F Z := mret 0%Z.
Definition vsfs_getxattr (path name : string) : F Z := mret 0%Z.
End fuse.

(** ** Start and end *)

Section lifetime.
Context {R W OS : Type}.
Context `{ClusterRpc W, ConsistentHashMap R NodeInfo, MD5, BoostFilesystem, Posix OS}.
(** [fs::absolute], and how to open a connection. *)
Context (absolute : string → string) (dial : W → RpcNodeAddress → outcome () * W).
Context (ctx : Context) (fuel : nat).

Abbreviation Fs := (VsfsFuse AnyStorageManager R).

(** [VsfsFuse::VsfsFuse] *)
Definition new_fuse (dirwidth : Z) (basedir mnt host : string) (port : Z) (sm : string) : run Fs :=
  m ← (if bool_decide (sm = "posix") then Done (UsePosix {| posix_base_path_ := basedir |})
       else if bool_decide (sm = "object")
       then Done (UseObject {| base_path_ := basedir; num_subdirs_ := dirwidth |})
       else Fatal ("Unknown StorageManager type: " +:+ sm));
  Done {| basedir_ := basedir; mount_point_ := mnt; storage_manager_ := m;
          client_ := {| primary_ := {| host := host; port := port |};
                        master_map_ := ch_new; index_server_map_ := ch_new |};
          fh_to_obj_map_ := ∅ |}.

Definition set_client (v : Fs) (c : VSFSRpcClient R) : Fs :=
  {| basedir_ := basedir_ v; mount_point_ := mount_point_ v; storage_manager_ := storage_manager_ v;
     client_ := c; fh_to_obj_map_ := fh_to_obj_map_ v |}.

(** [VsfsFuse::init]: the instance exists from its construction on, whatever
    fails later, and the result of creating the root directory is not
    looked at. *)
Definition fuse_init (dirwidth : Z) (instance_ : option Fs) (basedir mnt host : string) (port : Z)
    (sm : string) (w : W) (os : OS) : late (Status * option Fs * W * OS) :=
  if instance_ is Some _ then Some (Fatal "VsfsFuse should only be initialized once.") else
  AWAIT v ⇐ Some (new_fuse dirwidth (absolute basedir) (absolute mnt) host port sm);;
  let '(status, os) := sm_init (storage_manager_ v) os in
  if negb (ok status) then ends (status, Some v, w, os) else
  AWAIT (status, c, w) ⇐ Some (init dial (client_ v) w);;
  let v := set_client v c in
  if negb (ok status) then ends (status, Some v, w, os) else
  AWAIT (_, w) ⇐ mkdir fuel c "/" 511 (ctx_uid ctx) (ctx_gid ctx) w;;
  ends (OK, Some v, w, os).

(** [VsfsFuse::destory]: the files that are still open are destroyed. *)
Definition destory (instance_ : option Fs) (os : OS) : option Fs * OS :=
  match instance_ with
  | None => (None, os)
  | Some v => (None, foldl (λ os p, file_destroy p.2 os) os (sorted_map Z.le (fh_to_obj_map_ v)))
  end.

(** The callbacks [init], which does nothing, and [destroy]. *)
Definition vsfs_init (os : OS) : OS := os.
Definition vsfs_destroy (instance_ : option Fs) (os : OS) : option Fs * OS := destory instance_ os.

(** The options of the program ([main] of fuse/vsfs.cpp), once parsed; a
    missing string is a null pointer. *)
Record Options := {
  opt_basedir : option string; opt_storage : option string; opt_host : option string;
  opt_port : Z; opt_dirwidth : Z;
}.
Definition given (s : option string) (otherwise : string) : string :=
  match s with Some s => if str_empty s then otherwise else s | None => otherwise end.
(** Base directory, host, port, storage manager and directory width. *)
Definition check_options (o : Options) : Status + string * string * Z * string * Z :=
  let storage := given (opt_storage o) "posix" in
  if str_empty (given (opt_basedir o) "") then inl (Err (-1) "Missing base dir")
  else if negb (bool_decide (storage = "posix") || bool_decide (storage = "object"))
  then inl (Err (-1) "Wrong storage type.")
  else inr (given (opt_basedir o) "", given (opt_host o) "localhost",
            (if bool_decide (opt_port o = 0%Z) then 9876%Z else opt_port o), storage,
            (if bool_decide (0 < opt_dirwidth o)%Z then opt_dirwidth o else 8192%Z)).
End lifetime.

Create HintDb fuse_keeps.

(** ** The table of open files is an invariant *)

(** The operations, and their dispatch. *)
Inductive fuse_op :=
  | Statfs | Access (path : string) (flag : Z) | Getattr (path : string) (stbuf : Stat)
  | Fgetattr (fh : Z) (stbuf : Stat) | Ioctl (fh cmd : Z) | Utimens (path : string) (atime mtime : Z)
  | Chmod (path : string) (mode : Z) | Chown (path : string) (uid gid : Z)
  | Truncate (path : string) (offset : Z) | Opendir (path : string) | Releasedir (path : string)
  | Readdir (junk : Stat) (path : string) | Mkdir (path : string) (mode : Z)
  | Mknod (path : string) (mode : Z) | Rmdir (path : string) | Create (path : string) (mode flags : Z)
  | Open (path : string) (flags : Z) | Unlink (path : string) | Release (fh : Z)
  | Readlink (path : string) (size : Z) | Read (fh size offset : Z)
  | Write (fh : Z) (buf : bytes) (offset : Z) | WriteBuf (fh : Z) (bufs : list bytes) (off : Z)
  | Flush (fh : Z) | Flock (fh op : Z) | Lock (fh cmd : Z) | Fsync (fh : Z)
  | Symlink (fpath link_path : string) | Getxattr (path name : string).

Section invariant.
Context {M R W OS : Type}.
Context `{!ClusterRpc W, !ConsistentHashMap R NodeInfo, !MD5, !BoostFilesystem, !VoblaStatus}.
Context `{!Posix OS, !PosixSpec OS, !StorageManager M OS, !StorageManagerSpec M OS}.
Context `{!LexicalCast Z} (now : Z) (ctx : Context) (fuel : nat).

Abbreviation St := (State M R W OS).
Abbreviation F := (fuse St).

Definition first {A B} (m : F (A * B)) : F A := '(a, _) ← m; mret a.
Definition dispatch (op : fuse_op) : F Z :=
  match op with
  | Statfs => first vsfs_statfs
  | Access path flag => vsfs_access path flag
  | Getattr path stbuf => first (vsfs_getattr path stbuf)
  | Fgetattr fh stbuf => first (vsfs_fgetattr fh stbuf)
  | Ioctl fh cmd => vsfs_ioctl fh cmd
  | Utimens path atime mtime => vsfs_utimens path atime mtime
  | Chmod path mode => vsfs_chmod path mode
  | Chown path uid gid => vsfs_chown path uid gid
  | Truncate path offset => vsfs_truncate path offset
  | Opendir path => vsfs_opendir path
  | Releasedir path => vsfs_releasedir path
  | Readdir junk path => first (vsfs_readdir now junk path)
  | Mkdir path mode => vsfs_mkdir ctx fuel path mode
  | Mknod path mode => vsfs_mknod ctx fuel path mode
  | Rmdir path => vsfs_rmdir fuel path
  | Create path mode flags => first (vsfs_create ctx fuel path mode flags)
  | Open path flags => first (vsfs_open path flags)
  | Unlink path => vsfs_unlink fuel path
  | Release fh => vsfs_release fh
  | Readlink path size => first (vsfs_readlink path size)
  | Read fh size offset => first (vsfs_read fh size offset)
  | Write fh buf offset => vsfs_write fh buf offset
  | WriteBuf fh bufs off => vsfs_write_buf fh bufs off
  | Flush fh => vsfs_flush fh
  | Flock fh op => vsfs_flock fh op
  | Lock fh cmd => vsfs_lock fh cmd
  | Fsync fh => vsfs_fsync fh
  | Symlink fpath link_path => vsfs_symlink ctx fuel fpath link_path
  | Getxattr path name => vsfs_getxattr path name
  end.

(** Every entry of the table is a file on the descriptor it is kept under,
    and that descriptor is open. *)
Definition table_ok (s : St) : Prop :=
  sm_valid (storage_manager_ (vsfs s)) ∧
  ∀ fd f, fh_to_obj_map_ (vsfs s) !! fd = Some f →
    f = new_file fd ∧ (0 ≤ fd < 2 ^ 31)%Z ∧ is_Some (os_fds (os_view (system s)) !! fd).

(** [m] keeps [table_ok] when it returns. *)
Definition keeps {A} (m : F A) : Prop := ∀ s a s', table_ok s → m s = ends (a, s') → table_ok s'.

Lemma late_bind_ends {A B} (p : late A) (f : A → late B) b :
  late_bind p f = ends b ↔ ∃ a, p = ends a ∧ f a = ends b.
Proof. unfold ends. destruct p as [[a|why]|]; simpl; naive_solver. Qed.

Lemma fuse_bind_ends {A B} (f : A → F B) (m : F A) s b s' :
  (m ≫= f) s = ends (b, s') ↔ ∃ a s1, m s = ends (a, s1) ∧ f a s1 = ends (b, s').
Proof.
  unfold mbind, fuse_bind. rewrite late_bind_ends. split.
  - intros ([a s1]&?&?). eauto.
  - intros (a&s1&?&?). by exists (a, s1).
Qed.

Lemma keeps_ret {A} (a : A) : keeps (mret a).
Proof. by intros s a' s' Hs [= <- <-]. Qed.
Lemma keeps_bind {A B} (m : F A) (f : A → F B) :
  keeps m → (∀ a, keeps (f a)) → keeps (m ≫= f).
Proof.
  intros Hm Hf s b s' Hs (a&s1&E1&E2)%fuse_bind_ends. eapply Hf; [|done]. by eapply Hm.
Qed.
Lemma keeps_fatal {A} why : keeps (fuse_fatal (A:=A) why).
Proof. by intros s a s' _ ?. Qed.
Lemma keeps_rpc_late {A} (call : VSFSRpcClient R → W → late (A * W)) : keeps (rpc_late call).
Proof.
  intros s a s' Hs ([b w]&_&[= <- <-])%late_bind_ends. done.
Qed.
Lemma keeps_rpc {A} (call : VSFSRpcClient R → W → run (A * W)) : keeps (rpc call).
Proof. apply keeps_rpc_late. Qed.
Lemma keeps_instance : keeps instance.
Proof. by intros s a s' Hs [= <- <-]. Qed.
Lemma keeps_get_errno : keeps get_errno.
Proof. by intros s a s' Hs [= <- <-]. Qed.
Lemma keeps_parse_path path : keeps (parse_path path).
Proof. intros s a s' Hs E. unfold parse_path in E. by apply late_bind_ends in E as (?&_&[= <- <-]). Qed.
Lemma keeps_parse_query path : keeps (parse_query now path).
Proof. intros s a s' Hs E. unfold parse_query in E. by apply late_bind_ends in E as ([]&_&[= <- <-]). Qed.
Lemma keeps_get_file fd : keeps (get_file fd).
Proof. apply keeps_bind; [apply keeps_instance|intros]. apply keeps_ret. Qed.

(** System calls that leave the descriptors alone. *)
Lemma table_ok_os (s : St) os :
  table_ok s → os_fds (os_view os) = os_fds (os_view (system s)) →
  table_ok {| vsfs := vsfs s; world := world s; system := os |}.
Proof. intros [Hv Ht] E. split; [done|]. simpl. by rewrite E. Qed.
Lemma keeps_sys {A} (call : OS → A * OS) : keeps_fds os_view call → keeps (sys call).
Proof.
  intros Hc s a s' Hs Hr. unfold sys in Hr. specialize (Hc (system s)).
  destruct (call (system s)) as [b os]. injection Hr as <- <-. by apply table_ok_os.
Qed.
Lemma keeps_storage {A} (call : M → OS → run (A * OS)) :
  (∀ m os a os', sm_valid m → call m os = Done (a, os') → os_fds (os_view os') = os_fds (os_view os)) →
  keeps (storage call).
Proof.
  intros Hc s a s' Hs Hr. unfold storage in Hr. apply late_bind_ends in Hr as ([b os]&Hb&[= <- <-]).
  injection Hb as Hb. apply table_ok_os; [done|]. eapply Hc; [|done]. apply Hs.
Qed.

Lemma status_of_fds {A} (call : OS → sysret A * OS) os st os' :
  keeps_fds os_view call → status_of (call os) = (st, os') → os_fds (os_view os') = os_fds (os_view os).
Proof. intros Hc E. specialize (Hc os). unfold status_of in E. by destruct (call os) as [[]]; simplify_eq/=. Qed.
Lemma value_of_fds {A} (call : OS → sysret A * OS) os st os' :
  keeps_fds os_view call → value_of (call os) = (st, os') → os_fds (os_view os') = os_fds (os_view os).
Proof. intros Hc E. specialize (Hc os). unfold value_of in E. by destruct (call os) as [[]]; simplify_eq/=. Qed.

Lemma keeps_sm_unlink path oid : keeps (storage (λ m os, sm_unlink m path oid os)).
Proof.
  apply keeps_storage. intros m os a os' Hv. rewrite sm_unlink_spec by done. intros [= E].
  eapply status_of_fds; [|done]. apply sys_unlink_fds.
Qed.
Lemma keeps_sm_symlink fpath path oid : keeps (storage (λ m os, sm_symlink m fpath path oid os)).
Proof.
  apply keeps_storage. intros m os a os' Hv. rewrite sm_symlink_spec by done. intros [= E].
  eapply status_of_fds; [|done]. apply sys_symlink_fds.
Qed.
Lemma keeps_sm_getattr path oid : keeps (storage (λ m os, sm_getattr m path oid os)).
Proof.
  apply keeps_storage. intros m os a os' Hv. rewrite sm_getattr_spec by done. intros [= E].
  eapply value_of_fds; [|done]. apply sys_stat_fds.
Qed.
Lemma keeps_sm_readlink path oid size : keeps (storage (λ m os, sm_readlink m path oid size os)).
Proof.
  apply keeps_storage. intros m os a os' Hv. rewrite sm_readlink_spec by done. intros [= E].
  unfold readlink_at in E. pose proof (sys_readlink_fds (sm_location m path oid) size os) as Hc.
  by destruct (sys_readlink _ _ os) as [[]]; simplify_eq/=.
Qed.
Lemma keeps_sm_mkdir path mode : keeps (storage (λ m os, sm_mkdir m path mode os)).
Proof.
  apply keeps_storage. intros m os a os' Hv.
  destruct (sm_mkdir_spec m path mode os Hv) as [(st&->)|(p&->)]; intros [= E]; [by subst|].
  eapply status_of_fds; [|done]. apply sys_mkdir_fds.
Qed.
Lemma keeps_sm_rmdir path : keeps (storage (λ m os, sm_rmdir m path os)).
Proof.
  apply keeps_storage. intros m os a os' Hv.
  destruct (sm_rmdir_spec m path os Hv) as [(st&->)|(p&->)]; intros [= E]; [by subst|].
  eapply status_of_fds; [|done]. apply sys_rmdir_fds.
Qed.
Lemma keeps_sm_statfs : keeps (storage (λ m os, Done (sm_statfs m os))).
Proof.
  apply keeps_storage. intros m os a os' Hv. destruct (sm_statfs_spec m os Hv) as (p&->). intros [= E].
  eapply value_of_fds; [|done]. apply sys_statvfs_fds.
Qed.
Lemma keeps_file_write f buf off : keeps (sys (file_write f buf off)).
Proof.
  apply keeps_sys. intros os. unfold file_write, handler_write. destruct (file_handler_ f); [|done].
  pose proof (sys_pwrite_fds (fd_ p) buf off os). by destruct (sys_pwrite _ _ _ os).
Qed.

(** A file on a descriptor the system has just handed out. *)
Lemma keeps_open_add path oid flags mode :
  keeps ('(status, file) ← storage (λ m os, sm_open m path oid flags mode os);
         match file with
         | Some file =>
             if negb (ok status) then mret (error_of status, None) else
             _ ← add_file (file_fd file) file;
             mret (0%Z, Some (wrap_uint64 (file_fd file)))
         | None => mret (error_of status, None)
         end).
Proof.
  intros s a s' Hs ([st file]&s1&E1&E2)%fuse_bind_ends.
  unfold storage in E1. apply late_bind_ends in E1 as ([b os]&Hb&[= -> <-]). injection Hb as Hb.
  destruct Hs as [Hv Ht]. rewrite (sm_open_spec _ _ _ _ _ _ Hv) in Hb. injection Hb as Hb.
  unfold open_at in Hb. destruct (sys_open _ _ _ _) as [[fd|e] os1] eqn:Ho; simplify_eq/=; last first.
  { injection E2 as <- <-. apply table_ok_os; [by split|]. by rewrite (sys_open_error _ _ _ _ _ _ Ho). }
  destruct (sys_open_fds _ _ _ _ _ _ Ho) as (Hfd&Hnew&x&Hx).
  assert (wrap_uint64 fd = fd) as Hw by (apply Z.mod_small; lia).
  assert (fh_to_obj_map_ (vsfs s) !! fd = None) as Hnone.
  { destruct (fh_to_obj_map_ (vsfs s) !! fd) as [f|] eqn:Hf; [|done].
    destruct (Ht fd f Hf) as (_&_&Hs). rewrite Hnew in Hs. by destruct Hs. }
  unfold file_fd in E2; simpl in E2. unfold add_file, instance, put_table, mbind, fuse_bind in E2.
  simpl in E2. rewrite Hw, Hnone in E2. simpl in E2. injection E2 as <- <-.
  split; [done|]. simpl. intros fd' f. rewrite Hx, !lookup_insert.
  case_decide; [intros [= <-]; subst; eauto|]. apply Ht.
Qed.

(** Closing and destroying a file touches its own descriptor only. *)
Lemma sys_close_other fd fd' (os os' : OS) r :
  sys_close fd os = (r, os') → fd' ≠ fd →
  os_fds (os_view os') !! fd' = os_fds (os_view os) !! fd'.
Proof.
  intros Hc Hne. destruct r as [[]|e].
  - apply sys_close_spec in Hc as [_ ->]. by apply lookup_delete_ne.
  - apply sys_close_error in Hc as [->| ->]; [done|]. by apply lookup_delete_ne.
Qed.
Lemma handler_close_other fd fd' (os os' : OS) st h :
  handler_close {| fd_ := fd |} os = (st, h, os') → fd' ≠ fd →
  (h = {| fd_ := -1 |} ∨ h = {| fd_ := fd |}) ∧
  os_fds (os_view os') !! fd' = os_fds (os_view os) !! fd'.
Proof.
  intros Hc Hne. unfold handler_close in Hc; simpl in Hc.
  destruct (sys_close fd os) as [r os1] eqn:Hs. pose proof (sys_close_other _ _ _ _ _ Hs Hne).
  destruct r; simplify_eq; auto.
Qed.
Lemma handler_destroy_other fd fd' h (os : OS) :
  h = {| fd_ := -1 |} ∨ h = {| fd_ := fd |} → fd' ≠ fd →
  os_fds (os_view (handler_destroy h os)) !! fd' = os_fds (os_view os) !! fd'.
Proof.
  intros Hh Hne. unfold handler_destroy. case_bool_decide; [|done].
  destruct Hh as [->| ->]; [simpl in *; lia|].
  destruct (handler_close _ os) as [[st h] os'] eqn:Hc. by eapply handler_close_other.
Qed.
Lemma file_close_other fd fd' (os os' : OS) st f :
  file_close (new_file fd) os = (st, f, os') → fd' ≠ fd →
  (f = {| file_handler_ := None |} ∨ f = new_file fd) ∧
  os_fds (os_view os') !! fd' = os_fds (os_view os) !! fd'.
Proof.
  intros Hc Hne. unfold file_close in Hc; simpl in Hc.
  destruct (handler_close _ os) as [[st1 h] os1] eqn:Hh.
  assert (ok st1 = false → h = {| fd_ := fd |}) as Hk.
  { unfold handler_close in Hh. destruct (sys_close _ os) as [[]]; by simplify_eq. }
  destruct (handler_close_other _ _ _ _ _ _ Hh Hne) as [Hd He].
  destruct (ok st1); injection Hc as <- <- <-.
  - split; [by left|]. by rewrite (handler_destroy_other fd) by done.
  - by rewrite Hk by done; auto.
Qed.
Lemma file_destroy_other fd fd' f (os : OS) :
  f = {| file_handler_ := None |} ∨ f = new_file fd → fd' ≠ fd →
  os_fds (os_view (file_destroy f os)) !! fd' = os_fds (os_view os) !! fd'.
Proof.
  intros [->| ->] Hne; [done|]. unfold file_destroy.
  destruct (file_close (new_file fd) os) as [[st f] os1] eqn:Hc.
  destruct (file_close_other _ _ _ _ _ _ Hc Hne) as [[->| ->] He]; simpl; [done|].
  by rewrite (handler_destroy_other fd) by auto.
Qed.

Lemma keeps_close_file fd : keeps (close_file fd).
Proof.
  intros s a s' [Hv Ht] E. unfold close_file, instance, mbind, fuse_bind in E. simpl in E.
  destruct (fh_to_obj_map_ (vsfs s) !! fd) as [f|] eqn:Hf; [|done].
  destruct (Ht fd f Hf) as (->&_&_). unfold sys in E. simpl in E.
  destruct (file_close (new_file fd) (system s)) as [[st f] os1] eqn:Hc. simpl in E.
  injection E as <- <-. split; [done|]. simpl. intros fd' f' [Hne Hf']%lookup_delete_Some.
  destruct (file_close_other _ _ _ _ _ _ Hc (not_eq_sym Hne)) as [Hk He].
  rewrite (file_destroy_other fd), He by done. by apply Ht.
Qed.

(** A duplicate of a descriptor, closed again. *)
Lemma keeps_flush fh : keeps (vsfs_flush fh).
Proof.
  intros s a s' [Hv Ht] (d&s1&E1&(res&s2&E2&E3)%fuse_bind_ends)%fuse_bind_ends.
  assert (s' = s2) as -> by (destruct res; by injection E3). clear E3.
  unfold sys in E1, E2. destruct (sys_dup _ _) as [d' os1] eqn:Hd. injection E1 as -> <-.
  simpl in E2. destruct (sys_close _ os1) as [res' os2] eqn:Hc. injection E2 as -> <-.
  split; [done|]. simpl. intros fd f Hf. destruct (Ht fd f Hf) as (->&Hfd&x&Hx).
  split_and!; [done|lia..|]. erewrite (sys_close_other _ fd _ _ _ Hc).
  - destruct d as [fd'|e].
    + apply sys_dup_spec in Hd as (_&Hn&y&_&->). simpl. rewrite lookup_insert_ne; [eauto|].
      intros ->. congruence.
    + apply sys_dup_error in Hd as ->. eauto.
  - destruct d as [fd'|e]; [|lia]. apply sys_dup_spec in Hd as (_&Hn&_). intros ->. congruence.
Qed.

#[local] Hint Resolve keeps_ret keeps_fatal keeps_rpc_late keeps_rpc keeps_instance keeps_get_errno
  keeps_parse_path keeps_parse_query keeps_get_file keeps_sm_unlink keeps_sm_symlink keeps_sm_getattr
  keeps_sm_readlink keeps_sm_mkdir keeps_sm_rmdir keeps_sm_statfs keeps_file_write keeps_close_file
  keeps_flush keeps_open_add : fuse_keeps.

(** Follows the code of an operation. *)
Ltac keeps_tac :=
  repeat first
    [ solve [auto with fuse_keeps]
    | apply keeps_bind; [|intros]
    | apply keeps_sys;
      first [apply sys_pread_fds|apply sys_fsync_fds|apply sys_fstat_fds|apply sys_ioctl_fds
            |apply sys_fcntl_lock_fds|apply sys_flock_fds]
    | match goal with
      | |- keeps (let '_ := ?p in _) => destruct p
      | |- keeps (match ?x with _ => _ end) => destruct x
      end ].

Lemma keeps_fill_results junk files filled : keeps (fill_results junk files filled).
Proof. revert filled. induction files as [|file files IH]; intros filled; simpl; keeps_tac. Qed.
Lemma keeps_write_fragments f bufs off total : keeps (write_fragments f bufs off total).
Proof. revert total. induction bufs as [|buf bufs IH]; intros total; simpl; keeps_tac. Qed.
#[local] Hint Resolve keeps_fill_results keeps_write_fragments : fuse_keeps.

Lemma keeps_vsfs_write fh buf off : keeps (vsfs_write fh buf off).
Proof. unfold vsfs_write. keeps_tac. Qed.

Lemma keeps_vsfs_release fh : keeps (vsfs_release fh).
Proof. unfold vsfs_release. keeps_tac. Qed.

Lemma dispatch_keeps op : keeps (dispatch op).
Proof.
  destruct op; simpl; unfold first, vsfs_statfs, vsfs_access, vsfs_getattr, vsfs_fgetattr, vsfs_ioctl,
    vsfs_utimens, vsfs_chmod, vsfs_chown, vsfs_truncate, vsfs_opendir, vsfs_releasedir, vsfs_readdir,
    vsfs_mkdir, vsfs_mknod, vsfs_rmdir, vsfs_create, vsfs_open, vsfs_unlink, vsfs_release, vsfs_readlink,
    vsfs_read, vsfs_write, vsfs_write_buf, vsfs_flock, vsfs_lock, vsfs_fsync, vsfs_symlink,
    vsfs_getxattr, on_descriptor; keeps_tac.
Qed.

(** A state the file system can get into from [s]. *)
Definition fuse_step (s s' : St) : Prop := ∃ op r, dispatch op s = ends (r, s').

(** C20: the handles of the FUSE file system.  Whatever operations run, as long
    as they return, every handle in the table stands for a file object of its
    own descriptor, and that descriptor is open.  Hence a new file never
    replaces one in the table, releasing a handle in the table never fails the
    check in [close_file], and removes it, while releasing any other handle
    ends the process. *)
Theorem fuse_handles_invariant s s' :
  table_ok s → rtc fuse_step s s' →
  table_ok s' ∧
  (∀ path oid flags mode fd os, 
     sm_open (storage_manager_ (vsfs s')) path oid flags mode (system s') = Done (OK, Some (new_file fd), os) →
     fh_to_obj_map_ (vsfs s') !! fd = None) ∧
  ∀ fh, match fh_to_obj_map_ (vsfs s') !! fh with
        | Some _ => ∃ r s'', dispatch (Release fh) s' = ends (r, s'') ∧
                      fh_to_obj_map_ (vsfs s'') = delete fh (fh_to_obj_map_ (vsfs s'))
        | None => ∃ why, dispatch (Release fh) s' = Some (Fatal why)
        end.
Proof.
  intros Hs Hr. assert (table_ok s') as [Hv Ht].
  { induction Hr as [s|s s1 s' (op&r&Hop) _ IH]; [done|]. by apply IH, (dispatch_keeps op s r). }
  split_and!; [by split|..].
  - intros path oid flags mode fd os Ho. rewrite sm_open_spec in Ho by done. injection Ho as Ho.
    unfold open_at in Ho. destruct (sys_open _ _ _ _) as [[fd'|] os1] eqn:Hs'; simplify_eq.
    destruct (sys_open_fds _ _ _ _ _ _ Hs') as (_&Hn&_).
    destruct (fh_to_obj_map_ (vsfs s') !! fd) as [f|] eqn:Hf; [|done].
    destruct (Ht fd f Hf) as (_&_&x&Hx). congruence.
  - intros fh. simpl. unfold vsfs_release, close_file, instance, mbind, fuse_bind; simpl.
    destruct (fh_to_obj_map_ (vsfs s') !! fh) as [f|]; [|by eexists].
    unfold sys. simpl. destruct (file_close f (system s')) as [[st f'] os1]. simpl. by do 2 eexists.
Qed.
End invariant.

(** ** Query results as links *)

Lemma str_map_no_char (f : ascii → ascii) c s : (∀ x, f x ≠ c) → no_char c (str_map f s).
Proof. intros Hf. induction s; [done|]. simpl. by apply no_char_cons. Qed.

Lemma result_name_roundtrip file : no_char hash_sign file → linked_file (result_name file) = file.
Proof.
  induction file as [|c file IH]; [done|]. intros [Hc Hs]%no_char_cons.
  unfold linked_file, result_name in *. simpl. rewrite IH by done. f_equal.
  repeat case_bool_decide; congruence.
Qed.

Lemma new_path_result root query result :
  no_char "?"%char root → no_char slash query → query ≠ "" → result ≠ "" →
  ∃ vsp, new_path (root +:+ "/?" +:+ query +:+ "/" +:+ result) = Done vsp ∧
    is_query vsp = false ∧ is_result vsp = true ∧ pp_result vsp = result.
Proof.
  intros Hr Hq Hqn Hrn. set (path := root +:+ "/?" +:+ query +:+ "/" +:+ result).
  assert (path = (root +:+ "/") +:+ String "?" (query +:+ String slash result)) as Hp.
  { unfold path. by rewrite str_app_assoc. }
  assert (find_char "?" 0 path = Some (String.length root + 1)) as Hqm.
  { rewrite Hp. unfold find_char, find_if_from. simpl.
    rewrite find_if_app_Some, str_length_app; [done|by apply no_char_app|by apply bool_decide_eq_true]. }
  assert (str_drop (String.length root + 1) path = String "?" (query +:+ String slash result)) as Hdrop.
  { rewrite Hp. change 1 with (String.length "/"). rewrite <-str_length_app. apply str_drop_app. }
  assert (find_char slash (String.length root + 1) path
          = Some (String.length root + 1 + (1 + String.length query))) as Hsl.
  { unfold find_char, find_if_from. rewrite Hdrop. simpl.
    by rewrite find_if_app_Some by (done || by apply bool_decide_eq_true). }
  unfold new_path. rewrite Hqm. assert (str_empty path = false) as ->.
  { unfold path. by destruct root. }
  simpl. rewrite Hsl. eexists. split; [done|].
  assert (substr (String.length root + 1 + 1)
    (String.length root + 1 + (1 + String.length query) - (String.length root + 1) - 1) path = query) as E1.
  { unfold substr. rewrite str_drop_add, Hdrop. simpl.
    replace (_ - _ - 1) with (String.length query) by lia. apply str_take_app. }
  assert (str_drop (String.length root + 1 + (1 + String.length query) + 1) path = result) as E2.
  { rewrite <-!Nat.add_assoc, Nat.add_assoc, str_drop_add, Hdrop. simpl.
    rewrite str_drop_add, str_drop_app. done. }
  unfold is_query, is_result; simpl in *. rewrite E1, E2.
  destruct query, result; done.
Qed.

Section links.
Context {M R W OS : Type}.
Context `{!ClusterRpc W, !ConsistentHashMap R NodeInfo, !MD5, !BoostFilesystem, !VoblaStatus}.
Context `{!Posix OS, !StorageManager M OS}.


(** A path with a number sign comes back as another path, and a link longer
    than the buffer is written past its end. *)
Lemma query_result_link_ambiguous : linked_file (result_name "/a#b") = "/a/b".
Proof. done. Qed.
End links.

(** ** Data *)

Section data.
Context {M R W OS : Type}.
Context `{!ClusterRpc W, !ConsistentHashMap R NodeInfo, !MD5, !BoostFilesystem, !VoblaStatus}.
Context `{!Posix OS, !PosixSpec OS, !StorageManager M OS, !StorageManagerSpec M OS}.
Context (ctx : Context) (fuel : nat).

Abbreviation St := (State M R W OS).
Abbreviation view s := (os_view (system s)).

(** A handle on the file at a path of the local file system. *)
Definition handle (s : St) (fh : Z) (p : string) : Prop :=
  fh_to_obj_map_ (vsfs s) !! fh = Some (new_file fh) ∧ (0 ≤ fh < 2 ^ 31)%Z ∧ refers (view s) fh p.

Lemma wrap_int32_fd fd : (0 ≤ fd < 2 ^ 31)%Z → wrap_int32 fd = fd.
Proof. intros. unfold wrap_int32. rewrite Z.mod_small; lia. Qed.

Lemma vsfs_write_spec fh buf off (s s' : St) n p :
  names_ok (view s) → handle s fh p → (0 ≤ off)%Z → (Z.of_nat (length buf) < 2 ^ 31)%Z →
  vsfs_write fh buf off s = ends (n, s') → (0 ≤ n)%Z →
  (n ≤ Z.of_nat (length buf))%Z ∧ names_ok (view s') ∧ handle s' fh p ∧ world s' = world s ∧
  vsfs s' = vsfs s ∧ (∃ d, view s' = set_data d (view s)) ∧
  (∃ data, contents (view s) p = Some data ∧
     contents (view s') p = Some (splice data (Z.to_nat off) (take (Z.to_nat n) buf))) ∧
  ∀ p', p' ≠ p → contents (view s') p' = contents (view s) p'.
Proof.
  intros Hok (Htab&Hfh&Hr) Hoff Hlen E Hn. unfold vsfs_write, get_file, instance, mbind, fuse_bind in E.
  simpl in E. rewrite Htab in E. unfold sys in E.
  destruct (file_write (new_file fh) buf off (system s)) as [r os1] eqn:Hw. simpl in E.
  assert (∃ r', r = Some r') as [r' ->].
  { unfold file_write in Hw; simpl in Hw. destruct (handler_write _ _ _ _). injection Hw as <- _. eauto. }
  destruct r' as [k|e]; injection E as E1 <-.
  - pose proof (λ p', file_write_contents _ _ _ _ _ _ _ p' Hok Hr Hoff Hw) as Hc.
    destruct (Hc p) as (Hk&Hok'&(d&Hd)&Hdata&_).
    assert (k = n) as -> by (rewrite <-E1; unfold wrap_int32; rewrite Z.mod_small; lia).
    split_and!; try done; [lia| | |].
    + split_and!; try done; try lia. destruct Hr as (i&fl&?&?&?). exists i, fl. simpl. by rewrite Hd.
    + by exists d.
    + intros p' Hne. destruct (Hc p') as (_&_&_&_&Hx). by apply Hx.
  - unfold file_write, handler_write in Hw; simpl in Hw.
    destruct (sys_pwrite fh buf off (system s)) as [r os2] eqn:Hp. injection Hw as -> <-.
    apply sys_pwrite_error in Hp as [He _]. simpl in E1. lia.
Qed.

Lemma vsfs_read_spec fh size off (s s' : St) n bs p :
  handle s fh p → (0 ≤ off)%Z → (0 ≤ size)%Z →
  vsfs_read fh size off s = ends ((n, bs), s') → (0 ≤ n)%Z →
  view s' = view s ∧ ∃ data, contents (view s) p = Some data ∧
    bs `prefix_of` take (Z.to_nat size) (drop (Z.to_nat off) data) ∧
    (bs = [] → take (Z.to_nat size) (drop (Z.to_nat off) data) = []).
Proof.
  intros (Htab&Hfh&Hr) Hoff Hsize E Hn. unfold vsfs_read, get_file, instance, mbind, fuse_bind in E.
  simpl in E. rewrite Htab in E. unfold sys in E. rewrite wrap_int32_fd in E by done.
  destruct (sys_pread fh size off (system s)) as [[bs'|e] os1] eqn:Hp; simpl in E; injection E as E1 <- <-.
  - destruct (sys_pread_spec _ _ _ _ _ _ Hsize Hoff Hp) as (Hv&i&fl&data&Hi&Hd&Hpre&Hnil).
    split; [done|]. destruct Hr as (i'&fl'&Hi'&_&Hf). rewrite Hi in Hi'. injection Hi' as <- <-.
    exists data. unfold contents. by rewrite Hf.
  - apply sys_pread_error in Hp as [He _]. lia.
Qed.

(** Opening a file and entering it into the table. *)
Lemma open_add_spec path oid flags mode (s s' : St) fh :
  table_ok s → names_ok (view s) → plain_at (view s) (sm_location (storage_manager_ (vsfs s)) path oid) →
  has_flag flags O_TRUNC = false → has_flag flags O_APPEND = false →
  ('(status, file) ← storage (λ m os, sm_open m path oid flags mode os);
   match file with
   | Some file =>
       if negb (ok status) then mret (error_of status, None) else
       _ ← add_file (file_fd file) file;
       mret (0%Z, Some (wrap_uint64 (file_fd file)))
   | None => mret (error_of status, None)
   end) s = ends ((0%Z, Some fh), s') →
  table_ok s' ∧ names_ok (view s') ∧
  handle s' fh (sm_location (storage_manager_ (vsfs s)) path oid) ∧
  world s' = world s ∧ storage_manager_ (vsfs s') = storage_manager_ (vsfs s) ∧
  client_ (vsfs s') = client_ (vsfs s) ∧
  os_dirs (view s') = os_dirs (view s) ∧ os_links (view s') = os_links (view s) ∧
  contents (view s') (sm_location (storage_manager_ (vsfs s)) path oid)
  = Some (default [] (contents (view s) (sm_location (storage_manager_ (vsfs s)) path oid))).
Proof.
  set (p := sm_location (storage_manager_ (vsfs s)) path oid). intros Hs Hok Hp Ht Ha E.
  pose proof (keeps_open_add path oid flags mode s _ s' Hs E) as Hs'. split; [done|].
  apply fuse_bind_ends in E as ([st file]&s1&E1&E2).
  unfold storage in E1. apply late_bind_ends in E1 as ([b os]&Hb&[= -> <-]). injection Hb as Hb.
  rewrite (sm_open_spec _ _ _ _ _ _ (proj1 Hs)) in Hb. injection Hb as Hb. fold p in Hb.
  destruct file as [f|]; [|done].
  assert (st = OK) as ->.
  { unfold open_at in Hb. destruct (sys_open _ _ _ _) as [[]]; by simplify_eq. }
  destruct (open_at_contents _ _ _ _ _ _ Hok Hp Ht Hb) as (fd&->&Hfd&Hnew&Hok'&Href&_&Hc&_&Hdirs&Hlinks).
  assert (wrap_uint64 fd = fd) as Hw by (apply Z.mod_small; lia).
  assert (fh_to_obj_map_ (vsfs s) !! fd = None) as Hnone.
  { destruct (fh_to_obj_map_ (vsfs s) !! fd) as [f|] eqn:Hf; [|done].
    destruct (proj2 Hs fd f Hf) as (_&_&x&Hx). congruence. }
  unfold file_fd, add_file, instance, put_table, mbind, fuse_bind in E2. simpl in E2.
  rewrite Hw, Hnone in E2. simpl in E2. injection E2 as <- <-. simpl.
  split_and!; try done. split; [by simpl; rewrite lookup_insert_eq|]. split; [done|]. by apply Href.
Qed.

(** Closing changes nothing but descriptors. *)
Definition only_fds (os os' : OS) : Prop := ∃ fds, os_view os' = set_fds fds (os_view os).
#[local] Instance only_fds_preorder : PreOrder only_fds.
Proof.
  split.
  - intros os. exists (os_fds (os_view os)). by destruct (os_view os).
  - intros os1 os2 os3 [f1 E1] [f2 E2]. exists f2. by rewrite E2, E1.
Qed.
Lemma handler_close_only h os st h' os' : handler_close h os = (st, h', os') → only_fds os os'.
Proof.
  unfold handler_close. destruct (sys_close (fd_ h) os) as [[[]|e] os1] eqn:Hc; intros; simplify_eq.
  - apply sys_close_spec in Hc as [_ E]. by eexists.
  - apply sys_close_error in Hc as [E|E]; [|by eexists]. exists (os_fds (os_view os)).
    rewrite E. by destruct (os_view os).
Qed.
Lemma handler_destroy_only h os : only_fds os (handler_destroy h os).
Proof.
  unfold handler_destroy. case_bool_decide; [|done].
  destruct (handler_close h os) as [[st h'] os'] eqn:E. by eapply handler_close_only.
Qed.
Lemma file_close_only f os st f' os' : file_close f os = (st, f', os') → only_fds os os'.
Proof.
  unfold file_close. destruct (file_handler_ f) as [h|]; [|by intros [= <- <- <-]].
  destruct (handler_close h os) as [[st1 h'] os1] eqn:E. apply handler_close_only in E.
  case_match; intros; simplify_eq; [|done]. etrans; [done|apply handler_destroy_only].
Qed.
Lemma file_destroy_only f os : only_fds os (file_destroy f os).
Proof.
  unfold file_destroy. destruct (file_close f os) as [[st f'] os'] eqn:E.
  apply file_close_only in E. case_match; [|done]. etrans; [done|apply handler_destroy_only].
Qed.

Lemma vsfs_release_spec fh (s s' : St) :
  table_ok s → names_ok (view s) → vsfs_release fh s = ends (0%Z, s') →
  table_ok s' ∧ names_ok (view s') ∧ world s' = world s ∧
  storage_manager_ (vsfs s') = storage_manager_ (vsfs s) ∧ client_ (vsfs s') = client_ (vsfs s) ∧
  only_fds (system s) (system s').
Proof.
  intros Hs [Hd Hl] E. apply fuse_bind_ends in E as (st&s1&E1&[= _ <-]).
  pose proof (keeps_close_file fh s _ s1 Hs E1) as Hs1.
  unfold close_file, instance, mbind, fuse_bind in E1. simpl in E1.
  destruct (fh_to_obj_map_ (vsfs s) !! fh) as [f|]; [|done]. unfold sys in E1. simpl in E1.
  destruct (file_close f (system s)) as [[st' f'] os1] eqn:Hc. simpl in E1. injection E1 as _ <-.
  assert (only_fds (system s) (file_destroy f' os1)) as Ho.
  { etrans; [by eapply file_close_only|apply file_destroy_only]. }
  split_and!; try done. simpl. destruct Ho as [fds ->]. by split.
Qed.

(** *** The operations return *)

(** Whatever the system answers, a handle or an error. *)
Lemma open_add_returns path oid flags mode (s : St) :
  table_ok s →
  ∃ r fh s', ('(status, file) ← storage (λ m os, sm_open m path oid flags mode os);
     match file with
     | Some file =>
         if negb (ok status) then mret (error_of status, None) else
         _ ← add_file (file_fd file) file;
         mret (0%Z, Some (wrap_uint64 (file_fd file)))
     | None => mret (error_of status, None)
     end) s = ends ((r, fh), s') ∧
    table_ok s' ∧ client_ (vsfs s') = client_ (vsfs s) ∧
    ∀ fh', fh = Some fh' → r = 0%Z ∧ world s' = world s ∧ is_Some (fh_to_obj_map_ (vsfs s') !! fh').
Proof.
  intros Hs. pose proof (keeps_open_add path oid flags mode s) as Hk.
  unfold storage, add_file, instance, put_table, mbind, fuse_bind in *. simpl in *.
  rewrite (sm_open_spec _ _ _ _ _ _ (proj1 Hs)) in *. unfold open_at in *.
  destruct (sys_open (sm_location (storage_manager_ (vsfs s)) path oid) flags mode (system s))
    as [[fd|e] os]; simpl in *.
  - change (file_fd (new_file fd)) with fd in *.
    destruct (fh_to_obj_map_ (vsfs s) !! wrap_uint64 fd) as [old|]; simpl in *;
      (eexists _, _, _; split; [done|]); (split; [by eapply Hk|]); (split; [done|]);
      intros fh' [= <-]; split_and!; try done; simpl; rewrite lookup_insert_eq; eauto.
  - eexists _, _, _. split; [done|]. split; [by eapply Hk|]. done.
Qed.

Lemma vsfs_create_returns path mode flags (s : St) oid w' :
  table_ok s →
  Client.create fuel (client_ (vsfs s)) path mode (proc_uid ctx) (proc_gid ctx) (world s)
  = ends (OK, Some oid, w') →
  ∃ r fh s', vsfs_create ctx fuel path mode flags s = ends ((r, fh), s') ∧
    table_ok s' ∧ client_ (vsfs s') = client_ (vsfs s) ∧
    ∀ fh', fh = Some fh' → r = 0%Z ∧ world s' = w' ∧ is_Some (fh_to_obj_map_ (vsfs s') !! fh').
Proof.
  intros Hs Hc. unfold vsfs_create, rpc_late. unfold mbind at 1, fuse_bind at 1. rewrite Hc. simpl.
  exact (open_add_returns path oid (Z.lor flags O_CREAT) (Some mode)
    {| vsfs := vsfs s; world := w'; system := system s |} Hs).
Qed.

Lemma vsfs_open_returns path flags (s : St) oid w' :
  table_ok s → Client.open (client_ (vsfs s)) path (world s) = Done (OK, Some oid, w') →
  ∃ r fh s', vsfs_open path flags s = ends ((r, fh), s') ∧ ∀ fh', fh = Some fh' → r = 0%Z.
Proof.
  intros Hs Hc. unfold vsfs_open, rpc, rpc_late. unfold mbind at 1, fuse_bind at 1. rewrite Hc. simpl.
  destruct (open_add_returns path oid flags None {| vsfs := vsfs s; world := w'; system := system s |} Hs)
    as (r&fh&s'&E&_&_&Hr).
  exists r, fh, s'. split; [exact E|]. intros fh' Hf. by destruct (Hr fh' Hf).
Qed.

Lemma vsfs_write_returns fh buf off (s : St) :
  ∃ n s', vsfs_write fh buf off s = ends (n, s') ∧ vsfs s' = vsfs s ∧ world s' = world s.
Proof.
  unfold vsfs_write, get_file, instance, get_errno, sys, mbind, fuse_bind. simpl.
  destruct (fh_to_obj_map_ (vsfs s) !! fh) as [f|]; simpl; [|by eexists _, _].
  destruct (file_write f buf off (system s)) as [[[n|e]|] os]; simpl; by eexists _, _.
Qed.

Lemma vsfs_read_returns fh size off (s : St) :
  ∃ n bs s', vsfs_read fh size off s = ends ((n, bs), s').
Proof.
  unfold vsfs_read, get_file, instance, sys, mbind, fuse_bind. simpl.
  destruct (fh_to_obj_map_ (vsfs s) !! fh) as [f|]; simpl; [|by eexists _, _, _].
  destruct (sys_pread _ _ _ _) as [[bs|e] os]; simpl; by eexists _, _, _.
Qed.

Lemma vsfs_release_returns fh (s : St) :
  is_Some (fh_to_obj_map_ (vsfs s) !! fh) →
  ∃ r s', vsfs_release fh s = ends (r, s') ∧ client_ (vsfs s') = client_ (vsfs s) ∧ world s' = world s.
Proof.
  intros [f Hf]. unfold vsfs_release, close_file, instance, sys, put_table, mbind, fuse_bind. simpl.
  rewrite Hf. simpl. destruct (file_close f (system s)) as [[st f'] os]. by eexists _, _.
Qed.

(** What is written through a handle is read back through it.  After a
    write that reports the whole buffer, a read of the same range that does
    not fail returns the buffer, or a nonempty beginning of it if the system
    reads fewer bytes than asked for, and the data of every other local file
    is as it was. *)
Theorem fuse_write_then_read fh buf off (s s1 s2 : St) n bs p :
  names_ok (view s) → handle s fh p → (0 ≤ off)%Z → (Z.of_nat (length buf) < 2 ^ 31)%Z →
  vsfs_write fh buf off s = ends (Z.of_nat (length buf), s1) →
  vsfs_read fh (Z.of_nat (length buf)) off s1 = ends ((n, bs), s2) → (0 ≤ n)%Z →
  bs `prefix_of` buf ∧ (bs = [] → buf = []) ∧
  ∀ p', p' ≠ p → contents (view s2) p' = contents (view s) p'.
Proof.
  intros Hok Hh Hoff Hlen Hw Hr Hn.
  destruct (vsfs_write_spec _ _ _ _ _ _ _ Hok Hh Hoff Hlen Hw (Nat2Z.is_nonneg _))
    as (_&_&Hh1&_&_&_&(data&_&Hc)&Hother).
  destruct (vsfs_read_spec _ _ _ _ _ _ _ _ Hh1 Hoff (Nat2Z.is_nonneg _) Hr Hn) as (Hv&data'&Hc'&Hpre).
  rewrite Hc in Hc'. injection Hc' as <-. rewrite !Nat2Z.id, firstn_all, take_drop_splice in Hpre.
  destruct Hpre as [Hpre Hnil]. split; [done|]. split; [done|]. intros p' Hne. rewrite Hv. by apply Hother.
Qed.

(** A write of two fragments of the same length leaves the second one only,
    at the place of the first. *)
Lemma write_fragments_overwrite fh a b off (s s' : St) n p :
  names_ok (view s) → handle s fh p → (0 ≤ off)%Z → length a = length b →
  (∀ os buf os' r, sys_pwrite fh buf off os = (r, os') → r = Ret (Z.of_nat (length buf))) →
  vsfs_write_buf fh [a; b] off s = ends (n, s') →
  n = wrap_int32 (Z.of_nat (length a) + Z.of_nat (length b)) ∧
  ∃ data, contents (view s) p = Some data ∧
    contents (view s') p = Some (splice data (Z.to_nat off) b).
Proof.
  intros Hok (Htab&Hfh&Hr) Hoff Hl Hfull E.
  unfold vsfs_write_buf, get_file, instance, mbind, fuse_bind in E. simpl in E. rewrite Htab in E.
  simpl in E. unfold mbind, fuse_bind, sys in E. simpl in E.
  destruct (file_write (new_file fh) a off (system s)) as [r1 os1] eqn:Hw1.
  assert (r1 = Some (Ret (Z.of_nat (length a)))) as ->.
  { unfold file_write, handler_write in Hw1; simpl in Hw1.
    destruct (sys_pwrite fh a off (system s)) eqn:Hp. apply Hfull in Hp as ->. by simplify_eq. }
  simpl in E. destruct (file_write (new_file fh) b off os1) as [r2 os2] eqn:Hw2.
  assert (r2 = Some (Ret (Z.of_nat (length b)))) as ->.
  { unfold file_write, handler_write in Hw2; simpl in Hw2.
    destruct (sys_pwrite fh b off os1) eqn:Hp. apply Hfull in Hp as ->. by simplify_eq. }
  simpl in E. injection E as <- <-. split; [done|]. simpl.
  destruct (file_write_contents _ _ _ _ _ _ p p Hok Hr Hoff Hw1) as (_&Hok1&(d&Hd)&(data&Hc&Hc1)&_).
  assert (refers (os_view os1) fh p) as Hr1.
  { destruct Hr as (i&fl&?&?&?). exists i, fl. by rewrite Hd. }
  destruct (file_write_contents _ _ _ _ _ _ p p Hok1 Hr1 Hoff Hw2) as (_&_&_&(data1&Hc1'&Hc2)&_).
  exists data. split; [done|]. rewrite Hc1 in Hc1'. injection Hc1' as <-.
  rewrite Hc2, !Nat2Z.id, !firstn_all. by rewrite splice_splice.
Qed.
End data.
