(* ===== verification/ClientIndex.v ===== *)
(** * Index operations of the RPC client (client/vsfs_rpc_client.cpp)

    Creation and removal of an index, index information, and the update
    pipeline: [update] cuts the requests into batches, and a task per batch
    finds the index of every request, groups the requests by index server and
    partition, resolves the object ids of the files and sends the records. *)

From S2P Require Import Prelude CxxString Platform PathUtil ThriftUtils IndexImpl LogManager IndexInfo.
From S2P Require Import RangeIndex RangeIndexWrapper IndexManager ServerMap Namespace ComplexQuery Client.
From Stdlib Require Import Ascii.

(** The remote calls on indices. *)
Class IndexRpc (W : Type) := {
  m_find_objects : W → RpcNodeAddress → list string → outcome (list Z) * W;
  m_create_index : W → RpcNodeAddress → RpcIndexCreateRequest → outcome () * W;
  m_locate_indices : W → RpcNodeAddress → RpcIndexInfoRequest → outcome (list string) * W;
  i_create_index : W → RpcNodeAddress → RpcIndexCreateRequest → outcome () * W;
  i_remove_index : W → RpcNodeAddress → string → string → outcome () * W;
  i_update : W → RpcNodeAddress → RpcIndexUpdate → outcome () * W;
  i_info : W → RpcNodeAddress → RpcIndexInfoRequest → outcome RpcIndexInfo * W;
}.

(** [VSFSClient::IndexUpdateRequest] (client/vsfs_client.h) *)
Record IndexUpdateRequest := {
  req_op : Z;
  req_file_path : string;
  req_index_name : string;
  req_key : string;
}.

Definition opcode_of (op : Z) : RpcIndexUpdateOpCode :=
  if Z.eqb op 1 then INSERT
  else if Z.eqb op 2 then UPDATE
  else if Z.eqb op 3 then REMOVE
  else UNKNOWN.

(** Runs a step that returns or aborts inside code that may loop. *)
Definition lift {A} (p : run A) : late A := Some p.

(** [map::operator[](k).push_back(x)] and [.insert(x)] *)
Definition push_back {K A} `{Countable K} (k : K) (x : A) (m : gmap K (list A)) : gmap K (list A) :=
  <[k := default [] (m !! k) ++ [x]]> m.
Definition insert_into {K A} `{Countable K, Countable A} (k : K) (x : A) (m : gmap K (gset A))
    : gmap K (gset A) := <[k := {[x]} ∪ default ∅ (m !! k)]> m.

Section client_index.
Context {W R : Type} `{ClusterRpc W} {index_rpc : IndexRpc W}.
Context `{ConsistentHashMap R NodeInfo, MD5, BoostFilesystem}.
Context `{VoblaStatus}.

Abbreviation client := (VSFSRpcClient R).

(** [S_ISDIR(stbuf.st_mode)] after [getattr(path, &stbuf)] *)
Definition stat_is_dir (info : option RpcFileInfo) : bool :=
  S_ISDIR (wrap_uint32 (default 0%Z (fi_mode (default no_file_info info)))).

(** *** The batch of an update task *)

Definition parent_of (request : IndexUpdateRequest) : string := fs_parent_path (req_file_path request).

(** The first loop of [get_parent_path_to_index_path_map]. *)
Definition parent_to_index_names (requests : list IndexUpdateRequest) : gmap string (gset string) :=
  foldl (λ m request, insert_into (parent_of request) (req_index_name request) m) ∅ requests.

(** The [while (true)] loop: up from a directory to the one with the index. *)
Fixpoint find_index (fuel : nat) (c : client) (tmp_parent index_name : string) (w : W)
    : late (Status * option string * W) :=
  match fuel with
  | 0 => None
  | S fuel' =>
      let path := index_path tmp_parent index_name in
      AWAIT (status, info, w) ⇐ lift (getattr c path w);;
      if ok status && stat_is_dir info then ends (OK, Some path, w)
      else if negb (ok status) && negb (Z.eqb (error_of status) (- ENOENT)) then
        ends (status, None, w)
      else if bool_decide (tmp_parent = "/") then
        ends (Err (-1) "Failed to find valid index.", None, w)
      else find_index fuel' c (fs_parent_path tmp_parent) index_name w
  end.

Fixpoint find_indices (fuel : nat) (c : client) (wanted : list (string * string))
    (index_map : gmap string (gmap string string)) (w : W)
    : late (Status * gmap string (gmap string string) * W) :=
  match wanted with
  | [] => ends (OK, index_map, w)
  | (parent, index_name) :: wanted' =>
      AWAIT (status, path, w) ⇐ find_index fuel c parent index_name w;;
      match path with
      | Some path =>
          find_indices fuel c wanted'
            (<[parent := <[index_name := path]> (default ∅ (index_map !! parent))]> index_map) w
      | None => ends (status, index_map, w)
      end
  end.

Definition wanted_indices (requests : list IndexUpdateRequest) : list (string * string) :=
  p ← sorted_map String.le (parent_to_index_names requests);
  name ← sorted_elements String.le p.2;
  [(p.1, name)].

Definition get_parent_path_to_index_path_map (fuel : nat) (c : client)
    (requests : list IndexUpdateRequest) (w : W)
    : late (Status * gmap string (gmap string string) * W) :=
  find_indices fuel c (wanted_indices requests) ∅ w.

(** [index_map.at(parent).at(name)] *)
Definition index_at (index_map : gmap string (gmap string string)) (request : IndexUpdateRequest)
    : run string :=
  match index_map !! parent_of request with
  | None => Fatal "std::out_of_range"
  | Some names =>
      match names !! req_index_name request with
      | None => Fatal "std::out_of_range"
      | Some path => Done path
      end
  end.

Fixpoint reorder_from (c : client) (index_map : gmap string (gmap string string)) (pos : nat)
    (requests : list IndexUpdateRequest) (request_map : gmap string (gmap string (list nat)))
    : run (gmap string (gmap string (list nat))) :=
  match requests with
  | [] => Done request_map
  | request :: requests' =>
      path ← index_at index_map request;
      let partition_path := path +:+ "/0" in
      node ← check_get (get (index_server_map_ c) (path_to_hash partition_path));
      let addr := address_to_string (address node) in
      reorder_from c index_map (S pos) requests'
        (<[addr := push_back partition_path pos (default ∅ (request_map !! addr))]> request_map)
  end.

Definition reorder_requests_to_index_servers (c : client) (requests : list IndexUpdateRequest)
    (index_map : gmap string (gmap string string)) : run (gmap string (gmap string (list nat))) :=
  reorder_from c index_map 0 requests ∅.

(** *** Object ids

    [find_objects] reserves room for the ids and stores them by [operator[]];
    the storage is a map from the positions written so far. *)

Fixpoint path_positions (c : client) (pos : nat) (paths : list string) (m : gmap string (list nat))
    : run (gmap string (list nat)) :=
  match paths with
  | [] => Done m
  | path :: paths' =>
      node ← check_get (get_path (master_map_ c) path);
      path_positions c (S pos) paths' (push_back (address_to_string (address node)) pos m)
  end.

Definition scatter (positions : list nat) (ids : list Z) (objects : gmap nat Z) : gmap nat Z :=
  foldl (λ m p, <[p.1 := p.2]> m) objects (zip positions ids).

Fixpoint ask_objects (paths : list string) (plan : list (string * list nat)) (objects : gmap nat Z)
    (w : W) : run (Status * gmap nat Z * W) :=
  match plan with
  | [] => Done (OK, objects, w)
  | (addr, positions) :: plan' =>
      let tmp_files := (λ pos, default "" (paths !! pos)) <$> positions in
      a ← string_to_address addr;
      match m_find_objects w a tmp_files with
      | (Reply tmp_objs, w) =>
          if bool_decide (length tmp_objs = length tmp_files)
          then ask_objects paths plan' (scatter positions tmp_objs objects) w
          else Fatal "tmp_objs.size() == tmp_files.size()"
      | (o, w) => Done (default OK (status_of_outcome o), objects, w)
      end
  end.

Definition find_objects (c : client) (paths : list string) (w : W) : run (Status * gmap nat Z * W) :=
  plan ← path_positions c 0 paths ∅;
  ask_objects paths (sorted_map String.le plan) ∅ w.

(** *** Sending the records *)

Definition no_request : IndexUpdateRequest :=
  {| req_op := 0; req_file_path := ""; req_index_name := ""; req_key := "" |}.

Definition record_of_request (requests : list IndexUpdateRequest) (object_ids : gmap nat Z) (pos : nat)
    : RpcIndexRecordUpdateOp :=
  let req := default no_request (requests !! pos) in
  {| op := opcode_of (req_op req); key := req_key req;
     value := to_string (default 0%Z (object_ids !! pos)) |}.

(** [txn_id] and the names of the lists are not set. *)
Definition update_of (requests : list IndexUpdateRequest) (object_ids : gmap nat Z)
    (parts : gmap string (list nat)) : RpcIndexUpdate :=
  {| u_txn_id := 0;
     u_updates := (λ p, {| root_path := p.1; list_name := "";
                           record_updates := record_of_request requests object_ids <$> p.2 |})
                    <$> sorted_map String.le parts |}.

Fixpoint send_updates (requests : list IndexUpdateRequest) (object_ids : gmap nat Z)
    (servers : list (string * gmap string (list nat))) (w : W) : run (Status * W) :=
  match servers with
  | [] => Done (OK, w)
  | (addr, parts) :: servers' =>
      a ← string_to_address addr;
      match i_update w a (update_of requests object_ids parts) with
      | (Reply _, w) => send_updates requests object_ids servers' w
      | (o, w) => Done (default OK (status_of_outcome o), w)
      end
  end.

(** [IndexUpdateTask::run] *)
Definition run_task (fuel : nat) (c : client) (requests : list IndexUpdateRequest) (w : W)
    : late (Status * W) :=
  AWAIT (status, index_map, w) ⇐ get_parent_path_to_index_path_map fuel c requests w;;
  if negb (ok status) then ends (status, w) else
  AWAIT request_map ⇐ lift (reorder_requests_to_index_servers c requests index_map);;
  AWAIT (status, object_ids, w) ⇐ lift (find_objects c (req_file_path <$> requests) w);;
  if negb (ok status) then ends (status, w) else
  lift (send_updates requests object_ids (sorted_map String.le request_map) w).

(** [IndexUpdateTask::add] and [size]; a task starts empty. *)
Definition new_task : list IndexUpdateRequest := [].
Definition task_add (task : list IndexUpdateRequest) (request : IndexUpdateRequest) : list IndexUpdateRequest :=
  task ++ [request].
Definition task_size (task : list IndexUpdateRequest) : nat := length task.

(** The loop of [update] that fills the tasks: a task starts once it holds more
    than [FLAGS_vsfs_client_batch_size] requests, and the last one always. *)
Fixpoint batches (batch_size : nat) (task requests : list IndexUpdateRequest)
    : list (list IndexUpdateRequest) :=
  match requests with
  | [] => [task]
  | request :: requests' =>
      let task := task_add task request in
      if bool_decide (batch_size < task_size task)
      then task :: batches batch_size new_task requests'
      else batches batch_size task requests'
  end.

(** The pool runs the tasks in an order [order] of its choice, here one after
    the other; a task keeps its own result. *)
Fixpoint run_tasks (fuel : nat) (c : client) (tasks : list (list IndexUpdateRequest))
    (order : list nat) (results : gmap nat Status) (w : W) : late (gmap nat Status * W) :=
  match order with
  | [] => ends (results, w)
  | i :: order' =>
      AWAIT (status, w) ⇐ run_task fuel c (default [] (tasks !! i)) w;;
      run_tasks fuel c tasks order' (<[i := status]> results) w
  end.

(** The first failed future is asked a second time: [second_get] is what that
    gives. *)
Definition update (second_get : Status → run Status) (batch_size : nat) (order : list nat)
    (fuel : nat) (c : client) (requests : list IndexUpdateRequest) (w : W) : late (Status * W) :=
  let tasks := batches batch_size new_task requests in
  AWAIT (results, w) ⇐ run_tasks fuel c tasks order ∅ w;;
  match list_find (λ s, ok s = false)
          ((λ i, default OK (results !! i)) <$> seq 0 (length tasks)) with
  | None => ends (OK, w)
  | Some (_, status) => AWAIT status ⇐ lift (second_get status);; ends (status, w)
  end.

(** *** Creation and removal *)

Fixpoint remove_partitions (fuel : nat) (c : client) (root name full_index_path : string)
    (partitions : list string) (status : Status) (w : W) : late (Status * W) :=
  match partitions with
  | [] => ends (status, w)
  | part :: partitions' =>
      let partition_path := fs_append full_index_path part in
      AWAIT (_, _, w) ⇐ unlink fuel c partition_path w;;
      AWAIT node ⇐ lift (check_get (get (index_server_map_ c) (path_to_hash partition_path)));;
      let '(o, w) := i_remove_index w (address node) root name in
      remove_partitions fuel c root name full_index_path partitions'
        (default status (status_of_outcome o)) w
  end.

Definition remove_index (fuel : nat) (c : client) (root name : string) (w : W) : late (Status * W) :=
  let full_index_path := index_path root name in
  AWAIT (status, partitions, w) ⇐ lift (readdir c full_index_path w);;
  if negb (ok status) then ends (status, w) else
  remove_partitions fuel c root name full_index_path (default [] partitions) status w.

Definition create_request (root name : string) (index_type key_type mode uid gid : Z)
    : RpcIndexCreateRequest :=
  {| cr_root := root; cr_name := name; cr_index_type := index_type; cr_key_type := key_type;
     cr_mode := mode; cr_uid := uid; cr_gid := gid |}.

Definition create_index (fuel : nat) (c : client) (root name : string)
    (index_type key_type mode uid gid : Z) (w : W) : late (Status * W) :=
  AWAIT (status, info, w) ⇐ lift (getattr c root w);;
  if negb (ok status) then ends (status, w) else
  if negb (stat_is_dir info) then ends (SystemError ENOTDIR, w) else
  let part := partition_path root name 0 in
  AWAIT index_server ⇐ lift (check_get (get (index_server_map_ c) (path_to_hash part)));;
  let '(o, w) := i_create_index w (address index_server)
                   (create_request part name index_type key_type mode uid gid) in
  let status := default OK (status_of_outcome o) in
  if negb (ok status) then ends (status, w) else
  AWAIT (status, w) ⇐ mkdir fuel c (root +:+ "/.vsfs") mode uid gid w;;
  if negb (ok status) && negb (Z.eqb (error_of status) (- EEXIST)) then
    remove_index fuel c root name w
  else
    let full_path := index_path root name in
    AWAIT master_server ⇐ lift (check_get (get (master_map_ c) (path_to_hash full_path)));;
    let '(o, w) := m_create_index w (address master_server)
                     (create_request root name index_type key_type mode uid gid) in
    AWAIT (_, w) ⇐ (if ok (default OK (status_of_outcome o)) then ends (OK, w)
                    else remove_index fuel c root name w);;
    AWAIT (status, _, w) ⇐ Client.create fuel c (partition_path root name 0) 493 uid gid w;;
    if ok status then ends (OK, w)
    else
      AWAIT (_, w) ⇐ rmdir fuel c (index_path root name) w;;
      AWAIT (_, w) ⇐ remove_index fuel c root name w;;
      ends (OK, w).

(** *** Index information *)

Fixpoint locate_all (request : RpcIndexInfoRequest) (nodes : list (Z * NodeInfo))
    (indices : list string) (w : W) : Status * list string * W :=
  match nodes with
  | [] => (OK, indices, w)
  | (_, node) :: nodes' =>
      match m_locate_indices w (address node) request with
      | (Reply tmp, w) => locate_all request nodes' (indices ++ tmp) w
      | (o, w) =>
          let status := default OK (status_of_outcome o) in
          if ok status then locate_all request nodes' indices w else (status, indices, w)
      end
  end.

Definition no_index_info : RpcIndexInfo :=
  {| rii_path := ""; rii_name := ""; rii_type := 0; rii_key_type := 0; rii_num_records := 0 |}.

Fixpoint index_infos (c : client) (indices : list string) (infos : list IndexInfo) (w : W)
    : run (Status * list IndexInfo * W) :=
  match indices with
  | [] => Done (OK, infos, w)
  | idx_path :: indices' =>
      match split_index_path idx_path with
      | None => Done (Err (-1) "Wrong index path format.", infos, w)
      | Some (root, name) =>
          let partition_path := idx_path +:+ "/0" in
          node ← check_get (get_path (index_server_map_ c) partition_path);
          let '(o, w) := i_info w (address node)
                           {| ir_txn_id := 0; ir_path := partition_path; ir_recursive := false |} in
          let status := default OK (status_of_outcome o) in
          let info := match o with Reply info => info | _ => no_index_info end in
          if ok status then
            index_infos c indices'
              (infos ++ [mkIndexInfo root name (rii_type info) (rii_key_type info)]) w
          else Done (status, infos, w)
      end
  end.

Definition get_index_infos (c : client) (path : string) (recursive : bool) (infos : list IndexInfo)
    (w : W) : run (Status * list IndexInfo * W) :=
  let request := {| ir_txn_id := 0; ir_path := path; ir_recursive := recursive |} in
  let '(status, indices, w) :=
    locate_all request (sorted_map Z.le (get_ch_ring_as_map (master_map_ c))) [] w in
  if ok status then index_infos c indices infos w else Done (status, infos, w).
End client_index.

(** ** Addresses survive printing *)

Lemma stoi_digit_head s :
  digit_head s → stoi s = Done (Z.of_N (read_digits 0 s).1).
Proof.
  intros (c&s'&d&->&Hd). unfold stoi. simpl.
  assert (Ascii.is_space c = false) as ->
    by (destruct c as [[] [] [] [] [] [] [] []]; done).
  assert (c ≠ "-"%char) as Hc by (by intros ->). rewrite Hd.
  destruct c as [[] [] [] [] [] [] [] []]; by try rewrite Hd.
Qed.

Lemma pretty_port z :
  (0 ≤ z)%Z → stoi (pretty z) = Done z ∧ no_char ":" (pretty z).
Proof.
  intros Hz. destruct z as [|x|x]; [done| |lia]. unfold no_char, pretty, pretty_Z, pretty_positive,
    pretty, pretty_N. rewrite decide_False by done. split.
  - rewrite stoi_digit_head, pretty_N_go_digits by (apply pretty_N_go_head; left; lia). done.
  - apply find_if_pretty_N_go; [|done]. by apply digit_not.
Qed.

(** The addresses a server has: a host name and a port. *)
Definition plain_address (a : RpcNodeAddress) : Prop := no_char ":" (host a) ∧ (0 ≤ port a)%Z.

Lemma string_to_address_to_string a :
  plain_address a → string_to_address (address_to_string a) = Done a.
Proof.
  intros [Hh [Hp Hc]%pretty_port]. unfold string_to_address, address_to_string, to_string.
  unfold find_char, find_if_from.
  change (":" +:+ pretty (port a)) with (String ":" (pretty (port a))).
  change (str_drop 0 ?s) with s. rewrite find_if_app_Some by done.
  cbn [fmap option_fmap option_map Nat.add].
  rewrite Reference.str_drop_app_cons, str_take_app, Hc. cbn [fmap option_fmap option_map].
  rewrite Hp. by destruct a.
Qed.

(** ** The update pipeline *)

Lemma batches_spec size task requests :
  length task ≤ size →
  concat (batches size task requests) = task ++ requests ∧
  Forall (λ b, length b ≤ S size) (batches size task requests).
Proof.
  revert task. induction requests as [|r requests IH]; intros task Hlen; simpl; unfold task_add, task_size, new_task.
  { rewrite !app_nil_r. split; [done|]. repeat constructor. lia. }
  case_bool_decide as Hn; rewrite length_app in Hn; simpl in Hn.
  - destruct (IH new_task) as [Hc Hf]; [simpl; lia|]. unfold new_task in *. simpl. rewrite Hc, <-app_assoc.
    split; [done|]. constructor; [|done]. rewrite length_app. simpl. lia.
  - destruct (IH (task ++ [r])) as [Hc Hf]; [rewrite length_app; simpl; lia|].
    by rewrite Hc, <-app_assoc.
Qed.

Lemma batches_one size task requests :
  length task + length requests ≤ size → batches size task requests = [task ++ requests].
Proof.
  revert task. induction requests as [|r requests IH]; intros task Hlen; simpl in *;
    unfold task_add, task_size, new_task.
  { by rewrite app_nil_r. }
  rewrite bool_decide_eq_false_2 by (rewrite length_app; simpl; lia).
  rewrite IH by (rewrite length_app; simpl; lia). by rewrite <-app_assoc.
Qed.

Section pipeline_lemmas.
Context {W R : Type} `{!ClusterRpc W, !IndexRpc W, !ConsistentHashMap R NodeInfo, !MD5, !BoostFilesystem}.
Context `{!VoblaStatus}.

Definition result_of {A} (r : run A) : option A := match r with Done a => Some a | Fatal _ => None end.

(** The server and the partition of a request. *)
Definition route (c : VSFSRpcClient R) (index_map : gmap string (gmap string string))
    (request : IndexUpdateRequest) : run (string * string) :=
  path ← index_at index_map request;
  node ← check_get (get (index_server_map_ c) (path_to_hash (path +:+ "/0")));
  Done (address_to_string (address node), path +:+ "/0").

(** The positions grouped under a server and a partition. *)
Definition positions_at (request_map : gmap string (gmap string (list nat))) (addr part : string)
    : list nat := default [] (default ∅ (request_map !! addr) !! part).

Lemma reorder_from_step (c : VSFSRpcClient R) im pos request requests rm :
  reorder_from c im pos (request :: requests) rm =
  '(addr, part) ← route c im request;
  reorder_from c im (S pos) requests (<[addr := push_back part pos (default ∅ (rm !! addr))]> rm).
Proof.
  simpl. unfold route. destruct (index_at im request) as [path|]; simpl; [|done].
  by destruct (check_get _).
Qed.

Lemma positions_at_push rm addr part pos addr' part' :
  positions_at (<[addr := push_back part pos (default ∅ (rm !! addr))]> rm) addr' part' =
  positions_at rm addr' part' ++ if decide ((addr, part) = (addr', part')) then [pos] else [].
Proof.
  unfold positions_at, push_back. rewrite lookup_insert. destruct (decide (addr = addr')) as [->|Ha].
  - simpl. rewrite lookup_insert. destruct (decide (part = part')) as [->|Hp].
    + by rewrite decide_True.
    + rewrite decide_False by congruence. by rewrite app_nil_r.
  - rewrite decide_False by congruence. by rewrite app_nil_r.
Qed.

Lemma reorder_from_exact (c : VSFSRpcClient R) im before requests rm rm' addr part :
  reorder_from c im (length before) requests rm = Done rm' →
  positions_at rm' addr part = positions_at rm addr part ++
    filter (λ pos, ((before ++ requests) !! pos) ≫= (λ r, result_of (route c im r)) = Some (addr, part))
      (seq (length before) (length requests)).
Proof.
  revert before rm. induction requests as [|r requests IH]; intros before rm Hr.
  { simpl in *. simplify_eq. by rewrite app_nil_r. }
  rewrite reorder_from_step in Hr. destruct (route c im r) as [[a p]|] eqn:Hroute; simplify_eq/=.
  assert (S (length before) = length (before ++ [r])) as Hlen by (rewrite length_app; simpl; lia).
  rewrite Hlen in Hr. specialize (IH (before ++ [r]) _ Hr). rewrite IH, positions_at_push, <-Hlen.
  rewrite <-!app_assoc. f_equal. simpl. rewrite filter_cons.
  rewrite lookup_app_r, Nat.sub_diag by lia. simpl. rewrite Hroute. simpl.
  destruct (decide ((a, p) = (addr, part))) as [He|He].
  - by rewrite decide_True by congruence.
  - by rewrite decide_False by congruence.
Qed.

Lemma reorder_from_total (c : VSFSRpcClient R) im pos requests rm :
  (∀ r, r ∈ requests → ∃ p, route c im r = Done p) →
  ∃ rm', reorder_from c im pos requests rm = Done rm'.
Proof.
  revert pos rm. induction requests as [|r requests IH]; intros pos rm Hr; [by eexists|].
  rewrite reorder_from_step. destruct (Hr r) as [[a p] ->]; [left|]. simpl.
  apply IH. intros r' Hr'. apply Hr. by right.
Qed.

(** All the requests go to one partition. *)
Lemma reorder_from_same (c : VSFSRpcClient R) im pos requests rm addr part :
  requests ≠ [] → (∀ r, r ∈ requests → route c im r = Done (addr, part)) →
  reorder_from c im pos requests rm =
  Done (<[addr := <[part := positions_at rm addr part ++ seq pos (length requests)]>
                    (default ∅ (rm !! addr))]> rm).
Proof.
  revert pos rm. induction requests as [|r requests IH]; intros pos rm Hne Hr; [done|].
  rewrite reorder_from_step, Hr by left. simpl.
  destruct (decide (requests = [])) as [->|Hne'].
  { simpl. unfold push_back, positions_at. done. }
  rewrite IH; [|done|intros r' Hr'; apply Hr; by right].
  rewrite lookup_insert_eq. simpl. unfold push_back. rewrite insert_insert_eq, insert_insert_eq.
  unfold positions_at. rewrite lookup_insert_eq. simpl. rewrite lookup_insert_eq. simpl.
  by rewrite <-app_assoc.
Qed.

(** [find_indices] collects what [find_index] finds. *)
Lemma find_indices_all fuel (c : VSFSRpcClient R) wanted index_map (w : W) found :
  (∀ parent name, (parent, name) ∈ wanted →
     find_index fuel c parent name w = ends (OK, Some (found parent name), w)) →
  ∃ index_map', find_indices fuel c wanted index_map w = ends (OK, index_map', w) ∧
    ∀ parent name, (parent, name) ∈ wanted ∨
        default ∅ (index_map !! parent) !! name = Some (found parent name) →
      default ∅ (index_map' !! parent) !! name = Some (found parent name).
Proof.
  revert index_map. induction wanted as [|[p n] wanted IH]; intros index_map Hw; simpl.
  { exists index_map. split; [done|]. intros parent name [?%elem_of_nil|?]; done. }
  rewrite Hw by left. simpl.
  edestruct IH as (im'&Him&Hfound); [intros; apply Hw; by right|]. exists im'. split; [done|].
  intros parent name Hor. apply Hfound.
  destruct (decide ((parent, name) = (p, n))) as [[= -> ->]|Hne].
  { right. rewrite lookup_insert_eq. simpl. apply lookup_insert_eq. }
  destruct Hor as [[?|?]%elem_of_cons|Hold]; [done|by left|]. right.
  rewrite lookup_insert. destruct (decide (p = parent)) as [->|]; [|done]. simpl.
  rewrite lookup_insert_ne; [done|]. intros ->. done.
Qed.

Lemma elem_of_parent_to_index_names requests parent name :
  name ∈ default ∅ (parent_to_index_names requests !! parent) ↔
  ∃ r, r ∈ requests ∧ parent_of r = parent ∧ req_index_name r = name.
Proof.
  unfold parent_to_index_names. induction requests as [|r requests IH] using rev_ind.
  { simpl. rewrite lookup_empty. simpl. split; [set_solver|]. by intros (?&?%elem_of_nil&_). }
  rewrite foldl_snoc. unfold insert_into at 1. rewrite lookup_insert.
  setoid_rewrite elem_of_app. setoid_rewrite list_elem_of_singleton.
  destruct (decide (parent_of r = parent)) as [<-|Hp]; simpl.
  - rewrite elem_of_union, elem_of_singleton, IH. naive_solver.
  - rewrite IH. naive_solver.
Qed.

Lemma elem_of_wanted_indices requests parent name :
  (parent, name) ∈ wanted_indices requests ↔
  ∃ r, r ∈ requests ∧ parent_of r = parent ∧ req_index_name r = name.
Proof.
  rewrite <-elem_of_parent_to_index_names. unfold wanted_indices.
  rewrite list_elem_of_bind. split.
  - intros ([p s]&Hin&Hs%elem_of_sorted_map). simpl in Hin.
    apply list_elem_of_bind in Hin as (n&Hn%list_elem_of_singleton&Hn').
    apply elem_of_sorted_elements in Hn'. simplify_eq. by rewrite Hs.
  - intros Hn. destruct (parent_to_index_names requests !! parent) as [s|] eqn:Hs; [|set_solver].
    exists (parent, s). split; [|by apply elem_of_sorted_map]. apply list_elem_of_bind.
    exists name. split; [by apply list_elem_of_singleton|]. by apply elem_of_sorted_elements.
Qed.
End pipeline_lemmas.

Section object_lemmas.
Context {W R : Type} `{!ClusterRpc W, !IndexRpc W, !ConsistentHashMap R NodeInfo, !MD5, !BoostFilesystem}.
Context `{!ConsistentHashMapSpec R NodeInfo}.

(** The address of the master in charge of a path. *)
Definition owner_of (c : VSFSRpcClient R) (path : string) : RpcNodeAddress :=
  address (default no_node (get_path (master_map_ c) path).2).

Lemma get_path_owner (c : VSFSRpcClient R) path :
  ch_view (master_map_ c) ≠ ∅ →
  ∃ pos node, get_path (master_map_ c) path = (OK, Some node) ∧
    ch_view (master_map_ c) !! pos = Some node ∧ owner_of c path = address node.
Proof.
  intros Hne. unfold owner_of, get_path. rewrite get_spec.
  destruct (ring_owner_total (ch_view (master_map_ c)) (path_to_hash path) Hne) as [node Hn].
  rewrite Hn. destruct (ring_owner_elem _ _ _ Hn) as [pos Hpos]. eauto.
Qed.

Lemma path_positions_exact (c : VSFSRpcClient R) before paths m :
  ch_view (master_map_ c) ≠ ∅ → (∀ addr, m !! addr ≠ Some []) →
  ∃ m', path_positions c (length before) paths m = Done m' ∧ (∀ addr, m' !! addr ≠ Some []) ∧
    ∀ addr, default [] (m' !! addr) = default [] (m !! addr) ++
      filter (λ pos, (λ p, address_to_string (owner_of c p)) <$> ((before ++ paths) !! pos) = Some addr)
        (seq (length before) (length paths)).
Proof.
  intros Hne. revert before m. induction paths as [|path paths IH]; intros before m Hnil.
  { exists m. split_and!; [done..|]. intros addr. by rewrite app_nil_r. }
  simpl. destruct (get_path_owner c path Hne) as (pos&node&Hget&_&Hown).
  unfold check_get. rewrite Hget. simpl. rewrite <-Hown.
  assert (S (length before) = length (before ++ [path])) as Hlen by (rewrite length_app; simpl; lia).
  destruct (IH (before ++ [path]) (push_back (address_to_string (owner_of c path)) (length before) m))
    as (m'&Hm'&Hnil'&Hpos).
  { intros addr. unfold push_back. rewrite lookup_insert. case_decide; [|done].
    intros [= Hx]. by apply app_nil in Hx as []. }
  rewrite Hlen. exists m'. split_and!; [done..|]. intros addr. rewrite Hpos, <-Hlen, <-!app_assoc.
  rewrite filter_cons, lookup_app_r, Nat.sub_diag by lia. simpl.
  unfold push_back. rewrite lookup_insert.
  destruct (decide (address_to_string (owner_of c path) = addr)) as [->|Ha]; simpl.
  - rewrite decide_True by done. by rewrite <-app_assoc.
  - by rewrite decide_False by congruence.
Qed.

Lemma lookup_scatter (val : nat → Z) positions objects pos :
  scatter positions (val <$> positions) objects !! pos =
  if decide (pos ∈ positions) then Some (val pos) else objects !! pos.
Proof.
  unfold scatter. revert objects. induction positions as [|p positions IH]; intros objects; [done|].
  rewrite fmap_cons. cbn [zip_with foldl fst snd]. rewrite IH. destruct (decide (pos ∈ positions)).
  - by rewrite decide_True by by right.
  - rewrite lookup_insert. destruct (decide (p = pos)) as [->|Hp].
    + by rewrite decide_True by left.
    + rewrite decide_False; [done|]. by intros [->|?]%elem_of_cons.
Qed.

(** Masters that answer [find_objects] by [id_of] and keep their state. *)
Definition answers_ids (c : VSFSRpcClient R) (w : W) (id_of : RpcNodeAddress → string → Z) : Prop :=
  ∀ pos node, ch_view (master_map_ c) !! pos = Some node →
    plain_address (address node) ∧
    ∀ files, m_find_objects w (address node) files = (Reply (id_of (address node) <$> files), w).

Lemma ask_objects_exact (c : VSFSRpcClient R) w id_of paths plan objects :
  ch_view (master_map_ c) ≠ ∅ → answers_ids c w id_of →
  Forall (λ p, p.2 ≠ [] ∧ ∀ pos, pos ∈ p.2 →
            ∃ path, paths !! pos = Some path ∧ address_to_string (owner_of c path) = p.1) plan →
  ∃ objects', ask_objects paths plan objects w = Done (OK, objects', w) ∧
    ∀ pos path, paths !! pos = Some path →
      objects' !! pos = if decide (pos ∈ plan ≫= snd)
                        then Some (id_of (owner_of c path) path) else objects !! pos.
Proof.
  intros Hne Hans. revert objects. induction plan as [|[addr positions] plan IH]; intros objects Hp.
  { by exists objects. }
  apply Forall_cons in Hp as [[Hnil Hhd] Htl]. cbn [fst snd] in *.
  assert (∃ p0, p0 ∈ positions) as [p0 Hin0].
  { destruct positions as [|p0]; [done|]. exists p0. left. }
  destruct (Hhd p0 Hin0) as (path0&Hp0&Haddr).
  destruct (get_path_owner c path0 Hne) as (k&node&_&Hk&Hown).
  destruct (Hans k node Hk) as [Hplain Hfind].
  assert (string_to_address addr = Done (address node)) as Hsa.
  { rewrite <-Haddr, Hown. by apply string_to_address_to_string. }
  cbn [ask_objects]. rewrite Hsa. cbn [mbind run_bind]. rewrite Hfind.
  set (val pos := id_of (owner_of c (default "" (paths !! pos))) (default "" (paths !! pos))).
  assert (id_of (address node) <$> ((λ pos, default "" (paths !! pos)) <$> positions)
          = val <$> positions) as Hval.
  { rewrite <-list_fmap_compose. apply list_fmap_ext. intros i pos Hi%list_elem_of_lookup_2. simpl.
    destruct (Hhd pos Hi) as (path&Hpath&Ha). unfold val. rewrite Hpath. simpl. f_equal.
    assert (string_to_address (address_to_string (owner_of c path)) = Done (address node)) as Hs.
    { rewrite Ha, <-Haddr, Hown. by apply string_to_address_to_string. }
    destruct (get_path_owner c path Hne) as (k'&node'&_&Hk'&Hown'). rewrite Hown' in Hs |- *.
    rewrite string_to_address_to_string in Hs by (by eapply Hans). by injection Hs as ->. }
  rewrite Hval.
  rewrite bool_decide_eq_true_2 by (by rewrite !length_fmap).
  destruct (IH (scatter positions (val <$> positions) objects) Htl) as (objects'&->&Hobj).
  exists objects'. split; [done|]. intros pos path Hpath. rewrite (Hobj pos path Hpath).
  rewrite bind_cons, lookup_scatter. simpl snd.
  destruct (decide (pos ∈ plan ≫= snd)) as [Hin|Hnin].
  { by rewrite decide_True by (apply elem_of_app; by right). }
  destruct (decide (pos ∈ positions)) as [Hin'|Hnin'].
  - rewrite decide_True by (apply elem_of_app; by left). unfold val. by rewrite Hpath.
  - rewrite decide_False; [done|]. by intros [?|?]%elem_of_app.
Qed.

Lemma find_objects_spec (c : VSFSRpcClient R) (w : W) id_of (paths : list string) :
  ch_view (master_map_ c) ≠ ∅ → answers_ids c w id_of →
  ∃ objects, find_objects c paths w = Done (OK, objects, w) ∧
    ∀ i path, paths !! i = Some path →
      ∃ node, get_path (master_map_ c) path = (OK, Some node) ∧
        objects !! i = Some (id_of (address node) path).
Proof.
  intros Hne Hans. unfold find_objects.
  destruct (path_positions_exact c [] paths ∅ Hne) as (m&Hm&Hnil&Hpos);
    [by intros addr; rewrite lookup_empty|].
  setoid_rewrite lookup_empty in Hpos. simpl in Hm, Hpos. rewrite Hm. simpl.
  assert (∀ addr positions pos, m !! addr = Some positions → pos ∈ positions ↔
            ∃ path, paths !! pos = Some path ∧ address_to_string (owner_of c path) = addr) as Hin.
  { intros addr positions pos Ha. specialize (Hpos addr). rewrite Ha in Hpos. simpl in Hpos.
    rewrite Hpos, list_elem_of_filter, elem_of_seq, fmap_Some. split.
    - intros [(path&?&[= ->]) _]. eauto.
    - intros (path&Hp&<-). split; [eauto|]. apply lookup_lt_Some in Hp. lia. }
  destruct (ask_objects_exact c w id_of paths (sorted_map String.le m) ∅) as (objects&->&Hobj);
    [done|done| |].
  - apply Forall_forall. intros [addr positions] Ha%elem_of_sorted_map. simpl. split.
    + intros ->. by destruct (Hnil addr).
    + intros pos Hp. by apply (Hin addr positions pos Ha).
  - exists objects. split; [done|]. intros i path Hp.
    destruct (get_path_owner c path Hne) as (k&node&Hget&_&Hown). exists node. split; [done|].
    rewrite (Hobj i path Hp), Hown. rewrite decide_True; [done|].
    apply list_elem_of_bind.
    specialize (Hpos (address_to_string (owner_of c path))).
    destruct (m !! address_to_string (owner_of c path)) as [positions|] eqn:Ha; simpl in Hpos.
    + exists (address_to_string (owner_of c path), positions). split.
      * simpl. apply (Hin _ _ i Ha). eauto.
      * by apply elem_of_sorted_map.
    + exfalso. apply (not_elem_of_nil i). rewrite Hpos. apply list_elem_of_filter.
      rewrite elem_of_seq. simpl. rewrite Hp. split; [done|]. apply lookup_lt_Some in Hp. lia.
Qed.
End object_lemmas.

(** ** The search for the index of a file *)

(** A directory as its names from the lowest to the highest. *)
Fixpoint path_of (names : list string) : string :=
  match names with
  | [] => "/"
  | [n] => "/" +:+ n
  | n :: names' => path_of names' +:+ "/" +:+ n
  end.

Lemma last_char_app_name s n : plain_name n → last_char (s +:+ n) ≠ Some slash.
Proof.
  intros [Hne Hno]. induction s as [|c s IH].
  - rewrite str_app_nil_l. induction n as [|c n IHn]; [done|].
    apply no_char_cons in Hno as [Hc Hno]. simpl. destruct n; [congruence|].
    apply IHn; done.
  - rewrite str_app_cons. simpl. destruct (s +:+ n) eqn:Hs; [|done].
    destruct s; [|done]. rewrite str_app_nil_l in Hs. by subst.
Qed.

Lemma plain_dir_app d n : plain_dir d → plain_name n → plain_dir (d +:+ "/" +:+ n).
Proof.
  intros (Hne&Hl&Hst) Hn. split_and!.
  - by destruct d.
  - rewrite <-str_app_assoc. by apply last_char_app_name.
  - destruct d as [|c1 [|c2 d]]; [done| |done]. simpl in *. case_bool_decide; [|done].
    subst. by destruct Hl.
Qed.

Lemma path_of_head n names :
  Forall plain_name (n :: names) →
  ∃ c s, path_of (n :: names) = String slash (String c s) ∧ c ≠ slash.
Proof.
  revert n. induction names as [|n' names IH]; intros n [[Hne Hno] Hns]%Forall_cons.
  - destruct n as [|c n]; [done|]. apply no_char_cons in Hno as [Hc _]. by exists c, n.
  - destruct (IH n' Hns) as (c&s&Hp&Hc).
    change (path_of (n :: n' :: names)) with (path_of (n' :: names) +:+ "/" +:+ n).
    rewrite Hp. by exists c, (s +:+ "/" +:+ n).
Qed.

Lemma plain_dir_path_of n names : Forall plain_name (n :: names) → plain_dir (path_of (n :: names)).
Proof.
  intros Hall. destruct (path_of_head n names Hall) as (c&s&Hp&Hc).
  apply Forall_cons in Hall as [Hn _]. split_and!.
  - by rewrite Hp.
  - destruct names as [|n' names]; [by apply last_char_app_name|].
    change (path_of (n :: n' :: names)) with (path_of (n' :: names) +:+ "/" +:+ n).
    rewrite <-str_app_assoc. by apply last_char_app_name.
  - rewrite Hp. simpl. by rewrite (bool_decide_eq_false_2 (slash = c)).
Qed.

Lemma parent_path_of `{!BoostFilesystem, !BoostFilesystemSpec} n names :
  Forall plain_name (n :: names) → fs_parent_path (path_of (n :: names)) = path_of names.
Proof.
  intros Hall. pose proof Hall as [Hn Hns]%Forall_cons. destruct names as [|n' names].
  - by apply fs_parent_path_root.
  - change (path_of (n :: n' :: names)) with (path_of (n' :: names) +:+ "/" +:+ n).
    apply fs_parent_path_dir; [|done]. by apply plain_dir_path_of.
Qed.

Section find_lemmas.
Context {W R : Type} `{!ClusterRpc W, !IndexRpc W, !ConsistentHashMap R NodeInfo, !MD5}.
Context `{!BoostFilesystem, !BoostFilesystemSpec, !VoblaStatus}.
(** What [getattr] says about a path; the masters answer, or do not know it. *)
Context (c : VSFSRpcClient R) (w : W) (attrs : string → Status * option RpcFileInfo).
Context (Hattrs : ∀ path, getattr c path w = Done ((attrs path).1, (attrs path).2, w)).
Context (Hknown : ∀ path, ok (attrs path).1 = true ∨ error_of (attrs path).1 = (- ENOENT)%Z).

(** The directory holds the index [name]. *)
Definition holds_index (name dir : string) : Prop :=
  ok (attrs (index_path dir name)).1 && stat_is_dir (attrs (index_path dir name)).2 = true.

#[export] Instance holds_index_dec name dir : Decision (holds_index name dir).
Proof. unfold holds_index. apply _. Defined.

Lemma find_index_up name names fuel :
  Forall plain_name names → length names < fuel →
  find_index fuel c (path_of names) name w =
  match list_find (holds_index name) ((λ k, path_of (drop k names)) <$> seq 0 (S (length names))) with
  | Some (_, dir) => ends (OK, Some (index_path dir name), w)
  | None => ends (Err (-1) "Failed to find valid index.", None, w)
  end.
Proof.
  revert fuel. induction names as [|n names IH]; intros fuel Hall Hfuel;
    (destruct fuel as [|fuel]; [simpl in Hfuel; lia|]).
  - cbn [find_index]. unfold lift. rewrite Hattrs. simpl.
    destruct (decide (holds_index name "/")) as [Hh|Hh]; [by rewrite Hh|].
    apply not_true_is_false in Hh. rewrite Hh.
    destruct (Hknown (index_path "/" name)) as [->|He]; [done|].
    by rewrite He, Z.eqb_refl, andb_false_r.
  - cbn [find_index]. unfold lift. rewrite Hattrs. cbn [late_bind].
    rewrite <-cons_seq, fmap_cons, <-fmap_S_seq, <-list_fmap_compose. cbn [list_find drop].
    destruct (decide (holds_index name (path_of (n :: names)))) as [Hh|Hh]; [by rewrite Hh|].
    apply not_true_is_false in Hh. rewrite Hh.
    assert (negb (ok (attrs (index_path (path_of (n :: names)) name)).1) &&
      negb (error_of (attrs (index_path (path_of (n :: names)) name)).1 =? - ENOENT)%Z = false) as ->.
    { destruct (Hknown (index_path (path_of (n :: names)) name)) as [->|He]; [done|].
      by rewrite He, Z.eqb_refl, andb_false_r. }
    rewrite bool_decide_eq_false_2.
    + rewrite parent_path_of by done. rewrite IH; [|by inversion Hall|simpl in Hfuel; lia].
      change (length (n :: names)) with (S (length names)).
      set (l := (λ k, path_of (drop k names)) <$> seq 0 (S (length names))).
      assert (((λ k, path_of (drop k (n :: names))) ∘ S) <$> seq 0 (S (length names)) = l) as -> by done.
      by destruct (list_find (holds_index name) l) as [[k dir]|].
    + destruct (path_of_head n names Hall) as (?&?&->&_). done.
Qed.
End find_lemmas.

(** ** Properties *)

Section properties.
Context {W R : Type} `{!ClusterRpc W, !IndexRpc W, !ConsistentHashMap R NodeInfo, !MD5}.
Context `{!BoostFilesystem, !BoostFilesystemSpec, !VoblaStatus, !ConsistentHashMapSpec R NodeInfo}.

(** C18: an update goes to the nearest index above the file.  When the masters
    answer [getattr], the loop that looks for the index of a directory ends
    after at most one call per path component; it returns the index of the
    lowest directory above that holds one, and fails exactly when no directory
    up to the root does. *)
Theorem update_finds_nearest_index (c : VSFSRpcClient R) (w : W) attrs name names fuel :
  (∀ path, getattr c path w = Done ((attrs path).1, (attrs path).2, w)) →
  (∀ path, ok (attrs path).1 = true ∨ error_of (attrs path).1 = (- ENOENT)%Z) →
  Forall plain_name names → length names < fuel →
  (∃ k, k ≤ length names ∧
     find_index fuel c (path_of names) name w
     = ends (OK, Some (index_path (path_of (drop k names)) name), w) ∧
     holds_index attrs name (path_of (drop k names)) ∧
     ∀ j, j < k → ¬ holds_index attrs name (path_of (drop j names))) ∨
  (find_index fuel c (path_of names) name w = ends (Err (-1) "Failed to find valid index.", None, w) ∧
   ∀ j, j ≤ length names → ¬ holds_index attrs name (path_of (drop j names))).
Proof.
  intros Hattrs Hknown Hall Hfuel. rewrite (find_index_up c w attrs) by done.
  destruct (list_find _ _) as [[k dir]|] eqn:Hfind.
  - left. apply list_find_Some in Hfind as (Hk&Hh&Hmin).
    apply list_lookup_fmap_Some in Hk as (k'&->&Hk'). apply lookup_seq in Hk' as [-> Hlt].
    exists k. split_and!; [simpl in *; lia|done|done|]. intros j Hj.
    apply (Hmin j (path_of (drop j names))); [|done].
    rewrite list_lookup_fmap, lookup_seq_lt by lia. done.
  - right. split; [done|]. intros j Hj. apply list_find_None in Hfind.
    rewrite Forall_forall in Hfind. apply Hfind. apply list_elem_of_fmap.
    exists j. split; [done|]. apply elem_of_seq. lia.
Qed.

(** C30: grouping loses and reorders nothing.  Whenever every request has an
    index and the ring of index servers is not empty, the grouping succeeds,
    and the requests found under a server and a partition are exactly those
    routed there, in the order the caller gave them. *)
Theorem reorder_requests_exact (c : VSFSRpcClient R) (requests : list IndexUpdateRequest) index_map :
  ch_view (index_server_map_ c) ≠ ∅ →
  (∀ r, r ∈ requests → ∃ path, index_at index_map r = Done path) →
  ∃ request_map,
    reorder_requests_to_index_servers c requests index_map = Done request_map ∧
    ∀ addr part, positions_at request_map addr part =
      filter (λ pos, (requests !! pos) ≫= (λ r, result_of (route c index_map r)) = Some (addr, part))
        (seq 0 (length requests)).
Proof.
  intros Hne Hidx. unfold reorder_requests_to_index_servers.
  destruct (reorder_from_total c index_map 0 requests ∅) as [rm Hrm].
  { intros r Hr. destruct (Hidx r Hr) as [path Hpath]. unfold route. rewrite Hpath. simpl.
    unfold check_get. rewrite get_spec.
    destruct (ring_owner_total (ch_view (index_server_map_ c)) (path_to_hash (path +:+ "/0")) Hne)
      as [node ->]. by eexists. }
  exists rm. split; [done|]. intros addr part.
  exact (reorder_from_exact c index_map [] requests ∅ rm addr part Hrm).
Qed.

(** Scattered object ids come back in place.  When the masters of the ring
    answer [find_objects] file by file, the client splits the paths by master,
    asks each master once, and ends with the id of the i-th path, as its own
    master gives it, at the i-th position. *)
Theorem find_objects_exact (c : VSFSRpcClient R) (w : W) id_of (paths : list string) :
  ch_view (master_map_ c) ≠ ∅ → answers_ids c w id_of →
  ∃ objects, find_objects c paths w = Done (OK, objects, w) ∧
    ∀ i path, paths !! i = Some path →
      ∃ node, get_path (master_map_ c) path = (OK, Some node) ∧
        objects !! i = Some (id_of (address node) path).
Proof. apply find_objects_spec. Qed.
End properties.

(** ** Witnesses: the scripted servers, with index calls *)

Section witnesses.
Import Reference.
#[local] Existing Instance Client.scripted.

#[local] Instance scripted_index : IndexRpc nat := {
  m_find_objects w a files := (Reply ((λ f, Z.of_nat (String.length f)) <$> files), w);
  m_create_index w _ _ := lost w;
  m_locate_indices w _ _ := lost w;
  i_create_index w _ _ := lost w;
  i_remove_index w _ _ _ := lost w;
  i_update w _ _ := lost w;
  i_info w _ _ := lost w;
}.

Definition demo_requests : list IndexUpdateRequest :=
  [{| req_op := 1; req_file_path := "/a/f"; req_index_name := "x"; req_key := "3" |};
   {| req_op := 1; req_file_path := "/a/g"; req_index_name := "y"; req_key := "4" |};
   {| req_op := 3; req_file_path := "/a/h"; req_index_name := "x"; req_key := "5" |}].
Definition demo_index_map : gmap string (gmap string string) :=
  {["/a" := {["x" := "/a/.vsfs/x"; "y" := "/.vsfs/y"]}]}.

Lemma reorder_requests_exact_witness :
  ∃ request_map,
    reorder_requests_to_index_servers two_masters demo_requests demo_index_map = Done request_map ∧
    positions_at request_map "b:9877" "/a/.vsfs/x/0" = [0; 2].
Proof.
  destruct (reorder_requests_exact two_masters demo_requests demo_index_map) as (m&Hm&Hpos).
  - apply insert_non_empty.
  - intros r Hr. repeat (apply elem_of_cons in Hr as [->|Hr]; [vm_compute; by eexists|]).
    by apply elem_of_nil in Hr.
  - exists m. split; [exact Hm|]. rewrite Hpos. vm_compute. reflexivity.
Defined.

Lemma find_objects_exact_witness :
  ∃ objects, find_objects two_masters ["/a"; "/bcd"] 0 = Done (OK, objects, 0) ∧
    ∀ i path, ["/a"; "/bcd"] !! i = Some path →
      ∃ node, get_path (master_map_ two_masters) path = (OK, Some node) ∧
        objects !! i = Some (Z.of_nat (String.length path)).
Proof.
  apply (find_objects_exact two_masters 0 (λ _ f, Z.of_nat (String.length f))).
  - apply insert_non_empty.
  - intros pos node Hn. split; [|reflexivity]. simpl in Hn. unfold two_nodes in Hn.
    apply lookup_insert_Some in Hn as [[_ <-]|[_ [_ <-]%lookup_singleton_Some]];
      (split; [vm_compute; reflexivity|vm_compute; discriminate]).
Defined.
End witnesses.
