(* ===== verification/Connections.v ===== *)
(** * Connections (rpc/rpc_client.h, rpc/rpc_client_factory.h)

    Every remote call of a client opens a connection of its own, makes the
    call and closes the connection, or drops it when an exception is on its
    way.  The Thrift transports are behind the interface [Transports].  A
    relation between two worlds that every remote call keeps is kept by every
    operation of the client; so the operations neither leak connections nor
    see any difference between a faithful network and direct calls. *)

From S2P Require Import Prelude CxxString Platform PathUtil ThriftUtils IndexImpl LogManager IndexInfo.
From S2P Require Import RangeIndex RangeIndexWrapper IndexManager ServerMap Namespace ComplexQuery.
From S2P Require Import Client ClientIndex.

(** ** Transports

    [N] is the state of the network, [T] a transport.  [tr_open] and
    [tr_close] give the type and the message of a [TTransportException]. *)
Class Transports (N T : Type) := {
  tr_new : N → string → Z → T * N;
  tr_open : N → T → option (Z * string) * N;
  tr_close : N → T → option (Z * string) * N;
  tr_is_open : N → T → bool;
}.

(** [RpcClient<Client, Transport>]; the transport is null, and the handler
    there, in a client made for dependency injection. *)
Record RpcClient (T : Type) := {
  addr_ : string;
  port_ : Z;
  transport_ : option T;
  client_ : bool;
}.
Arguments addr_ {T}. Arguments port_ {T}. Arguments transport_ {T}. Arguments client_ {T}.

Section rpc_client.
Context {N T : Type} `{!Transports N T}.
Implicit Types (n : N) (c : RpcClient T).

(** The constructors. *)
Definition new_client n (addr : string) (port : Z) : RpcClient T * N :=
  let '(t, n) := tr_new n addr port in
  ({| addr_ := addr; port_ := port; transport_ := Some t; client_ := true |}, n).
Definition new_client_at n (addr : RpcNodeAddress) : RpcClient T * N := new_client n (host addr) (port addr).
Definition injected_client : RpcClient T :=
  {| addr_ := ""; port_ := 0; transport_ := None; client_ := true |}.

Definition rc_open n c : option (Z * string) * N :=
  match transport_ c with Some t => tr_open n t | None => (None, n) end.
Definition rc_close n c : option (Z * string) * N :=
  match transport_ c with Some t => tr_close n t | None => (None, n) end.
Definition is_open n c : bool :=
  match transport_ c with
  | Some t => tr_is_open n t
  | None => client_ c
  end.

(** The destructor; an exception that leaves it ends the process. *)
Definition rc_destroy n c : run N :=
  if is_open n c then
    match rc_close n c with
    | (None, n) => Done n
    | (Some _, _) => Fatal "exception in a destructor"
    end
  else Done n.

(** [RpcClientFactory::open] and [close].  When [client->open()] throws, the
    new client is destroyed. *)
Definition factory_open n (host : string) (port : Z) : run ((RpcClient T + Z * string) * N) :=
  let '(c, n) := new_client n host port in
  match rc_open n c with
  | (None, n) => Done (inl c, n)
  | (Some e, n) => n ← rc_destroy n c; Done (inr e, n)
  end.
Definition factory_close n c : option (Z * string) * N := rc_close n c.

(** The shape of every remote call:
    [try { auto client = factory->open(address); client->handler()->...;
    factory->close(client); } catch ...]; the shared pointer drops the client
    at the end of the block in any case. *)
Definition with_connection {A V} (addr : RpcNodeAddress) (call : V → outcome A * V) (v : V) n
    : run (outcome A * V * N) :=
  '(opened, n) ← factory_open n (host addr) (port addr);
  match opened with
  | inr (type, what) => Done (Transport type what, v, n)
  | inl c =>
      let '(o, v) := call v in
      let '(o, n) :=
        match o with
        | Reply _ =>
            match factory_close n c with
            | (None, n) => (o, n)
            | (Some (type, what), n) => (Transport type what, n)
            end
        | _ => (o, n)
        end in
      n ← rc_destroy n c;
      Done (o, v, n)
  end.

(** [VSFSRpcClient::connect], [disconnect] and the destructor, as far as the
    connection to the primary goes: [master_client_] stays open between them. *)
Definition connect_primary n (addr : RpcNodeAddress) : run (Status * option (RpcClient T) * N) :=
  '(opened, n) ← factory_open n (host addr) (port addr);
  Done (match opened with
        | inl c => (OK, Some c, n)
        | inr (type, what) => (Err type what, None, n)
        end).
Definition disconnect n c : Status * N :=
  match rc_close n c with
  | (None, n) => (OK, n)
  | (Some (type, what), n) => (Err type what, n)
  end.
Definition destroy_client n (master_client_ : option (RpcClient T)) : run N :=
  match master_client_ with
  | None => Done n
  | Some c => let '(_, n) := disconnect n c in rc_destroy n c
  end.
End rpc_client.

(** What Thrift promises: a transport is made closed; [open] opens it unless it
    throws; after [close] it is closed, even if [close] threw; the other
    transports are not touched. *)
Class TransportsSpec (N T : Type) `{!Transports N T} := {
  tr_live : N → T → Prop;
  tr_keeps (n n' : N) (t : T) : Prop := ∀ t', t' ≠ t → tr_live n t' →
    tr_live n' t' ∧ tr_is_open n' t' = tr_is_open n t';
  tr_new_spec n addr port t n' : tr_new n addr port = (t, n') →
    ¬ tr_live n t ∧ tr_live n' t ∧ tr_is_open n' t = false ∧ tr_keeps n n' t ∧
    (∀ t', tr_live n' t' → t' = t ∨ tr_live n t');
  tr_open_spec n t e n' : tr_live n t → tr_open n t = (e, n') →
    tr_live n' t ∧ tr_is_open n' t = bool_decide (e = None) ∧ tr_keeps n n' t ∧
    (∀ t', tr_live n' t' → tr_live n t');
  tr_close_spec n t e n' : tr_live n t → tr_close n t = (e, n') →
    tr_live n' t ∧ tr_is_open n' t = false ∧ tr_keeps n n' t ∧ (∀ t', tr_live n' t' → tr_live n t');
}.

Section balance.
Context {N T : Type} `{!Transports N T, !TransportsSpec N T}.

(** No connection was lost, and none is left over. *)
Definition balanced (n n' : N) : Prop :=
  (∀ t : T, tr_live n t → tr_live n' t ∧ tr_is_open n' t = tr_is_open n t) ∧
  ∀ t, tr_live n' t → tr_live n t ∨ tr_is_open n' t = false.

#[export] Instance balanced_preorder : PreOrder balanced.
Proof.
  split.
  - intros n. split; auto.
  - intros n1 n2 n3 [H1 H1'] [H2 H2']. split.
    + intros t Ht. destruct (H1 t Ht) as [Ht2 <-]. by apply H2.
    + intros t Ht. destruct (H2' t Ht) as [Ht2|]; [|by right].
      destruct (H1' t Ht2) as [|Hc]; [by left|]. right. by rewrite (proj2 (H2 t Ht2)).
Qed.

(** A client that uses a new transport only. *)
Definition uses_new (n n' : N) (c : RpcClient T) (open : bool) : Prop :=
  ∃ t, transport_ c = Some t ∧ ¬ tr_live n t ∧ tr_live n' t ∧ tr_is_open n' t = open ∧ tr_keeps n n' t ∧
    ∀ t', tr_live n' t' → t' = t ∨ tr_live n t'.

Lemma uses_new_balanced n n' c : uses_new n n' c false → balanced n n'.
Proof.
  intros (t&_&Hnew&Hlive&Hopen&Hkeep&Honly). split.
  - intros t' Ht'. apply Hkeep; [|done]. by intros ->.
  - intros t' Ht'. destruct (Honly t' Ht') as [->|]; auto.
Qed.

Lemma uses_new_step n n1 n2 c b b' t :
  transport_ c = Some t → uses_new n n1 c b → tr_live n2 t → tr_is_open n2 t = b' → tr_keeps n1 n2 t →
  (∀ t', tr_live n2 t' → tr_live n1 t') → uses_new n n2 c b'.
Proof.
  intros Ht (t0&Ht0&Hnew&Hlive&Hopen&Hkeep&Honly) Hl2 Ho2 Hk2 Hon2. simplify_eq.
  exists t. split_and!; auto. intros t' Hne Ht'. destruct (Hkeep t' Hne Ht') as [Hl1 <-]. by apply Hk2.
Qed.

Lemma rc_close_new n n1 c b e n2 :
  uses_new n n1 c b → rc_close n1 c = (e, n2) → uses_new n n2 c false.
Proof.
  intros Hu Hc. pose proof Hu as (t&Ht&_&Hl&_). unfold rc_close in Hc. rewrite Ht in Hc.
  destruct (tr_close_spec _ _ _ _ Hl Hc) as (?&?&?&?). by eapply uses_new_step.
Qed.

Lemma rc_destroy_new n n1 c b n2 :
  uses_new n n1 c b → rc_destroy n1 c = Done n2 → uses_new n n2 c false.
Proof.
  intros Hu. pose proof Hu as (t&Ht&_&_&Ho&_). unfold rc_destroy, is_open. rewrite Ht, Ho.
  destruct b.
  - destruct (rc_close n1 c) as [[e|] n3] eqn:Hc; intros; simplify_eq. by eapply rc_close_new.
  - by intros [= <-].
Qed.

Lemma factory_open_new n host port r n' :
  factory_open n host port = Done (r, n') →
  match r with inl c => uses_new n n' c true | inr _ => balanced n n' end.
Proof.
  unfold factory_open, new_client. destruct (tr_new n host port) as [t n1] eqn:Hn.
  destruct (tr_new_spec _ _ _ _ _ Hn) as (Hnew&Hl&Hc&Hk&Hon).
  set (c := {| addr_ := host; port_ := port; transport_ := Some t; client_ := true |}).
  assert (uses_new n n1 c false) as Hu by (by exists t).
  unfold rc_open. simpl. destruct (tr_open n1 t) as [e n2] eqn:Ho.
  destruct (tr_open_spec _ _ _ _ Hl Ho) as (Hl2&Ho2&Hk2&Hon2).
  assert (uses_new n n2 c (bool_decide (e = None))) as Hu2 by (by eapply (uses_new_step n n1 n2 c)).
  destruct e as [[type what]|]; simpl.
  - destruct (rc_destroy n2 c) as [n3|] eqn:Hd; simpl; [|done]. intros; simplify_eq.
    by eapply uses_new_balanced, rc_destroy_new.
  - by intros; simplify_eq.
Qed.

Lemma with_connection_balanced {A V} addr (call : V → outcome A * V) v n o v' n' :
  with_connection addr call v n = Done (o, v', n') → balanced n n'.
Proof.
  unfold with_connection.
  destruct (factory_open n (host addr) (port addr)) as [[[c|[type what]] n1]|] eqn:Hopen; simpl; [| |done].
  - apply factory_open_new in Hopen. destruct (call v) as [o1 v1].
    destruct o1 as [a|ouch|type what].
    + destruct (factory_close n1 c) as [e n2] eqn:Hclose.
      apply (rc_close_new n n1 c true) in Hclose; [|done].
      destruct e as [[type what]|]; (destruct (rc_destroy n2 c) as [n3|] eqn:Hd; simpl; [|done]);
        intros; simplify_eq; by eapply uses_new_balanced, rc_destroy_new.
    + destruct (rc_destroy n1 c) as [n3|] eqn:Hd; simpl; [|done].
      intros; simplify_eq. by eapply uses_new_balanced, rc_destroy_new.
    + destruct (rc_destroy n1 c) as [n3|] eqn:Hd; simpl; [|done].
      intros; simplify_eq. by eapply uses_new_balanced, rc_destroy_new.
  - apply factory_open_new in Hopen. by intros; simplify_eq.
Qed.

(** The connection to the primary is open from [connect] to the destructor. *)
Lemma primary_connection n addr n1 n2 n3 s c :
  connect_primary n addr = Done (s, c, n1) → balanced n1 n2 → destroy_client n2 c = Done n3 →
  balanced n n3.
Proof.
  unfold connect_primary.
  destruct (factory_open n (host addr) (port addr)) as [[[c1|[type what]] n']|] eqn:Hopen; simpl; [| |done];
    intros [= <- <- <-] [Hb Hb']; apply factory_open_new in Hopen; simpl.
  - destruct (disconnect n2 c1) as [s' n4] eqn:Hdis. intros Hd.
    destruct Hopen as (t&Ht&Hnew&Hl&Ho&Hk&Hon). destruct (Hb t Hl) as [Hl2 Ho2].
    assert (∃ e, rc_close n2 c1 = (e, n4)) as [e Hc].
    { unfold disconnect in Hdis. destruct (rc_close n2 c1) as [[[]|] ?]; simplify_eq; eauto. }
    unfold rc_close in Hc. rewrite Ht in Hc.
    destruct (tr_close_spec _ _ _ _ Hl2 Hc) as (Hl4&Hc4&Hk4&Hon4).
    unfold rc_destroy, is_open in Hd. rewrite Ht, Hc4 in Hd. injection Hd as <-. split.
    + intros t' Ht'. assert (t' ≠ t) as Hne by (by intros ->).
      destruct (Hk t' Hne Ht') as [Hl' <-]. destruct (Hb t' Hl') as [Hl2' <-]. by apply Hk4.
    + intros t' Ht'. pose proof (Hon4 t' Ht') as Hl2'.
      destruct (Hb' t' Hl2') as [Hl'|Hcl'].
      * destruct (Hon t' Hl') as [->|]; [by right|by left].
      * destruct (decide (tr_is_open n4 t' = false)) as [|Hno]; [by right|]. exfalso.
        assert (t' ≠ t) as Hne by (intros ->; congruence).
        destruct (Hk4 t' Hne Hl2') as [_ Heq]. congruence.
  - intros [= <-]. etrans; [exact Hopen|]. by split.
Qed.
End balance.

(** ** The calls of a client over connections

    [V] is the world of the servers.  [None] is a process that an exception in
    a destructor has ended. *)
Section connected.
Context {V N T : Type} `{!ClusterRpc V} {index_rpc : IndexRpc V} `{!Transports N T}.

Definition connected_world : Type := option (V * N).

Definition over_connection {A} (w : connected_world) (addr : RpcNodeAddress) (call : V → outcome A * V)
    : outcome A * connected_world :=
  match w with
  | None => (Transport (-1) "terminated", None)
  | Some (v, n) =>
      match with_connection addr call v n with
      | Done (o, v, n) => (o, Some (v, n))
      | Fatal _ => (Transport (-1) "terminated", None)
      end
  end.
(** The calls on the connection to the primary. *)
Definition on_primary {A} (w : connected_world) (call : V → outcome A * V) : outcome A * connected_world :=
  match w with
  | None => (Transport (-1) "terminated", None)
  | Some (v, n) => let '(o, v) := call v in (o, Some (v, n))
  end.

#[export] Instance connected_rpc : ClusterRpc connected_world := {
  m_get_all_masters w a := on_primary w (λ v, m_get_all_masters v a);
  m_get_all_index_servers w a := on_primary w (λ v, m_get_all_index_servers v a);
  m_create w a path mode uid gid := over_connection w a (λ v, m_create v a path mode uid gid);
  m_remove w a path := over_connection w a (λ v, m_remove v a path);
  m_object_id w a path := over_connection w a (λ v, m_object_id v a path);
  m_mkdir w a path info := over_connection w a (λ v, m_mkdir v a path info);
  m_rmdir w a path := over_connection w a (λ v, m_rmdir v a path);
  m_add_subfile w a parent sub := over_connection w a (λ v, m_add_subfile v a parent sub);
  m_remove_subfile w a parent sub := over_connection w a (λ v, m_remove_subfile v a parent sub);
  m_readdir w a path := over_connection w a (λ v, m_readdir v a path);
  m_getattr w a path := over_connection w a (λ v, m_getattr v a path);
  m_setattr w a path info := over_connection w a (λ v, m_setattr v a path info);
  m_find_files w a objects := over_connection w a (λ v, m_find_files v a objects);
  m_locate_indices_for_search w a root names :=
    over_connection w a (λ v, m_locate_indices_for_search v a root names);
  i_search w a query := over_connection w a (λ v, i_search v a query);
}.
#[export] Instance connected_index_rpc : IndexRpc connected_world := {
  m_find_objects w a files := over_connection w a (λ v, m_find_objects v a files);
  m_create_index w a request := over_connection w a (λ v, m_create_index v a request);
  m_locate_indices w a request := over_connection w a (λ v, m_locate_indices v a request);
  i_create_index w a request := over_connection w a (λ v, i_create_index v a request);
  i_remove_index w a root name := over_connection w a (λ v, i_remove_index v a root name);
  i_update w a updates := over_connection w a (λ v, i_update v a updates);
  i_info w a request := over_connection w a (λ v, i_info v a request);
}.
End connected.
Arguments connected_world V N : clear implicits.

(** ** Relations kept by the remote calls are kept by the client *)

Definition rel_call {W1 W2 A} (R : W1 → W2 → Prop) (x : A * W1) (y : A * W2) : Prop :=
  x.1 = y.1 ∧ R x.2 y.2.
Definition rel_run {W1 W2 A} (R : W1 → W2 → Prop) (p : run (A * W1)) (q : run (A * W2)) : Prop :=
  match p, q with
  | Done x, Done y => rel_call R x y
  | Fatal a, Fatal b => a = b
  | _, _ => False
  end.
Definition rel_late {W1 W2 A} (R : W1 → W2 → Prop) (p : late (A * W1)) (q : late (A * W2)) : Prop :=
  match p, q with
  | Some x, Some y => rel_run R x y
  | None, None => True
  | _, _ => False
  end.

(** The remote calls keep [R]: same outcomes, related worlds. *)
Class KeepsRel {W1 W2} `{!ClusterRpc W1, !ClusterRpc W2, !IndexRpc W1, !IndexRpc W2}
    (R : W1 → W2 → Prop) : Prop := {
  k_get_all_masters w1 w2 a : R w1 w2 → rel_call R (m_get_all_masters w1 a) (m_get_all_masters w2 a);
  k_get_all_index_servers w1 w2 a :
    R w1 w2 → rel_call R (m_get_all_index_servers w1 a) (m_get_all_index_servers w2 a);
  k_create w1 w2 a p m u g : R w1 w2 → rel_call R (m_create w1 a p m u g) (m_create w2 a p m u g);
  k_remove w1 w2 a p : R w1 w2 → rel_call R (m_remove w1 a p) (m_remove w2 a p);
  k_object_id w1 w2 a p : R w1 w2 → rel_call R (m_object_id w1 a p) (m_object_id w2 a p);
  k_mkdir w1 w2 a p i : R w1 w2 → rel_call R (m_mkdir w1 a p i) (m_mkdir w2 a p i);
  k_rmdir w1 w2 a p : R w1 w2 → rel_call R (m_rmdir w1 a p) (m_rmdir w2 a p);
  k_add_subfile w1 w2 a p s : R w1 w2 → rel_call R (m_add_subfile w1 a p s) (m_add_subfile w2 a p s);
  k_remove_subfile w1 w2 a p s :
    R w1 w2 → rel_call R (m_remove_subfile w1 a p s) (m_remove_subfile w2 a p s);
  k_readdir w1 w2 a p : R w1 w2 → rel_call R (m_readdir w1 a p) (m_readdir w2 a p);
  k_getattr w1 w2 a p : R w1 w2 → rel_call R (m_getattr w1 a p) (m_getattr w2 a p);
  k_setattr w1 w2 a p i : R w1 w2 → rel_call R (m_setattr w1 a p i) (m_setattr w2 a p i);
  k_find_files w1 w2 a o : R w1 w2 → rel_call R (m_find_files w1 a o) (m_find_files w2 a o);
  k_locate_search w1 w2 a r n : R w1 w2 →
    rel_call R (m_locate_indices_for_search w1 a r n) (m_locate_indices_for_search w2 a r n);
  k_search w1 w2 a q : R w1 w2 → rel_call R (i_search w1 a q) (i_search w2 a q);
  k_find_objects w1 w2 a f : R w1 w2 → rel_call R (m_find_objects w1 a f) (m_find_objects w2 a f);
  k_create_index w1 w2 a r : R w1 w2 → rel_call R (m_create_index w1 a r) (m_create_index w2 a r);
  k_locate_indices w1 w2 a r : R w1 w2 → rel_call R (m_locate_indices w1 a r) (m_locate_indices w2 a r);
  k_i_create_index w1 w2 a r : R w1 w2 → rel_call R (i_create_index w1 a r) (i_create_index w2 a r);
  k_i_remove_index w1 w2 a r n : R w1 w2 → rel_call R (i_remove_index w1 a r n) (i_remove_index w2 a r n);
  k_update w1 w2 a u : R w1 w2 → rel_call R (i_update w1 a u) (i_update w2 a u);
  k_info w1 w2 a r : R w1 w2 → rel_call R (i_info w1 a r) (i_info w2 a r);
}.

Create HintDb rel.
#[export] Hint Resolve k_get_all_masters k_get_all_index_servers k_create k_remove k_object_id k_mkdir
  k_rmdir k_add_subfile k_remove_subfile k_readdir k_getattr k_setattr k_find_files k_locate_search
  k_search k_find_objects k_create_index k_locate_indices k_i_create_index k_i_remove_index k_update
  k_info : rel.

(** [rel_step] follows both runs through one match, one call or one bind. *)
Ltac rel_same x y :=
  constr_eq x y; let E := fresh "E" in destruct x eqn:E; clear E.
Ltac rel_remote x y :=
  let H := fresh "H" in
  match goal with
  | |- _ ?R _ _ => assert (rel_call R x y) as H by (eauto with rel)
  end;
  let oa := fresh "oa" in let ob := fresh "ob" in let wa := fresh "wa" in let wb := fresh "wb" in
  destruct x as [oa wa], y as [ob wb]; destruct H as [H ?]; cbn [fst snd] in *; subst oa.
Ltac rel_bind_with lem :=
  apply lem; [eauto with rel|let a := fresh "a" in intros a ? ? ?; try destruct a].
Ltac rel_step := fail.

Section rel_lemmas.
Context {W1 W2 : Type} (R : W1 → W2 → Prop).

Lemma rel_ret {A} (a : A) w1 w2 : R w1 w2 → rel_run R (Done (a, w1)) (Done (a, w2)).
Proof. by split. Qed.
Lemma rel_ends {A} (a : A) w1 w2 : R w1 w2 → rel_late R (ends (a, w1)) (ends (a, w2)).
Proof. by split. Qed.
Lemma rel_lift {A} (p : run (A * W1)) q : rel_run R p q → rel_late R (lift p) (lift q).
Proof. done. Qed.

Lemma rel_bind_run {A B} (p : run (A * W1)) q (f : A * W1 → run (B * W1)) g :
  rel_run R p q → (∀ a w1 w2, R w1 w2 → rel_run R (f (a, w1)) (g (a, w2))) →
  rel_run R (p ≫= f) (q ≫= g).
Proof.
  destruct p as [[a w1]|], q as [[a' w2]|]; simpl; try done. intros [He HR] Hf. simpl in *. subst. auto.
Qed.
Lemma rel_bind_pure {A B} (p : run A) (f : A → run (B * W1)) g :
  (∀ a, rel_run R (f a) (g a)) → rel_run R (p ≫= f) (p ≫= g).
Proof. intros Hf. destruct p; [apply Hf|done]. Qed.
Lemma rel_bind_late {A B} (p : late (A * W1)) q (f : A * W1 → late (B * W1)) g :
  rel_late R p q → (∀ a w1 w2, R w1 w2 → rel_late R (f (a, w1)) (g (a, w2))) →
  rel_late R (late_bind p f) (late_bind q g).
Proof.
  destruct p as [[[a w1]|]|], q as [[[a' w2]|]|]; simpl; try done.
  intros [He HR] Hf. simpl in *. subst. auto.
Qed.
Lemma rel_bind_late_pure {A B} (p : run A) (f : A → late (B * W1)) g :
  (∀ a, rel_late R (f a) (g a)) → rel_late R (late_bind (lift p) f) (late_bind (lift p) g).
Proof. intros Hf. destruct p; [apply Hf|done]. Qed.
End rel_lemmas.
#[export] Hint Resolve rel_ret rel_ends rel_lift : rel.

Ltac rel_step ::=
  match goal with
  | |- rel_run _ (Fatal _) (Fatal _) => reflexivity
  | |- rel_run _ (Done _) (Done _) => split; [reflexivity|assumption]
  | |- rel_late _ (ends _) (ends _) => split; [reflexivity|assumption]
  | |- rel_late _ (Some (Fatal _)) (Some (Fatal _)) => reflexivity
  | |- rel_late _ (Some (Done _)) (Some (Done _)) => split; [reflexivity|assumption]
  | |- rel_late _ None None => exact I
  | |- rel_late _ (lift _) (lift _) => apply rel_lift
  | |- rel_late _ (Some ?x) (Some ?y) => change (rel_late _ (lift x) (lift y)); apply rel_lift
  | |- rel_call _ (_, _) (_, _) => split; [reflexivity|assumption]
  | |- rel_run _ (?p ≫= _) (?p ≫= _) => apply rel_bind_pure; intros ?
  | |- rel_run _ (_ ≫= _) (_ ≫= _) =>
      apply rel_bind_run; [eauto with rel|let a := fresh "a" in intros a ? ? ?; cbn beta iota zeta]
  | |- rel_late _ (late_bind (lift ?p) _) (late_bind (lift ?p) _) =>
      apply rel_bind_late_pure; intros ?
  | |- rel_late _ (late_bind (Some ?p) _) (late_bind (Some ?p) _) =>
      change (Some p) with (lift p); apply rel_bind_late_pure; intros ?
  | |- rel_late _ (late_bind _ _) (late_bind _ _) =>
      apply rel_bind_late; [eauto with rel|let a := fresh "a" in intros a ? ? ?; cbn beta iota zeta]
  | |- _ _ (match ?x with _ => _ end) (match ?y with _ => _ end) =>
      first [rel_same x y | rel_remote x y]
  | |- _ _ (if ?x then _ else _) (if ?x then _ else _) => destruct x
  end.
Ltac rel_solve := repeat (rel_step; cbn beta iota zeta); eauto with rel.

Section client_rel.
Context {W1 W2 R : Type} `{!ClusterRpc W1, !ClusterRpc W2, !IndexRpc W1, !IndexRpc W2}.
Context `{!ConsistentHashMap R NodeInfo, !MD5, !BoostFilesystem, !VoblaStatus}.
Context (Rel : W1 → W2 → Prop) `{!KeepsRel Rel}.
Implicit Types (c : VSFSRpcClient R).

Lemma sync_master_rel c w1 w2 :
  Rel w1 w2 → rel_run Rel (sync_master_server_map c w1) (sync_master_server_map c w2).
Proof. intros HR. unfold sync_master_server_map. rel_solve. Qed.
Lemma sync_index_rel c w1 w2 :
  Rel w1 w2 → rel_run Rel (sync_index_server_map c w1) (sync_index_server_map c w2).
Proof. intros HR. unfold sync_index_server_map. rel_solve. Qed.

Lemma subfile_loop_rel f g fuel backoff status w1 w2 :
  (∀ w1 w2, Rel w1 w2 → rel_call Rel (f w1) (g w2)) → Rel w1 w2 →
  rel_late Rel (subfile_loop f fuel backoff status w1) (subfile_loop g fuel backoff status w2).
Proof.
  intros Hfg. revert backoff status w1 w2.
  induction fuel as [|fuel IH]; intros [|backoff] status w1 w2 HR; simpl; rel_solve.
Qed.

Lemma change_subfile_rel f g fuel c path w1 w2 :
  (∀ w1 w2 a p s, Rel w1 w2 → rel_call Rel (f w1 a p s) (g w2 a p s)) → Rel w1 w2 →
  rel_late Rel (change_subfile f fuel c path w1) (change_subfile g fuel c path w2).
Proof.
  intros Hfg HR. unfold change_subfile. case_bool_decide; [rel_solve|].
  destruct (get _ _) as [status node]. destruct (ok status); [|rel_solve].
  by apply subfile_loop_rel; [intros; apply Hfg|].
Qed.
Lemma add_subfile_rel fuel c path w1 w2 :
  Rel w1 w2 → rel_late Rel (add_subfile fuel c path w1) (add_subfile fuel c path w2).
Proof. apply change_subfile_rel. eauto with rel. Qed.
Lemma remove_subfile_rel fuel c path w1 w2 :
  Rel w1 w2 → rel_late Rel (remove_subfile fuel c path w1) (remove_subfile fuel c path w2).
Proof. apply change_subfile_rel. eauto with rel. Qed.
#[local] Hint Resolve add_subfile_rel remove_subfile_rel : rel.

Lemma create_loop_rel addr path mode uid gid backoff status id w1 w2 :
  Rel w1 w2 → rel_call Rel (create_loop addr path mode uid gid backoff status id w1)
                           (create_loop addr path mode uid gid backoff status id w2).
Proof.
  revert status id w1 w2. induction backoff as [|backoff IH]; intros status id w1 w2 HR; simpl; rel_solve.
Qed.
#[local] Hint Resolve create_loop_rel : rel.

Lemma create_rel fuel c path mode uid gid w1 w2 :
  Rel w1 w2 → rel_late Rel (create fuel c path mode uid gid w1) (create fuel c path mode uid gid w2).
Proof. intros HR. unfold create. rel_solve. Qed.
Lemma open_rel c path w1 w2 : Rel w1 w2 → rel_run Rel (open c path w1) (open c path w2).
Proof. intros HR. unfold open. rel_solve. Qed.
Lemma unlink_rel fuel c path w1 w2 :
  Rel w1 w2 → rel_late Rel (unlink fuel c path w1) (unlink fuel c path w2).
Proof. intros HR. unfold unlink. rel_solve. Qed.
Lemma mkdir_rel fuel c path mode uid gid w1 w2 :
  Rel w1 w2 → rel_late Rel (mkdir fuel c path mode uid gid w1) (mkdir fuel c path mode uid gid w2).
Proof. intros HR. unfold mkdir. rel_solve. Qed.
Lemma rmdir_rel fuel c path w1 w2 :
  Rel w1 w2 → rel_late Rel (rmdir fuel c path w1) (rmdir fuel c path w2).
Proof. intros HR. unfold rmdir. rel_solve. Qed.
Lemma at_master_rel {A} c path (f : RpcNodeAddress → W1 → outcome A * W1) g w1 w2 :
  (∀ a w1 w2, Rel w1 w2 → rel_call Rel (f a w1) (g a w2)) → Rel w1 w2 →
  rel_run Rel (at_master c path f w1) (at_master c path g w2).
Proof. intros Hfg HR. unfold at_master. rel_solve. Qed.
Lemma readdir_rel c path w1 w2 : Rel w1 w2 → rel_run Rel (readdir c path w1) (readdir c path w2).
Proof. apply at_master_rel. eauto with rel. Qed.
Lemma getattr_rel c path w1 w2 : Rel w1 w2 → rel_run Rel (getattr c path w1) (getattr c path w2).
Proof. apply at_master_rel. eauto with rel. Qed.
Lemma object_id_rel c path w1 w2 : Rel w1 w2 → rel_run Rel (object_id c path w1) (object_id c path w2).
Proof. apply at_master_rel. eauto with rel. Qed.
Lemma setattr_rel c path info w1 w2 :
  Rel w1 w2 → rel_run Rel (setattr c path info w1) (setattr c path info w2).
Proof. apply at_master_rel. eauto with rel. Qed.
#[local] Hint Resolve create_rel unlink_rel mkdir_rel rmdir_rel readdir_rel getattr_rel : rel.

(** *** Searches *)

Lemma locate_on_rel root names nodes indices w1 w2 :
  Rel w1 w2 → rel_call Rel (locate_on root names nodes indices w1) (locate_on root names nodes indices w2).
Proof.
  revert indices w1 w2. induction nodes as [|[pos node] nodes IH]; intros indices w1 w2 HR; simpl; rel_solve.
Qed.
#[local] Hint Resolve locate_on_rel : rel.
Lemma gen_search_plan_rel c q w1 w2 :
  Rel w1 w2 → rel_run Rel (gen_search_plan c q w1) (gen_search_plan c q w2).
Proof. intros HR. unfold gen_search_plan, locate_index_for_search. rel_solve. Qed.
Lemma search_servers_rel q plan objects w1 w2 :
  Rel w1 w2 → rel_run Rel (search_servers q plan objects w1) (search_servers q plan objects w2).
Proof.
  revert objects w1 w2. induction plan as [|[addr parts] plan IH]; intros objects w1 w2 HR; simpl; rel_solve.
Qed.
Lemma resolve_objects_rel plan paths w1 w2 :
  Rel w1 w2 → rel_run Rel (resolve_objects plan paths w1) (resolve_objects plan paths w2).
Proof.
  revert paths w1 w2. induction plan as [|[addr objs] plan IH]; intros paths w1 w2 HR; simpl; rel_solve.
Qed.
Lemma get_file_paths_rel c objects w1 w2 : Rel w1 w2 →
  rel_run Rel (get_file_paths_from_objects c objects w1) (get_file_paths_from_objects c objects w2).
Proof.
  intros HR. unfold get_file_paths_from_objects. rel_step. by apply resolve_objects_rel.
Qed.
#[local] Hint Resolve gen_search_plan_rel search_servers_rel get_file_paths_rel : rel.
Lemma search_rel c q w1 w2 : Rel w1 w2 → rel_run Rel (search c q w1) (search c q w2).
Proof. intros HR. unfold search. rel_solve. Qed.

(** *** Updates *)

Lemma find_index_rel fuel c parent name w1 w2 :
  Rel w1 w2 → rel_late Rel (find_index fuel c parent name w1) (find_index fuel c parent name w2).
Proof. revert parent w1 w2. induction fuel as [|fuel IH]; intros parent w1 w2 HR; cbn [find_index]; rel_solve. Qed.
#[local] Hint Resolve find_index_rel : rel.
Lemma find_indices_rel fuel c wanted index_map w1 w2 : Rel w1 w2 →
  rel_late Rel (find_indices fuel c wanted index_map w1) (find_indices fuel c wanted index_map w2).
Proof.
  revert index_map w1 w2. induction wanted as [|[parent name] wanted IH]; intros index_map w1 w2 HR;
    cbn [find_indices]; rel_solve.
Qed.
Lemma ask_objects_rel paths plan objects w1 w2 : Rel w1 w2 →
  rel_run Rel (ask_objects paths plan objects w1) (ask_objects paths plan objects w2).
Proof.
  revert objects w1 w2. induction plan as [|[addr positions] plan IH]; intros objects w1 w2 HR;
    cbn [ask_objects]; rel_solve.
Qed.
Lemma find_objects_rel c paths w1 w2 :
  Rel w1 w2 → rel_run Rel (find_objects c paths w1) (find_objects c paths w2).
Proof. intros HR. unfold find_objects. rel_step. by apply ask_objects_rel. Qed.
Lemma send_updates_rel requests ids servers w1 w2 : Rel w1 w2 →
  rel_run Rel (send_updates requests ids servers w1) (send_updates requests ids servers w2).
Proof.
  revert w1 w2. induction servers as [|[addr parts] servers IH]; intros w1 w2 HR; cbn [send_updates]; rel_solve.
Qed.
#[local] Hint Resolve find_indices_rel find_objects_rel send_updates_rel : rel.
Lemma run_task_rel fuel c requests w1 w2 :
  Rel w1 w2 → rel_late Rel (run_task fuel c requests w1) (run_task fuel c requests w2).
Proof. intros HR. unfold run_task, get_parent_path_to_index_path_map. rel_solve. Qed.
#[local] Hint Resolve run_task_rel : rel.
Lemma run_tasks_rel fuel c tasks order results w1 w2 : Rel w1 w2 →
  rel_late Rel (run_tasks fuel c tasks order results w1) (run_tasks fuel c tasks order results w2).
Proof. revert results w1 w2. induction order as [|i order IH]; intros results w1 w2 HR; cbn [run_tasks]; rel_solve. Qed.
#[local] Hint Resolve run_tasks_rel : rel.
Lemma update_rel second_get batch_size order fuel c requests w1 w2 : Rel w1 w2 →
  rel_late Rel (update second_get batch_size order fuel c requests w1)
               (update second_get batch_size order fuel c requests w2).
Proof. intros HR. unfold update. rel_solve. Qed.

(** *** Creation and removal of indices *)

Lemma remove_partitions_rel fuel c root name full partitions status w1 w2 : Rel w1 w2 →
  rel_late Rel (remove_partitions fuel c root name full partitions status w1)
               (remove_partitions fuel c root name full partitions status w2).
Proof.
  revert status w1 w2. induction partitions as [|part partitions IH]; intros status w1 w2 HR;
    cbn [remove_partitions]; rel_solve.
Qed.
#[local] Hint Resolve remove_partitions_rel : rel.
Lemma remove_index_rel fuel c root name w1 w2 :
  Rel w1 w2 → rel_late Rel (remove_index fuel c root name w1) (remove_index fuel c root name w2).
Proof. intros HR. unfold remove_index. rel_solve. Qed.
#[local] Hint Resolve remove_index_rel : rel.
Lemma create_index_rel fuel c root name it kt mode uid gid w1 w2 : Rel w1 w2 →
  rel_late Rel (create_index fuel c root name it kt mode uid gid w1)
               (create_index fuel c root name it kt mode uid gid w2).
Proof. intros HR. unfold create_index. rel_solve. Qed.
Lemma locate_all_rel request nodes indices w1 w2 : Rel w1 w2 →
  rel_call Rel (locate_all request nodes indices w1) (locate_all request nodes indices w2).
Proof.
  revert indices w1 w2. induction nodes as [|[pos node] nodes IH]; intros indices w1 w2 HR; cbn [locate_all]; rel_solve.
Qed.
Lemma index_infos_rel c indices infos w1 w2 :
  Rel w1 w2 → rel_run Rel (index_infos c indices infos w1) (index_infos c indices infos w2).
Proof.
  revert infos w1 w2. induction indices as [|idx indices IH]; intros infos w1 w2 HR; cbn [index_infos]; rel_solve.
Qed.
#[local] Hint Resolve locate_all_rel index_infos_rel : rel.
Lemma get_index_infos_rel c path recursive infos w1 w2 : Rel w1 w2 →
  rel_run Rel (get_index_infos c path recursive infos w1) (get_index_infos c path recursive infos w2).
Proof. intros HR. unfold get_index_infos. rel_solve. Qed.
End client_rel.

(** ** Sessions *)

Inductive client_call :=
  | CallSyncMasters
  | CallSyncIndexServers
  | CallCreate (path : string) (mode uid gid : Z)
  | CallOpen (path : string)
  | CallUnlink (path : string)
  | CallMkdir (path : string) (mode uid gid : Z)
  | CallRmdir (path : string)
  | CallReaddir (path : string)
  | CallGetattr (path : string)
  | CallObjectId (path : string)
  | CallSetattr (path : string) (info : RpcFileInfo)
  | CallSearch (q : ComplexQuery)
  | CallUpdate (requests : list IndexUpdateRequest) (order : list nat)
  | CallCreateIndex (root name : string) (index_type key_type mode uid gid : Z)
  | CallRemoveIndex (root name : string)
  | CallIndexInfos (path : string) (recursive : bool).

Inductive call_result :=
  | GotStatus (status : Status)
  | GotId (status : Status) (id : option Z)
  | GotNames (status : Status) (names : list string)
  | GotInfo (status : Status) (info : option RpcFileInfo)
  | GotInfos (status : Status) (infos : list IndexInfo).

Section session.
Context {W R : Type} `{!ClusterRpc W, !IndexRpc W, !ConsistentHashMap R NodeInfo}.
Context `{!MD5, !BoostFilesystem, !VoblaStatus}.
Context (second_get : Status → run Status) (batch_size fuel : nat).
Implicit Types (c : VSFSRpcClient R).

(** The result of a call that leaves the client as it is. *)
Definition same_client {A} (c : VSFSRpcClient R) (f : A → call_result) (p : late (A * W))
    : late (call_result * VSFSRpcClient R * W) :=
  AWAIT (a, w) ⇐ p;; ends (f a, c, w).

Definition exec_call (call : client_call) c (w : W) : late (call_result * VSFSRpcClient R * W) :=
  match call with
  | CallSyncMasters =>
      AWAIT (status, c, w) ⇐ lift (sync_master_server_map c w);; ends (GotStatus status, c, w)
  | CallSyncIndexServers =>
      AWAIT (status, c, w) ⇐ lift (sync_index_server_map c w);; ends (GotStatus status, c, w)
  | CallCreate path mode uid gid => same_client c (uncurry GotId) (create fuel c path mode uid gid w)
  | CallOpen path => same_client c (uncurry GotId) (lift (open c path w))
  | CallUnlink path => same_client c (uncurry GotId) (unlink fuel c path w)
  | CallMkdir path mode uid gid => same_client c GotStatus (mkdir fuel c path mode uid gid w)
  | CallRmdir path => same_client c GotStatus (rmdir fuel c path w)
  | CallReaddir path => same_client c (λ a, GotNames a.1 (default [] a.2)) (lift (readdir c path w))
  | CallGetattr path => same_client c (uncurry GotInfo) (lift (getattr c path w))
  | CallObjectId path => same_client c (uncurry GotId) (lift (object_id c path w))
  | CallSetattr path info => same_client c (λ a, GotStatus a.1) (lift (setattr c path info w))
  | CallSearch q => same_client c (uncurry GotNames) (lift (search c q w))
  | CallUpdate requests order =>
      same_client c GotStatus (update second_get batch_size order fuel c requests w)
  | CallCreateIndex root name it kt mode uid gid =>
      same_client c GotStatus (create_index fuel c root name it kt mode uid gid w)
  | CallRemoveIndex root name => same_client c GotStatus (remove_index fuel c root name w)
  | CallIndexInfos path recursive =>
      same_client c (uncurry GotInfos) (lift (get_index_infos c path recursive [] w))
  end.

Fixpoint exec_calls (calls : list client_call) c (w : W)
    : late (list call_result * VSFSRpcClient R * W) :=
  match calls with
  | [] => ends ([], c, w)
  | call :: calls' =>
      AWAIT (result, c, w) ⇐ exec_call call c w;;
      AWAIT (results, c, w) ⇐ exec_calls calls' c w;;
      ends (result :: results, c, w)
  end.
End session.

Section session_rel.
Context {W1 W2 R : Type} `{!ClusterRpc W1, !ClusterRpc W2, !IndexRpc W1, !IndexRpc W2}.
Context `{!ConsistentHashMap R NodeInfo, !MD5, !BoostFilesystem, !VoblaStatus}.
Context (Rel : W1 → W2 → Prop) `{!KeepsRel Rel}.
Context (second_get : Status → run Status) (batch_size fuel : nat).

Lemma same_client_rel {A} (c : VSFSRpcClient R) (f : A → call_result) p q :
  rel_late Rel p q → rel_late Rel (same_client c f p) (same_client c f q).
Proof. intros Hp. unfold same_client. by apply rel_bind_late; [done|intros; by split]. Qed.

Lemma exec_call_rel call (c : VSFSRpcClient R) w1 w2 :
  Rel w1 w2 → rel_late Rel (exec_call second_get batch_size fuel call c w1)
                           (exec_call second_get batch_size fuel call c w2).
Proof.
  intros HR. destruct call; cbn [exec_call]; try (apply same_client_rel; try apply rel_lift).
  - apply rel_bind_late; [by apply rel_lift, sync_master_rel|]. intros [status c'] wa wb ?. by split.
  - apply rel_bind_late; [by apply rel_lift, sync_index_rel|]. intros [status c'] wa wb ?. by split.
  - by apply create_rel.
  - by apply open_rel.
  - by apply unlink_rel.
  - by apply mkdir_rel.
  - by apply rmdir_rel.
  - by apply readdir_rel.
  - by apply getattr_rel.
  - by apply object_id_rel.
  - by apply setattr_rel.
  - by apply search_rel.
  - by apply update_rel.
  - by apply create_index_rel.
  - by apply remove_index_rel.
  - by apply get_index_infos_rel.
Qed.

Lemma exec_calls_rel calls (c : VSFSRpcClient R) w1 w2 :
  Rel w1 w2 → rel_late Rel (exec_calls second_get batch_size fuel calls c w1)
                           (exec_calls second_get batch_size fuel calls c w2).
Proof.
  revert c w1 w2. induction calls as [|call calls IH]; intros c w1 w2 HR; cbn [exec_calls].
  { by split. }
  apply rel_bind_late; [by apply exec_call_rel|]. intros [result c'] wa wb HR'.
  apply rel_bind_late; [by apply IH|]. intros [results c''] wa' wb' HR''. by split.
Qed.
End session_rel.

Section connected_session.
Context {V N T R : Type} `{!ClusterRpc V, !IndexRpc V, !Transports N T, !ConsistentHashMap R NodeInfo}.
Context `{!MD5, !BoostFilesystem, !VoblaStatus}.
Context (second_get : Status → run Status) (batch_size fuel : nat).

(** The life of a client: [connect], calls, destructor. *)
Definition session (calls : list client_call) (c : VSFSRpcClient R) (v : V) (n : N)
    : late (list call_result * V * N) :=
  AWAIT (status, master_client, n) ⇐ lift (connect_primary n (primary_ c));;
  AWAIT (results, _, w) ⇐
    (if ok status then exec_calls second_get batch_size fuel calls c (Some (v, n) : connected_world V N)
     else ends ([GotStatus status], c, Some (v, n)));;
  match w with
  | Some (v, n) => AWAIT n ⇐ lift (destroy_client n master_client);; ends (results, v, n)
  | None => Some (Fatal "terminated")
  end.
End connected_session.

(** ** Properties *)

Section properties.
Context {V N T R : Type} `{!ClusterRpc V, !IndexRpc V, !Transports N T, !TransportsSpec N T}.
Context `{!ConsistentHashMap R NodeInfo, !MD5, !BoostFilesystem, !VoblaStatus}.

(** The connections of before are as they were, and no new one is open. *)
Definition same_connections (n0 : N) (w w' : connected_world V N) : Prop :=
  w = w' ∧ match w with Some (_, n) => balanced n0 n | None => True end.

Lemma over_connection_same n0 {A} (w1 w2 : connected_world V N) addr (call : V → outcome A * V) :
  same_connections n0 w1 w2 →
  rel_call (same_connections n0) (over_connection w1 addr call) (over_connection w2 addr call).
Proof.
  intros [<- Hb]. split; [done|]. split; [done|]. unfold over_connection.
  destruct w1 as [[v n]|]; simpl; [|done].
  destruct (with_connection addr call v n) as [[[o v'] n']|] eqn:Hc; simpl; [|done].
  etrans; [exact Hb|]. by eapply with_connection_balanced.
Qed.
Lemma on_primary_same n0 {A} (w1 w2 : connected_world V N) (call : V → outcome A * V) :
  same_connections n0 w1 w2 →
  rel_call (same_connections n0) (on_primary w1 call) (on_primary w2 call).
Proof.
  intros [<- Hb]. split; [done|]. split; [done|]. unfold on_primary.
  destruct w1 as [[v n]|]; simpl; [|done]. by destruct (call v).
Qed.
#[local] Instance same_connections_kept n0 : KeepsRel (same_connections n0).
Proof. split; intros; (by apply over_connection_same) || (by apply on_primary_same). Qed.


Definition same_servers (w : connected_world V N) (v : V) : Prop := ∃ n, w = Some (v, n).

End properties.

(** ** Witnesses: a network that counts its sockets *)

Section witnesses.
Import Reference.
#[local] Existing Instances Client.scripted ClientIndex.scripted_index.

(** [down] says which sockets cannot be opened. *)
Abbreviation sockets := (gmap nat bool).
Definition reach (down : nat → bool) : Transports sockets nat := {|
  tr_new n _ _ := let t := fresh (dom n : gset nat) in (t, <[t := false]> n);
  tr_open n t := if down t then (Some (1%Z, "Could not connect"), <[t := false]> n)
                 else (None, <[t := true]> n);
  tr_close n t := (None, <[t := false]> n);
  tr_is_open n t := default false (n !! t);
|}.

Lemma reach_spec down : TransportsSpec sockets nat (Transports0 := reach down).
Proof.
  refine {| tr_live := (λ n t, is_Some (n !! t)) : sockets → nat → Prop |}; simpl.
  - intros n addr port t n' [= <- <-]. assert (n !! fresh (dom n : gset nat) = None) as Hf
      by (apply (not_elem_of_dom (D:=gset nat)), is_fresh). rewrite lookup_insert_eq. split_and!.
    + rewrite Hf. by intros [].
    + by eexists.
    + done.
    + intros t' Hne Ht'. by rewrite lookup_insert_ne by done.
    + intros t'. rewrite lookup_insert. case_decide; [by left|by right].
  - intros n t e n' Ht. destruct (down t); intros [= <- <-]; rewrite lookup_insert_eq.
    all: split_and!; [by eexists|done|intros t' Hne Ht'; by rewrite lookup_insert_ne by done|].
    all: intros t'; rewrite lookup_insert; case_decide; [by subst|done].
  - intros n t e n' Ht [= <- <-]. rewrite lookup_insert_eq.
    split_and!; [by eexists|done|intros t' Hne Ht'; by rewrite lookup_insert_ne by done|].
    intros t'; rewrite lookup_insert; case_decide; [by subst|done].
Defined.

Definition demo_calls : list client_call :=
  [CallSyncMasters; CallReaddir "/"; CallMkdir "/d" 493 0 0; CallSearch demo_query].


End witnesses.
