(* ===== verification/Cluster.v ===== *)
(** * A cluster: the client on top of the master and index servers

    The instance of [ClusterRpc] that runs the handlers of the master and
    index servers.  A server that does not exist, or that dies in the call,
    shows up as a transport exception.  The theorems follow one client call
    through the client, the ring, the RPC handlers and the namespaces of the
    (one or two) masters involved. *)

From S2P Require Import Prelude CxxString Platform PathUtil ThriftUtils KVStore RangeIndex IndexManager.
From S2P Require Import PartitionManager IndexNamespace Namespace MasterController ServerMap.
From S2P Require Import ComplexQuery Client.

#[export] Instance RpcNodeAddress_eq_dec : EqDecision RpcNodeAddress.
Proof. solve_decision. Defined.
#[export] Program Instance RpcNodeAddress_countable : Countable RpcNodeAddress :=
  inj_countable' (λ a, (host a, port a)) (λ '(h, p), {| host := h; port := p |}) _.
Next Obligation. by intros []. Qed.

(** [TTransportException]: [NOT_OPEN] and [END_OF_FILE] *)
Definition NOT_OPEN : Z := 1.
Definition END_OF_FILE : Z := 4.

Section cluster.
Context {S P R I : Type} `{KeyValueStore S, ConsistentHashMap P string, ConsistentHashMap R NodeInfo}.
Context `{RangeIndexInterface I}.
Context `{VoblaStatus, MD5, BoostFilesystem}.
Context `{ThriftCodec FileMetadata, ThriftCodec IndexNamespaceNode, ThriftCodec IndexConsistentHashRing}.

Record Cluster := {
  master_nodes : gmap RpcNodeAddress (MasterController S P R);
  index_nodes : gmap RpcNodeAddress (IndexManager I);
  now : double;
}.

Definition set_master (w : Cluster) (addr : RpcNodeAddress) (mc : option (MasterController S P R)) :=
  {| master_nodes := partial_alter (λ _, mc) addr (master_nodes w);
     index_nodes := index_nodes w; now := now w |}.
Definition set_index (w : Cluster) (addr : RpcNodeAddress) (im : option (IndexManager I)) :=
  {| master_nodes := master_nodes w;
     index_nodes := partial_alter (λ _, im) addr (index_nodes w); now := now w |}.

Definition outcome_of {A} (r : rpc A) : outcome A :=
  match r with Return a => Reply a | Throw e => Invalid e end.

(** A call that may change the master. *)
Definition call_master {A} (w : Cluster) (addr : RpcNodeAddress)
    (handler : MasterController S P R → run (rpc A * MasterController S P R)) : outcome A * Cluster :=
  match master_nodes w !! addr with
  | None => (Transport NOT_OPEN "Could not connect", w)
  | Some mc =>
      match handler mc with
      | Done (r, mc') => (outcome_of r, set_master w addr (Some mc'))
      | Fatal _ => (Transport END_OF_FILE "No more data to read.", set_master w addr None)
      end
  end.

(** A call that only reads. *)
Definition ask_master {A} (w : Cluster) (addr : RpcNodeAddress)
    (handler : MasterController S P R → run (rpc A)) : outcome A * Cluster :=
  call_master w addr (λ mc, r ← handler mc; Done (r, mc)).

#[export] Instance cluster_rpc : ClusterRpc Cluster := {
  m_get_all_masters w a := ask_master w a rpc_get_all_masters;
  m_get_all_index_servers w a := ask_master w a rpc_get_all_index_servers;
  m_create w a path mode uid gid := call_master w a (λ mc, rpc_create mc path mode uid gid (now w));
  m_remove w a path := call_master w a (λ mc, rpc_remove mc path);
  m_object_id w a path := ask_master w a (λ mc, Done (rpc_object_id mc path));
  m_mkdir w a path info := call_master w a (λ mc, rpc_mkdir mc path info (now w));
  m_rmdir w a path := call_master w a (λ mc, rpc_rmdir mc path);
  m_add_subfile w a parent sub := call_master w a (λ mc, rpc_add_subfile mc parent sub);
  m_remove_subfile w a parent sub := call_master w a (λ mc, rpc_remove_subfile mc parent sub);
  m_readdir w a path := ask_master w a (λ mc, Done (rpc_readdir mc path));
  m_getattr w a path := ask_master w a (λ mc, Done (rpc_getattr mc path));
  m_setattr w a path info := call_master w a (λ mc, rpc_setattr mc path info);
  m_find_files w a objects := ask_master w a (λ mc, Done (rpc_find_files mc objects));
  m_locate_indices_for_search w a root names :=
    ask_master w a (λ mc, Done (rpc_locate_indices_for_search mc root names));
  i_search w a query :=
    match index_nodes w !! a with
    | None => (Transport NOT_OPEN "Could not connect", w)
    | Some im =>
        match rpc_search query im with
        | Done (r, im') => (outcome_of r, set_index w a (Some im'))
        | Fatal _ => (Transport END_OF_FILE "No more data to read.", set_index w a None)
        end
    end;
}.
End cluster.

Arguments Cluster S P R I : clear implicits.

(** ** Lemmas *)

Section lemmas.
Context {S P R I : Type} `{!KeyValueStore S, !KeyValueStoreSpec S}.
Context `{!ConsistentHashMap P string, !ConsistentHashMap R NodeInfo, !RangeIndexInterface I}.
Context `{!VoblaStatus, !MD5, !BoostFilesystem}.
Context `{!ThriftCodec FileMetadata, !ThriftCodec IndexNamespaceNode, !ThriftCodec IndexConsistentHashRing}.

Abbreviation world := (Cluster S P R I).
Abbreviation master := (MasterController S P R).

(** A state of the server in which a read leaves the cluster as it is. *)
Lemma ask_master_reply {A} (w : world) addr (mc : master) (handler : master → run (rpc A)) r :
  master_nodes w !! addr = Some mc → handler mc = Done r →
  ask_master w addr handler = (outcome_of r, w).
Proof.
  intros Hmc Hh. unfold ask_master, call_master. rewrite Hmc, Hh. simpl.
  f_equal. destruct w as [mn ixs n]. unfold set_master; simpl in *. f_equal.
  by apply partial_alter_id.
Qed.

Lemma rpc_create_ok (mc : master) path mode uid gid t :
  fs_is_absolute path = true → kv_opened (store_ (namespace_ mc)) →
  (∀ s : S, kv_opened s → accepts s) →
  metadata_map_ (namespace_ mc) !! path = None →
  let oid := object_id_of path (next_obj_id_ (namespace_ mc)) in
  id_to_path_map_ (namespace_ mc) !! oid ≠ Some path →
  in_int64 (next_obj_id_ (namespace_ mc) + 1) = true →
  ∃ mc' m, rpc_create mc path mode uid gid t = Done (Return oid, mc') ∧
    metadata_map_ (namespace_ mc') = <[path:=m]> (metadata_map_ (namespace_ mc)) ∧
    md_object_id m = oid ∧
    directories_ (namespace_ mc') = directories_ (namespace_ mc) ∧
    kv_opened (store_ (namespace_ mc')).
Proof.
  intros Habs Ho Hacc Hm oid Hid Hnext.
  unfold rpc_create, MasterController.create, is_valid_path. rewrite Habs.
  unfold Namespace.create, get_object_id, int64_ret, store_metadata. rewrite Hm, Hnext. simpl.
  fold oid. rewrite bool_decide_eq_false_2 by done. simpl.
  match goal with |- context [kv_put ?s ?k ?v] =>
    destruct (kv_put_spec s k v Ho) as (st&s'&Hput&Ho'&_); rewrite Hput end. simpl.
  rewrite (Hacc _ Ho _ _ _ _ Hput). simpl. unfold check_status.
  rewrite (Hacc _ Ho _ _ _ _ Hput). do 2 eexists. split_and!; done.
Qed.

Lemma rpc_add_subfile_ok (mc : master) parent sub subs :
  fs_is_absolute parent = true → kv_opened (store_ (namespace_ mc)) →
  (∀ s : S, kv_opened s → accepts s) →
  directories_ (namespace_ mc) !! parent = Some subs → sub ∉ subs →
  ∃ mc', rpc_add_subfile mc parent sub = Done (Return (), mc') ∧
    metadata_map_ (namespace_ mc') = metadata_map_ (namespace_ mc) ∧
    directories_ (namespace_ mc') !! parent = Some ({[sub]} ∪ subs).
Proof.
  intros Habs Ho Hacc Hd Hsub.
  unfold rpc_add_subfile, rpc_void, MasterController.add_subfile, is_valid_path, on_namespace.
  rewrite Habs. unfold Namespace.add_subfile. rewrite Hd, bool_decide_eq_false_2 by done.
  match goal with |- context [kv_put ?s ?k ?v] =>
    destruct (kv_put_spec s k v Ho) as (st&s'&Hput&Ho'&_); rewrite Hput end. simpl.
  rewrite (Hacc _ Ho _ _ _ _ Hput). simpl. eexists. split_and!; [done..|].
  simpl. apply lookup_insert_eq.
Qed.

Lemma rpc_add_subfile_refused (mc : master) parent sub :
  fs_is_absolute parent = true → directories_ (namespace_ mc) !! parent = None →
  ∃ ouch, rpc_add_subfile mc parent sub = Done (Throw ouch, mc).
Proof.
  intros Habs Hd. unfold rpc_add_subfile, rpc_void, MasterController.add_subfile, is_valid_path,
    on_namespace. rewrite Habs. unfold Namespace.add_subfile. rewrite Hd. simpl.
  eexists. unfold set_namespace. by destruct mc.
Qed.

(** What holds of a master after the one at [a1] has changed. *)
Lemma set_master_other (Q : master → Prop) (w : world) a1 a2 (mc1 mc2 mc' : master) :
  master_nodes w !! a1 = Some mc1 → master_nodes w !! a2 = Some mc2 →
  (mc1 = mc2 → Q mc') → Q mc2 →
  ∃ mc, master_nodes (set_master w a1 (Some mc')) !! a2 = Some mc ∧ Q mc.
Proof.
  intros Hmc1 Hmc2 Hsame Hother. simpl. destruct (decide (a1 = a2)) as [->|Hne].
  - rewrite lookup_partial_alter_eq. exists mc'. split; [done|]. apply Hsame. congruence.
  - rewrite lookup_partial_alter_ne by done. by exists mc2.
Qed.
End lemmas.

(** ** Properties *)

Section properties.
Context {S P R I : Type} `{!KeyValueStore S, !KeyValueStoreSpec S}.
Context `{!ConsistentHashMap P string, !ConsistentHashMap R NodeInfo, !RangeIndexInterface I}.
Context `{!VoblaStatus, !MD5, !BoostFilesystem}.
Context `{!ThriftCodec FileMetadata, !ThriftCodec IndexNamespaceNode, !ThriftCodec IndexConsistentHashRing}.

Abbreviation world := (Cluster S P R I).
Abbreviation master := (MasterController S P R).

(** What a successful [create] leaves behind. *)
Lemma client_create_visible (c : VSFSRpcClient R) (w : Cluster S P R I) path mode uid gid fuel
    n1 n2 (mc1 mc2 : master) subs :
  let parent := fs_parent_path path in
  let name := fs_filename path in
  path ≠ "/" → fs_is_absolute path = true → fs_is_absolute parent = true → 0 < fuel →
  empty (master_map_ c) = false →
  get_path (master_map_ c) path = (OK, Some n1) → get_path (master_map_ c) parent = (OK, Some n2) →
  master_nodes w !! address n1 = Some mc1 → master_nodes w !! address n2 = Some mc2 →
  kv_opened (store_ (namespace_ mc1)) → kv_opened (store_ (namespace_ mc2)) →
  (∀ s : S, kv_opened s → accepts s) →
  metadata_map_ (namespace_ mc1) !! path = None →
  id_to_path_map_ (namespace_ mc1) !! object_id_of path (next_obj_id_ (namespace_ mc1)) ≠ Some path →
  in_int64 (next_obj_id_ (namespace_ mc1) + 1) = true →
  directories_ (namespace_ mc2) !! parent = Some subs → name ∉ subs →
  ∃ oid w', Client.create fuel c path mode uid gid w = ends (OK, Some oid, w') ∧
    Client.open c path w' = Done (OK, Some oid, w') ∧
    Client.object_id c path w' = Done (OK, Some oid, w') ∧
    ∃ l, Client.readdir c parent w' = Done (OK, Some l, w') ∧ name ∈ l.
Proof.
  intros parent name Hroot Habs Habsp Hfuel Hinit Hg1 Hg2 Hn1 Hn2 Ho1 Ho2 Hacc Hm Hid Hnext Hd Hsub.
  destruct (rpc_create_ok mc1 path (Z.lor mode S_IFREG) uid gid (now w) Habs Ho1 Hacc Hm Hid Hnext)
    as (mc1'&m&Hcreate&Hmeta&Hoid&Hdirs&Ho1').
  set (oid := object_id_of path _) in *. set (w1 := set_master w (address n1) (Some mc1')).
  destruct (set_master_other (λ mc, directories_ (namespace_ mc) !! parent = Some subs ∧
      kv_opened (store_ (namespace_ mc))) w (address n1) (address n2) mc1 mc2 mc1')
    as (mc2'&Hn2'&Hd2'&Ho2'); [done|done|by intros ->; rewrite Hdirs|done|].
  fold w1 in Hn2'.
  destruct (rpc_add_subfile_ok mc2' parent name subs Habsp Ho2' Hacc Hd2' Hsub)
    as (mc2''&Hadd&Hmeta2&Hd2'').
  set (w2 := set_master w1 (address n2) (Some mc2'')).
  assert (metadata_map_ (namespace_ mc1') !! path = Some m) as Hm1 by (rewrite Hmeta; apply lookup_insert_eq).
  destruct (set_master_other (λ mc, metadata_map_ (namespace_ mc) !! path = Some m) w1
      (address n2) (address n1) mc2' mc1' mc2'')
    as (mcf&Hf&Hmf); [done|apply lookup_partial_alter_eq|by intros ->; rewrite Hmeta2|done|].
  fold w2 in Hf.
  exists oid, w2. unfold get_path in Hg1, Hg2. split_and!.
  - unfold Client.create, is_initialized. rewrite Hinit. simpl negb. cbv iota.
    rewrite Hg1. simpl. unfold call_master. rewrite Hn1, Hcreate. simpl. fold w1.
    unfold Client.add_subfile, change_subfile. rewrite bool_decide_eq_false_2 by done.
    fold parent name. rewrite Hg2. simpl ok. cbv iota. destruct fuel as [|fuel]; [lia|].
    simpl. unfold call_master. rewrite Hn2', Hadd. simpl. done.
  - unfold Client.open. rewrite Hg1. simpl.
    rewrite (ask_master_reply w2 (address n1) mcf _ (Return oid)); [done|done|].
    unfold rpc_object_id, MasterController.object_id, Namespace.object_id. rewrite Hmf.
    simpl. by rewrite Hoid.
  - unfold Client.object_id, at_master, check_get, get_path. rewrite Hg1. simpl.
    rewrite (ask_master_reply w2 (address n1) mcf _ (Return oid)); [done|done|].
    unfold rpc_object_id, MasterController.object_id, Namespace.object_id. rewrite Hmf.
    simpl. by rewrite Hoid.
  - exists (sorted_elements String.le ({[name]} ∪ subs)). split.
    + unfold Client.readdir, at_master, check_get, get_path. rewrite Hg2. simpl.
      rewrite (ask_master_reply w2 (address n2) mc2'' _
        (Return (sorted_elements String.le ({[name]} ∪ subs)))); [done| |].
      * unfold w2; simpl. apply lookup_partial_alter_eq.
      * unfold rpc_readdir, MasterController.readdir, is_valid_path. rewrite Habsp.
        unfold Namespace.readdir. by rewrite Hd2''.
    + apply elem_of_sorted_elements. set_solver.
Qed.

(** A file a client creates is there for every client.  When the masters of
    the path and of its parent directory are up (they may be the same), the
    path is new, the parent directory exists without such an entry, and the
    stores take writes, the client's [create] returns [OK] with the object id
    of the file; afterwards [object_id] finds that id, and [readdir] of the
    parent lists the file. *)
Theorem client_create_is_visible (c : VSFSRpcClient R) (w : Cluster S P R I) path mode uid gid fuel
    n1 n2 (mc1 mc2 : master) subs :
  let parent := fs_parent_path path in
  let name := fs_filename path in
  path ≠ "/" → fs_is_absolute path = true → fs_is_absolute parent = true → 0 < fuel →
  empty (master_map_ c) = false →
  get_path (master_map_ c) path = (OK, Some n1) → get_path (master_map_ c) parent = (OK, Some n2) →
  master_nodes w !! address n1 = Some mc1 → master_nodes w !! address n2 = Some mc2 →
  kv_opened (store_ (namespace_ mc1)) → kv_opened (store_ (namespace_ mc2)) →
  (∀ s : S, kv_opened s → accepts s) →
  metadata_map_ (namespace_ mc1) !! path = None →
  id_to_path_map_ (namespace_ mc1) !! object_id_of path (next_obj_id_ (namespace_ mc1)) ≠ Some path →
  in_int64 (next_obj_id_ (namespace_ mc1) + 1) = true →
  directories_ (namespace_ mc2) !! parent = Some subs → name ∉ subs →
  ∃ oid w', Client.create fuel c path mode uid gid w = ends (OK, Some oid, w') ∧
    Client.object_id c path w' = Done (OK, Some oid, w') ∧
    ∃ l, Client.readdir c parent w' = Done (OK, Some l, w') ∧ name ∈ l.
Proof.
  intros parent name Hroot Habs Habsp Hfuel Hinit Hg1 Hg2 Hn1 Hn2 Ho1 Ho2 Hacc Hm Hid Hnext Hd Hsub.
  destruct (client_create_visible c w path mode uid gid fuel n1 n2 mc1 mc2 subs)
    as (oid&w'&?&_&?&?); try done. by exists oid, w'.
Qed.

(** A file in a missing directory hangs the client.  When the master of the
    parent does not know the directory, [create] adds the file on the master
    of the path and then never returns: the refused [add_subfile] is retried
    for ever, whatever the bound on the turns. *)
Theorem create_in_missing_directory_hangs (c : VSFSRpcClient R) (w : Cluster S P R I) path mode uid gid
    n1 n2 (mc1 mc2 : master) :
  let parent := fs_parent_path path in
  path ≠ "/" → fs_is_absolute path = true → fs_is_absolute parent = true →
  empty (master_map_ c) = false →
  get_path (master_map_ c) path = (OK, Some n1) → get_path (master_map_ c) parent = (OK, Some n2) →
  master_nodes w !! address n1 = Some mc1 → master_nodes w !! address n2 = Some mc2 →
  kv_opened (store_ (namespace_ mc1)) → (∀ s : S, kv_opened s → accepts s) →
  metadata_map_ (namespace_ mc1) !! path = None →
  id_to_path_map_ (namespace_ mc1) !! object_id_of path (next_obj_id_ (namespace_ mc1)) ≠ Some path →
  in_int64 (next_obj_id_ (namespace_ mc1) + 1) = true →
  directories_ (namespace_ mc2) !! parent = None →
  ∀ fuel, Client.create fuel c path mode uid gid w = None.
Proof.
  intros parent Hroot Habs Habsp Hinit Hg1 Hg2 Hn1 Hn2 Ho1 Hacc Hm Hid Hnext Hd fuel.
  destruct (rpc_create_ok mc1 path (Z.lor mode S_IFREG) uid gid (now w) Habs Ho1 Hacc Hm Hid Hnext)
    as (mc1'&m&Hcreate&_&_&Hdirs&_).
  set (w1 := set_master w (address n1) (Some mc1')).
  destruct (set_master_other (λ mc, directories_ (namespace_ mc) !! parent = None) w
      (address n1) (address n2) mc1 mc2 mc1')
    as (mc2'&Hn2'&Hd2'); [done|done|by intros ->; rewrite Hdirs|done|].
  fold w1 in Hn2'.
  unfold Client.create, is_initialized. rewrite Hinit. simpl negb. cbv iota.
  unfold get_path in Hg1, Hg2. rewrite Hg1. simpl. unfold call_master. rewrite Hn1, Hcreate. simpl.
  fold w1. unfold Client.add_subfile, change_subfile. rewrite bool_decide_eq_false_2 by done.
  fold parent. rewrite Hg2. simpl ok. cbv iota.
  destruct (rpc_add_subfile_refused mc2' parent (fs_filename path) Habsp Hd2') as [ouch Hr].
  unfold kNumBackOffs. erewrite subfile_loop_refused; [done|].
  simpl. unfold call_master. rewrite Hn2', Hr.
  simpl. f_equal. destruct w1 as [mn ixs n]. unfold set_master; simpl in *. f_equal.
  by apply partial_alter_id.
Qed.
End properties.

(** ** Witnesses: a cluster of one master *)

Section witnesses.
Import Reference.
#[local] Existing Instances TestLevelDBStore.test_store TestLevelDBStore.test_store_spec.
#[local] Existing Instances RangeIndexWrapper.updates_codec RangeIndexWrapper.buffer_codec.
#[local] Existing Instances RangeIndexWrapper.types RangeIndexWrapper.casts.
#[local] Instance metadata_codec : ThriftCodec FileMetadata := codec FileMetadata.
#[local] Instance node_codec : ThriftCodec IndexNamespaceNode := codec IndexNamespaceNode.
#[local] Instance ring_codec : ThriftCodec IndexConsistentHashRing := codec (list IndexPartition).

Abbreviation demo_master :=
  (MasterController (gmap string string) (gmap Z string) (gmap Z NodeInfo)).
Abbreviation demo_world :=
  (Cluster (gmap string string) (gmap Z string) (gmap Z NodeInfo) RangeIndexObject).

Definition addr_a : RpcNodeAddress := {| host := "a"; port := 9876 |}.
Definition demo_client : VSFSRpcClient (gmap Z NodeInfo) :=
  {| primary_ := addr_a; master_map_ := {[0%Z := node_of addr_a]};
     index_server_map_ := {[0%Z := node_of addr_a]} |}.

(** The namespace holds the root directory. *)
Definition rooted : Namespace (gmap string string) :=
  match Namespace.mkdir (Namespace.new ∅ 0) "/" (Z.lor 493 S_IFDIR) 0 0 noon with
  | Done (_, ns) => ns
  | Fatal _ => Namespace.new ∅ 0
  end.
Definition master_a : demo_master :=
  {| mc_is_primary := true; namespace_ := rooted;
     index_namespace_ := IndexNamespace.new ∅;
     index_partition_manager_ := PartitionManager.new ∅;
     master_server_manager_ := Some {[0%Z := node_of addr_a]};
     index_server_manager_ := Some {[0%Z := node_of addr_a]} |}.
Definition world_a : demo_world :=
  {| master_nodes := {[addr_a := master_a]}; index_nodes := ∅; now := noon |}.

Lemma store_accepts (s : gmap string string) : kv_opened s → accepts s.
Proof. intros _ k v st s' Hput. by injection Hput as <- <-. Qed.

Lemma client_create_is_visible_witness :
  ∃ oid w', Client.create 1 demo_client "/f" 420 0 0 world_a = ends (OK, Some oid, w') ∧
    Client.object_id demo_client "/f" w' = Done (OK, Some oid, w') ∧
    ∃ l, Client.readdir demo_client (fs_parent_path "/f") w' = Done (OK, Some l, w') ∧
      fs_filename "/f" ∈ l.
Proof.
  apply (client_create_is_visible demo_client world_a "/f" 420 0 0 1
           (node_of addr_a) (node_of addr_a) master_a master_a ∅);
    [done|done|done|lia|done|vm_compute; reflexivity|vm_compute; reflexivity|done|done|done|done| | | | | |].
  - apply store_accepts.
  - vm_compute. reflexivity.
  - vm_compute. discriminate.
  - vm_compute. reflexivity.
  - vm_compute. reflexivity.
  - set_solver.
Defined.

Lemma create_in_missing_directory_hangs_witness :
  Client.create 1000 demo_client "/d/f" 420 0 0 world_a = None.
Proof.
  apply (create_in_missing_directory_hangs demo_client world_a "/d/f" 420 0 0
           (node_of addr_a) (node_of addr_a) master_a master_a);
    [done|done|done|done|vm_compute; reflexivity|vm_compute; reflexivity|done|done|done| | | | |].
  - apply store_accepts.
  - vm_compute. reflexivity.
  - vm_compute. discriminate.
  - vm_compute. reflexivity.
  - vm_compute. reflexivity.
Defined.
End witnesses.
