(* ===== verification/IndexController.v ===== *)
(** * The index server process (indexd/index_controller.cpp, index_controller.h)

    [IndexController] owns the index manager, serves the RPCs through
    [IndexServer] (whose handlers are in [IndexManager]), and joins the ring
    of the primary master from a background thread. *)

From S2P Require Import Prelude CxxString Platform PathUtil ThriftUtils LogManager RangeIndex.
From S2P Require Import RangeIndexWrapper IndexManager KVStore PartitionManager IndexNamespace Namespace MasterController ServerMap.
From S2P Require Import Client Cluster.

(** [PREPARE], [RUNNING], [STOPPED] *)
Inductive ControllerStatus := PREPARE | RUNNING | STOPPED.

Record IndexController (I : Type) := {
  ic_host : string;
  ic_port : Z;
  base_dir_ : string;
  manager_ : IndexManager I;
  ic_master : RpcNodeAddress;
  ic_status : option ControllerStatus;   (** not initialised until [start] *)
}.
Arguments ic_host {I}. Arguments ic_port {I}. Arguments base_dir_ {I}. Arguments manager_ {I}.
Arguments ic_master {I}. Arguments ic_status {I}.

(** The command line flags. *)
Record Flags := {
  FLAGS_host : string; FLAGS_port : Z; FLAGS_server_id : string;
  FLAGS_master_addr : string; FLAGS_master_port : Z;
}.

Section controller.
Context {I : Type} `{RangeIndexInterface I, MD5, VoblaStatus}.
Context `{ThriftCodec RpcIndexRecordUpdateList, ThriftCodec (list LogEntity)}.
Context (flags : Flags).
Context (FLAGS_update_immediately : bool) (junk : Z).

Abbreviation controller := (IndexController I).

(** The constructors. *)
Definition new_controller (basedir : string) : controller :=
  {| ic_host := FLAGS_host flags; ic_port := FLAGS_port flags; base_dir_ := basedir;
     manager_ := new_manager basedir;
     ic_master := {| host := FLAGS_master_addr flags; port := FLAGS_master_port flags |};
     ic_status := None |}.
Definition new_controller_at (basedir host_ : string) (port_ : Z) (master_host : string) (master_port : Z)
    : controller :=
  {| ic_host := host_; ic_port := port_; base_dir_ := basedir; manager_ := new_manager basedir;
     ic_master := {| host := if str_empty master_host then FLAGS_master_addr flags else master_host;
                     port := if bool_decide (master_port = 0%Z) then FLAGS_master_port flags
                             else master_port |};
     ic_status := None |}.

Definition new_controller_with (basedir host_ : string) (port_ : Z) (master : RpcNodeAddress) : controller :=
  {| ic_host := host_; ic_port := port_; base_dir_ := basedir; manager_ := new_manager basedir;
     ic_master := master; ic_status := None |}.

Definition set_manager (im : IndexManager I) (ic : controller) : controller :=
  {| ic_host := ic_host ic; ic_port := ic_port ic; base_dir_ := base_dir_ ic; manager_ := im;
     ic_master := ic_master ic; ic_status := ic_status ic |}.

(** [join]: the node it registers, and the call.  No exception is caught, and
    the thread that called [join] takes the process down. *)
Definition self_node (host_name : string) (ic : controller) : NodeInfo :=
  {| address := {| host := if str_empty (ic_host ic) then host_name else ic_host ic;
                   port := ic_port ic |};
     server_id := FLAGS_server_id flags; node_type := 0; node_status := 0; avail_mb := 0 |}.
Definition join {W} (join_index_server : W → RpcNodeAddress → NodeInfo → outcome (list RpcNodeAddress) * W)
    (host_name : string) (ic : controller) (w : W) : run (Status * W) :=
  match join_index_server w (ic_master ic) (self_node host_name ic) with
  | (Reply _, w) => Done (OK, w)
  | (_, _) => Fatal "uncaught exception"
  end.

(** The operations the RPC handlers call. *)
Definition controller_create_index (root_path name : string) (index_type key_type : Z) (ic : controller)
    : Status * controller :=
  let '(status, im) := IndexManager.create junk root_path name index_type key_type (manager_ ic) in
  (status, set_manager im ic).
Definition controller_destroy_index (root name : string) (ic : controller) : Status * controller :=
  let '(status, im) := IndexManager.destroy root name (manager_ ic) in (status, set_manager im ic).
Definition controller_update (updates : RpcIndexUpdate) (order : list RpcIndexRecordUpdateList)
    (ic : controller) : run (Status * controller) :=
  '(status, im) ← update_all FLAGS_update_immediately updates order (manager_ ic);
  Done (status, set_manager im ic).
Definition controller_search (query : RpcComplexQuery) (ic : controller)
    : run (Status * list Z * controller) :=
  '(status, results, im) ← search_all query (manager_ ic);
  Done (status, results, set_manager im ic).
Definition controller_info (request : RpcIndexInfoRequest) (ic : controller)
    : run (Status * option RpcIndexInfo * controller) :=
  '(status, result, im) ← info request (manager_ ic);
  Done (status, result, set_manager im ic).
End controller.

(** ** Properties *)

Section properties.
Context {S P R I : Type} `{!KeyValueStore S}.
Context `{!ConsistentHashMap P string, !ConsistentHashMap R NodeInfo, !ConsistentHashMapSpec R NodeInfo}.
Context `{!RangeIndexInterface I, !VoblaStatus, !MD5, !BoostFilesystem}.
Context `{!ThriftCodec FileMetadata, !ThriftCodec IndexNamespaceNode, !ThriftCodec IndexConsistentHashRing}.
Context (flags : Flags).

Abbreviation cluster := (Cluster S P R I).
Abbreviation master := (MasterController S P R).

(** The call on the cluster; [r1] and [r2] are the values of [rand()]. *)
Definition cluster_join (r1 r2 : Z) (w : cluster) (addr : RpcNodeAddress) (node : NodeInfo)
    : outcome (list RpcNodeAddress) * cluster :=
  call_master w addr (λ mc, rpc_join_index_server mc node r1 r2).

(** C34: the first index server gets all the work.  When an index server joins
    a primary master that knows no index server yet, the call succeeds
    whatever the two random numbers, and a client that fetches the ring
    afterwards sends every index partition to the address of that server. *)
Theorem first_index_server_serves_all (ic : IndexController I) host_name r1 r2 (w : cluster)
    (mc : master) (sm : R) (c : VSFSRpcClient R) :
  (0 ≤ r1 < 2 ^ 31)%Z → (0 ≤ r2 < 2 ^ 31)%Z →
  master_nodes w !! ic_master ic = Some mc → mc_is_primary mc = true →
  index_server_manager_ mc = Some sm → ch_view sm = ∅ →
  primary_ c = ic_master ic → index_server_map_ c = ch_new →
  ∃ w' c', join flags (cluster_join r1 r2) host_name ic w = Done (OK, w') ∧
    sync_index_server_map c w' = Done (OK, c', w') ∧
    ∀ path, ∃ node, get_path (index_server_map_ c') path = (OK, Some node) ∧
      address node = address (self_node flags host_name ic).
Proof.
  intros Hr1 Hr2 Hmc Hprim Hsm Hempty Hc Hnew. set (node := self_node flags host_name ic).
  assert (in_int64 (r1 * r2) = true) as Hin.
  { unfold in_int64, int64_min, int64_max. apply bool_decide_eq_true_2. nia. }
  destruct (ch_insert_spec sm (r1 * r2) node) as (sm'&Hins&Hview); [by rewrite Hempty, lookup_empty|].
  rewrite Hempty in Hview.
  set (mc' := set_index_servers mc sm').
  set (w' := set_master w (ic_master ic) (Some mc')).
  exists w', {| primary_ := primary_ c; master_map_ := master_map_ c;
                index_server_map_ := add_all (index_server_map_ c) {[(r1 * r2)%Z := address node]} |}.
  split_and!.
  - unfold join, cluster_join, call_master. rewrite Hmc.
    unfold rpc_join_index_server, join_index_server, deref. rewrite Hsm. simpl.
    unfold ServerMap.add, empty. rewrite ch_num_nodes_spec, Hempty, map_size_empty.
    rewrite bool_decide_eq_true_2 by done. unfold int64_ret. rewrite Hin. simpl.
    fold node. rewrite Hins. simpl. done.
  - unfold sync_index_server_map. rewrite Hc. simpl.
    assert (master_nodes w' !! ic_master ic = Some mc') as Hw'.
    { unfold w', set_master. cbn [master_nodes]. by rewrite lookup_partial_alter_eq. }
    assert (rpc_get_all_index_servers mc' = Done (Return {[(r1 * r2)%Z := address node]})) as Hall.
    { unfold rpc_get_all_index_servers, get_all_index_servers. simpl. rewrite Hprim. simpl.
      unfold ring_addresses. rewrite get_ch_ring_as_map_spec, Hview.
      by rewrite insert_empty, map_fmap_singleton. }
    by rewrite (ask_master_reply w' _ mc' _ _ Hw' Hall).
  - intros path. exists (node_of (address node)). split; [|done]. simpl.
    unfold get_path. by rewrite get_spec, Hnew, add_all_new, map_fmap_singleton, ring_owner_singleton.
Qed.
End properties.

Section witnesses.
Import Reference.
#[local] Existing Instances TestLevelDBStore.test_store TestLevelDBStore.test_store_spec.
#[local] Existing Instances RangeIndexWrapper.updates_codec RangeIndexWrapper.buffer_codec.
#[local] Existing Instances RangeIndexWrapper.types RangeIndexWrapper.casts.
#[local] Existing Instances Cluster.metadata_codec Cluster.node_codec Cluster.ring_codec.

Definition demo_flags : Flags :=
  {| FLAGS_host := ""; FLAGS_port := 5555; FLAGS_server_id := "i1"; FLAGS_master_addr := "a";
     FLAGS_master_port := 9876 |}.
Definition demo_controller : IndexController RangeIndexObject :=
  new_controller demo_flags "/tmp".
Definition lonely : Cluster (gmap string string) (gmap Z string) (gmap Z NodeInfo) RangeIndexObject :=
  {| master_nodes := {[addr_a := set_index_servers master_a ∅]}; index_nodes := ∅; now := noon |}.
Definition newcomer : VSFSRpcClient (gmap Z NodeInfo) :=
  {| primary_ := addr_a; master_map_ := ∅; index_server_map_ := ∅ |}.

Lemma first_index_server_serves_all_witness :
  ∃ w' c', join demo_flags (cluster_join 12 34) "h" demo_controller lonely = Done (OK, w') ∧
    sync_index_server_map newcomer w' = Done (OK, c', w') ∧
    ∀ path, ∃ node, get_path (index_server_map_ c') path = (OK, Some node) ∧
      address node = {| host := "h"; port := 5555 |}.
Proof.
  refine (first_index_server_serves_all demo_flags demo_controller "h" 12 34 lonely
    (set_index_servers master_a ∅) ∅ newcomer _ _ _ _ _ _ _ _); try done; lia.
Defined.
End witnesses.
