(* ===== verification/Lifecycle.v ===== *)
(** * Starting and stopping the servers

    [MasterController] and [IndexController] run three threads of control: the
    one that calls [start] and serves, the background thread that joins the
    ring of the primary, and whoever calls [stop] (a signal handler, the
    destructor, a test).  Each is a program of atomic actions on the members
    that the threads share; a step runs the next action of one of them.  The
    states are finitely many, so that invariants of all interleavings are
    checked by exploring them. *)

From S2P Require Import Prelude CxxString Platform PathUtil ThriftUtils LogManager RangeIndex.
From S2P Require Import RangeIndexWrapper IndexManager KVStore PartitionManager IndexNamespace Namespace.
From S2P Require Import MasterController ServerMap Client Cluster IndexController.

#[export] Instance ControllerStatus_eq_dec : EqDecision ControllerStatus.
Proof. solve_decision. Defined.

(** ** Exploring a finite transition system *)

Section explore.
Context {A : Type} `{EqDecision A} (succ : A → list A).

Fixpoint explore (fuel : nat) (frontier seen : list A) : list A :=
  match fuel with
  | 0 => seen
  | S fuel' =>
      match frontier with
      | [] => seen
      | x :: frontier' =>
          if bool_decide (x ∈ seen) then explore fuel' frontier' seen
          else explore fuel' (succ x ++ frontier') (x :: seen)
      end
  end.

Definition closed (l : list A) : bool := forallb (λ x, forallb (λ y, bool_decide (y ∈ l)) (succ x)) l.

Lemma reachable_in (l : list A) x y :
  closed l = true → x ∈ l → rtc (λ a b, b ∈ succ a) x y → y ∈ l.
Proof.
  intros Hc Hx Hxy. induction Hxy as [x|x y z Hy _ IH]; [done|]. apply IH.
  unfold closed in Hc. rewrite forallb_forall in Hc.
  specialize (Hc x (proj1 (list_elem_of_In _ _) Hx)). rewrite forallb_forall in Hc.
  by apply (bool_decide_eq_true_1 _ (Hc y (proj1 (list_elem_of_In _ _) Hy))).
Qed.

(** A property of all states of a closed list is an invariant. *)
Lemma explored_invariant (l : list A) (P : A → bool) x y :
  closed l = true → forallb P l = true → x ∈ l → rtc (λ a b, b ∈ succ a) x y → P y = true.
Proof.
  intros Hc HP Hx Hxy. rewrite forallb_forall in HP. apply HP, list_elem_of_In.
  by eapply reachable_in.
Qed.
End explore.

(** ** One server *)

(** The two controllers differ in the order of their assignments and in the
    test at the start of [stop]; a primary master does not join anybody. *)
Inductive server_kind := PrimaryMaster | SecondaryMaster | IndexServer.

(** The Thrift server behind [server_]: [stop] makes [serve] return. *)
Inductive net_state := Idle | IdleStopped | Serving | ServingStopped | Ended.

Inductive action :=
  | SetStatus (s : ControllerStatus)   (** [runtime_status_ = s] *)
  | NewServer                          (** [server_.reset(new TNonblockingServer(...))] *)
  | StartThread                        (** [background_thread_ = thread(&background_task)] *)
  | Serve                              (** [server_->serve()] begins *)
  | ServeReturns                       (** [server_->serve()] returns, [thread_manager->stop()] *)
  | JoinRing                           (** the call to the primary *)
  | QuitIfStopped                      (** [if (runtime_status_ == STOPPED) return] *)
  | TestJoinable                       (** [if (background_thread_.joinable())] *)
  | JoinThread                         (** [background_cv_.notify_all(); background_thread_.join()] *)
  | StopServer.                        (** [if (server_) server_->stop()] *)

Record Life := {
  runtime_status_ : option ControllerStatus;
  background_thread_ : bool;           (** joinable *)
  server_ : option net_state;
  starter : list action;
  background : list action;
  stopper : list action;
}.

#[export] Instance net_state_eq_dec : EqDecision net_state.
Proof. solve_decision. Defined.
#[export] Instance action_eq_dec : EqDecision action.
Proof. solve_decision. Defined.
#[export] Instance Life_eq_dec : EqDecision Life.
Proof. solve_decision. Defined.

(** [MasterController::start], [background_task] and [stop]. *)
Definition master_start : list action := [NewServer; SetStatus PREPARE; StartThread; Serve; ServeReturns].
Definition master_background_task (is_primary_node_ : bool) : list action :=
  (if is_primary_node_ then [] else [JoinRing]) ++ [SetStatus RUNNING].
Definition master_stop : list action := [QuitIfStopped; SetStatus STOPPED; TestJoinable; StopServer].

(** [IndexController::start], [background_task] and [stop]. *)
Definition index_start : list action := [SetStatus RUNNING; NewServer; StartThread; Serve; ServeReturns].
Definition index_background_task : list action := [JoinRing].
Definition index_stop : list action := [SetStatus STOPPED; TestJoinable; StopServer].

Definition start (k : server_kind) : list action :=
  match k with IndexServer => index_start | _ => master_start end.
Definition background_task (k : server_kind) : list action :=
  match k with
  | PrimaryMaster => master_background_task true
  | SecondaryMaster => master_background_task false
  | IndexServer => index_background_task
  end.
Definition stop (k : server_kind) : list action :=
  match k with IndexServer => index_stop | _ => master_stop end.

(** A server about to [start]; [runtime_status_] is not initialised. *)
Definition new_life (k : server_kind) : Life :=
  {| runtime_status_ := None; background_thread_ := false; server_ := None;
     starter := start k; background := []; stopper := [] |}.

Inductive thread := Starter | Background | Stopper.

(** The result of an action: it waits, the process goes on, or
    [std::terminate] ends it. *)
Inductive effect := Waits | Goes (l : Life) | Terminates.

Section step.
(** [early]: does [TNonblockingServer::stop] count when [serve] has not begun;
    [joined]: does the primary accept the server. *)
Context (early joined : bool) (k : server_kind).

Definition set_program (t : thread) (p : list action) (l : Life) : Life :=
  {| runtime_status_ := runtime_status_ l; background_thread_ := background_thread_ l;
     server_ := server_ l;
     starter := match t with Starter => p | _ => starter l end;
     background := match t with Background => p | _ => background l end;
     stopper := match t with Stopper => p | _ => stopper l end |}.
Definition set_status (s : ControllerStatus) (l : Life) : Life :=
  {| runtime_status_ := Some s; background_thread_ := background_thread_ l; server_ := server_ l;
     starter := starter l; background := background l; stopper := stopper l |}.
Definition set_net (n : net_state) (l : Life) : Life :=
  {| runtime_status_ := runtime_status_ l; background_thread_ := background_thread_ l;
     server_ := Some n; starter := starter l; background := background l; stopper := stopper l |}.
Definition set_joinable (b : bool) (l : Life) : Life :=
  {| runtime_status_ := runtime_status_ l; background_thread_ := b; server_ := server_ l;
     starter := starter l; background := background l; stopper := stopper l |}.

Definition program (t : thread) (l : Life) : list action :=
  match t with Starter => starter l | Background => background l | Stopper => stopper l end.

(** [l] is the state with the action taken off the program of [t]. *)
Definition act (t : thread) (a : action) (l : Life) : effect :=
  match a with
  | SetStatus s => Goes (set_status s l)
  | NewServer => Goes (set_net Idle l)
  | StartThread =>
      (** assigning to a joinable [std::thread] *)
      if background_thread_ l then Terminates
      else Goes (set_program Background (background_task k) (set_joinable true l))
  | Serve =>
      match server_ l with
      | Some IdleStopped => Goes (set_net ServingStopped l)
      | Some _ => Goes (set_net Serving l)
      | None => Terminates
      end
  | ServeReturns =>
      match server_ l with
      | Some ServingStopped => Goes (set_net Ended l)
      | _ => Waits
      end
  | JoinRing => if joined then Goes l else Terminates
  | QuitIfStopped =>
      if decide (runtime_status_ l = Some STOPPED) then Goes (set_program t [] l) else Goes l
  | TestJoinable => if background_thread_ l then Goes (set_program t (JoinThread :: program t l) l) else Goes l
  | JoinThread =>
      (** joining a thread that is not joinable throws *)
      if negb (background_thread_ l) then Terminates
      else match background l with
           | [] => Goes (set_joinable false l)
           | _ => Waits
           end
  | StopServer =>
      match server_ l with
      | None => Goes l
      | Some Idle => Goes (if early then set_net IdleStopped l else l)
      | Some Serving => Goes (set_net ServingStopped l)
      | Some _ => Goes l
      end
  end.

Definition step_of (t : thread) (l : Life) : effect :=
  match program t l with
  | [] => Waits
  | a :: p => act t a (set_program t p l)
  end.

Definition all_threads : list thread := [Starter; Background; Stopper].

(** The steps of the threads. *)
Definition steps (l : Life) : list Life :=
  all_threads ≫= λ t, match step_of t l with Goes l' => [l'] | _ => [] end.

(** [stop] is called when no call of it is running. *)
Definition call_stop (l : Life) : Life := set_program Stopper (stop k) l.
Definition steps_and_calls (l : Life) : list Life :=
  match stopper l with [] => call_stop l :: steps l | _ => steps l end.

Definition step : relation Life := λ l l', l' ∈ steps l.
Definition step_or_call : relation Life := λ l l', l' ∈ steps_and_calls l.

(** Some thread is about to end the process. *)
Definition terminates (l : Life) : bool :=
  existsb (λ t, match step_of t l with Terminates => true | _ => false end) all_threads.

(** Everything is over: [start] and [stop] have returned, the background
    thread has ended and is joined. *)
Definition clean (l : Life) : bool :=
  bool_decide (starter l = []) && bool_decide (background l = []) && bool_decide (stopper l = [])
  && negb (background_thread_ l).

Definition serving (l : Life) : bool := bool_decide (starter l = [ServeReturns]).
End step.

(** ** The processes (masterd/masterd.cpp, indexd/indexd.cpp)

    What [main] does, and the value it returns once [start] has returned. *)
Inductive main_event :=
  | InstallSignals                (** [SIGTERM] and [SIGINT] call [controller->stop()] *)
  | Daemonize                     (** a failure is only logged *)
  | WritePid (pidfile : string)
  | NewController
  | InitController
  | StartController.

Definition masterd_main `{VoblaStatus} (FLAGS_daemon : bool) (FLAGS_pidfile : string) (init_status : Status)
    : list main_event * Z :=
  let setup := [InstallSignals] ++ (if FLAGS_daemon then [Daemonize] else []) ++
               (if str_empty FLAGS_pidfile then [] else [WritePid FLAGS_pidfile]) ++
               [NewController; InitController] in
  if ok init_status then (setup ++ [StartController], 0%Z) else (setup, error_of init_status).

Definition indexd_main (FLAGS_daemon : bool) (FLAGS_pidfile : string) : list main_event * Z :=
  ((if FLAGS_daemon then [Daemonize] else []) ++
   (if str_empty FLAGS_pidfile then [] else [WritePid FLAGS_pidfile]) ++
   [InstallSignals; NewController; StartController], 0%Z).

(** What the three threads have left to do. *)
Definition action_cost (a : action) : nat :=
  match a with
  | StartThread => 4    (** the background program is still to come *)
  | TestJoinable => 3   (** it may turn into a join *)
  | _ => 1
  end.
Definition work (p : list action) : nat := sum_list_with action_cost p.
Definition work_left (l : Life) : nat := work (starter l) + work (background l) + work (stopper l).

(** ** Exploration *)

(** All states, with calls of [stop] at any time; and those before and after
    one call. *)
Definition all_states (early : bool) (k : server_kind) : list Life :=
  explore (steps_and_calls early true k) 2000 [new_life k] [].
Definition unstopped_states (early : bool) (k : server_kind) : list Life := explore (steps early true k) 2000 [new_life k] [].
Definition stopped_states (early : bool) (k : server_kind) : list Life :=
  explore (steps early true k) 2000 (call_stop k <$> filter (λ l, serving l = true) (unstopped_states early k)) [].

Lemma all_states_closed early k :
  closed (steps_and_calls early true k) (all_states early k)
  && bool_decide (new_life k ∈ all_states early k) = true.
Proof. destruct early, k; vm_compute; reflexivity. Qed.

Lemma all_states_never_terminate early k : forallb (λ l, negb (terminates early true k l)) (all_states early k) = true.
Proof. destruct early, k; vm_compute; reflexivity. Qed.

Lemma unstopped_states_closed early k :
  closed (steps early true k) (unstopped_states early k)
  && bool_decide (new_life k ∈ unstopped_states early k) = true.
Proof. destruct early, k; vm_compute; reflexivity. Qed.

Lemma stopped_states_closed early k :
  closed (steps early true k) (stopped_states early k)
  && forallb (λ l, bool_decide (call_stop k l ∈ stopped_states early k))
       (filter (λ l, serving l = true) (unstopped_states early k)) = true.
Proof. destruct early, k; vm_compute; reflexivity. Qed.

(** After the call every state can go on or is clean, and steps make progress. *)
Lemma stopped_states_finish early k :
  forallb (λ l, (negb (bool_decide (steps early true k l = [])) || clean l)
                && forallb (λ l', work_left l' <? work_left l) (steps early true k l))
    (stopped_states early k) = true.
Proof. destruct early, k; vm_compute; reflexivity. Qed.

Lemma reach_all early k l :
  rtc (step_or_call early true k) (new_life k) l → l ∈ all_states early k.
Proof.
  intros Hl. pose proof (all_states_closed early k) as [Hc Hin%bool_decide_eq_true_1]%andb_prop.
  by apply (reachable_in (steps_and_calls early true k) (all_states early k) (new_life k)).
Qed.

Lemma reach_stopped early k l l' :
  rtc (step early true k) (new_life k) l → serving l = true →
  rtc (step early true k) (call_stop k l) l' → l' ∈ stopped_states early k.
Proof.
  intros Hl Hs Hl'. pose proof (unstopped_states_closed early k) as [Hc Hin%bool_decide_eq_true_1]%andb_prop.
  pose proof (stopped_states_closed early k) as [Hc' Hall]%andb_prop.
  apply (reachable_in (steps early true k) (stopped_states early k) (call_stop k l)); [done| |done].
  rewrite forallb_forall in Hall. apply (bool_decide_eq_true_1 _ (Hall l (proj1 (list_elem_of_In _ _)
    (proj2 (list_elem_of_filter _ _ _) (conj Hs (reachable_in _ _ _ _ Hc Hin Hl)))))).
Qed.

Lemma stopped_state early k l :
  l ∈ stopped_states early k →
  (steps early true k l = [] → clean l = true) ∧
  ∀ l', step early true k l l' → work_left l' < work_left l.
Proof.
  intros Hl. pose proof (stopped_states_finish early k) as Hf. rewrite forallb_forall in Hf.
  apply list_elem_of_In in Hl. apply Hf in Hl as [Hclean Hwork]%andb_prop. split.
  - intros Hn. by rewrite bool_decide_eq_true_2 in Hclean.
  - intros l' Hl'. rewrite forallb_forall in Hwork.
    by apply Nat.ltb_lt, Hwork, list_elem_of_In.
Qed.

(** One run: the stopper before the background thread before the starter. *)
Fixpoint run_last (early joined : bool) (k : server_kind) (fuel : nat) (l : Life) : Life :=
  match fuel with
  | 0 => l
  | S fuel' =>
      match last (steps early joined k l) with
      | None => l
      | Some l' => run_last early joined k fuel' l'
      end
  end.

Lemma run_last_rtc early joined k fuel l :
  rtc (step early joined k) l (run_last early joined k fuel l).
Proof.
  revert l. induction fuel as [|fuel IH]; intros l; [constructor|]. simpl.
  destruct (last _) as [l'|] eqn:Hl; [|constructor].
  apply rtc_l with l'; [|apply IH]. by apply last_Some_elem_of.
Qed.

(** ** Properties *)

(** C13: the threads of a server are used safely.  In every interleaving of
    [start], the background thread and any number of calls of [stop] one after
    the other, as long as the primary accepts the server, the process is never
    ended by a thread that is assigned while it runs, joined twice, or joined
    when it was never started, and [serve] is never called on a missing server. *)
Theorem server_threads_are_safe (early : bool) (k : server_kind) (l : Life) :
  rtc (step_or_call early true k) (new_life k) l → terminates early true k l = false.
Proof.
  intros Hl%reach_all. pose proof (all_states_never_terminate early k) as Hall.
  rewrite forallb_forall in Hall. apply negb_true_iff, Hall. by apply list_elem_of_In.
Qed.


(** A stop that comes before the server exists is lost: the call returns, and
    the server then serves with nothing left that would stop it. *)
Theorem early_stop_is_lost (early : bool) (k : server_kind) :
  ∃ l, rtc (step early true k) (call_stop k (new_life k)) l ∧
    stopper l = [] ∧ serving l = true ∧ steps early true k l = [].
Proof.
  eexists. split; [apply (run_last_rtc early true k 30)|]. by destruct early, k; vm_compute.
Qed.

(** A refused join ends the process: nothing catches the exception in the
    background thread. *)
Theorem refused_join_ends_process (early : bool) (k : server_kind) :
  k ≠ PrimaryMaster →
  ∃ l, rtc (step early false k) (new_life k) l ∧ terminates early false k l = true.
Proof.
  intros Hk.
  eexists. split; [apply (run_last_rtc early false k 9)|]. by destruct early, k; vm_compute.
Qed.

(** A master that serves was initialised and can be stopped by a signal. *)
Lemma masterd_serves `{VoblaStatus} daemon pidfile status :
  StartController ∈ (masterd_main daemon pidfile status).1 ↔
  ok status = true ∧ (masterd_main daemon pidfile status).2 = 0%Z ∧
  ∃ before, (masterd_main daemon pidfile status).1 = before ++ [StartController] ∧
    InstallSignals ∈ before ∧ InitController ∈ before.
Proof.
  unfold masterd_main. destruct (ok status); split.
  - intros _. split_and!; [done..|]. eexists. split_and!; [done| |].
    + left.
    + rewrite !elem_of_app. right. right. right. right. left.
  - intros _. apply elem_of_app. right. left.
  - intros Hin. exfalso. simpl in Hin. destruct daemon, (str_empty pidfile); set_solver.
  - by intros [? _].
Qed.

(** ** Witnesses *)

Lemma server_threads_are_safe_witness :
  let l := run_last true true IndexServer 9 (new_life IndexServer) in
  terminates true true IndexServer l = false ∧ serving l = true.
Proof.
  split; [|vm_compute; reflexivity]. apply server_threads_are_safe.
  apply (rtc_subrel (step true true IndexServer)); [|apply run_last_rtc].
  intros a b Hab. unfold step_or_call, steps_and_calls. destruct (stopper a); [by right|done].
Defined.

