(* ===== verification/LocalCluster.v ===== *)
(** * A cluster in one process (testing/local_vsfs_cluster.cpp)

    [LocalVsfsCluster::start] starts the primary master, the other masters and
    the index servers, each with its own threads, and waits between the groups
    until the primary knows as many servers as there should be.  The servers
    join in any order, whenever their background threads run; a join that is
    refused ends the process. *)

From S2P Require Import Prelude CxxString Platform PathUtil ThriftUtils LogManager RangeIndex.
From S2P Require Import RangeIndexWrapper IndexManager KVStore PartitionManager IndexNamespace Namespace.
From S2P Require Import MasterController ServerMap Client.

Definition kPrimaryPort : Z := 10100.
Definition kIndexPort : Z := 12000.

(** Where [start] is. *)
Inductive phase := LaunchMasters | WaitMasters | LaunchIndices | WaitIndices | Started.

Section cluster.
Context {S P R : Type} `{!KeyValueStore S, !ConsistentHashMap P string, !ConsistentHashMap R NodeInfo}.
Context `{!VoblaStatus, !MD5, !BoostFilesystem}.
Context `{!ThriftCodec FileMetadata, !ThriftCodec IndexNamespaceNode, !ThriftCodec IndexConsistentHashRing}.

Abbreviation master := (MasterController S P R).

(** The launched servers, and those of them that have not joined yet. *)
Record LocalVsfsCluster := {
  lc_phase : phase;
  lc_primary : master;
  lc_masters : list NodeInfo;
  lc_joining_masters : list NodeInfo;
  lc_indices : list NodeInfo;
  lc_joining_indices : list NodeInfo;
}.

(** What a master and an index server register; the host name of a master is
    that of the machine. *)
Context (host_name FLAGS_server_id : string) (num_masterds num_index_servers : nat).

Definition master_node (i : nat) : NodeInfo :=
  node_of {| host := host_name; port := kPrimaryPort + Z.of_nat i |}.
Definition index_node (i : nat) : NodeInfo :=
  {| address := {| host := "localhost"; port := kIndexPort + Z.of_nat i |};
     server_id := FLAGS_server_id; node_type := 0; node_status := 0; avail_mb := 0 |}.

Definition set_phase (p : phase) (st : LocalVsfsCluster) : LocalVsfsCluster :=
  {| lc_phase := p; lc_primary := lc_primary st; lc_masters := lc_masters st;
     lc_joining_masters := lc_joining_masters st; lc_indices := lc_indices st;
     lc_joining_indices := lc_joining_indices st |}.

(** The primary serves. *)
Definition started_primary (primary : master) : LocalVsfsCluster :=
  {| lc_phase := LaunchMasters; lc_primary := primary; lc_masters := [master_node 0];
     lc_joining_masters := []; lc_indices := []; lc_joining_indices := [] |}.

(** [get_all_masters(&ring); ring.size()] *)
Definition ring_size (r : run (Status * gmap Z RpcNodeAddress)) : option nat :=
  match r with Done (_, ring) => Some (size ring) | Fatal _ => None end.

(** The steps of [start], and of the background threads of the servers. *)
Inductive lc_step : relation LocalVsfsCluster :=
  | launch_master st :
      lc_phase st = LaunchMasters → length (lc_masters st) < num_masterds →
      let node := master_node (length (lc_masters st)) in
      lc_step st
        {| lc_phase := LaunchMasters; lc_primary := lc_primary st;
           lc_masters := lc_masters st ++ [node]; lc_joining_masters := lc_joining_masters st ++ [node];
           lc_indices := lc_indices st; lc_joining_indices := lc_joining_indices st |}
  | masters_launched st :
      lc_phase st = LaunchMasters → num_masterds ≤ length (lc_masters st) →
      lc_step st (set_phase WaitMasters st)
  | masters_ready st :
      lc_phase st = WaitMasters → ring_size (get_all_masters (lc_primary st)) = Some num_masterds →
      lc_step st (set_phase LaunchIndices st)
  | launch_index st :
      lc_phase st = LaunchIndices → length (lc_indices st) < num_index_servers →
      let node := index_node (length (lc_indices st)) in
      lc_step st
        {| lc_phase := LaunchIndices; lc_primary := lc_primary st;
           lc_masters := lc_masters st; lc_joining_masters := lc_joining_masters st;
           lc_indices := lc_indices st ++ [node]; lc_joining_indices := lc_joining_indices st ++ [node] |}
  | indices_launched st :
      lc_phase st = LaunchIndices → num_index_servers ≤ length (lc_indices st) →
      lc_step st (set_phase WaitIndices st)
  | indices_ready st :
      lc_phase st = WaitIndices → ring_size (get_all_index_servers (lc_primary st)) = Some num_index_servers →
      lc_step st (set_phase Started st)
  | master_joins st l1 node l2 r1 r2 primary :
      lc_joining_masters st = l1 ++ node :: l2 →
      rpc_join_master_server (lc_primary st) node r1 r2 = Done (Return (), primary) →
      lc_step st
        {| lc_phase := lc_phase st; lc_primary := primary;
           lc_masters := lc_masters st; lc_joining_masters := l1 ++ l2;
           lc_indices := lc_indices st; lc_joining_indices := lc_joining_indices st |}
  | index_joins st l1 node l2 r1 r2 replicas primary :
      lc_joining_indices st = l1 ++ node :: l2 →
      rpc_join_index_server (lc_primary st) node r1 r2 = Done (Return replicas, primary) →
      lc_step st
        {| lc_phase := lc_phase st; lc_primary := primary;
           lc_masters := lc_masters st; lc_joining_masters := lc_joining_masters st;
           lc_indices := lc_indices st; lc_joining_indices := l1 ++ l2 |}.

(** [LocalVsfsCluster::stop]: the index servers and their threads, then the
    masters, the primary last, and their threads. *)
Inductive stop_event := StopIndex (i : nat) | JoinIndexThread (i : nat) | StopMaster (i : nat) | JoinMasterThread (i : nat).
Definition lc_stop (st : LocalVsfsCluster) : list stop_event :=
  (StopIndex <$> seq 0 (length (lc_indices st))) ++ (JoinIndexThread <$> seq 0 (length (lc_indices st))) ++
  (StopMaster <$> reverse (seq 0 (length (lc_masters st)))) ++
  (JoinMasterThread <$> seq 0 (length (lc_masters st))).

(** [host(idx)], [port(idx)] and [num_master_servers()]. *)
Definition lc_host (idx : nat) (st : LocalVsfsCluster) : run string :=
  match lc_masters st !! idx with
  | Some node => Done (host (address node))
  | None => Fatal "CHECK_LT(idx, master_servers_.size())"
  end.
Definition lc_port (idx : nat) (st : LocalVsfsCluster) : run Z :=
  match lc_masters st !! idx with
  | Some node => Done (port (address node))
  | None => Fatal "CHECK_LT(idx, master_servers_.size())"
  end.
Definition num_master_servers (st : LocalVsfsCluster) : nat := length (lc_masters st).
End cluster.
Arguments LocalVsfsCluster S P R : clear implicits.

(** ** Lemmas *)

Section lemmas.
Context {S P R : Type} `{!KeyValueStore S, !ConsistentHashMap P string, !ConsistentHashMap R NodeInfo}.
Context `{!ConsistentHashMapSpec R NodeInfo, !VoblaStatus, !MD5, !BoostFilesystem}.
Context `{!ThriftCodec FileMetadata, !ThriftCodec IndexNamespaceNode, !ThriftCodec IndexConsistentHashRing}.
(** An insertion at a position in use may fail or replace the node there. *)
Context (Hins : ∀ (r : R) k (v : NodeInfo) s r', ch_insert r k v = (s, r') →
  ch_view r' = ch_view r ∨ ch_view r' = <[k:=v]> (ch_view r)).
Context (host_name FLAGS_server_id : string) (num_masterds num_index_servers : nat).

Abbreviation cluster := (LocalVsfsCluster S P R).
Abbreviation run_step := (lc_step host_name FLAGS_server_id num_masterds num_index_servers).

(** The nodes of a ring. *)
Definition ring_nodes (sm : R) : list NodeInfo := (map_to_list (ch_view sm)).*2.

Lemma length_ring_nodes (sm : R) : length (ring_nodes sm) = size (ch_view sm).
Proof. unfold ring_nodes. by rewrite length_fmap, length_map_to_list. Qed.

Lemma ring_nodes_insert (m : gmap Z NodeInfo) k v :
  (map_to_list (<[k:=v]> m)).*2 ⊆+ v :: (map_to_list m).*2.
Proof.
  destruct (m !! k) as [v'|] eqn:Hk.
  - rewrite <-(insert_delete_id m k v' Hk) at 2. rewrite <-(insert_delete_eq m k v).
    rewrite !map_to_list_insert by apply lookup_delete_eq. simpl.
    apply submseteq_skip. by apply submseteq_cons.
  - by rewrite map_to_list_insert.
Qed.

(** A server that joins is added at most once. *)
Lemma add_nodes (sm : R) node r1 r2 s sm' :
  ServerMap.add sm node r1 r2 = Done (s, sm') → ring_nodes sm' ⊆+ node :: ring_nodes sm.
Proof.
  assert (∀ k s sm', ch_insert sm k node = (s, sm') → ring_nodes sm' ⊆+ node :: ring_nodes sm) as Hi.
  { intros k s' sm1 Hk. unfold ring_nodes. destruct (Hins _ _ _ _ _ Hk) as [->| ->].
    - by apply submseteq_cons.
    - apply ring_nodes_insert. }
  unfold ServerMap.add. intros Ha. destruct (empty sm).
  - destruct (int64_ret _) as [pos|]; simplify_eq/=. by eapply Hi.
  - destruct (ch_get_max_range sm) as [st range]. destruct (ok st).
    + destruct range as [[lower upper]|]; destruct (middle _ _) as [pos|]; simplify_eq/=; by eapply Hi.
    + simplify_eq. by apply submseteq_cons.
Qed.

(** Every server in a ring was launched and is not joining any more. *)
Definition ring_inv (sm : R) (joining launched : list NodeInfo) : Prop :=
  ring_nodes sm ++ joining ⊆+ launched.

Lemma ring_inv_launch sm joining launched node :
  ring_inv sm joining launched → ring_inv sm (joining ++ [node]) (launched ++ [node]).
Proof. unfold ring_inv. intros Hi. rewrite app_assoc. by apply submseteq_app. Qed.

Lemma ring_inv_join sm sm' l1 node l2 launched r1 r2 s :
  ring_inv sm (l1 ++ node :: l2) launched → ServerMap.add sm node r1 r2 = Done (s, sm') →
  ring_inv sm' (l1 ++ l2) launched.
Proof.
  unfold ring_inv. intros Hi Ha%add_nodes. etrans; [|exact Hi].
  rewrite <-Permutation_middle. rewrite <-Permutation_middle.
  change (node :: ring_nodes sm ++ l1 ++ l2) with ((node :: ring_nodes sm) ++ (l1 ++ l2)).
  by apply submseteq_app.
Qed.

(** When the ring is as large as it should be, nobody is missing. *)
Lemma ring_inv_full sm joining launched :
  ring_inv sm joining launched → length launched ≤ size (ch_view sm) →
  joining = [] ∧ ring_nodes sm ≡ₚ launched.
Proof.
  unfold ring_inv. intros Hi Hsize. pose proof (submseteq_length _ _ Hi) as Hlen.
  rewrite length_app, length_ring_nodes in Hlen.
  assert (joining = []) as -> by (apply length_zero_iff_nil; lia). split; [done|].
  rewrite app_nil_r in Hi. apply submseteq_length_Permutation; [done|]. by rewrite length_ring_nodes.
Qed.

(** The masters, and then the index servers, have all joined. *)
Definition masters_done (p : phase) : bool :=
  match p with LaunchIndices | WaitIndices | Started => true | _ => false end.
Definition complete (sm : R) (joining launched : list NodeInfo) : Prop :=
  joining = [] ∧ ring_nodes sm ≡ₚ launched.

(** The invariant of a run of [start]. *)
Record lc_inv (st : cluster) : Prop := {
  li_primary : mc_is_primary (lc_primary st) = true;
  li_masters : ∃ sm, master_server_manager_ (lc_primary st) = Some sm ∧
    ring_inv sm (lc_joining_masters st) (lc_masters st) ∧
    (masters_done (lc_phase st) = true → complete sm (lc_joining_masters st) (lc_masters st));
  li_indices : ∃ sm, index_server_manager_ (lc_primary st) = Some sm ∧
    ring_inv sm (lc_joining_indices st) (lc_indices st) ∧
    (lc_phase st = Started → complete sm (lc_joining_indices st) (lc_indices st));
  li_master_nodes : lc_masters st = master_node host_name <$> seq 0 (length (lc_masters st));
  li_index_nodes : lc_indices st = index_node FLAGS_server_id <$> seq 0 (length (lc_indices st));
  li_num_masters : length (lc_masters st) ≤ num_masterds;
  li_num_indices : length (lc_indices st) ≤ num_index_servers;
  li_all_masters : lc_phase st ≠ LaunchMasters → num_masterds ≤ length (lc_masters st);
  li_all_indices : lc_phase st = WaitIndices ∨ lc_phase st = Started →
    num_index_servers ≤ length (lc_indices st);
}.

Lemma seq_nodes (f : nat → NodeInfo) l :
  l = f <$> seq 0 (length l) → l ++ [f (length l)] = f <$> seq 0 (length (l ++ [f (length l)])).
Proof.
  intros Hl. rewrite length_app. simpl. rewrite Nat.add_1_r, seq_S, fmap_app. simpl. by rewrite <-Hl.
Qed.

(** The answers of the primary. *)
Lemma masters_ring_size mc sm :
  mc_is_primary mc = true → master_server_manager_ mc = Some sm →
  ring_size (get_all_masters (mc : MasterController S P R)) = Some (size (ch_view sm)).
Proof.
  intros Hp Hsm. unfold get_all_masters. rewrite Hp, Hsm. simpl. f_equal.
  unfold ring_addresses. by rewrite map_size_fmap, get_ch_ring_as_map_spec.
Qed.
Lemma indices_ring_size mc sm :
  mc_is_primary mc = true → index_server_manager_ mc = Some sm →
  ring_size (get_all_index_servers (mc : MasterController S P R)) = Some (size (ch_view sm)).
Proof.
  intros Hp Hsm. unfold get_all_index_servers. rewrite Hp, Hsm. simpl. f_equal.
  unfold ring_addresses. by rewrite map_size_fmap, get_ch_ring_as_map_spec.
Qed.

(** A join changes one ring of the primary. *)
Lemma join_master_add (mc mc' : MasterController S P R) node r1 r2 sm :
  mc_is_primary mc = true → master_server_manager_ mc = Some sm →
  rpc_join_master_server mc node r1 r2 = Done (Return (), mc') →
  ∃ s sm', ServerMap.add sm node r1 r2 = Done (s, sm') ∧ mc' = set_masters mc sm'.
Proof.
  intros Hp Hsm. unfold rpc_join_master_server, join_master_server. rewrite Hp, Hsm. simpl.
  destruct (ServerMap.add sm node r1 r2) as [[s sm']|]; simpl; [|done].
  intros. simplify_eq. eauto.
Qed.
Lemma join_index_add (mc mc' : MasterController S P R) node r1 r2 sm replicas :
  index_server_manager_ mc = Some sm →
  rpc_join_index_server mc node r1 r2 = Done (Return replicas, mc') →
  ∃ s sm', ServerMap.add sm node r1 r2 = Done (s, sm') ∧ mc' = set_index_servers mc sm'.
Proof.
  intros Hsm. unfold rpc_join_index_server, join_index_server. rewrite Hsm. simpl.
  destruct (ServerMap.add sm node r1 r2) as [[s sm']|]; simpl; [|done].
  destruct (ok s); simpl; intros; simplify_eq; eauto.
Qed.

Lemma lc_inv_step st st' : run_step st st' → lc_inv st → lc_inv st'.
Proof.
  intros Hstep [Hprim (sm&Hsm&Hring&Hdone) (smi&Hsmi&Hringi&Hdonei) Hmn Hin Hnm Hni Ham Hai].
  destruct Hstep as [st Hph Hlt node|st Hph Hle|st Hph Hsize|st Hph Hlt node|st Hph Hle|st Hph Hsize
    |st l1 node l2 r1 r2 mc' Hj Hcall|st l1 node l2 r1 r2 reps mc' Hj Hcall].
  - rewrite Hph in *. split; simpl; try done.
    + exists sm. split_and!; [done|by apply ring_inv_launch|done].
    + eauto.
    + by apply seq_nodes.
    + rewrite length_app. simpl. lia.
  - split; simpl; try done; [|naive_solver..]. exists sm. split_and!; [done..|]. by rewrite Hph in Hdone.
  - rewrite (masters_ring_size _ sm) in Hsize by done. injection Hsize as Hsize. rewrite Hph in *.
    split; simpl; try done; [|naive_solver..]. exists sm. split_and!; [done..|].
    intros _. apply (ring_inv_full sm); [done|]. lia.
  - rewrite Hph in *. split; simpl; try done.
    + eauto.
    + exists smi. split_and!; [done|by apply ring_inv_launch|done].
    + by apply seq_nodes.
    + rewrite length_app. simpl. lia.
    + by intros [].
  - rewrite Hph in *. split; simpl; try done; [eauto|by exists smi|naive_solver].
  - rewrite (indices_ring_size _ smi) in Hsize by done. injection Hsize as Hsize. rewrite Hph in *.
    split; simpl; try done; [eauto| |naive_solver..]. exists smi. split_and!; [done..|].
    intros _. apply (ring_inv_full smi); [done|]. pose proof (Hai (or_introl eq_refl)). lia.
  - destruct (join_master_add _ _ _ _ _ _ Hprim Hsm Hcall) as (s&sm'&Hadd&->).
    rewrite Hj in Hring, Hdone. split; simpl; try done; [|eauto].
    exists sm'. split_and!; [done|by eapply ring_inv_join|]. intros Hd.
    destruct (Hdone Hd) as [Hnil _]. by destruct l1.
  - destruct (join_index_add _ _ _ _ _ _ _ Hsmi Hcall) as (s&sm'&Hadd&->).
    rewrite Hj in Hringi, Hdonei. split; simpl; try done; [eauto|].
    exists sm'. split_and!; [done|by eapply ring_inv_join|]. intros Hd.
    destruct (Hdonei Hd) as [Hnil _]. by destruct l1.
Qed.

Lemma lc_inv_started primary sm smi pos :
  1 ≤ num_masterds → mc_is_primary primary = true →
  master_server_manager_ primary = Some sm → ch_view sm = {[pos := master_node host_name 0]} →
  index_server_manager_ primary = Some smi → ch_view smi = ∅ →
  lc_inv (started_primary host_name primary).
Proof.
  intros Hn Hp Hsm Hv Hsmi Hvi. split; simpl; try done; [| |lia..|by intros []].
  - exists sm. split_and!; [done| |done]. unfold ring_inv, ring_nodes. by rewrite Hv, map_to_list_singleton.
  - exists smi. split_and!; [done| |done]. unfold ring_inv, ring_nodes. by rewrite Hvi, map_to_list_empty.
Qed.
End lemmas.

(** ** Properties *)

Section properties.
Context {S P R : Type} `{!KeyValueStore S, !ConsistentHashMap P string, !ConsistentHashMap R NodeInfo}.
Context `{!ConsistentHashMapSpec R NodeInfo, !VoblaStatus, !MD5, !BoostFilesystem}.
Context `{!ThriftCodec FileMetadata, !ThriftCodec IndexNamespaceNode, !ThriftCodec IndexConsistentHashRing}.

(** C14: [start] returns with every server in its ring.  Whatever the order in
    which the background threads of the servers run and the positions the
    primary draws, when [LocalVsfsCluster::start] has returned every launched
    master and index server has joined, and the rings of the primary hold each
    of them exactly once and nobody else; so the clients that connect find all
    of them. *)
Theorem cluster_starts_complete (host_name server_id : string) (num_masterds num_index_servers : nat)
    (primary : MasterController S P R) sm smi pos st :
  (∀ (r : R) k (v : NodeInfo) s r', ch_insert r k v = (s, r') →
     ch_view r' = ch_view r ∨ ch_view r' = <[k:=v]> (ch_view r)) →
  1 ≤ num_masterds → mc_is_primary primary = true →
  master_server_manager_ primary = Some sm → ch_view sm = {[pos := master_node host_name 0]} →
  index_server_manager_ primary = Some smi → ch_view smi = ∅ →
  rtc (lc_step host_name server_id num_masterds num_index_servers) (started_primary host_name primary) st →
  lc_phase st = Started →
  ∃ sm' smi', master_server_manager_ (lc_primary st) = Some sm' ∧
    index_server_manager_ (lc_primary st) = Some smi' ∧
    lc_joining_masters st = [] ∧ lc_joining_indices st = [] ∧
    ring_nodes sm' ≡ₚ master_node host_name <$> seq 0 num_masterds ∧
    ring_nodes smi' ≡ₚ index_node server_id <$> seq 0 num_index_servers.
Proof.
  intros Hins Hn Hp Hsm Hv Hsmi Hvi Hrun Hst.
  assert (lc_inv host_name server_id num_masterds num_index_servers st)
    as [Hprim (sm'&Hsm'&_&Hd) (smi'&Hsmi'&_&Hdi) Hmn Hin Hnm Hni Ham Hai].
  { apply (rtc_invariant (lc_step host_name server_id num_masterds num_index_servers) _
             (started_primary host_name primary) st); [|by eapply lc_inv_started|done].
    intros a b Ha Hab. by eapply lc_inv_step. }
  rewrite Hst in *. destruct (Hd eq_refl) as [Hj Hr]. destruct (Hdi eq_refl) as [Hji Hri].
  exists sm', smi'. split_and!; try done.
  - rewrite Hr, Hmn. replace (length (lc_masters st)) with num_masterds; [done|].
    apply Nat.le_antisymm; [by apply Ham|done].
  - rewrite Hri, Hin. replace (length (lc_indices st)) with num_index_servers; [done|].
    apply Nat.le_antisymm; [apply Hai; by right|done].
Qed.
End properties.

(** Every server is stopped before its thread is joined. *)
Lemma lc_stop_order {S P R : Type} (st : LocalVsfsCluster S P R) :
  (∀ i, i < length (lc_masters st) →
     ∃ l1 l2 l3, lc_stop st = l1 ++ StopMaster i :: l2 ++ JoinMasterThread i :: l3) ∧
  (∀ i, i < length (lc_indices st) →
     ∃ l1 l2 l3, lc_stop st = l1 ++ StopIndex i :: l2 ++ JoinIndexThread i :: l3).
Proof.
  assert (∀ A (f g : nat → A) l l' m m' n i, i ∈ l → i ∈ l' →
    ∃ l1 l2 l3, m ++ (f <$> l) ++ m' ++ (g <$> l') ++ n = l1 ++ f i :: l2 ++ g i :: l3) as Horder.
  { intros A f g l l' m m' n i (a&b&->)%list_elem_of_split (a'&b'&->)%list_elem_of_split.
    exists (m ++ (f <$> a)), ((f <$> b) ++ m' ++ (g <$> a')), ((g <$> b') ++ n).
    rewrite !fmap_app, !fmap_cons. repeat (rewrite <-app_assoc; simpl). done. }
  split; intros i Hi; unfold lc_stop.
  - destruct (Horder _ StopMaster JoinMasterThread (reverse (seq 0 (length (lc_masters st))))
      (seq 0 (length (lc_masters st)))
      ((StopIndex <$> seq 0 (length (lc_indices st))) ++ (JoinIndexThread <$> seq 0 (length (lc_indices st))))
      [] [] i) as (l1&l2&l3&Hl).
    + apply elem_of_reverse, elem_of_seq. lia.
    + apply elem_of_seq. lia.
    + exists l1, l2, l3. rewrite <-Hl, !app_nil_r, <-!app_assoc. done.
  - destruct (Horder _ StopIndex JoinIndexThread (seq 0 (length (lc_indices st)))
      (seq 0 (length (lc_indices st))) [] []
      ((StopMaster <$> reverse (seq 0 (length (lc_masters st)))) ++
       (JoinMasterThread <$> seq 0 (length (lc_masters st)))) i) as (l1&l2&l3&Hl);
      [apply elem_of_seq; lia..|].
    exists l1, l2, l3. by rewrite <-Hl.
Qed.

(** ** Witnesses: two masters and an index server *)

Section witnesses.
Import Reference.
#[local] Existing Instances TestLevelDBStore.test_store TestLevelDBStore.test_store_spec.
#[local] Existing Instances RangeIndexWrapper.types RangeIndexWrapper.casts.
#[local] Instance metadata_codec : ThriftCodec FileMetadata := codec FileMetadata.
#[local] Instance node_codec : ThriftCodec IndexNamespaceNode := codec IndexNamespaceNode.
#[local] Instance ring_codec : ThriftCodec IndexConsistentHashRing := codec (list IndexPartition).

(** A ring that offers the range after its last position. *)
#[local] Instance spread : ConsistentHashMap (gmap Z NodeInfo) NodeInfo := {
  ch_new := ∅;
  ch_insert r k v := (OK, <[k:=v]> r);
  ch_remove r k :=
    match r !! k with Some _ => (OK, delete k r) | None => (Err (-1) "no such key", r) end;
  ch_has_key r k := bool_decide (is_Some (r !! k));
  ch_get r h :=
    match ring_owner r h with Some v => (OK, Some v) | None => (Err (-1) "empty", None) end;
  ch_num_nodes r := size r;
  ch_get_partitions r := (sorted_map Z.le r).*1;
  ch_get_values r := (sorted_map Z.le r).*2;
  ch_entries r := sorted_map Z.le r;
  ch_succ_by_value r v := None;
  ch_get_max_range r :=
    match last (sorted_map Z.le r) with
    | Some p => (OK, Some (p.1, p.1))
    | None => (Err (-1) "empty", None)
    end;
}.
#[local] Instance spread_spec : ConsistentHashMapSpec (gmap Z NodeInfo) NodeInfo.
Proof.
  refine {| ch_view r := r |}; simpl; try done; try by eauto.
  - intros r k [v Hv]. rewrite Hv. eauto.
  - intros r k Hk. rewrite Hk. eauto.
  - intros r h v Hv. by rewrite Hv.
  - intros r h ->. exists (Err (-1) "empty"). done.
Defined.

Abbreviation demo_master := (MasterController (gmap string string) (gmap Z string) (gmap Z NodeInfo)).
Definition primary0 : demo_master :=
  {| mc_is_primary := true; namespace_ := Namespace.new ∅ 0;
     index_namespace_ := IndexNamespace.new ∅; index_partition_manager_ := PartitionManager.new ∅;
     master_server_manager_ := Some {[408%Z := master_node "h" 0]};
     index_server_manager_ := Some ∅ |}.
(** The primary after the second master, and after the index server. *)
Definition primary1 : demo_master :=
  set_masters primary0 {[408%Z := master_node "h" 0; (408 + 2 ^ 62 - 1)%Z := master_node "h" 1]}.
Definition primary2 : demo_master := set_index_servers primary1 {[35%Z := index_node "" 0]}.

Definition finished : LocalVsfsCluster (gmap string string) (gmap Z string) (gmap Z NodeInfo) :=
  {| lc_phase := Started; lc_primary := primary2;
     lc_masters := [master_node "h" 0; master_node "h" 1]; lc_joining_masters := [];
     lc_indices := [index_node "" 0]; lc_joining_indices := [] |}.

Lemma demo_start : rtc (lc_step "h" "" 2 1) (started_primary "h" primary0) finished.
Proof.
  eapply rtc_l; [apply launch_master; [done|simpl; lia]|]. simpl.
  eapply rtc_l; [apply masters_launched; [done|simpl; lia]|].
  eapply rtc_l.
  { apply (master_joins _ _ _ _ _ [] (master_node "h" 1) [] 1 2 primary1); [done|].
    vm_compute. reflexivity. }
  eapply rtc_l; [apply masters_ready; [done|vm_compute; reflexivity]|].
  eapply rtc_l; [apply launch_index; [done|simpl; lia]|]. simpl.
  eapply rtc_l; [apply indices_launched; [done|simpl; lia]|].
  eapply rtc_l.
  { apply (index_joins _ _ _ _ _ [] (index_node "" 0) [] 5 7 [] primary2); [done|].
    vm_compute. reflexivity. }
  eapply rtc_l; [apply indices_ready; [done|vm_compute; reflexivity]|].
  apply rtc_refl.
Qed.

Lemma cluster_starts_complete_witness :
  ∃ sm' smi', master_server_manager_ primary2 = Some sm' ∧ index_server_manager_ primary2 = Some smi' ∧
    ring_nodes sm' ≡ₚ [master_node "h" 0; master_node "h" 1] ∧ ring_nodes smi' ≡ₚ [index_node "" 0].
Proof.
  destruct (cluster_starts_complete "h" "" 2 1 primary0 {[408%Z := master_node "h" 0]} ∅ 408 finished)
    as (sm'&smi'&H1&H2&_&_&H3&H4); [|lia|done|done|done|done|done|apply demo_start|done|].
  - intros r k v s r' Hi. injection Hi as <- <-. by right.
  - exists sm', smi'. split_and!; [exact H1|exact H2|exact H3|exact H4].
Defined.
End witnesses.
