(* ===== verification/LocalMasterd.v ===== *)
(** * A cluster of master servers in one process (masterd/testing/local_masterd_cluster.cpp)

    [LocalMasterdCluster::start] launches the primary and the other masters,
    and returns when every other master has answered a heartbeat in one turn of
    its loop and the primary knows all of them. *)

From S2P Require Import Prelude CxxString Platform PathUtil ThriftUtils LogManager RangeIndex.
From S2P Require Import RangeIndexWrapper IndexManager KVStore PartitionManager IndexNamespace Namespace.
From S2P Require Import MasterController ServerMap Client LocalCluster.

(** ** The cluster *)

Section cluster.
Context {S P R : Type} `{!KeyValueStore S, !ConsistentHashMap P string, !ConsistentHashMap R NodeInfo}.
Context `{!VoblaStatus, !MD5, !BoostFilesystem}.
Context `{!ThriftCodec FileMetadata, !ThriftCodec IndexNamespaceNode, !ThriftCodec IndexConsistentHashRing}.

(** The launched masters, those that have not joined, and the places of those
    that serve. *)
Record LocalMasterdCluster := {
  lm_phase : phase;
  lm_primary : MasterController S P R;
  lm_cluster : list NodeInfo;
  lm_joining : list NodeInfo;
  lm_serving : gset nat;
}.

Context (host_name : string) (num_masterds : nat).

Definition lm_started (primary : MasterController S P R) : LocalMasterdCluster :=
  {| lm_phase := LaunchMasters; lm_primary := primary; lm_cluster := [master_node host_name 0];
     lm_joining := []; lm_serving := {[0]} |}.

(** One turn of the last loop: [num_ready_rpc] counts the answers up to the first
    master that does not serve. *)
Definition num_ready_rpc (serving : gset nat) : nat :=
  length (take_while (λ i, bool_decide (i ∈ serving)) (seq 1 (num_masterds - 1))).
Definition all_ready (st : LocalMasterdCluster) : bool :=
  bool_decide (num_masterds - 1 ≤ num_ready_rpc (lm_serving st)) &&
  bool_decide (ring_size (get_all_masters (lm_primary st)) = Some num_masterds).

Definition lm_with (p : phase) (primary : MasterController S P R) (joining : list NodeInfo) (serving : gset nat)
    (st : LocalMasterdCluster) : LocalMasterdCluster :=
  {| lm_phase := p; lm_primary := primary; lm_cluster := lm_cluster st; lm_joining := joining;
     lm_serving := serving |}.

Inductive lm_step : relation LocalMasterdCluster :=
  | lm_launch st :
      lm_phase st = LaunchMasters → length (lm_cluster st) < num_masterds →
      let node := master_node host_name (length (lm_cluster st)) in
      lm_step st
        {| lm_phase := LaunchMasters; lm_primary := lm_primary st; lm_cluster := lm_cluster st ++ [node];
           lm_joining := lm_joining st ++ [node]; lm_serving := lm_serving st |}
  | lm_launched st :
      lm_phase st = LaunchMasters → num_masterds ≤ length (lm_cluster st) →
      lm_step st (lm_with WaitMasters (lm_primary st) (lm_joining st) (lm_serving st) st)
  | lm_ready st :
      lm_phase st = WaitMasters → all_ready st = true →
      lm_step st (lm_with Started (lm_primary st) (lm_joining st) (lm_serving st) st)
  | lm_serves st i :
      i < length (lm_cluster st) →
      lm_step st (lm_with (lm_phase st) (lm_primary st) (lm_joining st) ({[i]} ∪ lm_serving st) st)
  | lm_joins st l1 node l2 r1 r2 primary :
      lm_joining st = l1 ++ node :: l2 →
      rpc_join_master_server (lm_primary st) node r1 r2 = Done (Return (), primary) →
      lm_step st (lm_with (lm_phase st) primary (l1 ++ l2) (lm_serving st) st).

(** [stop]: the masters, the primary last, then their threads. *)
Definition lm_stop (st : LocalMasterdCluster) : list stop_event :=
  (StopMaster <$> reverse (seq 0 (length (lm_cluster st)))) ++
  (JoinMasterThread <$> seq 0 (length (lm_cluster st))).

(** [host(idx)] and [port(idx)]. *)
Definition lm_host (idx : nat) (st : LocalMasterdCluster) : run string :=
  match lm_cluster st !! idx with
  | Some node => Done (host (address node))
  | None => Fatal "CHECK_LT(idx, cluster_.size())"
  end.
Definition lm_port (idx : nat) (st : LocalMasterdCluster) : run Z :=
  match lm_cluster st !! idx with
  | Some node => Done (port (address node))
  | None => Fatal "CHECK_LT(idx, cluster_.size())"
  end.
Definition cluster_size (st : LocalMasterdCluster) : nat := length (lm_cluster st).
End cluster.
Arguments LocalMasterdCluster S P R : clear implicits.

(** ** The invariant of a run *)

Section lemmas.
Context {S P R : Type} `{!KeyValueStore S, !ConsistentHashMap P string, !ConsistentHashMap R NodeInfo}.
Context `{!ConsistentHashMapSpec R NodeInfo, !VoblaStatus, !MD5, !BoostFilesystem}.
Context `{!ThriftCodec FileMetadata, !ThriftCodec IndexNamespaceNode, !ThriftCodec IndexConsistentHashRing}.
Context (Hins : ∀ (r : R) k (v : NodeInfo) s r', ch_insert r k v = (s, r') →
  ch_view r' = ch_view r ∨ ch_view r' = <[k:=v]> (ch_view r)).
Context (host_name : string) (num_masterds : nat).

Abbreviation cluster := (LocalMasterdCluster S P R).

(** A turn in which everybody answers. *)
Lemma num_ready_rpc_all serving :
  num_masterds - 1 ≤ num_ready_rpc num_masterds serving → ∀ i, 1 ≤ i < num_masterds → i ∈ serving.
Proof.
  unfold num_ready_rpc. intros Hn i Hi.
  assert (i ∈ seq 1 (num_masterds - 1)) as Hin by (apply elem_of_seq; lia).
  revert Hn Hin. rewrite <-(length_seq (num_masterds - 1) 1) at 1. generalize (seq 1 (num_masterds - 1)).
  induction l as [|x l IH]; simpl; [by intros _ ?%elem_of_nil|].
  case_bool_decide; simpl; [|lia]. intros Hle [->|Hin]%elem_of_cons; [done|]. apply IH; [lia|done].
Qed.

Record lm_inv (st : cluster) : Prop := {
  lmi_primary : mc_is_primary (lm_primary st) = true;
  lmi_ring : ∃ sm, master_server_manager_ (lm_primary st) = Some sm ∧
    ring_inv sm (lm_joining st) (lm_cluster st) ∧
    (lm_phase st = Started → complete sm (lm_joining st) (lm_cluster st));
  lmi_nodes : lm_cluster st = master_node host_name <$> seq 0 (length (lm_cluster st));
  lmi_size : length (lm_cluster st) ≤ num_masterds;
  lmi_all : lm_phase st ≠ LaunchMasters → num_masterds ≤ length (lm_cluster st);
  lmi_serving : lm_phase st = Started → ∀ i, 1 ≤ i < num_masterds → i ∈ lm_serving st;
}.

Lemma lm_inv_step st st' : lm_step host_name num_masterds st st' → lm_inv st → lm_inv st'.
Proof.
  intros Hstep [Hprim (sm&Hsm&Hring&Hdone) Hn Hle Hall Hserv].
  destruct Hstep as [st Hph Hlt node|st Hph Hge|st Hph Hready|st i Hi|st l1 node l2 r1 r2 mc' Hj Hcall].
  - rewrite Hph in *. split; simpl; try done.
    + exists sm. split_and!; [done|by apply ring_inv_launch|done].
    + by apply seq_nodes.
    + rewrite length_app. simpl. lia.
  - split; simpl; try done. exists sm. by split_and!.
  - unfold all_ready in Hready. apply andb_true_iff in Hready as [Hrpc Hsize].
    rewrite bool_decide_eq_true in Hrpc, Hsize.
    rewrite (masters_ring_size _ sm) in Hsize by done. injection Hsize as Hsize. rewrite Hph in *.
    split; simpl; try done; [|naive_solver|by intros _; apply num_ready_rpc_all].
    exists sm. split_and!; [done..|]. intros _. apply (ring_inv_full sm); [done|]. lia.
  - split; simpl; try done; [by exists sm|]. intros Hs j Hj. specialize (Hserv Hs j Hj). set_solver.
  - destruct (join_master_add _ _ _ _ _ _ Hprim Hsm Hcall) as (s&sm'&Hadd&->).
    rewrite Hj in Hring, Hdone. split; simpl; try done.
    exists sm'. split_and!; [done|by eapply ring_inv_join|]. intros Hd.
    destruct (Hdone Hd) as [Hnil _]. by destruct l1.
Qed.

(** When [start] has returned every master serves and has joined. *)
Theorem masterd_cluster_ready (primary : MasterController S P R) sm pos st :
  1 ≤ num_masterds → mc_is_primary primary = true →
  master_server_manager_ primary = Some sm → ch_view sm = {[pos := master_node host_name 0]} →
  rtc (lm_step host_name num_masterds) (lm_started host_name primary) st → lm_phase st = Started →
  ∃ sm', master_server_manager_ (lm_primary st) = Some sm' ∧ lm_joining st = [] ∧
    ring_nodes sm' ≡ₚ master_node host_name <$> seq 0 num_masterds ∧
    ∀ i, 1 ≤ i < num_masterds → i ∈ lm_serving st.
Proof.
  intros Hn Hp Hsm Hv Hrun Hst.
  assert (lm_inv st) as [_ (sm'&Hsm'&_&Hd) Hnodes Hle Hall Hserv].
  { apply (rtc_invariant (lm_step host_name num_masterds) lm_inv (lm_started host_name primary) st);
      [intros a b Ha Hab; by eapply lm_inv_step| |done].
    split; simpl; try done. exists sm. split_and!; [done| |done].
    unfold ring_inv, ring_nodes. by rewrite Hv, map_to_list_singleton. }
  rewrite Hst in *. destruct (Hd eq_refl) as [Hj Hr]. exists sm'. split_and!; try done; [|by apply Hserv].
  rewrite Hr, Hnodes. replace (length (lm_cluster st)) with num_masterds; [done|].
  apply Nat.le_antisymm; [by apply Hall|done].
Qed.
End lemmas.
