(* ===== verification/ClusterIndex.v ===== *)
(** * Updates and searches through a cluster

    The index calls of [IndexRpc] served by the handlers of the masters and the
    index servers, and the theorem that follows an update and a search of a
    client through all components: the client's pipeline, the rings, the RPC
    layer, the namespaces of the master, the update log and the index. *)

From S2P Require Import Prelude CxxString Platform PathUtil ThriftUtils IndexImpl LogManager KVStore.
From S2P Require Import RangeIndex IndexInfo RangeIndexWrapper IndexManager.
From S2P Require Import PartitionManager IndexNamespace Namespace MasterController ServerMap.
From S2P Require Import ComplexQuery Client ClientIndex Cluster.

Section cluster.
Context {S P R I : Type} `{!KeyValueStore S, !ConsistentHashMap P string, !ConsistentHashMap R NodeInfo}.
Context `{!RangeIndexInterface I, !VoblaStatus, !MD5, !BoostFilesystem}.
Context `{!ThriftCodec FileMetadata, !ThriftCodec IndexNamespaceNode, !ThriftCodec IndexConsistentHashRing}.
(** What the memory of a new index holds in its uninitialised field. *)
Context (junk : Z).

Definition call_index {A} (w : Cluster S P R I) (addr : RpcNodeAddress)
    (handler : IndexManager I → run (rpc A * IndexManager I)) : outcome A * Cluster S P R I :=
  match index_nodes w !! addr with
  | None => (Transport NOT_OPEN "Could not connect", w)
  | Some im =>
      match handler im with
      | Done (r, im') => (outcome_of r, set_index w addr (Some im'))
      | Fatal _ => (Transport END_OF_FILE "No more data to read.", set_index w addr None)
      end
  end.

(** Index servers run with [--noupdate_immediately], the default: updates are
    logged in order. *)
#[export] Instance cluster_index_rpc : IndexRpc (Cluster S P R I) := {
  m_find_objects w a files := ask_master w a (λ mc, Done (rpc_find_objects mc files));
  m_create_index w a request :=
    call_master w a (λ mc, MasterController.rpc_create_index mc request (now w));
  m_locate_indices w a request := ask_master w a (λ mc, Done (rpc_locate_indices mc request));
  i_create_index w a request := call_index w a (λ im, Done (IndexManager.rpc_create_index junk request im));
  i_remove_index w a root name := call_index w a (λ im, Done (IndexManager.rpc_remove_index root name im));
  i_update w a updates := call_index w a (rpc_update false updates []);
  i_info w a request :=
    call_index w a (λ im,
      '(r, im) ← rpc_info request im;
      Done (match r with Return info => Return (default no_index_info info) | Throw e => Throw e end, im));
}.
End cluster.

(** ** Lemmas *)

Section lemmas.
Context {S P R I : Type} `{!KeyValueStore S, !ConsistentHashMap P string, !ConsistentHashMap R NodeInfo}.
Context `{!RangeIndexInterface I, !RangeIndexInterfaceSpec I, !VoblaStatus, !VoblaStatusSpec, !MD5}.
Context `{!BoostFilesystem, !BoostFilesystemSpec, !ConsistentHashMapSpec R NodeInfo}.
Context `{!ThriftCodec FileMetadata, !ThriftCodec IndexNamespaceNode, !ThriftCodec IndexConsistentHashRing}.
Context (junk : Z).
#[local] Instance index_rpc : IndexRpc (Cluster S P R I) := cluster_index_rpc junk.

Abbreviation world := (Cluster S P R I).
Abbreviation master := (MasterController S P R).

(** A cluster of one master and one index server, as a client sees it. *)
Record one_of_each (c : VSFSRpcClient R) (w : world) (nm ni : NodeInfo) (mc : master)
    (im : IndexManager I) : Prop := {
  oe_masters : ∃ pos, ch_view (master_map_ c) = {[pos := nm]};
  oe_indices : ∃ pos, ch_view (index_server_map_ c) = {[pos := ni]};
  oe_nm : plain_address (address nm);
  oe_ni : plain_address (address ni);
  oe_mc : master_nodes w !! address nm = Some mc;
  oe_im : index_nodes w !! address ni = Some im;
}.

Section one.
Context (c : VSFSRpcClient R) (nm ni : NodeInfo) (mc : master).

Lemma get_master w im h : one_of_each c w nm ni mc im → get (master_map_ c) h = (OK, Some nm).
Proof. intros [[pos Hm] _ _ _ _ _]. by rewrite get_spec, Hm, ring_owner_singleton. Qed.
Lemma get_index w im h : one_of_each c w nm ni mc im → get (index_server_map_ c) h = (OK, Some ni).
Proof. intros [_ [pos Hm] _ _ _ _]. by rewrite get_spec, Hm, ring_owner_singleton. Qed.

(** What [getattr] of the client answers. *)
Definition attrs_of (path : string) : Status * option RpcFileInfo :=
  match metadata_map_ (namespace_ mc) !! path with
  | None => (Err (system_error_code ENOENT) (strerror ENOENT), None)
  | Some m => (OK, (Namespace.getattr (namespace_ mc) path).2)
  end.

Lemma client_getattr w im path :
  one_of_each c w nm ni mc im →
  Client.getattr c path w = Done ((attrs_of path).1, (attrs_of path).2, w).
Proof.
  intros Ho. unfold Client.getattr, at_master, check_get, get_path.
  rewrite (get_master w im) by done. simpl.
  erewrite ask_master_reply by (apply Ho || reflexivity).
  unfold rpc_getattr, MasterController.getattr, attrs_of, Namespace.getattr.
  by destruct (metadata_map_ (namespace_ mc) !! path).
Qed.

Lemma attrs_known path :
  ok (attrs_of path).1 = true ∨ error_of (attrs_of path).1 = (- ENOENT)%Z.
Proof.
  unfold attrs_of. destruct (metadata_map_ (namespace_ mc) !! path); [by left|].
  right. simpl. apply system_error_code_spec.
Qed.

(** The id a master gives for a file. *)
Definition id_of_file (path : string) : Z :=
  match metadata_map_ (namespace_ mc) !! path with None => 0 | Some m => md_object_id m end.

Lemma master_answers_ids w im : one_of_each c w nm ni mc im → answers_ids c w (λ _, id_of_file).
Proof.
  intros Ho pos node Hn. pose proof Ho as [[pos' Hm] _ ? ? Hmc _]. rewrite Hm in Hn.
  apply lookup_singleton_Some in Hn as [_ <-]. split; [done|]. intros files. simpl.
  by erewrite ask_master_reply by (apply Ho || reflexivity).
Qed.

(** *** One update task *)

Context (root name : string).

Definition index_part : string := index_path root name +:+ "/0".

(** The nearest index [name] above the file of a request is the one of [root]. *)
Definition under_index (fuel : nat) (r : IndexUpdateRequest) : Prop :=
  req_index_name r = name ∧
  ∃ names k, parent_of r = path_of names ∧ Forall plain_name names ∧ length names < fuel ∧
    k ≤ length names ∧ path_of (drop k names) = root ∧ holds_index attrs_of name root ∧
    ∀ j, j < k → ¬ holds_index attrs_of name (path_of (drop j names)).

Lemma find_index_under w im fuel r :
  one_of_each c w nm ni mc im → under_index fuel r →
  find_index fuel c (parent_of r) name w = ends (OK, Some (index_path root name), w).
Proof.
  intros Ho [_ (names&k&->&Hall&Hlen&Hk&Hroot&Hh&Hmin)].
  rewrite (find_index_up c w attrs_of (λ path, client_getattr w im path Ho) attrs_known) by done.
  rewrite (proj2 (list_find_Some (holds_index attrs_of name) _ k root)); [done|]. split_and!.
  - rewrite list_lookup_fmap, lookup_seq_lt by lia. simpl. by rewrite Hroot.
  - done.
  - intros j dir Hj Hjk. rewrite list_lookup_fmap, lookup_seq_lt in Hj by lia.
    injection Hj as <-. by apply Hmin.
Qed.

(** The records of a batch. *)
Definition records (requests : list IndexUpdateRequest) : list RpcIndexRecordUpdateOp :=
  (λ r, {| op := opcode_of (req_op r); IndexImpl.key := req_key r;
           IndexImpl.value := to_string (id_of_file (req_file_path r)) |}) <$> requests.
Definition record_list (requests : list IndexUpdateRequest) : RpcIndexRecordUpdateList :=
  {| root_path := index_part; list_name := ""; record_updates := records requests |}.

(** The wrapper after it logged the batch. *)
Definition logged (requests : list IndexUpdateRequest) (wr : RangeIndexWrapper I) : RangeIndexWrapper I :=
  mkWrapper (base_path_ wr) (index_ wr) (append 0 (record_list requests) (log_manager_ wr)).2
    (status_ wr) true (last_merged_log_id_ wr).

Lemma map_index_at w im fuel requests :
  one_of_each c w nm ni mc im → (∀ r, r ∈ requests → under_index fuel r) →
  ∃ index_map, get_parent_path_to_index_path_map fuel c requests w = ends (OK, index_map, w) ∧
    ∀ r, r ∈ requests → index_at index_map r = Done (index_path root name).
Proof.
  intros Ho Hunder.
  destruct (find_indices_all fuel c (wanted_indices requests) ∅ w (λ _ _, index_path root name))
    as (index_map&Hmap&Hfound).
  { intros parent n (r&Hr&<-&<-)%elem_of_wanted_indices.
    pose proof (Hunder r Hr) as [Hname _]. rewrite Hname. by eapply find_index_under, Hunder. }
  exists index_map. split; [done|]. intros r Hr. unfold index_at.
  specialize (Hfound (parent_of r) (req_index_name r)).
  destruct (index_map !! parent_of r) as [names|] eqn:Hp; simpl in Hfound.
  - rewrite Hfound; [done|]. left. apply elem_of_wanted_indices. eauto.
  - exfalso. rewrite lookup_empty in Hfound. assert (None = Some (index_path root name)); [|done].
    apply Hfound. left. apply elem_of_wanted_indices. eauto.
Qed.

Lemma update_of_batch requests objects :
  (∀ i r, requests !! i = Some r → objects !! i = Some (id_of_file (req_file_path r))) →
  u_updates (update_of requests objects {[index_part := seq 0 (length requests)]})
  = [record_list requests].
Proof.
  intros Hobj. unfold update_of. simpl. rewrite sorted_map_singleton. simpl. f_equal.
  unfold record_list. f_equal. unfold records. apply list_eq. intros i.
  rewrite !list_lookup_fmap. destruct (requests !! i) as [r|] eqn:Hr; simpl.
  - rewrite lookup_seq_lt by (by apply lookup_lt_Some in Hr). simpl.
    unfold record_of_request. rewrite Hr. simpl. by rewrite (Hobj i r Hr).
  - apply lookup_ge_None in Hr. by rewrite lookup_seq_ge.
Qed.

Lemma run_task_logs w im fuel requests info wr :
  one_of_each c w nm ni mc im → requests ≠ [] → (∀ r, r ∈ requests → under_index fuel r) →
  index_info_map_ im !! index_part = Some info → index_type_ info = BTREE →
  range_index_map_ im !! index_part = Some wr →
  run_task fuel c requests w
  = ends (OK, set_index w (address ni) (Some (set_wrapper index_part (logged requests wr) im))).
Proof.
  intros Ho Hne Hunder Hinfo Hbtree Hwr. unfold run_task.
  destruct (map_index_at w im fuel requests Ho Hunder) as (index_map&->&Hat). simpl.
  unfold reorder_requests_to_index_servers, lift.
  rewrite (reorder_from_same c index_map 0 requests ∅ (address_to_string (address ni)) index_part);
    [|done|].
  2:{ intros r Hr. unfold route. rewrite (Hat r Hr). simpl.
      unfold check_get. by rewrite (get_index w im). }
  rewrite lookup_empty. unfold positions_at. rewrite lookup_empty. simpl.
  destruct (find_objects_spec c w (λ _, id_of_file) (req_file_path <$> requests))
    as (objects&->&Hobj).
  { destruct Ho as [[pos ->] _ _ _ _ _]. apply insert_non_empty. }
  { by eapply master_answers_ids. }
  simpl. rewrite lookup_empty. simpl. rewrite !insert_empty, sorted_map_singleton. simpl.
  rewrite string_to_address_to_string by by eapply oe_ni. simpl.
  unfold call_index. rewrite (oe_im _ _ _ _ _ _ Ho). unfold rpc_update, update_all.
  rewrite update_of_batch.
  2:{ intros i r Hr. destruct (Hobj i (req_file_path r)) as (node&_&->); [|done].
      by rewrite list_lookup_fmap, Hr. }
  simpl. unfold update_single_index, get_index_info. simpl. rewrite Hinfo, Hbtree. simpl.
  unfold get_wrapper. rewrite Hwr. simpl. done.
Qed.

Lemma one_of_each_set w im im' :
  one_of_each c w nm ni mc im →
  one_of_each c (set_index w (address ni) (Some im')) nm ni mc im'.
Proof.
  intros [? ? ? ? ? ?]. split; try done. simpl. apply lookup_partial_alter_eq.
Qed.

(** *** One search *)

Context (Hroot : index_root root) (Hname : plain_name name).

Lemma index_path_plain : ∃ d, index_path root name = d +:+ "/" +:+ name ∧ plain_dir d.
Proof.
  unfold index_path. destruct Hroot as [->|[Hr _]].
  - exists "/.vsfs". rewrite (fs_append_slash "/" ".vsfs") by (done || apply plain_name_vsfs).
    split; [|by split]. apply fs_append_dir; [by split|done].
  - exists (root +:+ "/" +:+ ".vsfs"). rewrite (fs_append_dir root ".vsfs") by (done || apply plain_name_vsfs).
    assert (plain_dir (root +:+ "/" +:+ ".vsfs")) as Hp by (by apply plain_dir_app, plain_name_vsfs).
    split; [by apply fs_append_dir|done].
Qed.

Lemma part_names :
  fs_parent_path index_part = index_path root name ∧ fs_filename (index_path root name) = name.
Proof.
  destruct index_path_plain as (d&Hp&Hd). split.
  - unfold index_part. apply (fs_parent_path_dir (index_path root name) "0"); [|by split].
    rewrite Hp. by apply plain_dir_app.
  - rewrite Hp. by apply fs_filename_dir.
Qed.

Definition part_query (range : StringRange) : RpcRangeQuery :=
  {| q_index_path := index_part; q_name := name;
     q_lower := lower range; q_lower_open := negb (lower_closed range);
     q_upper := upper range; q_upper_open := negb (upper_closed range) |}.

(** The paths of a list of objects. *)
Definition paths_of (objects : list Z) : list string :=
  (λ o, default "" (id_to_path_map_ (namespace_ mc) !! o)) <$> objects.

Lemma plan_objects_one w im objects plan :
  one_of_each c w nm ni mc im → objects ≠ [] →
  plan_objects c objects plan =
  Done (<[address_to_string (address nm) :=
            default [] (plan !! address_to_string (address nm)) ++ objects]> plan).
Proof.
  intros Ho. revert plan. induction objects as [|o objects IH]; intros plan Hne; [done|]. simpl.
  unfold check_get. rewrite (get_master w im) by done. simpl.
  destruct (decide (objects = [])) as [->|Hne']; [done|].
  rewrite IH by done. rewrite lookup_insert_eq, insert_insert_eq. simpl. by rewrite <-app_assoc.
Qed.

Lemma resolve_one w im objects :
  one_of_each c w nm ni mc im →
  get_file_paths_from_objects c objects w = Done (OK, paths_of objects, w).
Proof.
  intros Ho. unfold get_file_paths_from_objects.
  destruct (decide (objects = [])) as [->|Hne]; [done|].
  rewrite (plan_objects_one w im) by done. simpl. rewrite lookup_empty. simpl.
  rewrite insert_empty, sorted_map_singleton. simpl.
  rewrite string_to_address_to_string by by eapply oe_nm. simpl.
  by erewrite ask_master_reply by (apply Ho || reflexivity).
Qed.

Lemma locate_one w im q range :
  one_of_each c w nm ni mc im → range_query_map_ q = {[name := range]} →
  IndexNamespace.collect (index_namespace_ mc) (root_ q) name = [root] →
  locate_index_for_search c q w = (OK, [index_path root name], w).
Proof.
  intros Ho Hq Hcol. unfold locate_index_for_search, get_names_of_range_queries.
  rewrite Hq, map_to_list_singleton, get_ch_ring_as_map_spec.
  pose proof Ho as [[pos ->] _ _ _ _ _]. rewrite sorted_map_singleton. simpl.
  erewrite ask_master_reply by (apply Ho || reflexivity).
  unfold rpc_locate_indices_for_search, locate_indices_for_names. simpl. by rewrite Hcol.
Qed.

Lemma search_one w im q range info wr wr' objects :
  one_of_each c w nm ni mc im → range_query_map_ q = {[name := range]} →
  IndexNamespace.collect (index_namespace_ mc) (root_ q) name = [root] →
  index_info_map_ im !! index_part = Some info → index_type_ info = BTREE →
  range_index_map_ im !! index_part = Some wr →
  RangeIndexWrapper.search 0 (part_query range) wr = Done (OK, objects, wr') →
  Client.search c q w
  = Done (OK, paths_of objects, set_index w (address ni) (Some (set_wrapper index_part wr' im))).
Proof.
  intros Ho Hq Hcol Hinfo Hbtree Hwr Hs. unfold Client.search, gen_search_plan.
  rewrite (locate_one w im q range) by done. simpl. unfold check_get.
  rewrite (get_index w im) by done. simpl. rewrite lookup_empty. simpl.
  rewrite insert_empty, sorted_map_singleton. simpl.
  rewrite string_to_address_to_string by by eapply oe_ni. simpl.
  rewrite (right_id_L ∅ (∪)), sorted_elements_singleton. fold index_part. simpl. unfold sub_query.
  destruct part_names as [-> ->]. unfold range_query. rewrite Hq, lookup_singleton_eq. simpl.
  rewrite (oe_im _ _ _ _ _ _ Ho). unfold rpc_search, search_all. simpl.
  unfold get_index_info. rewrite Hinfo, Hbtree. simpl. unfold get_wrapper. rewrite Hwr. simpl.
  fold (part_query range). rewrite Hs. simpl.
  by rewrite (resolve_one _ (set_wrapper index_part wr' im)) by by eapply one_of_each_set.
Qed.
End one.
End lemmas.

(** ** Properties *)

Section properties.
Context {S P R I : Type} `{!KeyValueStore S, !ConsistentHashMap P string, !ConsistentHashMap R NodeInfo}.
Context `{!RangeIndexInterface I, !RangeIndexInterfaceSpec I, !VoblaStatus, !VoblaStatusSpec, !MD5}.
Context `{!BoostFilesystem, !BoostFilesystemSpec, !ConsistentHashMapSpec R NodeInfo}.
Context `{!ThriftCodec FileMetadata, !ThriftCodec IndexNamespaceNode, !ThriftCodec IndexConsistentHashRing}.
Context `{!ThriftCodec RpcIndexRecordUpdateList, !ThriftCodec (list LogEntity)}.

(** What a client updates, a client finds.  In a cluster of one master and
    one index server, let an index [name] of the directory [root] be in any
    state its wrapper reaches while clients update and search it (transaction
    ids are 0).  A batch of requests on files whose nearest index is that one
    is acknowledged, and a search for a range of [name] from a directory above
    [root] then returns the paths of exactly the objects that the range selects
    in the index to which all the acknowledged updates, the new ones included,
    were applied once and in order. *)
Theorem updated_files_are_found (junk : Z) (c : VSFSRpcClient R) (w : Cluster S P R I) nm ni
    (mc : MasterController S P R) im root name requests fuel batch_size second_get info wr
    flush_size i0 path junk' dty h n q range i :
  one_of_each c w nm ni mc im → index_root root → plain_name name →
  requests ≠ [] → length requests ≤ batch_size →
  (∀ r, r ∈ requests → under_index mc root name fuel r) →
  index_info_map_ im !! index_part root name = Some info → index_type_ info = BTREE →
  range_index_map_ im !! index_part root name = Some wr → status_ wr = NORMAL →
  ri_wf i0 → rtc (wrapper_step flush_size) (new_wrapper junk' path i0 dty, [], 0) (wr, h, n) →
  (last_merged_log_id_ wr ≤ 0)%Z → (∀ r, r ∈ h → (txn_id r ≤ 0)%Z) →
  ri_apply (ups_of h ++ records mc requests) i0 = Done (OK, i) →
  range_query_map_ q = {[name := range]} →
  IndexNamespace.collect (index_namespace_ mc) (root_ q) name = [root] →
  ∃ w1 w2,
    ClientIndex.update (index_rpc := cluster_index_rpc junk) second_get batch_size [0] fuel c requests w
    = ends (OK, w1) ∧
    Client.search c q w1
    = Done (OK, paths_of mc (ri_search (part_query root name range) i).2, w2).
Proof.
  intros Ho Hroot Hname Hne Hlen Hunder Hinfo Hbtree Hwr Hst Hwf Hrun Hmerged Hids Ha Hq Hcol.
  set (wr1 := logged mc root name requests wr). set (rec := mkLogRecord 0 (record_list mc root name requests)).
  set (w1 := set_index w (address ni) (Some (set_wrapper (index_part root name) wr1 im))).
  assert (wrapper_inv i0 wr1 (h ++ [rec]) n) as Hinv.
  { apply (wrapper_inv_update i0 wr h n 0 (record_list mc root name requests)); [done| |done].
    by eapply wrapper_inv_reachable. }
  assert (up_to 0 (h ++ [rec]) = h ++ [rec]) as Hup.
  { apply up_to_all. intros r [Hr| ->%list_elem_of_singleton]%elem_of_app; [by apply Hids|done]. }
  assert (∃ wr2, RangeIndexWrapper.search 0 (part_query root name range) wr1
                 = Done (OK, (ri_search (part_query root name range) i).2, wr2)) as [wr2 Hs].
  { exists (mkWrapper (base_path_ wr1) i (log_manager_ wr1) (status_ wr1) true 0).
    apply search_OK. split; [|done]. apply merge_OK. split; [done|]. exists i. split; [|done].
    apply (merge_replays i0 wr1 (h ++ [rec]) n 0 i Hwf Hinv); [done|].
    rewrite Hup, ups_of_app. simpl. by rewrite app_nil_r. }
  exists w1, (set_index w1 (address ni)
    (Some (set_wrapper (index_part root name) wr2 (set_wrapper (index_part root name) wr1 im)))).
  split.
  - unfold ClientIndex.update. rewrite batches_one by (simpl; lia). simpl.
    by erewrite (run_task_logs junk c nm ni mc root name w im fuel requests info wr) by done.
  - eapply (search_one c nm ni mc root name); try done.
    + by eapply one_of_each_set.
    + simpl. apply lookup_insert_eq.
Qed.
End properties.

(** ** Witnesses: an index on the root directory of a small cluster *)

Section witnesses.
Import Reference.
#[local] Existing Instances TestLevelDBStore.test_store TestLevelDBStore.test_store_spec.
#[local] Existing Instances RangeIndexWrapper.updates_codec RangeIndexWrapper.buffer_codec.
#[local] Existing Instances RangeIndexWrapper.types RangeIndexWrapper.casts.
#[local] Existing Instances Cluster.metadata_codec Cluster.node_codec Cluster.ring_codec.
Abbreviation demo_master :=
  (MasterController (gmap string string) (gmap Z string) (gmap Z NodeInfo)).
Abbreviation demo_world :=
  (Cluster (gmap string string) (gmap Z string) (gmap Z NodeInfo) RangeIndexObject).
#[local] Instance demo_index_rpc : IndexRpc demo_world := cluster_index_rpc 0.

(** The master knows the file [/d/f] and the index [x] of the root. *)
Definition get_or {A} (a : A) (r : run A) : A := match r with Done a' => a' | Fatal _ => a end.
Definition ns1 : Namespace (gmap string string) :=
  (get_or (OK, rooted) (Namespace.mkdir rooted "/.vsfs/x" (Z.lor 493 S_IFDIR) 0 0 noon)).2.
Definition ns2 : Namespace (gmap string string) :=
  (get_or (OK, 0%Z, ns1) (Namespace.create ns1 "/d/f" 420 0 0 noon)).2.
Definition registry : IndexNamespace (gmap string string) :=
  (get_or (OK, IndexNamespace.new ∅) (IndexNamespace.insert (IndexNamespace.new ∅) "/" "x")).2.
Definition master_x : demo_master :=
  {| mc_is_primary := true; namespace_ := ns2; index_namespace_ := registry;
     index_partition_manager_ := PartitionManager.new ∅;
     master_server_manager_ := Some {[0%Z := node_of addr_a]};
     index_server_manager_ := Some {[0%Z := node_of addr_a]} |}.
Definition manager_x : IndexManager RangeIndexObject :=
  (IndexManager.create 0 "/.vsfs/x/0" "x" BTREE 1 (mkIndexManager "/data" ∅ ∅)).2.
Definition path_x : string :=
  get_index_file_base_path (mkIndexManager "/data" ∅ ∅ : IndexManager RangeIndexObject) "/.vsfs/x/0".
Definition world_x : demo_world :=
  {| master_nodes := {[addr_a := master_x]}; index_nodes := {[addr_a := manager_x]}; now := noon |}.

Definition request_f : IndexUpdateRequest :=
  {| req_op := 1; req_file_path := "/d/f"; req_index_name := "x"; req_key := "3" |}.
Definition query_x : ComplexQuery :=
  {| root_ := "/"; range_query_map_ := {["x" := {| lower := "1"; lower_closed := true;
                                                   upper := "5"; upper_closed := false |}]} |}.

Lemma world_x_one : one_of_each demo_client world_x (node_of addr_a) (node_of addr_a) master_x manager_x.
Proof.
  split; [by exists 0%Z|by exists 0%Z|split; [vm_compute; reflexivity|vm_compute; discriminate]..|done|done].
Qed.

Lemma world_x_holds : holds_index (attrs_of master_x) "x" "/".
Proof. vm_compute. reflexivity. Qed.

Lemma world_x_holds_not : ¬ holds_index (attrs_of master_x) "x" "/d".
Proof. vm_compute. discriminate. Qed.

Lemma update_finds_nearest_index_witness :
  ∃ k, k ≤ 1 ∧ find_index 2 demo_client "/d" "x" world_x
    = ends (OK, Some (index_path (path_of (drop k ["d"])) "x"), world_x).
Proof.
  destruct (update_finds_nearest_index demo_client world_x (attrs_of master_x) "x" ["d"] 2)
    as [(k&Hk&Hf&_)|[_ Hno]].
  - intros path. by eapply client_getattr, world_x_one.
  - apply attrs_known.
  - repeat constructor; done.
  - simpl. lia.
  - exists k. split; [exact Hk|exact Hf].
  - exfalso. apply (Hno 1); [done|apply world_x_holds].
Defined.

Lemma updated_files_are_found_witness :
  ∃ w1 w2,
    ClientIndex.update Done 2048 [0] 2 demo_client [request_f] world_x = ends (OK, w1) ∧
    Client.search demo_client query_x w1 = Done (OK, ["/d/f"], w2).
Proof.
  edestruct (updated_files_are_found 0 demo_client world_x (node_of addr_a) (node_of addr_a)
    master_x manager_x "/" "x" [request_f] 2 2048 Done (mkIndexInfo "/.vsfs/x/0" "x" BTREE 1)
    (new_wrapper 0 path_x empty_index true) 100 empty_index path_x 0 true [] 0 query_x
    {| lower := "1"; lower_closed := true; upper := "5"; upper_closed := false |}) as (w1&w2&Hu&Hs).
  - apply world_x_one.
  - by left.
  - done.
  - done.
  - simpl. lia.
  - intros r ->%list_elem_of_singleton. split; [done|]. exists ["d"], 1. split_and!.
    + done.
    + repeat constructor; done.
    + simpl. lia.
    + simpl. lia.
    + done.
    + apply world_x_holds.
    + intros j Hj. replace j with 0 by lia. apply world_x_holds_not.
  - vm_compute. reflexivity.
  - done.
  - vm_compute. reflexivity.
  - done.
  - apply index_wf_empty.
  - apply rtc_refl.
  - done.
  - by intros r Hr%elem_of_nil.
  - vm_compute. reflexivity.
  - reflexivity.
  - vm_compute. reflexivity.
  - exists w1, w2. split; [exact Hu|]. rewrite Hs. vm_compute. reflexivity.
Defined.
End witnesses.
