(* ===== verification/ClusterSearch.v ===== *)
(** * A whole cluster implements its indices

    Any number of masters and index servers.  The specification is a map from
    partitions to indices ([IndexSpec]); a run of a client's updates and
    searches on the cluster gives what the same run on the specification gives.
    The simulation goes through every component: the pipeline of the client,
    the rings, the handlers of the masters and of the index servers, the update
    logs and their lazy merges. *)

From S2P Require Import Prelude CxxString Platform PathUtil ThriftUtils IndexImpl LogManager KVStore.
From S2P Require Import RangeIndex IndexInfo RangeIndexWrapper IndexManager IndexSpec.
From S2P Require Import PartitionManager IndexNamespace Namespace MasterController ServerMap.
From S2P Require Import ComplexQuery Client ClientIndex Cluster ClusterIndex.

(** ** The calls of a client on indices *)

(** The calls of a client; the tasks of an update run in the given order. *)
Inductive client_op :=
  | Update (requests : list IndexUpdateRequest) (order : list nat)
  | Search (q : ComplexQuery).

Section calls.
Context {I : Type} `{!RangeIndexInterface I, !VoblaStatus, !BoostFilesystem, !MD5}.

(** The directory of the index a request is for, by its parent and the name of
    the index; the batch size of the client. *)
Context (root_of : string → string → string) (batch_size : nat).
(** What is known of the files: attributes and id by path, path by id. *)
Context (attrs : string → Status * option RpcFileInfo) (id_of : string → Z) (path_of_id : Z → string).
(** The partitions a query goes to. *)
Context (parts_of : ComplexQuery → gset string).

(** [root] is the directory of the nearest index [name] above [parent]. *)
Definition nearest (fuel : nat) (parent name root : string) : Prop :=
  ∃ names k, parent = path_of names ∧ Forall plain_name names ∧ length names < fuel ∧
    k ≤ length names ∧ path_of (drop k names) = root ∧ holds_index attrs name root ∧
    ∀ j, j < k → ¬ holds_index attrs name (path_of (drop j names)).

Definition part_of (r : IndexUpdateRequest) : string :=
  index_part (root_of (parent_of r) (req_index_name r)) (req_index_name r).
Definition record_for (r : IndexUpdateRequest) : RpcIndexRecordUpdateOp :=
  {| op := opcode_of (req_op r); IndexImpl.key := req_key r;
     IndexImpl.value := to_string (id_of (req_file_path r)) |}.
Definition updates_of (requests : list IndexUpdateRequest) : list update_list :=
  (λ r, (part_of r, [record_for r])) <$> requests.

(** One batch after the other. *)
Definition updates_in_order (requests : list IndexUpdateRequest) (order : list nat)
    : list update_list :=
  order ≫= λ i, updates_of (default [] (batches batch_size new_task requests !! i)).

(** The query for a partition. *)
Definition no_query : RpcRangeQuery :=
  {| q_index_path := ""; q_name := ""; q_lower := ""; q_lower_open := true;
     q_upper := ""; q_upper_open := true |}.
Definition query_for (q : ComplexQuery) (part : string) : RpcRangeQuery :=
  default no_query (result_of (sub_query q part)).

(** What a call does to the indices, and the paths it finds. *)
Definition call_spec (o : client_op) (ix : gmap string I) : option (list string * gmap string I) :=
  match o with
  | Update requests order => ix' ← spec_updates (updates_in_order requests order) ix; Some ([], ix')
  | Search q =>
      Some (path_of_id <$> spec_search (query_for q <$> elements (parts_of q)) ix, ix)
  end.
End calls.

(** ** The specification of a client's run *)

Section spec.
Context {S P R I : Type} `{!KeyValueStore S, !ConsistentHashMap P string, !ConsistentHashMap R NodeInfo}.
Context `{!RangeIndexInterface I, !VoblaStatus, !MD5, !BoostFilesystem}.
Context `{!ThriftCodec FileMetadata, !ThriftCodec IndexNamespaceNode, !ThriftCodec IndexConsistentHashRing}.

Abbreviation master := (MasterController S P R).

(** The rings of the client and the masters, which updates and searches of
    indices do not change. *)
Context (c : VSFSRpcClient R) (mn : gmap RpcNodeAddress master).

(** The index server of a partition, the master of an object. *)
Definition part_addr (part : string) : RpcNodeAddress :=
  address (default no_node (get_path (index_server_map_ c) part).2).
Definition object_addr (object : Z) : RpcNodeAddress :=
  address (default no_node (get (master_map_ c) object).2).

(** What the master of a path says about it. *)
Definition path_attrs (path : string) : Status * option RpcFileInfo :=
  match mn !! owner_of c path with
  | Some mc => attrs_of mc path
  | None => (OK, None)
  end.
Definition file_id (path : string) : Z :=
  match mn !! owner_of c path with
  | Some mc => id_of_file mc path
  | None => 0
  end.
Definition object_path (object : Z) : string :=
  match mn !! object_addr object with
  | Some mc => default "" (id_to_path_map_ (namespace_ mc) !! object)
  | None => ""
  end.

(** The partitions of the indices that the masters locate for a query. *)
Definition located_indices (q : ComplexQuery) : list string :=
  sorted_map Z.le (get_ch_ring_as_map (master_map_ c)) ≫= λ p,
    match mn !! address p.2 with
    | Some mc => (locate_indices_for_names mc (root_ q) (get_names_of_range_queries q)).2
    | None => []
    end.
Definition located_parts (q : ComplexQuery) : gset string :=
  list_to_set ((λ idx, idx +:+ "/0") <$> located_indices q).

Context (root_of : string → string → string) (batch_size fuel : nat).

Definition spec_op (o : client_op) (ix : gmap string I) : option (list string * gmap string I) :=
  call_spec root_of batch_size file_id object_path located_parts o ix.

Fixpoint spec_run (ops : list client_op) (ix : gmap string I)
    : option (list (list string) * gmap string I) :=
  match ops with
  | [] => Some ([], ix)
  | o :: ops' =>
      '(out, ix1) ← spec_op o ix;
      '(outs, ix') ← spec_run ops' ix1;
      Some (out :: outs, ix')
  end.

(** The run on the cluster. *)
Context (junk : Z) (second_get : Status → run Status).

Definition run_op (o : client_op) (w : Cluster S P R I) : late (Status * list string * Cluster S P R I) :=
  match o with
  | Update requests order =>
      AWAIT (status, w') ⇐
        ClientIndex.update (index_rpc := cluster_index_rpc junk) second_get batch_size order fuel c
          requests w;;
      ends (status, [], w')
  | Search q => lift (Client.search c q w)
  end.

Fixpoint run_ops (ops : list client_op) (w : Cluster S P R I)
    : late (list (Status * list string) * Cluster S P R I) :=
  match ops with
  | [] => ends ([], w)
  | o :: ops' =>
      AWAIT (status, paths, w1) ⇐ run_op o w;;
      AWAIT (outs, w') ⇐ run_ops ops' w1;;
      ends ((status, paths) :: outs, w')
  end.

(** Calls that concern indices of the cluster, whose partitions are [parts]. *)
Definition op_ok (parts : gset string) (o : client_op) : Prop :=
  match o with
  | Update requests order =>
      order ≡ₚ seq 0 (length (batches batch_size new_task requests)) ∧
      ∀ r, r ∈ requests →
        nearest path_attrs fuel (parent_of r) (req_index_name r) (root_of (parent_of r) (req_index_name r))
  | Search q =>
      ∀ pos node mc name root, get_ch_ring_as_map (master_map_ c) !! pos = Some node →
        mn !! address node = Some mc → is_Some (range_query_map_ q !! name) →
        root ∈ IndexNamespace.collect (index_namespace_ mc) (root_ q) name →
        index_root root ∧ plain_name name ∧ index_part root name ∈ parts
  end.
End spec.

(** ** The cluster and its specification *)

Section simulation.
Context {S P R I : Type} `{!KeyValueStore S, !ConsistentHashMap P string, !ConsistentHashMap R NodeInfo}.
Context `{!RangeIndexInterface I, !RangeIndexInterfaceSpec I, !VoblaStatus, !VoblaStatusSpec, !MD5}.
Context `{!BoostFilesystem, !BoostFilesystemSpec, !ConsistentHashMapSpec R NodeInfo}.
Context `{!ThriftCodec FileMetadata, !ThriftCodec IndexNamespaceNode, !ThriftCodec IndexConsistentHashRing}.
Context `{!ThriftCodec RpcIndexRecordUpdateList, !ThriftCodec (list LogEntity)}.
Context (junk : Z).
#[local] Instance index_rpc : IndexRpc (Cluster S P R I) := cluster_index_rpc junk.

Abbreviation world := (Cluster S P R I).
Abbreviation master := (MasterController S P R).

(** The client's ring of masters leads to live masters. *)
Record masters_up (c : VSFSRpcClient R) (mn : gmap RpcNodeAddress master) : Prop := {
  mu_ring : ch_view (master_map_ c) ≠ ∅;
  mu_up pos node : ch_view (master_map_ c) !! pos = Some node →
    plain_address (address node) ∧ is_Some (mn !! address node);
}.

(** The index servers hold the indices [ix], each on the server that the
    client's ring gives for its partition. *)
Record represents (c : VSFSRpcClient R) (w : world) (ix : gmap string I) : Prop := {
  rp_ring : ch_view (index_server_map_ c) ≠ ∅;
  rp_up part :
    plain_address (part_addr c part) ∧ is_Some (index_nodes w !! part_addr c part);
  rp_held a im : index_nodes w !! a = Some im →
    manager_holds (λ part, part_addr c part = a) im ix;
}.

Section client.
Context (c : VSFSRpcClient R) (mn : gmap RpcNodeAddress master) (Hup : masters_up c mn).
Context (root_of : string → string → string).
Implicit Types (w : world) (ix : gmap string I).

Lemma owner_up path : ∃ mc, mn !! owner_of c path = Some mc.
Proof.
  destruct (get_path_owner c path (mu_ring _ _ Hup)) as (pos&node&_&Hpos&->).
  apply (mu_up _ _ Hup pos node Hpos).
Qed.

Lemma masters_getattr w path :
  master_nodes w = mn →
  Client.getattr c path w = Done ((path_attrs c mn path).1, (path_attrs c mn path).2, w).
Proof.
  intros Hmn. destruct (owner_up path) as [mc Hmc]. unfold path_attrs. rewrite Hmc.
  destruct (get_path_owner c path (mu_ring _ _ Hup)) as (pos&node&Hget&Hpos&Ho).
  rewrite Ho in Hmc. unfold Client.getattr, at_master, check_get. rewrite Hget. simpl.
  erewrite ask_master_reply by (rewrite ?Hmn; done || reflexivity).
  unfold rpc_getattr, MasterController.getattr, attrs_of, Namespace.getattr.
  by destruct (metadata_map_ (namespace_ mc) !! path).
Qed.

Lemma path_attrs_known path :
  ok (path_attrs c mn path).1 = true ∨ error_of (path_attrs c mn path).1 = (- ENOENT)%Z.
Proof. unfold path_attrs. destruct (mn !! owner_of c path); [apply attrs_known|by left]. Qed.

Lemma masters_answer_ids w :
  master_nodes w = mn →
  answers_ids c w (λ a path, match mn !! a with Some mc => id_of_file mc path | None => 0%Z end).
Proof.
  intros Hmn pos node Hn. destruct (mu_up _ _ Hup pos node Hn) as [Hp [mc Hmc]].
  split; [done|]. intros files. simpl.
  erewrite ask_master_reply by (rewrite ?Hmn; done || reflexivity). by rewrite Hmc.
Qed.

Lemma find_nearest w fuel parent name root :
  master_nodes w = mn → nearest (path_attrs c mn) fuel parent name root →
  find_index fuel c parent name w = ends (OK, Some (index_path root name), w).
Proof.
  intros Hmn (names&k&->&Hall&Hlen&Hk&Hroot&Hh&Hmin).
  rewrite (find_index_up c w (path_attrs c mn) (λ path, masters_getattr w path Hmn) path_attrs_known)
    by done.
  rewrite (proj2 (list_find_Some (holds_index (path_attrs c mn) name) _ k root)); [done|]. split_and!.
  - rewrite list_lookup_fmap, lookup_seq_lt by lia. simpl. by rewrite Hroot.
  - done.
  - intros j dir Hj Hjk. rewrite list_lookup_fmap, lookup_seq_lt in Hj by lia.
    injection Hj as <-. by apply Hmin.
Qed.

(** *** One update task *)

(** The index of every request of a batch is there. *)
Definition batch_ok (fuel : nat) (requests : list IndexUpdateRequest) : Prop :=
  ∀ r, r ∈ requests →
    nearest (path_attrs c mn) fuel (parent_of r) (req_index_name r) (root_of (parent_of r) (req_index_name r)).

Lemma map_nearest w fuel requests :
  master_nodes w = mn → batch_ok fuel requests →
  ∃ index_map, get_parent_path_to_index_path_map fuel c requests w = ends (OK, index_map, w) ∧
    ∀ r, r ∈ requests →
      index_at index_map r
      = Done (index_path (root_of (parent_of r) (req_index_name r)) (req_index_name r)).
Proof.
  intros Hmn Hok.
  destruct (find_indices_all fuel c (wanted_indices requests) ∅ w
              (λ parent name, index_path (root_of parent name) name)) as (index_map&Hmap&Hfound).
  { intros parent n (r&Hr&<-&<-)%elem_of_wanted_indices. by apply find_nearest, Hok. }
  exists index_map. split; [done|]. intros r Hr. unfold index_at.
  specialize (Hfound (parent_of r) (req_index_name r)).
  destruct (index_map !! parent_of r) as [names|] eqn:Hp; simpl in Hfound.
  - rewrite Hfound; [done|]. left. apply elem_of_wanted_indices. eauto.
  - exfalso. rewrite lookup_empty in Hfound.
    assert (None = Some (index_path (root_of (parent_of r) (req_index_name r)) (req_index_name r))); [|done].
    apply Hfound. left. apply elem_of_wanted_indices. eauto.
Qed.

Lemma part_addr_node part :
  ch_view (index_server_map_ c) ≠ ∅ →
  ∃ pos node, ch_view (index_server_map_ c) !! pos = Some node ∧ part_addr c part = address node.
Proof.
  intros Hne. unfold part_addr, get_path. rewrite get_spec.
  destruct (ring_owner_total (ch_view (index_server_map_ c)) (path_to_hash part) Hne) as [node Hn].
  rewrite Hn. destruct (ring_owner_elem _ _ _ Hn) as [pos Hpos]. eauto.
Qed.

Lemma part_addr_get part :
  ch_view (index_server_map_ c) ≠ ∅ →
  ∃ node, get (index_server_map_ c) (path_to_hash part) = (OK, Some node) ∧ address node = part_addr c part.
Proof.
  intros Hne. unfold part_addr, get_path. rewrite get_spec.
  destruct (ring_owner_total (ch_view (index_server_map_ c)) (path_to_hash part) Hne) as [node ->].
  by exists node.
Qed.

(** Each request is routed to the server of its partition. *)
Lemma route_part index_map r :
  ch_view (index_server_map_ c) ≠ ∅ →
  index_at index_map r = Done (index_path (root_of (parent_of r) (req_index_name r)) (req_index_name r)) →
  route c index_map r = Done (address_to_string (part_addr c (part_of root_of r)), part_of root_of r).
Proof.
  intros Hne Hat. unfold route. rewrite Hat. simpl. fold (part_of root_of r).
  destruct (part_addr_get (part_of root_of r) Hne) as (node&Hget&Ha).
  unfold part_of, index_part in Hget |- *. unfold check_get. rewrite Hget. simpl.
  unfold part_of, index_part in Ha. by rewrite Ha.
Qed.

(** The records of a server's request. *)
Definition lists_of (requests : list IndexUpdateRequest) (objects : gmap nat Z)
    (parts : gmap string (list nat)) : list update_list :=
  (λ p : string * list nat, (p.1, record_of_request requests objects <$> p.2)) <$> sorted_map String.le parts.

Lemma index_call_update w ix ix' a requests objects parts :
  represents c w ix → is_Some (index_nodes w !! a) →
  (∀ part ps, parts !! part = Some ps → part_addr c part = a) →
  spec_updates (lists_of requests objects parts) ix = Some ix' →
  ∃ w', i_update w a (update_of requests objects parts) = (Reply (), w') ∧
    master_nodes w' = master_nodes w ∧ (∀ b, is_Some (index_nodes w !! b) → is_Some (index_nodes w' !! b)) ∧
    represents c w' ix'.
Proof.
  intros Hrep [im Him] Hparts Hspec. pose proof (rp_held _ _ _ Hrep a im Him) as Hh.
  assert (∀ p, p ∈ lists_of requests objects parts → part_addr c p.1 = a) as Hin.
  { intros p ([part ps]&->&Hp%elem_of_sorted_map)%list_elem_of_fmap. by eapply Hparts. }
  destruct (update_in_order_holds (λ part, part_addr c part = a) im ix
              (u_updates (update_of requests objects parts)) ix') as (im'&Hu&Hh'); [done| | |].
  - intros l ([part ps]&->&Hp%elem_of_sorted_map)%list_elem_of_fmap. simpl. by eapply Hparts.
  - rewrite <-Hspec. unfold lists_of, update_of. simpl. by rewrite <-list_fmap_compose.
  - simpl. unfold call_index. rewrite Him. unfold rpc_update, update_all.
    change (u_txn_id (update_of requests objects parts)) with 0%Z. rewrite Hu. simpl.
    exists (set_index w a (Some im')). split_and!; [done|done| |].
    + intros b Hb. simpl. rewrite lookup_partial_alter. case_decide; [by eexists|done].
    + assert (∀ b, is_Some (index_nodes w !! b) →
                is_Some (index_nodes (set_index w a (Some im')) !! b)) as Hmono.
      { intros b Hb. simpl. rewrite lookup_partial_alter. case_decide; [by eexists|done]. }
      split.
      * apply Hrep.
      * intros part. destruct (rp_up _ _ _ Hrep part) as [? ?]. split; [done|]. by apply Hmono.
      * intros b imb Hb. simpl in Hb. rewrite lookup_partial_alter in Hb.
        destruct (decide (a = b)) as [<-|Hne]; [by injection Hb as <-|].
        intros part Hpart. rewrite (spec_updates_other _ _ _ part Hspec).
        { by eapply (rp_held _ _ _ Hrep b imb). }
        intros p Hp <-. apply Hin in Hp. congruence.
Qed.

(** The requests to the servers one after the other. *)
Lemma send_updates_holds w ix ix' requests objects servers :
  represents c w ix →
  (∀ addr parts, (addr, parts) ∈ servers →
     ∃ a, addr = address_to_string a ∧ plain_address a ∧ is_Some (index_nodes w !! a) ∧
       ∀ part ps, parts !! part = Some ps → part_addr c part = a) →
  spec_updates (servers ≫= λ s, lists_of requests objects s.2) ix = Some ix' →
  ∃ w', send_updates requests objects servers w = Done (OK, w') ∧
    master_nodes w' = master_nodes w ∧ represents c w' ix'.
Proof.
  revert w ix. induction servers as [|[addr parts] servers IH]; intros w ix Hrep Hs Hspec.
  { simpl in *. simplify_eq. eauto. }
  destruct (Hs addr parts) as (a&->&Hplain&Hlive&Hparts); [left|].
  rewrite bind_cons, spec_updates_app in Hspec. simpl snd in Hspec.
  destruct (spec_updates (lists_of requests objects parts) ix) as [ix1|] eqn:Hix1; [|done].
  simpl in Hspec. destruct (index_call_update w ix ix1 a requests objects parts)
    as (w1&Hcall&Hmn1&Hmono&Hrep1); [done..|].
  cbn [send_updates]. rewrite string_to_address_to_string by done. cbn [mbind run_bind].
  rewrite Hcall. destruct (IH w1 ix1 Hrep1) as (w'&->&Hmn&Hrep'); [|done|].
  - intros addr' parts' Hin. destruct (Hs addr' parts') as (b&?&?&?&?); [by right|].
    exists b. split_and!; [done..|by apply Hmono|done].
  - exists w'. by rewrite Hmn.
Qed.

(** *** Regrouping the requests *)

(** A server is listed with the partitions of its requests only. *)
Definition no_idle (rm : gmap string (gmap string (list nat))) : Prop :=
  ∀ addr parts, rm !! addr = Some parts →
    parts ≠ ∅ ∧ ∀ part ps, parts !! part = Some ps → ps ≠ [].

Lemma reorder_from_no_idle index_map pos requests rm rm' :
  reorder_from c index_map pos requests rm = Done rm' → no_idle rm → no_idle rm'.
Proof.
  revert pos rm. induction requests as [|r requests IH]; intros pos rm Hr Hrm.
  { simpl in Hr. by simplify_eq. }
  rewrite reorder_from_step in Hr. destruct (route c index_map r) as [[addr part]|]; [|done].
  apply IH in Hr; [done|]. intros a parts Ha. rewrite lookup_insert in Ha.
  destruct (decide (addr = a)) as [<-|]; [|by eapply Hrm]. injection Ha as <-. unfold push_back. split.
  - apply insert_non_empty.
  - intros p ps Hp. rewrite lookup_insert in Hp. destruct (decide (part = p)) as [->|].
    + injection Hp as <-. by destruct (default _ _).
    + destruct (rm !! addr) as [parts|] eqn:Hparts; simpl in Hp; [|by rewrite lookup_empty in Hp].
      by eapply (Hrm addr parts).
Qed.

Lemma ops_for_lists part requests objects parts :
  ops_for part (lists_of requests objects parts)
  = record_of_request requests objects <$> default [] (parts !! part).
Proof.
  unfold ops_for, lists_of. rewrite list_fmap_bind. unfold compose. simpl.
  rewrite (sorted_map_bind_one String.le parts part).
  - destruct (parts !! part); simpl; [|done]. by rewrite decide_True.
  - intros p ps _ Hne. simpl. by rewrite decide_False.
Qed.

Context (index_map : gmap string (gmap string string)) (requests : list IndexUpdateRequest).
Context (Hne : ch_view (index_server_map_ c) ≠ ∅).
Context (Hat : ∀ r, r ∈ requests →
  index_at index_map r = Done (index_path (root_of (parent_of r) (req_index_name r)) (req_index_name r))).

Lemma positions_at_part rm addr part :
  reorder_requests_to_index_servers c requests index_map = Done rm →
  positions_at rm addr part
  = filter (λ pos, (λ r, (address_to_string (part_addr c (part_of root_of r)), part_of root_of r))
                     <$> requests !! pos = Some (addr, part)) (seq 0 (length requests)).
Proof.
  intros Hrm. rewrite (reorder_from_exact c index_map [] requests ∅ rm addr part Hrm).
  unfold positions_at. rewrite lookup_empty. simpl. apply list_filter_iff. intros pos.
  destruct (requests !! pos) as [r|] eqn:Hr; simpl; [|done].
  rewrite (route_part index_map r Hne); [done|]. apply Hat. by eapply list_elem_of_lookup_2.
Qed.

Lemma regrouped rm objects part :
  reorder_requests_to_index_servers c requests index_map = Done rm →
  (∀ i r, requests !! i = Some r → objects !! i = Some (file_id c mn (req_file_path r))) →
  ops_for part (sorted_map String.le rm ≫= λ s, lists_of requests objects s.2)
  = ops_for part (updates_of root_of (file_id c mn) requests).
Proof.
  intros Hrm Hobj. rewrite ops_for_bind.
  set (here := address_to_string (part_addr c part)).
  rewrite (sorted_map_bind_one String.le rm here).
  - transitivity (record_of_request requests objects <$> positions_at rm here part).
    { unfold positions_at. destruct (rm !! here); simpl; [by rewrite ops_for_lists|done]. }
    rewrite (positions_at_part rm here part Hrm). unfold ops_for, updates_of.
    rewrite list_fmap_bind. unfold compose. simpl.
    apply (positions_bind requests 0 _ (λ r, part_of root_of r = part)). intros i r Hr.
    simpl. rewrite Hr. simpl. split.
    + split; [by intros [= _ ->]|by intros ->].
    + unfold record_of_request. rewrite Hr. simpl. by rewrite (Hobj i r Hr).
  - intros addr parts Ha Hno. simpl. rewrite ops_for_lists.
    pose proof (positions_at_part rm addr part Hrm) as Hp. unfold positions_at in Hp.
    rewrite Ha in Hp. simpl in Hp. rewrite Hp.
    assert (filter (λ pos, (λ r, (address_to_string (part_addr c (part_of root_of r)), part_of root_of r))
                     <$> requests !! pos = Some (addr, part)) (seq 0 (length requests)) = []) as ->; [|done].
    apply elem_of_nil_inv. intros pos [Hx _]%list_elem_of_filter.
    apply fmap_Some in Hx as (r&_&[= Haddr Hpart]). apply Hno. by rewrite Haddr, <-Hpart.
Qed.

Lemma part_requested rm addr parts part ps :
  reorder_requests_to_index_servers c requests index_map = Done rm →
  rm !! addr = Some parts → parts !! part = Some ps →
  ∃ r, r ∈ requests ∧ part_of root_of r = part ∧ addr = address_to_string (part_addr c part).
Proof.
  intros Hrm Ha Hp. assert (no_idle rm) as Hidle.
  { eapply reorder_from_no_idle; [exact Hrm|]. intros a p. by rewrite lookup_empty. }
  destruct (Hidle addr parts Ha) as [_ Hps]. pose proof (Hps part ps Hp) as Hnil.
  pose proof (positions_at_part rm addr part Hrm) as Hf.
  unfold positions_at in Hf. rewrite Ha in Hf. simpl in Hf. rewrite Hp in Hf. simpl in Hf.
  destruct ps as [|pos ps]; [done|]. assert (pos ∈ pos :: ps) as Hin by left. rewrite Hf in Hin.
  apply list_elem_of_filter in Hin as [(r&Hr&[= Haddr Hpart])%fmap_Some _].
  exists r. split; [by eapply list_elem_of_lookup_2|]. by rewrite Haddr, Hpart.
Qed.

Lemma servers_up w ix rm addr parts :
  represents c w ix → reorder_requests_to_index_servers c requests index_map = Done rm →
  (∀ r, r ∈ requests → is_Some (ix !! part_of root_of r)) →
  rm !! addr = Some parts →
  ∃ a, addr = address_to_string a ∧ plain_address a ∧ is_Some (index_nodes w !! a) ∧
    ∀ part ps, parts !! part = Some ps → part_addr c part = a.
Proof.
  intros Hrep Hrm Hix Ha. assert (no_idle rm) as Hidle.
  { eapply reorder_from_no_idle; [exact Hrm|]. intros a p. by rewrite lookup_empty. }
  destruct (Hidle addr parts Ha) as [(part0&ps0&Hp0)%map_choose _].
  destruct (part_requested rm addr parts part0 ps0 Hrm Ha Hp0) as (r0&Hr0&<-&Haddr).
  destruct (rp_up _ _ _ Hrep (part_of root_of r0)) as [Hplain Hlive].
  exists (part_addr c (part_of root_of r0)). split_and!; [done..|].
  intros part ps Hp. destruct (part_requested rm addr parts part ps Hrm Ha Hp) as (r&Hr&<-&Haddr').
  destruct (rp_up _ _ _ Hrep (part_of root_of r)) as [Hplain' _].
  rewrite Haddr in Haddr'. apply (f_equal string_to_address) in Haddr'.
  rewrite !string_to_address_to_string in Haddr' by done. by injection Haddr'.
Qed.
End client.

(** *** Updates *)

Section updates.
Context (c : VSFSRpcClient R) (mn : gmap RpcNodeAddress master) (Hup : masters_up c mn).
Context (root_of : string → string → string).
Implicit Types (w : world) (ix : gmap string I).

Lemma run_task_holds w ix ix' fuel requests :
  master_nodes w = mn → represents c w ix → batch_ok c mn root_of fuel requests →
  spec_updates (updates_of root_of (file_id c mn) requests) ix = Some ix' →
  ∃ w', run_task fuel c requests w = ends (OK, w') ∧ master_nodes w' = mn ∧ represents c w' ix'.
Proof.
  intros Hmn Hrep Hok Hspec. unfold run_task.
  destruct (map_nearest c mn Hup root_of w fuel requests Hmn Hok) as (index_map&->&Hat). simpl.
  destruct (reorder_from_total c index_map 0 requests ∅) as [rm Hrm].
  { intros r Hr. rewrite (route_part c root_of index_map r (rp_ring _ _ _ Hrep) (Hat r Hr)). by eexists. }
  unfold reorder_requests_to_index_servers. rewrite Hrm. simpl.
  edestruct (find_objects_spec c w) as (objects&Hfind&Hobj);
    [by eapply mu_ring|by apply (masters_answer_ids c mn)|].
  rewrite Hfind. simpl.
  assert (∀ i r, requests !! i = Some r → objects !! i = Some (file_id c mn (req_file_path r))) as Hobj'.
  { intros i r Hr. destruct (Hobj i (req_file_path r)) as (node&Hget&->).
    - by rewrite list_lookup_fmap, Hr.
    - f_equal. unfold file_id, owner_of. by rewrite Hget. }
  assert (∀ r, r ∈ requests → is_Some (ix !! part_of root_of r)) as Hix.
  { apply spec_updates_Some in Hspec as [Hl _]. intros r Hr.
    apply (Hl (part_of root_of r, [record_for (file_id c mn) r])). apply list_elem_of_fmap. by exists r. }
  pose proof (rp_ring _ _ _ Hrep) as Hne.
  destruct (send_updates_holds c w ix ix' requests objects (sorted_map String.le rm)) as (w'&Hsend&?&?).
  - done.
  - intros addr parts Hin%elem_of_sorted_map.
    by eapply (servers_up c root_of index_map requests Hne Hat w ix rm addr parts).
  - eapply spec_updates_regroup; [| |exact Hspec].
    + intros part. symmetry. by eapply (regrouped c mn root_of index_map requests Hne Hat).
    + intros p ([addr parts]&([part ps]&->&Hp%elem_of_sorted_map)%list_elem_of_fmap&Ha%elem_of_sorted_map)
        %list_elem_of_bind.
      destruct (part_requested c root_of index_map requests Hne Hat rm addr parts part ps Hrm Ha Hp)
        as (r&Hr&<-&_). by apply Hix.
  - exists w'. unfold lift. rewrite Hsend. split_and!; [done|congruence|done].
Qed.

(** The tasks of an update in the order the pool runs them. *)
Lemma run_tasks_hold w ix ix' fuel tasks order results :
  master_nodes w = mn → represents c w ix →
  (∀ i, i ∈ order → batch_ok c mn root_of fuel (default [] (tasks !! i))) →
  (∀ i, default OK (results !! i) = OK) →
  spec_updates (order ≫= λ i, updates_of root_of (file_id c mn) (default [] (tasks !! i))) ix = Some ix' →
  ∃ results' w', run_tasks fuel c tasks order results w = ends (results', w') ∧
    (∀ i, default OK (results' !! i) = OK) ∧ master_nodes w' = mn ∧ represents c w' ix'.
Proof.
  revert w ix results. induction order as [|i order IH]; intros w ix results Hmn Hrep Hok Hres Hspec.
  { simpl in *. simplify_eq. eauto 6. }
  rewrite bind_cons, spec_updates_app in Hspec.
  destruct (spec_updates (updates_of root_of (file_id c mn) (default [] (tasks !! i))) ix) as [ix1|] eqn:Hi; [|done].
  destruct (run_task_holds w ix ix1 fuel (default [] (tasks !! i))) as (w1&Hrun&Hmn1&Hrep1);
    [done|done|apply Hok; left|done|].
  cbn [run_tasks]. rewrite Hrun. cbn [late_bind ends]. simpl in Hspec.
  apply (IH w1 ix1); [done|done| | |done].
  - intros j Hj. apply Hok. by right.
  - intros j. rewrite lookup_insert. by case_decide.
Qed.

Lemma update_holds w ix ix' second_get batch_size fuel requests order :
  master_nodes w = mn → represents c w ix → batch_ok c mn root_of fuel requests →
  spec_updates (updates_in_order root_of batch_size (file_id c mn) requests order) ix = Some ix' →
  ∃ w', ClientIndex.update second_get batch_size order fuel c requests w = ends (OK, w') ∧
    master_nodes w' = mn ∧ represents c w' ix'.
Proof.
  intros Hmn Hrep Hok Hspec. unfold ClientIndex.update.
  destruct (run_tasks_hold w ix ix' fuel (batches batch_size new_task requests) order ∅)
    as (results&w'&->&Hres&Hmn'&Hrep'); try done.
  - intros i _ r Hr. apply Hok. destruct (batches_spec batch_size [] requests) as [Hc _]; [simpl; lia|].
    simpl in Hc. rewrite <-Hc. destruct (batches batch_size new_task requests !! i) as [b|] eqn:Hb; simpl in Hr;
      [|by apply elem_of_nil in Hr].
    apply list_elem_of_lookup_2 in Hb. apply list_elem_of_In, in_concat.
    exists b. by rewrite <-!list_elem_of_In.
  - exists w'. simpl. rewrite (proj2 (list_find_None _ _)); [done|].
    apply Forall_forall. intros s (i&->&_)%list_elem_of_fmap. by rewrite Hres.
Qed.

(** *** Searches *)

Lemma locate_all_masters w q :
  master_nodes w = mn →
  locate_index_for_search c q w = (OK, located_indices c mn q, w).
Proof.
  intros Hmn. unfold locate_index_for_search, located_indices.
  assert (∀ p, p ∈ sorted_map Z.le (get_ch_ring_as_map (master_map_ c)) →
            is_Some (mn !! address p.2)) as Hring.
  { intros [pos node] Hp%elem_of_sorted_map. rewrite get_ch_ring_as_map_spec in Hp.
    by apply (mu_up _ _ Hup pos node). }
  revert Hring. generalize (sorted_map Z.le (get_ch_ring_as_map (master_map_ c))).
  enough (∀ nodes before, (∀ p, p ∈ nodes → is_Some (mn !! address p.2)) →
    locate_on (root_ q) (get_names_of_range_queries q) nodes before w
    = (OK, before ++ (nodes ≫= λ p, match mn !! address p.2 with
        | Some mc => (locate_indices_for_names mc (root_ q) (get_names_of_range_queries q)).2
        | None => [] end), w)) as Hx by (intros l Hl; by apply Hx).
  induction nodes as [|[pos node] nodes IH]; intros before Hring.
  { simpl. by rewrite app_nil_r. }
  destruct (Hring (pos, node)) as [mc Hmc]; [left|]. simpl in Hmc. cbn [locate_on].
  simpl m_locate_indices_for_search.
  erewrite ask_master_reply by (rewrite ?Hmn; done || reflexivity).
  cbn [outcome_of]. unfold rpc_locate_indices_for_search, locate_indices_for_names. cbn [check_status ok].
  simpl. rewrite IH by (intros; apply Hring; by right). by rewrite Hmc, <-app_assoc.
Qed.

Lemma search_servers_hold w ix q plan objects :
  represents c w ix →
  (∀ addr parts, (addr, parts) ∈ plan →
     ∃ a, addr = address_to_string a ∧ plain_address a ∧ is_Some (index_nodes w !! a) ∧
       ∀ part, part ∈ parts → part_addr c part = a ∧ is_Some (ix !! part) ∧
         sub_query q part = Done (query_for q part) ∧ q_index_path (query_for q part) = part) →
  ∃ w', search_servers q plan objects w
    = Done (OK, objects ++ spec_search (query_for q <$> (plan ≫= λ p, sorted_elements String.le p.2)) ix, w') ∧
    master_nodes w' = master_nodes w ∧ represents c w' ix.
Proof.
  revert w objects. induction plan as [|[addr parts] plan IH]; intros w objects Hrep Hplan.
  { exists w. simpl. unfold spec_search. simpl. by rewrite app_nil_r. }
  destruct (Hplan addr parts) as (a&->&Hplain&[im Him]&Hparts); [left|].
  cbn [search_servers]. rewrite string_to_address_to_string by done. cbn [mbind run_bind].
  assert (∀ l, (∀ part, part ∈ l → part ∈ parts) → sub_queries q l = Done (query_for q <$> l)) as Hsub.
  { induction l as [|part l IHl]; intros Hl; [done|]. cbn [sub_queries].
    destruct (Hparts part) as (_&_&->&_); [apply Hl; left|]. cbn [mbind run_bind].
    rewrite IHl by (intros; apply Hl; by right). done. }
  rewrite Hsub by (intros part; apply elem_of_sorted_elements). cbn [mbind run_bind].
  destruct (search_queries_holds (λ part, part_addr c part = a) im ix
              (query_for q <$> sorted_elements String.le parts) []) as (im'&Hs&Hh).
  { by apply (rp_held _ _ _ Hrep). }
  { intros q' (part&->&Hin%elem_of_sorted_elements)%list_elem_of_fmap.
    destruct (Hparts part Hin) as (?&?&_&->). done. }
  simpl i_search. rewrite Him. unfold rpc_search, search_all. cbn [cq_txn_id cq_range_queries].
  rewrite Hs. cbn [mbind run_bind check_status ok outcome_of]. simpl app at 1.
  set (w1 := set_index w a (Some im')).
  destruct (IH w1 (objects ++ spec_search (query_for q <$> sorted_elements String.le parts) ix))
    as (w'&Hrun&Hmn'&Hrep').
  - split; [apply Hrep| |].
    + intros part. destruct (rp_up _ _ _ Hrep part) as [? ?]. split; [done|].
      simpl. rewrite lookup_partial_alter. case_decide; [by eexists|done].
    + intros b imb. simpl. rewrite lookup_partial_alter. case_decide as Hb; [|apply (rp_held _ _ _ Hrep)].
      intros [= <-]. by subst.
  - intros addr' parts' Hin. destruct (Hplan addr' parts') as (b&?&?&?&?); [by right|].
    exists b. split_and!; [done..| |done].
    simpl. rewrite lookup_partial_alter. case_decide; [by eexists|done].
  - exists w'. split_and!; [|done..]. simpl app. rewrite Hrun.
    rewrite fmap_app. unfold spec_search at 3. by rewrite bind_app, <-app_assoc.
Qed.

Lemma plan_partitions_total indices plan0 :
  ch_view (index_server_map_ c) ≠ ∅ → (∀ addr, plan0 !! addr ≠ Some ∅) →
  ∃ plan, plan_partitions c indices plan0 = Done plan ∧ ∀ addr, plan !! addr ≠ Some ∅.
Proof.
  intros Hne. revert plan0. induction indices as [|idx indices IH]; intros plan0 Hnil; [by eexists|].
  cbn [plan_partitions]. destruct (part_addr_get c (idx +:+ "/0") Hne) as (node&Hget&_).
  unfold check_get. rewrite Hget. cbn [ok fst snd mbind run_bind default]. apply IH.
  intros addr. rewrite lookup_insert. case_decide; [|done]. intros [= Hx]. set_solver.
Qed.

(** The plan of a search holds the located partitions, each once. *)
Lemma search_plan_parts w q :
  master_nodes w = mn → ch_view (index_server_map_ c) ≠ ∅ →
  ∃ plan, gen_search_plan c q w = Done (OK, plan, w) ∧
    (sorted_map String.le plan ≫= λ p, sorted_elements String.le p.2) ≡ₚ elements (located_parts c mn q) ∧
    ∀ addr parts, plan !! addr = Some parts →
      parts ≠ ∅ ∧ ∀ part, part ∈ parts →
        part ∈ located_parts c mn q ∧ addr = address_to_string (part_addr c part).
Proof.
  intros Hmn Hne. unfold gen_search_plan. rewrite locate_all_masters by done. simpl.
  destruct (plan_partitions_total (located_indices c mn q) ∅ Hne) as (plan&Hplan&Hempty);
    [by intros addr; rewrite lookup_empty|].
  exists plan. rewrite Hplan. simpl. split; [done|].
  assert (∀ addr part, part ∈ default ∅ (plan !! addr) ↔
            part ∈ located_parts c mn q ∧ addr = address_to_string (part_addr c part)) as Hin.
  { intros addr part. rewrite (elem_of_plan_partitions c _ ∅ plan Hplan addr part), lookup_empty.
    unfold located_parts. rewrite elem_of_list_to_set, list_elem_of_fmap. split.
    - intros [?|(idx&node&Hidx&->&Hget&->)]; [set_solver|]. split; [by exists idx|].
      unfold part_addr, get_path. by rewrite Hget.
    - intros [(idx&->&Hidx) ->]. right. exists idx.
      destruct (part_addr_get c (idx +:+ "/0") Hne) as (node&Hget&<-). by exists node. }
  split.
  - apply NoDup_Permutation.
    + apply NoDup_bind.
      * intros [a1 p1] [a2 p2] part Hm1%elem_of_sorted_map Hm2%elem_of_sorted_map
          Hp1%elem_of_sorted_elements Hp2%elem_of_sorted_elements. simpl in *.
        assert (a1 = address_to_string (part_addr c part)) as Ha1 by (apply Hin; by rewrite Hm1).
        assert (a2 = address_to_string (part_addr c part)) as Ha2 by (apply Hin; by rewrite Hm2).
        subst. congruence.
      * intros [a p] _. apply NoDup_sorted_elements; apply _.
      * eapply NoDup_fmap_1, NoDup_sorted_map_fst; apply _.
    + apply NoDup_elements.
    + intros part. rewrite elem_of_elements, list_elem_of_bind. split.
      * intros ([a p]&Hp%elem_of_sorted_elements&Ha%elem_of_sorted_map).
        apply (Hin a part). by rewrite Ha.
      * intros Hl. pose proof (proj2 (Hin (address_to_string (part_addr c part)) part) (conj Hl eq_refl)) as Hp.
        destruct (plan !! address_to_string (part_addr c part)) as [p|] eqn:Ha; [|set_solver].
        eexists (_, p). rewrite elem_of_sorted_elements, elem_of_sorted_map. eauto.
  - intros addr parts Ha. split; [intros ->; by eapply Hempty|].
    intros part Hp. apply (Hin addr part). by rewrite Ha.
Qed.

(** Objects are asked for at their own masters. *)
Definition objects_at_home (plan : gmap string (list Z)) : Prop :=
  ∀ addr objects, plan !! addr = Some objects →
    objects ≠ [] ∧ ∀ o, o ∈ objects → addr = address_to_string (object_addr c o).

Lemma plan_push (m : gmap string (list Z)) addr o :
  (sorted_map String.le (<[addr := default [] (m !! addr) ++ [o]]> m) ≫= snd)
  ≡ₚ (sorted_map String.le m ≫= snd) ++ [o].
Proof.
  rewrite !sorted_map_Permutation. destruct (m !! addr) as [l|] eqn:Ha; simpl.
  - rewrite <-(insert_delete_id m addr l Ha) at 2. rewrite <-(insert_delete_eq m addr).
    rewrite !map_to_list_insert by apply lookup_delete_eq. rewrite !bind_cons. simpl.
    rewrite <-!app_assoc. f_equiv. apply Permutation_app_comm.
  - rewrite map_to_list_insert by done. rewrite bind_cons. simpl. apply Permutation_cons_append.
Qed.

Lemma object_owner object :
  ∃ node mc, get (master_map_ c) object = (OK, Some node) ∧ address node = object_addr c object ∧
    plain_address (object_addr c object) ∧ mn !! object_addr c object = Some mc.
Proof.
  unfold object_addr. rewrite get_spec.
  destruct (ring_owner_total (ch_view (master_map_ c)) object (mu_ring _ _ Hup)) as [node Hn].
  rewrite Hn. destruct (ring_owner_elem _ _ _ Hn) as [pos Hpos].
  destruct (mu_up _ _ Hup pos node Hpos) as [Hp [mc Hmc]]. by exists node, mc.
Qed.

Lemma plan_objects_exact objects plan :
  objects_at_home plan →
  ∃ plan', plan_objects c objects plan = Done plan' ∧ objects_at_home plan' ∧
    (sorted_map String.le plan' ≫= snd) ≡ₚ (sorted_map String.le plan ≫= snd) ++ objects.
Proof.
  revert plan. induction objects as [|o objects IH]; intros plan Hhome; cbn [plan_objects].
  { exists plan. by rewrite app_nil_r. }
  destruct (object_owner o) as (node&mc&Hget&Ha&_). unfold check_get. rewrite Hget. simpl. rewrite Ha.
  set (addr := address_to_string (object_addr c o)).
  destruct (IH (<[addr := default [] (plan !! addr) ++ [o]]> plan)) as (plan'&->&Hhome'&Hperm).
  - intros a l Hl. rewrite lookup_insert in Hl. destruct (decide (addr = a)) as [<-|]; [|by apply Hhome].
    injection Hl as <-. split; [by destruct (default _ _)|].
    intros o' [Ho| ->%list_elem_of_singleton]%elem_of_app; [|done].
    destruct (plan !! addr) as [l|] eqn:Hp; [|by apply elem_of_nil in Ho]. by eapply (Hhome addr l).
  - exists plan'. split_and!; [done..|]. by rewrite Hperm, plan_push, <-app_assoc.
Qed.

Lemma resolve_objects_exact w plan paths :
  master_nodes w = mn →
  (∀ addr objects, (addr, objects) ∈ plan →
     objects ≠ [] ∧ ∀ o, o ∈ objects → addr = address_to_string (object_addr c o)) →
  resolve_objects plan paths w = Done (OK, paths ++ (object_path c mn <$> (plan ≫= snd)), w).
Proof.
  intros Hmn. revert paths. induction plan as [|[addr objects] plan IH]; intros paths Hplan.
  { simpl. by rewrite app_nil_r. }
  destruct (Hplan addr objects) as [Hnil Hhome]; [left|].
  assert (∃ a mc, addr = address_to_string a ∧ plain_address a ∧ mn !! a = Some mc ∧
            ∀ o, o ∈ objects → object_addr c o = a) as (a&mc&->&Hplain&Hmc&Ha).
  { destruct objects as [|o objects]; [done|].
    destruct (object_owner o) as (node&mc&_&_&Hplain&Hmc). exists (object_addr c o), mc.
    split_and!; [apply Hhome; left|done..|]. intros o' Ho'.
    destruct (object_owner o') as (_&_&_&_&Hplain'&_).
    assert (address_to_string (object_addr c o) = address_to_string (object_addr c o')) as He.
    { rewrite <-(Hhome o), <-(Hhome o'); [done|done|left]. }
    apply (f_equal string_to_address) in He. rewrite !string_to_address_to_string in He by done.
    by injection He. }
  cbn [resolve_objects]. rewrite string_to_address_to_string by done. cbn [mbind run_bind].
  simpl m_find_files. erewrite ask_master_reply by (rewrite ?Hmn; done || reflexivity).
  unfold rpc_find_files, MasterController.find_files, Namespace.find_files.
  cbn [check_status ok outcome_of].
  assert ((λ id, default "" (id_to_path_map_ (namespace_ mc) !! id)) <$> objects
          = object_path c mn <$> objects) as Hpaths.
  { apply list_fmap_ext. intros i o Ho%list_elem_of_lookup_2. unfold object_path.
    by rewrite (Ha o Ho), Hmc. }
  simpl. rewrite Hpaths, IH by (intros; apply Hplan; by right).
  by rewrite fmap_app, <-app_assoc.
Qed.

Lemma resolve_all w objects :
  master_nodes w = mn →
  ∃ paths, get_file_paths_from_objects c objects w = Done (OK, paths, w) ∧
    paths ≡ₚ object_path c mn <$> objects.
Proof.
  intros Hmn. unfold get_file_paths_from_objects.
  destruct (plan_objects_exact objects ∅) as (plan&->&Hhome&Hperm); [by intros a l; rewrite lookup_empty|].
  cbn [mbind run_bind]. rewrite resolve_objects_exact; [|done|].
  - eexists. split; [done|]. simpl. by rewrite Hperm.
  - intros addr l Hl%elem_of_sorted_map. by apply Hhome.
Qed.

(** The indices a query names are there, and their paths can be read back. *)
Lemma located_part_query batch_size fuel ix q part :
  op_ok c mn root_of batch_size fuel (dom ix) (Search q) → part ∈ located_parts c mn q →
  is_Some (ix !! part) ∧ sub_query q part = Done (query_for q part) ∧
  q_index_path (query_for q part) = part.
Proof.
  intros Hok Hpart. unfold located_parts in Hpart.
  apply elem_of_list_to_set, list_elem_of_fmap in Hpart as (idx&->&Hidx).
  unfold located_indices in Hidx. apply list_elem_of_bind in Hidx as ([pos node]&Hidx&Hpos%elem_of_sorted_map).
  cbn [snd] in Hidx. destruct (mn !! address node) as [mc|] eqn:Hmc; [|by apply elem_of_nil in Hidx].
  unfold locate_indices_for_names in Hidx. cbn [snd] in Hidx.
  apply list_elem_of_bind in Hidx as (name&(root&->&Hroot)%list_elem_of_fmap&Hname).
  unfold get_names_of_range_queries in Hname.
  apply list_elem_of_fmap in Hname as ([name' range]&->&Hrange%elem_of_map_to_list). cbn [fst] in *.
  destruct (Hok pos node mc name' root Hpos Hmc) as (Hir&Hplain&Hdom%elem_of_dom); [by eexists|done|].
  fold (index_path root name') in Hdom |- *.
  assert (sub_query q (index_part root name') = Done (part_query root name' range)) as Hsub.
  { unfold sub_query. destruct (part_names root name' Hir Hplain) as [-> ->].
    unfold range_query. by rewrite Hrange. }
  unfold index_path in Hsub. unfold query_for. unfold index_part in Hsub, Hdom.
  split_and!; [done|by rewrite Hsub|by rewrite Hsub].
Qed.

Lemma search_holds batch_size fuel w ix q :
  master_nodes w = mn → represents c w ix →
  op_ok c mn root_of batch_size fuel (dom ix) (Search q) →
  ∃ paths w', Client.search c q w = Done (OK, paths, w') ∧
    paths ≡ₚ object_path c mn <$> spec_search (query_for q <$> elements (located_parts c mn q)) ix ∧
    master_nodes w' = mn ∧ represents c w' ix.
Proof.
  intros Hmn Hrep Hok. unfold Client.search.
  destruct (search_plan_parts w q Hmn (rp_ring _ _ _ Hrep)) as (plan&->&Hperm&Hplan).
  cbn [mbind run_bind ok negb].
  destruct (search_servers_hold w ix q (sorted_map String.le plan) [] Hrep) as (w1&->&Hmn1&Hrep1).
  { intros addr parts Ha%elem_of_sorted_map. destruct (Hplan addr parts Ha) as [Hne Hparts].
    apply set_choose_L in Hne as [part0 Hp0]. destruct (Hparts part0 Hp0) as [Hl0 Haddr].
    destruct (located_part_query batch_size fuel ix q part0 Hok Hl0) as (Hix0&_).
    destruct (rp_up _ _ _ Hrep part0) as [Hplain Hlive].
    exists (part_addr c part0). split_and!; [done..|]. intros part Hp.
    destruct (Hparts part Hp) as [Hl Haddr'].
    destruct (located_part_query batch_size fuel ix q part Hok Hl) as (Hix&?&?).
    split_and!; [|done..]. destruct (rp_up _ _ _ Hrep part) as [Hplain' _].
    rewrite Haddr in Haddr'. apply (f_equal string_to_address) in Haddr'.
    rewrite !string_to_address_to_string in Haddr' by done. by injection Haddr'. }
  cbn [mbind run_bind ok negb app].
  destruct (resolve_all w1 (spec_search (query_for q <$>
      (sorted_map String.le plan ≫= λ p, sorted_elements String.le p.2)) ix)) as (paths&Hres&Hpaths);
    [by rewrite Hmn1|].
  change ([] ++ ?l) with l. rewrite Hres. cbn [mbind run_bind ok]. exists paths, w1.
  split_and!; [done| |congruence|done]. rewrite Hpaths. unfold spec_search. by rewrite Hperm.
Qed.

(** *** A run *)

Context (batch_size fuel : nat) (second_get : Status → run Status).

Lemma run_op_holds w ix ix' o out :
  master_nodes w = mn → represents c w ix → op_ok c mn root_of batch_size fuel (dom ix) o →
  spec_op c mn root_of batch_size o ix = Some (out, ix') →
  ∃ paths w', run_op c batch_size fuel junk second_get o w = ends (OK, paths, w') ∧
    paths ≡ₚ out ∧ master_nodes w' = mn ∧ represents c w' ix' ∧ dom ix' = dom ix.
Proof.
  intros Hmn Hrep Hok Hspec. destruct o as [requests order|q]; simpl in Hspec.
  - destruct (spec_updates _ ix) as [ix1|] eqn:Hu; simpl in Hspec; [|done]. injection Hspec as <- <-.
    destruct Hok as [_ Hok].
    destruct (update_holds w ix ix1 second_get batch_size fuel requests order)
      as (w'&Hrun&Hmn'&Hrep'); [done..|].
    exists [], w'. unfold index_rpc in Hrun. cbn [run_op]. rewrite Hrun. split_and!; [done..|].
    apply set_eq. intros part. rewrite !elem_of_dom. by apply (spec_updates_dom _ _ _ _ Hu).
  - injection Hspec as <- <-.
    destruct (search_holds batch_size fuel w ix q Hmn Hrep Hok) as (paths&w'&Hrun&?&?&?).
    exists paths, w'. simpl. rewrite Hrun. done.
Qed.

Lemma run_ops_hold w ix ix' ops outs :
  master_nodes w = mn → represents c w ix → Forall (op_ok c mn root_of batch_size fuel (dom ix)) ops →
  spec_run c mn root_of batch_size ops ix = Some (outs, ix') →
  ∃ outs' w', run_ops c batch_size fuel junk second_get ops w = ends (outs', w') ∧
    Forall2 (λ r out, r.1 = OK ∧ r.2 ≡ₚ out) outs' outs ∧ represents c w' ix'.
Proof.
  revert w ix outs. induction ops as [|o ops IH]; intros w ix outs Hmn Hrep Hok Hspec.
  { simpl in *. simplify_eq. eauto using Forall2_nil. }
  apply Forall_cons in Hok as [Ho Hops]. cbn [spec_run] in Hspec.
  destruct (spec_op c mn root_of batch_size o ix) as [[out ix1]|] eqn:H1'; [|done]. simpl in Hspec.
  destruct (spec_run c mn root_of batch_size ops ix1) as [[outs1 ix2]|] eqn:H2'; simpl in Hspec; [|done].
  injection Hspec as <- <-.
  destruct (run_op_holds w ix ix1 o out) as (paths&w1&Hrun&Hperm&Hmn1&Hrep1&Hdom); [done..|].
  cbn [run_ops]. rewrite Hrun. cbn [late_bind ends].
  destruct (IH w1 ix1 outs1) as (outs'&w'&->&Hall&Hrep'); [done|done|by rewrite Hdom|done|].
  exists ((OK, paths) :: outs'), w'. split_and!; [done|by constructor|done].
Qed.
End updates.
End simulation.

(** ** Properties *)

Section properties.
Context {S P R I : Type} `{!KeyValueStore S, !ConsistentHashMap P string, !ConsistentHashMap R NodeInfo}.
Context `{!RangeIndexInterface I, !RangeIndexInterfaceSpec I, !VoblaStatus, !VoblaStatusSpec, !MD5}.
Context `{!BoostFilesystem, !BoostFilesystemSpec, !ConsistentHashMapSpec R NodeInfo}.
Context `{!ThriftCodec FileMetadata, !ThriftCodec IndexNamespaceNode, !ThriftCodec IndexConsistentHashRing}.
Context `{!ThriftCodec RpcIndexRecordUpdateList, !ThriftCodec (list LogEntity)}.

End properties.

(** ** Witnesses: two masters and two index servers *)

Section witnesses.
Import Reference.
#[local] Existing Instances TestLevelDBStore.test_store TestLevelDBStore.test_store_spec.
#[local] Existing Instances RangeIndexWrapper.updates_codec RangeIndexWrapper.buffer_codec.
#[local] Existing Instances RangeIndexWrapper.types RangeIndexWrapper.casts.
#[local] Existing Instances Cluster.metadata_codec Cluster.node_codec Cluster.ring_codec.
Abbreviation demo_master :=
  (MasterController (gmap string string) (gmap Z string) (gmap Z NodeInfo)).
Abbreviation demo_world :=
  (Cluster (gmap string string) (gmap Z string) (gmap Z NodeInfo) RangeIndexObject).

(** Master [a] knows [/f] and the index [x] of the root; master [b] knows
    [/d/notes] and the index [x] of [/d]. *)
Definition ring_ab : gmap Z NodeInfo :=
  {[8500000000000000000%Z := node_of addr_a; 8000000000000000000%Z := node_of addr_b]}.
Definition client_ab : VSFSRpcClient (gmap Z NodeInfo) :=
  {| primary_ := addr_a; master_map_ := ring_ab; index_server_map_ := ring_ab |}.

Definition with_index (root : string) (ns : Namespace (gmap string string)) :=
  (get_or (OK, ns) (Namespace.mkdir ns (index_path root "x") (Z.lor 493 S_IFDIR) 0 0 noon)).2.
Definition with_file (path : string) (ns : Namespace (gmap string string)) :=
  (get_or (OK, 0%Z, ns) (Namespace.create ns path 420 0 0 noon)).2.
Definition registry_of (root : string) : IndexNamespace (gmap string string) :=
  (get_or (OK, IndexNamespace.new ∅) (IndexNamespace.insert (IndexNamespace.new ∅) root "x")).2.
Definition master_of (root path : string) : demo_master :=
  {| mc_is_primary := true; namespace_ := with_file path (with_index root rooted);
     index_namespace_ := registry_of root;
     index_partition_manager_ := PartitionManager.new ∅;
     master_server_manager_ := Some ring_ab; index_server_manager_ := Some ring_ab |}.
Definition manager_of (part : string) : IndexManager RangeIndexObject :=
  (IndexManager.create 0 part "x" BTREE 1 (mkIndexManager "/data" ∅ ∅)).2.
Definition world_ab : demo_world :=
  {| master_nodes := {[addr_a := master_of "/" "/f"; addr_b := master_of "/d" "/d/notes"]};
     index_nodes := {[addr_a := manager_of "/.vsfs/x/0"; addr_b := manager_of "/d/.vsfs/x/0"]};
     now := noon |}.

Definition fresh_ix : gmap string RangeIndexObject :=
  {["/.vsfs/x/0" := empty_index; "/d/.vsfs/x/0" := empty_index]}.
Definition insert_request (path key : string) : IndexUpdateRequest :=
  {| req_op := 1; req_file_path := path; req_index_name := "x"; req_key := key |}.
Definition demo_ops : list client_op :=
  [Update [insert_request "/d/notes" "3"; insert_request "/f" "4"] [0]; Search query_x].
Definition demo_root_of (parent name : string) : string := parent.

Lemma ring_ab_nodes pos node :
  ring_ab !! pos = Some node → node = node_of addr_a ∨ node = node_of addr_b.
Proof.
  unfold ring_ab. intros [[_ <-]|[_ [_ <-]%lookup_singleton_Some]]%lookup_insert_Some; auto.
Qed.

Lemma addr_a_plain : plain_address addr_a.
Proof. split; [vm_compute; reflexivity|vm_compute; discriminate]. Qed.
Lemma addr_b_plain : plain_address addr_b.
Proof. split; [vm_compute; reflexivity|vm_compute; discriminate]. Qed.

Lemma world_ab_masters : masters_up client_ab (master_nodes world_ab).
Proof.
  split; [apply insert_non_empty|]. intros pos node [->| ->]%ring_ab_nodes.
  - split; [apply addr_a_plain|]. by eexists.
  - split; [apply addr_b_plain|]. by eexists.
Qed.

Lemma fresh_ix_parts part i :
  fresh_ix !! part = Some i → i = empty_index ∧ (part = "/.vsfs/x/0" ∨ part = "/d/.vsfs/x/0").
Proof.
  unfold fresh_ix. intros [[<- <-]|[_ [<- <-]%lookup_singleton_Some]]%lookup_insert_Some; auto.
Qed.

Lemma fresh_manager_holds part here :
  str_empty part = false → is_Some (fresh_ix !! part) →
  (∀ p, p = "/.vsfs/x/0" ∨ p = "/d/.vsfs/x/0" → here p → p = part) →
  manager_holds here (manager_of part) fresh_ix.
Proof.
  intros Hpart [j Hj] Hhere p Hh. unfold manager_of, IndexManager.create. rewrite Hpart. simpl.
  rewrite lookup_empty. simpl. destruct (fresh_ix !! p) as [i|] eqn:Hp.
  - apply fresh_ix_parts in Hp as [-> Hp]. rewrite (Hhere p Hp Hh).
    do 2 eexists. rewrite !lookup_insert_eq. split_and!; [done..|].
    by eapply (new_wrapper_holds 0 _ true 1).
  - rewrite lookup_insert_ne by (intros ->; congruence). apply lookup_empty.
Qed.

Lemma part_addr_root : part_addr client_ab "/.vsfs/x/0" = addr_a.
Proof. vm_compute. reflexivity. Qed.
Lemma part_addr_d : part_addr client_ab "/d/.vsfs/x/0" = addr_b.
Proof. vm_compute. reflexivity. Qed.

Lemma world_ab_represents : represents client_ab world_ab fresh_ix.
Proof.
  split.
  - apply insert_non_empty.
  - intros part. destruct (part_addr_node client_ab part) as (pos&node&Hpos&->); [done|].
    apply ring_ab_nodes in Hpos as [->| ->]; (split; [|by eexists]); [apply addr_a_plain|apply addr_b_plain].
  - intros a im Hn. unfold world_ab in Hn. cbn [index_nodes] in Hn.
    apply lookup_insert_Some in Hn as [[<- <-]|[_ [<- <-]%lookup_singleton_Some]].
    + apply fresh_manager_holds; [done|by eexists|]. intros p [->| ->]; [done|].
      rewrite part_addr_d. intros H. vm_compute in H. discriminate H.
    + apply fresh_manager_holds; [done|by eexists|]. intros p [->| ->]; [|done].
      rewrite part_addr_root. intros H. vm_compute in H. discriminate H.
Qed.

Lemma demo_nearest names :
  Forall plain_name names → length names < 5 →
  holds_index (path_attrs client_ab (master_nodes world_ab)) "x" (path_of names) →
  nearest (path_attrs client_ab (master_nodes world_ab)) 5 (path_of names) "x" (path_of names).
Proof. intros Hall Hlen Hh. exists names, 0. split_and!; [done..|lia|done|done|lia]. Qed.

Lemma demo_ops_ok :
  Forall (op_ok client_ab (master_nodes world_ab) demo_root_of 2048 5 (dom fresh_ix)) demo_ops.
Proof.
  constructor; [|constructor; [|constructor]].
  - split; [reflexivity|]. intros r [->|[->|[]%elem_of_nil]%elem_of_cons]%elem_of_cons.
    + apply (demo_nearest ["d"]); [repeat constructor; done|simpl; lia|vm_compute; reflexivity].
    + apply (demo_nearest []); [constructor|simpl; lia|vm_compute; reflexivity].
  - intros pos node mc name root Hn%ring_ab_nodes Hmc [range Hr] Hroot.
    unfold query_x in Hr. cbn [range_query_map_] in Hr. apply lookup_singleton_Some in Hr as [<- _].
    unfold world_ab in Hmc. cbn [master_nodes] in Hmc. destruct Hn as [->| ->].
    + rewrite lookup_insert_eq in Hmc. injection Hmc as <-.
      vm_compute in Hroot. apply list_elem_of_singleton in Hroot as ->.
      split_and!; [by left|done|]. apply elem_of_dom. by eexists.
    + rewrite lookup_insert_ne, lookup_singleton_eq in Hmc by done. injection Hmc as <-.
      vm_compute in Hroot. apply list_elem_of_singleton in Hroot as ->.
      split_and!; [right; by vm_compute|done|]. apply elem_of_dom. by eexists.
Qed.

Definition demo_spec : option (list (list string) * gmap string RangeIndexObject) :=
  spec_run client_ab (master_nodes world_ab) demo_root_of 2048 demo_ops fresh_ix.
Definition after_ix : gmap string RangeIndexObject := default ∅ (snd <$> demo_spec).

End witnesses.
