(* ===== verification/Searchable.v ===== *)
(** * What a VSFS cluster promises: a searchable file system

    The specification against which [ClusterVsfs] proves the whole of VSFS: one
    tree of files and directories ([FileSystem]), the indices that were made on
    its directories, and what each of them holds ([IndexSpec]).  Index calls see
    the tree: an update goes to the nearest index above a file and records the
    id of the file, a search returns the paths of the files found.
    [vsfs_step] says what each call answers and leaves behind, [vsfs_ok] is the
    contract of the callers, and [program] a client that chooses its next call
    by the answers so far. *)

From S2P Require Import Prelude CxxString Platform PathUtil IndexImpl RangeIndex IndexInfo IndexManager.
From S2P Require Import IndexSpec Namespace FileSystem ServerMap Restart ComplexQuery Client ClientIndex.
From S2P Require Import ClusterIndex ClusterSearch.

(** An index has the directory it is for and a name; [v_indices] goes by the
    paths of partitions. *)
Record Vsfs (I : Type) := {
  v_tree : FileSystem;
  v_registry : gset (string * string);
  v_indices : gmap string I;
}.
Arguments v_tree {I}. Arguments v_registry {I}. Arguments v_indices {I}.

(** The calls of a client. *)
Inductive vsfs_op :=
  | FileCall (o : fs_op)
  | MakeIndex (root name : string) (key_type mode uid gid : Z)
  | RemoveIndex (root name : string)
  | IndexCall (o : client_op).

Inductive vsfs_answer :=
  | FileAnswer (a : fs_answer)
  | Replied (status : Status)
  | Found (status : Status) (paths : list string).

(** ** Index calls see the tree *)

Section tree.
Context `{VoblaStatus, BoostFilesystem}.
Implicit Types (fs : FileSystem) (p : string).

Definition tree_attrs fs p : Status * option RpcFileInfo :=
  match fs_nodes fs !! p with
  | None => (missing, None)
  | Some m => (OK, Some (info_of m))
  end.

(** The id of a file, 0 without a file; the file with an id, the empty path
    without one. *)
Definition tree_id fs p : Z := from_option md_object_id 0%Z (fs_nodes fs !! p).
Definition has_id (oid : Z) (node : string * FileMetadata) : Prop :=
  is_dir node.2 = false ∧ md_object_id node.2 = oid.
#[export] Instance has_id_dec oid node : Decision (has_id oid node).
Proof. unfold has_id. apply _. Defined.
Definition tree_find fs (oid : Z) : string :=
  from_option (fst ∘ snd) "" (list_find (has_id oid) (map_to_list (fs_nodes fs))).

(** The nearest index [name] above a directory. *)
Fixpoint nearest_root (fuel : nat) fs (dir name : string) : string :=
  match fuel with
  | 0 => dir
  | S fuel' =>
      if decide (holds_index (tree_attrs fs) name dir) then dir
      else if decide (dir = "/") then dir
      else nearest_root fuel' fs (fs_parent_path dir) name
  end.

(** The indices a query asks for: by name, and on directories whose path
    begins with that of the query. *)
Definition selected (registry : gset (string * string)) (q : ComplexQuery) : gset string :=
  set_map (λ r : string * string, index_part r.1 r.2)
    (filter (λ r : string * string,
       starts_with (root_ q) r.1 = true ∧ is_Some (range_query_map_ q !! r.2)) registry).
End tree.

Section spec.
Context {I : Type} `{!RangeIndexInterface I, !VoblaStatus, !BoostFilesystem, !MD5}.
Context {A : Type} (owner : string → A) (batch_size fuel : nat).
Implicit Types (v : Vsfs I).

Definition with_files v fs : Vsfs I :=
  {| v_tree := fs; v_registry := v_registry v; v_indices := v_indices v |}.
Definition with_indices v ix : Vsfs I :=
  {| v_tree := v_tree v; v_registry := v_registry v; v_indices := ix |}.

(** The directories of indices are listed by no directory. *)
Definition hidden v (p : string) : Prop :=
  ∃ root name, (root, name) ∈ v_registry v ∧ p = index_path root name.

Definition index_call v (o : client_op) : option (list string * gmap string I) :=
  call_spec (nearest_root fuel (v_tree v)) batch_size (tree_id (v_tree v)) (tree_find (v_tree v))
    (selected (v_registry v)) o (v_indices v).

(** *** Making an index *)

(** Why an index cannot be made: there is no such directory, or there is such
    an index. *)
Definition make_refused v (root name : string) : option Status :=
  match fs_nodes (v_tree v) !! root with
  | None => Some missing
  | Some m =>
      if is_dir m then
        match v_indices v !! index_part root name with
        | Some _ => Some (Err (- EEXIST) "The index is existed.")
        | None => None
        end
      else Some (SystemError ENOTDIR)
  end.

(** The directory of all indices of [root] unless it is there, the directory
    of the index, and in the end the file of its partition. *)
Definition vsfs_dir (root : string) : string := root +:+ "/.vsfs".
Definition index_dirs (t : double) (root name : string) (mode uid gid : Z) (fs : FileSystem) : FileSystem :=
  put_dir (index_path root name) (new_dir mode uid gid t)
    (fs_exec t 0 (FMkdir (vsfs_dir root) mode uid gid) fs).2.
Definition part_file (root name : string) (uid gid : Z) : fs_op :=
  FCreate (index_part root name) 493 uid gid.
Definition make_index (t : double) (oid : Z) (root name : string) (mode uid gid : Z) (index : I) v : Vsfs I :=
  {| v_tree := (fs_exec t oid (part_file root name uid gid)
                  (index_dirs t root name mode uid gid (v_tree v))).2;
     v_registry := {[(root, name)]} ∪ v_registry v;
     v_indices := <[index_part root name := index]> (v_indices v) |}.

(** *** Removing an index

    The files in the directory of the index go.  The directory, the registered
    index and what its server holds stay. *)
Definition index_files fs (root name : string) : list string :=
  fs_append (index_path root name)
    <$> sorted_elements String.le (default ∅ (fs_entries fs !! index_path root name)).
Definition unlink_all (t : double) (paths : list string) fs : FileSystem :=
  foldl (λ fs p, (fs_exec t 0 (FUnlink p) fs).2) fs paths.

(** ** The calls *)

Inductive vsfs_step (t : double) : vsfs_op → Vsfs I → vsfs_answer → Vsfs I → Prop :=
  | step_file o oid v a fs' :
      id_ok owner o oid (v_tree v) → fs_exec t oid o (v_tree v) = (a, fs') →
      vsfs_step t (FileCall o) v (FileAnswer a) (with_files v fs')
  | step_make_refused root name key_type mode uid gid v status :
      make_refused v root name = Some status →
      vsfs_step t (MakeIndex root name key_type mode uid gid) v (Replied status) v
  | step_make root name key_type mode uid gid v oid index :
      make_refused v root name = None → create_range_index key_type = Some index →
      id_ok owner (part_file root name uid gid) oid (index_dirs t root name mode uid gid (v_tree v)) →
      vsfs_step t (MakeIndex root name key_type mode uid gid) v (Replied OK)
        (make_index t oid root name mode uid gid index v)
  | step_remove_missing root name v :
      fs_entries (v_tree v) !! index_path root name = None →
      vsfs_step t (RemoveIndex root name) v (Replied (refused ENOENT)) v
  | step_remove root name v :
      is_Some (fs_entries (v_tree v) !! index_path root name) →
      vsfs_step t (RemoveIndex root name) v (Replied OK)
        (with_files v (unlink_all t (index_files (v_tree v) root name) (v_tree v)))
  | step_index o v out paths ix' :
      index_call v o = Some (out, ix') → paths ≡ₚ out →
      vsfs_step t (IndexCall o) v (Found OK paths) (with_indices v ix').

(** The contract of the callers.  Calls on files are in their contract, and
    leave the directories of indices alone.  An index is made on a directory
    below the root that is in no [.vsfs] directory, and nothing has the paths of
    its directory and of its partition; where one is removed, its directory holds
    nothing but files.  The files of an update have an index above them that
    takes the updates, and its tasks run each once. *)
Definition vsfs_ok (op : vsfs_op) v : Prop :=
  match op with
  | FileCall o => FileSystem.op_ok o (v_tree v) ∧ visible (hidden v) o
  | MakeIndex root name key_type mode _ _ =>
      root ≠ "/" ∧ index_root root ∧ plain_name name ∧
      (make_refused v root name = None →
       mkdir_mode mode ∧ is_Some (create_range_index (I := I) key_type) ∧
       fs_nodes (v_tree v) !! index_path root name = None ∧
       fs_nodes (v_tree v) !! index_part root name = None)
  | RemoveIndex root name =>
      starts_with "/" (index_path root name) = true ∧
      ∀ p, p ∈ index_files (v_tree v) root name →
        FileSystem.op_ok (FUnlink p) (v_tree v) ∧ visible (hidden v) (FUnlink p)
  | IndexCall (Update requests order) =>
      order ≡ₚ seq 0 (length (batches batch_size new_task requests)) ∧
      (∀ r, r ∈ requests →
         nearest (tree_attrs (v_tree v)) fuel (parent_of r) (req_index_name r)
           (nearest_root fuel (v_tree v) (parent_of r) (req_index_name r))) ∧
      is_Some (index_call v (Update requests order))
  | IndexCall (Search _) => True
  end.

(** *** Programs *)

(** A client that looks at the answer of a call before it goes on.  Between its
    calls the master at an address may crash and come back, with a counter of
    ids that is [jump] beyond the old one. *)
Inductive program :=
  | Stop
  | Do (t : double) (op : vsfs_op) (next : vsfs_answer → program)
  | CrashMaster (a : RpcNodeAddress) (self : NodeInfo) (jump : nat) (r1 r2 : Z) (next : program).

Inductive vsfs_run : program → Vsfs I → list vsfs_answer → Vsfs I → Prop :=
  | run_stop v : vsfs_run Stop v [] v
  | run_do t op next v a v1 answers v' :
      vsfs_step t op v a v1 → vsfs_run (next a) v1 answers v' →
      vsfs_run (Do t op next) v (a :: answers) v'
  | run_crash a self jump r1 r2 next v answers v' :
      vsfs_run next v answers v' → vsfs_run (CrashMaster a self jump r1 r2 next) v answers v'.

(** Calls and skipped ids are [k] together at most, and each call is in the
    contract whatever the answers before it. *)
Fixpoint program_ok (k : nat) (prog : program) v : Prop :=
  match prog with
  | Stop => True
  | Do t op next =>
      match k with
      | 0 => False
      | S k => vsfs_ok op v ∧ ∀ a v', vsfs_step t op v a v' → program_ok k (next a) v'
      end
  | CrashMaster _ _ jump r1 r2 next =>
      jump ≤ k ∧ rand_value r1 ∧ rand_value r2 ∧ program_ok (k - jump) next v
  end.

(** ** The tree and the indices fit each other *)

Record vsfs_wf v : Prop := {
  vw_tree : tree_wf_but (hidden v) (v_tree v);
  vw_bits : given_bits (v_tree v);
  vw_once : given_once (v_tree v);
  vw_registry root name : (root, name) ∈ v_registry v →
    index_root root ∧ plain_name name ∧ is_Some (v_indices v !! index_part root name);
}.
End spec.

Section wf.
Context {I : Type} `{!RangeIndexInterface I, !RangeIndexInterfaceSpec I}.
Context `{!VoblaStatus, !BoostFilesystem, !BoostFilesystemSpec, !MD5}.
Context {A : Type} (owner : string → A) (Haligned : aligned owner) (batch_size fuel : nat).
Implicit Types (v : Vsfs I) (fs : FileSystem).

(** *** Finding a file by its id *)

Lemma tree_find_file hidden fs p m :
  tree_wf_but hidden fs → given_once fs →
  fs_nodes fs !! p = Some m → is_dir m = false → tree_find fs (md_object_id m) = p.
Proof.
  intros Hwf Honce Hp Hf. unfold tree_find.
  destruct (list_find (has_id (md_object_id m)) (map_to_list (fs_nodes fs))) as [[i [q mq]]|] eqn:Hfind; simpl.
  - apply list_find_Some in Hfind as (Hq&[Hd Hid]&_). simpl in *.
    apply list_elem_of_lookup_2, elem_of_map_to_list in Hq. by eapply file_ids_unique.
  - exfalso. apply list_find_None in Hfind. rewrite Forall_forall in Hfind.
    apply (Hfind (p, m)); [by apply elem_of_map_to_list|done].
Qed.

Lemma tree_find_none fs oid :
  (∀ p m, fs_nodes fs !! p = Some m → is_dir m = false → md_object_id m ≠ oid) → tree_find fs oid = "".
Proof.
  intros Hno. unfold tree_find. destruct (list_find _ _) as [[i [q mq]]|] eqn:Hfind; [|done].
  apply list_find_Some in Hfind as (Hq&[Hd Hid]&_). simpl in *.
  apply list_elem_of_lookup_2, elem_of_map_to_list in Hq. by destruct (Hno q mq).
Qed.

(** *** Making an index *)

(** The paths of an index: the directory of its root, its own, its partition. *)
Lemma index_paths root name :
  dir_path root → root ≠ "/" → plain_name name →
  dir_path (vsfs_dir root) ∧ dir_path (index_path root name) ∧
  vsfs_dir root = fs_append root ".vsfs" ∧ index_path root name = fs_append (vsfs_dir root) name ∧
  index_part root name = fs_append (index_path root name) "0".
Proof.
  intros [?|[Hr Hs]] Hne Hn; [done|].
  assert (vsfs_dir root = fs_append root ".vsfs") as Hv.
  { unfold vsfs_dir. rewrite fs_append_dir by auto using plain_name_vsfs. done. }
  assert (plain_dir (vsfs_dir root)) as Hp by (apply plain_dir_app; [done|apply plain_name_vsfs]).
  assert (starts_with "/" (vsfs_dir root) = true) as Hsv.
  { apply starts_with_spec in Hs as [s ->]. apply starts_with_spec. exists (s +:+ "/.vsfs").
    unfold vsfs_dir. by rewrite str_app_assoc. }
  assert (index_path root name = vsfs_dir root +:+ "/" +:+ name) as Hi.
  { unfold index_path. rewrite <-Hv. by apply fs_append_dir. }
  assert (plain_dir (index_path root name)) as Hpi by (rewrite Hi; by apply plain_dir_app).
  split_and!; [by right| |done|by rewrite Hi, fs_append_dir|].
  - right. split; [done|]. rewrite Hi. apply starts_with_spec in Hsv as [s ->]. apply starts_with_spec.
    exists (s +:+ "/" +:+ name). by rewrite str_app_assoc.
  - unfold index_part. by rewrite fs_append_dir.
Qed.

Lemma index_paths_differ root name :
  dir_path root → root ≠ "/" → plain_name name →
  index_path root name ≠ vsfs_dir root ∧ index_part root name ≠ vsfs_dir root ∧
  index_part root name ≠ index_path root name.
Proof.
  intros Hr Hne Hn. destruct (index_paths root name Hr Hne Hn) as (Hv&Hi&Ev&Ei&Ep).
  assert (plain_name "0") as Hz by done. pose proof plain_name_vsfs as Hvs.
  assert (index_path root name ≠ vsfs_dir root) as Hiv.
  { rewrite Ei. intros He. rewrite Ev in He at 2. apply fs_append_inj in He as [He _]; [|done..].
    apply (f_equal String.length) in He. unfold vsfs_dir in He. rewrite str_length_app in He. simpl in He. lia. }
  split_and!; [done|..].
  - rewrite Ep, Ev. intros [_ ?]%fs_append_inj; done.
  - rewrite Ep. intros He. rewrite Ei in He at 2. by apply fs_append_inj in He as [He _].
Qed.

Lemma mkdir_other t p mode uid gid fs q :
  q ≠ p → fs_nodes (fs_exec t 0 (FMkdir p mode uid gid) fs).2 !! q = fs_nodes fs !! q.
Proof.
  intros Hne. simpl. destruct (fs_nodes fs !! p); [done|]. simpl. unfold add_name.
  rewrite edit_parent_nodes. simpl. by rewrite lookup_insert_ne.
Qed.

Lemma index_dirs_nodes t root name mode uid gid fs :
  fs_nodes (index_dirs t root name mode uid gid fs)
  = <[index_path root name := new_dir mode uid gid t]>
      (fs_nodes (fs_exec t 0 (FMkdir (vsfs_dir root) mode uid gid) fs).2).
Proof. done. Qed.

Lemma index_dirs_given t root name mode uid gid fs :
  fs_given (index_dirs t root name mode uid gid fs) = fs_given fs.
Proof.
  unfold index_dirs. simpl. destruct (fs_nodes fs !! vsfs_dir root); [done|]. simpl.
  unfold add_name. by rewrite edit_parent_given.
Qed.

(** What holds at each step of the making of an index. *)
Record making t v root name mode uid gid : Prop := {
  mk_root : ∃ m, fs_nodes (v_tree v) !! root = Some m ∧ is_dir m = true;
  mk_new : v_indices v !! index_part root name = None;
  mk_vsfs : FileSystem.op_ok (FMkdir (vsfs_dir root) mode uid gid) (v_tree v);
  mk_vsfs_wf : tree_wf_but (hidden v) (fs_exec t 0 (FMkdir (vsfs_dir root) mode uid gid) (v_tree v)).2;
  mk_path : tree_path (index_path root name);
  mk_free : fs_nodes (fs_exec t 0 (FMkdir (vsfs_dir root) mode uid gid) (v_tree v)).2
              !! index_path root name = None;
  mk_wf hidden' : (∀ q, hidden' q ↔ hidden v q ∨ q = index_path root name) →
    tree_wf_but hidden' (index_dirs t root name mode uid gid (v_tree v));
  mk_part : FileSystem.op_ok (part_file root name uid gid) (index_dirs t root name mode uid gid (v_tree v));
  mk_part_free : fs_nodes (index_dirs t root name mode uid gid (v_tree v)) !! index_part root name = None;
}.

Lemma index_root_dir v root m :
  vsfs_wf v → index_root root → root ≠ "/" → fs_nodes (v_tree v) !! root = Some m → dir_path root.
Proof.
  intros Hwf [?|[Hp _]] Hne Hm; [done|]. right. split; [done|]. apply tree_path_absolute.
  apply (tw_paths _ (vw_tree _ Hwf)). eauto.
Qed.

Lemma making_index t v root name key_type mode uid gid :
  vsfs_wf v → vsfs_ok batch_size fuel (MakeIndex root name key_type mode uid gid) v →
  make_refused v root name = None → making t v root name mode uid gid.
Proof.
  intros Hwf (Hne&Hroot&Hname&Hok) Hr. destruct (Hok Hr) as (Hmode&_&Hfree&Hfreep).
  unfold make_refused in Hr. destruct (fs_nodes (v_tree v) !! root) as [m|] eqn:Hm; [|done].
  destruct (is_dir m) eqn:Hd; [|done].
  destruct (v_indices v !! index_part root name) eqn:Hix; [done|].
  pose proof (index_root_dir v root m Hwf Hroot Hne Hm) as Hdir.
  destruct (index_paths root name Hdir Hne Hname) as (Hv&Hi&Ev&Ei&Ep).
  destruct (index_paths_differ root name Hdir Hne Hname) as (D1&D2&D3).
  assert (FileSystem.op_ok (FMkdir (vsfs_dir root) mode uid gid) (v_tree v)) as Hop.
  { split_and!; [|done|].
    - right. exists root, ".vsfs". split_and!; [done|apply plain_name_vsfs|done].
    - intros _. right. rewrite Ev.
      rewrite (proj1 (fs_split_append root ".vsfs" Hdir plain_name_vsfs)).
      apply (tw_dirs _ (vw_tree _ Hwf)). eauto. }
  assert (tree_path (index_path root name)) as Hpath by (right; by exists (vsfs_dir root), name).
  assert (tree_wf_but (hidden v) (fs_exec t 0 (FMkdir (vsfs_dir root) mode uid gid) (v_tree v)).2) as Hwf1.
  { by apply fs_exec_wf; [apply Hwf|..]. }
  assert (fs_nodes (fs_exec t 0 (FMkdir (vsfs_dir root) mode uid gid) (v_tree v)).2
            !! index_path root name = None) as Hfree1 by by rewrite mkdir_other.
  split; try done; [by eauto| | |].
  - intros hidden' Hh. apply (hide_wf (hidden := hidden v)); [done..| |done]. by apply new_dir_type.
  - split_and!.
    + rewrite Ep. by apply fs_append_not_root.
    + right. by exists (index_path root name), "0".
    + intros _. right. rewrite Ep. rewrite (proj1 (fs_split_append (index_path root name) "0" Hi ltac:(done))).
      simpl. rewrite lookup_insert_eq. eauto.
  - rewrite index_dirs_nodes, lookup_insert_ne by done. by rewrite mkdir_other.
Qed.

(** *** Removing files one after the other *)

(** The files of the list are there, each once. *)
Definition removable hidden fs (paths : list string) : Prop :=
  NoDup paths ∧ ∀ p, p ∈ paths → FileSystem.op_ok (FUnlink p) fs ∧ ¬ hidden p.

Lemma removable_cons t hidden fs p paths :
  removable hidden fs (p :: paths) →
  FileSystem.op_ok (FUnlink p) fs ∧ ¬ hidden p ∧ removable hidden (fs_exec t 0 (FUnlink p) fs).2 paths.
Proof.
  intros [[Hp Hnd]%NoDup_cons Hok]. destruct (Hok p) as [Hop Hvis]; [left|]. split_and!; [done..|].
  split; [done|]. intros q Hq. destruct (Hok q) as [(m&Hm&Hf&Hne) Hv]; [by right|]. split; [|done].
  exists m. split_and!; [|done..]. destruct Hop as (m'&Hm'&Hf'&_). simpl. rewrite Hm', Hf'. simpl.
  unfold drop_name. rewrite edit_parent_nodes, lookup_delete_ne; [done|]. by intros ->.
Qed.

Lemma unlink_given t p fs : fs_given (fs_exec t 0 (FUnlink p) fs).2 = fs_given fs.
Proof. simpl. repeat case_match; simpl; unfold drop_name; by rewrite ?edit_parent_given. Qed.

Lemma unlink_all_wf t hidden paths fs :
  tree_wf_but hidden fs → removable hidden fs paths →
  tree_wf_but hidden (unlink_all t paths fs) ∧ fs_given (unlink_all t paths fs) = fs_given fs.
Proof.
  revert fs. induction paths as [|p paths IH]; intros fs Hwf Hr; [done|].
  apply (removable_cons t) in Hr as (Hop&Hvis&Hr).
  destruct (IH (fs_exec t 0 (FUnlink p) fs).2) as [? Hg]; [by apply fs_exec_wf|done|].
  split; [done|]. etrans; [exact Hg|]. apply unlink_given.
Qed.

Lemma index_files_removable v root name :
  vsfs_wf v → vsfs_ok batch_size fuel (RemoveIndex root name) v →
  removable (hidden v) (v_tree v) (index_files (v_tree v) root name).
Proof.
  intros Hwf [_ Hok]. split; [|exact Hok]. unfold index_files.
  destruct (fs_entries (v_tree v) !! index_path root name) as [subs|] eqn:Hs; simpl; [|by constructor].
  apply NoDup_fmap_2_strong; [|apply NoDup_sorted_elements].
  assert (∀ n, n ∈ sorted_elements String.le subs → dir_path (index_path root name) ∧ plain_name n) as Hn.
  { intros n Hn%elem_of_sorted_elements. apply (tw_names _ (vw_tree _ Hwf)). by exists subs. }
  intros x y Hx%Hn Hy%Hn [_ ?]%fs_append_inj; tauto.
Qed.

(** *** Every call in the contract keeps the state well formed *)

Lemma make_index_wf t v root name key_type mode uid gid oid (index : I) :
  vsfs_wf v → vsfs_ok batch_size fuel (MakeIndex root name key_type mode uid gid) v →
  make_refused v root name = None →
  id_ok owner (part_file root name uid gid) oid (index_dirs t root name mode uid gid (v_tree v)) →
  vsfs_wf (make_index t oid root name mode uid gid index v).
Proof.
  intros Hwf Hok Hr Hid. pose proof (making_index t _ _ _ _ _ _ _ Hwf Hok Hr) as Hm.
  destruct Hok as (_&Hroot&Hname&_).
  destruct (exec_ids owner Haligned t oid _ _ Hid) as [Hb Ho].
  { intros p i. rewrite index_dirs_given. apply (vw_bits _ Hwf). }
  { intros p q i. rewrite index_dirs_given. apply (vw_once _ Hwf). }
  split; [|exact Hb|exact Ho|].
  - apply fs_exec_wf; [|by eapply mk_part|done]. eapply mk_wf; [exact Hm|]. intros q. unfold hidden. simpl.
    set_solver.
  - simpl. intros root' name' [[= -> ->]%elem_of_singleton|Hin]%elem_of_union.
    + split_and!; [done..|]. rewrite lookup_insert_eq. eauto.
    + destruct (vw_registry _ Hwf _ _ Hin) as (?&?&?). split_and!; [done..|].
      rewrite lookup_insert. case_decide; eauto.
Qed.

Lemma index_call_dom v o out ix' part :
  index_call batch_size fuel v o = Some (out, ix') → is_Some (ix' !! part) ↔ is_Some (v_indices v !! part).
Proof.
  unfold index_call, call_spec. destruct o as [requests order|q]; [|by intros [= <- <-]].
  destruct (spec_updates _ _) as [ix1|] eqn:Hu; [|done]. intros [= <- <-]. by eapply spec_updates_dom.
Qed.

Lemma vsfs_step_wf t op v a v' :
  vsfs_step owner batch_size fuel t op v a v' → vsfs_wf v → vsfs_ok batch_size fuel op v → vsfs_wf v'.
Proof.
  intros [o oid v0 a0 fs' Hid He|root name kt mode uid gid v0 st Hr
    |root name kt mode uid gid v0 oid index Hr Hc Hid|root name v0 Hnone|root name v0 Hsome
    |o v0 out paths ix' Hcall Hpaths] Hwf Hok; [|done| |done| |].
  - destruct Hok as [Hok Hvis]. destruct (exec_ids owner Haligned t oid o _ Hid (vw_bits _ Hwf) (vw_once _ Hwf)).
    replace fs' with (fs_exec t oid o (v_tree v0)).2 by by rewrite He.
    split; simpl; [|done|done|apply (vw_registry _ Hwf)]. by apply fs_exec_wf; [apply Hwf|..].
  - by eapply make_index_wf.
  - destruct (unlink_all_wf t (hidden v0) _ _ (vw_tree _ Hwf) (index_files_removable _ _ _ Hwf Hok)) as [Ht Hg].
    split; simpl; [exact Ht|unfold given_bits|unfold given_once|apply (vw_registry _ Hwf)]; rewrite Hg; apply Hwf.
  - destruct Hwf as [Ht Hb Ho Hreg]. split; simpl; [exact Ht|exact Hb|exact Ho|].
    intros root name Hin. destruct (Hreg _ _ Hin) as (?&?&?). split_and!; [done..|].
    by eapply index_call_dom.
Qed.

Lemma vsfs_run_wf k prog v answers v' :
  vsfs_run owner batch_size fuel prog v answers v' → vsfs_wf v → program_ok owner batch_size fuel k prog v →
  vsfs_wf v'.
Proof.
  intros Hrun. revert k. induction Hrun as [v|t op next v a v1 answers v' Hstep Hrun IH
    |a self jump r1 r2 next v answers v' Hrun IH]; intros k Hwf Hok; [done| |].
  - destruct k as [|k]; [done|]. destruct Hok as [Hop Hnext].
    apply (IH k); [by eapply vsfs_step_wf|by eapply Hnext].
  - destruct Hok as (_&_&_&Hok). by eapply IH.
Qed.
End wf.
