(* ===== verification/ClusterFiles.v ===== *)
(** * A whole cluster implements one file system

    Any number of masters, each with the files and directories that the
    client's ring gives it: a run of the client's calls on them answers what the
    same run answers on the single tree of [FileSystem].  The simulation goes
    through the client (its ring, its retry loops, the two calls of an update of
    the tree), the RPC handlers and the namespaces with their stores. *)

From S2P Require Import Prelude CxxString Platform PathUtil ThriftUtils KVStore RangeIndex IndexManager.
From S2P Require Import PartitionManager IndexNamespace Namespace FileSystem MasterController Restart.
From S2P Require Import ServerMap ComplexQuery Client ClientIndex Cluster.

(** ** The calls of a client on a cluster *)

Section run.
Context {S P R I : Type} `{!KeyValueStore S, !ConsistentHashMap P string, !ConsistentHashMap R NodeInfo}.
Context `{!RangeIndexInterface I, !VoblaStatus, !MD5, !BoostFilesystem}.
Context `{!ThriftCodec FileMetadata, !ThriftCodec IndexNamespaceNode, !ThriftCodec IndexConsistentHashRing}.

Abbreviation world := (Cluster S P R I).

(** The clock of the masters moves on between the calls. *)
Definition at_time (w : world) (t : double) : world :=
  {| master_nodes := master_nodes w; index_nodes := index_nodes w; now := t |}.

Definition answer_of {A} (f : Status → option A → fs_answer) (r : Status * option A * world)
    : fs_answer * world :=
  let '(status, a, w) := r in (f status a, w).
Definition done_answer {A} (status : Status) (_ : option A) : fs_answer := ADone status.

Definition run_op (fuel : nat) (c : VSFSRpcClient R) (o : fs_op) (w : world) : late (fs_answer * world) :=
  match o with
  | FCreate p mode uid gid =>
      AWAIT r ⇐ Client.create fuel c p mode uid gid w;; ends (answer_of AnId r)
  | FUnlink p => AWAIT r ⇐ Client.unlink fuel c p w;; ends (answer_of AnId r)
  | FMkdir p mode uid gid =>
      AWAIT (status, w') ⇐ Client.mkdir fuel c p mode uid gid w;; ends (ADone status, w')
  | FRmdir p => AWAIT (status, w') ⇐ Client.rmdir fuel c p w;; ends (ADone status, w')
  | FReaddir p => AWAIT r ⇐ Some (Client.readdir c p w);; ends (answer_of TheNames r)
  | FGetattr p => AWAIT r ⇐ Some (Client.getattr c p w);; ends (answer_of TheInfo r)
  | FSetattr p info => AWAIT r ⇐ Some (Client.setattr c p info w);; ends (answer_of done_answer r)
  | FObjectId p => AWAIT r ⇐ Some (Client.object_id c p w);; ends (answer_of AnId r)
  end.

(** A client's call, or the crash of the master at an address: a new process
    on the same stores, whose counter of ids starts [jump] beyond where the old
    one stopped. *)
Inductive event :=
  | Call (t : double) (o : fs_op)
  | Crash (a : RpcNodeAddress) (self : NodeInfo) (jump : nat) (r1 r2 : Z).

Context (disk : S → S) (indeterminate : Z).

Definition restart_at (a : RpcNodeAddress) (self : NodeInfo) (jump : nat) (r1 r2 : Z) (w : world) : world :=
  match master_nodes w !! a with
  | None => w
  | Some mc =>
      set_master w a
        match restart disk indeterminate mc self (next_obj_id_ (namespace_ mc) + Z.of_nat jump) r1 r2 with
        | Done (status, mc') => if ok status then Some mc' else None
        | Fatal _ => None
        end
  end.

Fixpoint run_events (fuel : nat) (c : VSFSRpcClient R) (evs : list event) (w : world)
    : late (list fs_answer * world) :=
  match evs with
  | [] => ends ([], w)
  | Call t o :: evs' =>
      AWAIT (answer, w1) ⇐ run_op fuel c o (at_time w t);;
      AWAIT (answers, w') ⇐ run_events fuel c evs' w1;;
      ends (answer :: answers, w')
  | Crash a self jump r1 r2 :: evs' => run_events fuel c evs' (restart_at a self jump r1 r2 w)
  end.
End run.

(** The calls of a run: its crashes are invisible. *)
Definition calls_of (evs : list event) : list (double * fs_op) :=
  omap (λ e, match e with Call t o => Some (t, o) | Crash _ _ _ _ _ => None end) evs.
(** The ids a run may use up or skip. *)
Definition budget (evs : list event) : nat :=
  sum_list_with (λ e, match e with Call _ _ => 1 | Crash _ _ jump _ _ => jump end) evs.
Definition crashes_ok (evs : list event) : Prop :=
  Forall (λ e, match e with Call _ _ => True | Crash _ _ _ r1 r2 => rand_value r1 ∧ rand_value r2 end) evs.

(** ** One namespace *)

Section namespaces.
Context {S : Type} `{!KeyValueStore S, !KeyValueStoreSpec S, !VoblaStatus, !MD5}.
Context `{!BoostFilesystem, !BoostFilesystemSpec}.
Context `{!ThriftCodec FileMetadata, !ThriftCodecSpec FileMetadata}.

(** Open stores take every write. *)
Record reliable : Prop := {
  rl_put (s : S) k v st s' : kv_opened s → kv_put s k v = Done (st, s') → ok st = true;
  rl_remove (s : S) k st s' : kv_opened s → kv_remove s k = Done (st, s') → ok st = true;
}.
Context (Hrel : reliable).
Implicit Types (ns : Namespace S).

(** The ids [used] come from the counters between [first] and [next]. *)
Definition counted (used : Z → Prop) (first next : Z) : Prop :=
  ∀ i, used i → ∃ c, (first ≤ c < next ∧ i mod 2 ^ 48 = c mod 2 ^ 48)%Z.

(** A namespace that has given out the ids [used], and can still give an id to
    [k] new files. *)
Definition good (k : nat) (used : Z → Prop) ns : Prop :=
  ns_wf ns ∧ ∃ first, ids_since first ns ∧ counted used first (next_obj_id_ ns) ∧ (- 2 ^ 63 ≤ first)%Z ∧
    (next_obj_id_ ns + Z.of_nat k - first < 2 ^ 48)%Z ∧ (next_obj_id_ ns + Z.of_nat k < 2 ^ 63)%Z.

(** The tables of two namespaces differ at [p] at most. *)
Definition same_but (p : string) ns ns' : Prop :=
  ∀ q, q ≠ p → metadata_map_ ns' !! q = metadata_map_ ns !! q ∧
               directories_ ns' !! q = directories_ ns !! q.

Lemma good_le k k' used used' ns :
  k' ≤ k → (∀ i, used' i → used i) → good k used ns → good k' used' ns.
Proof.
  intros Hk Hu (Hwf&first&Hids&Hc&?&?&?). split; [done|]. exists first.
  split_and!; [done|by intros i ?%Hu%Hc|lia..].
Qed.

Lemma good_call k used ns ns' :
  good k used ns → ns_wf ns' → ns_call ns ns' → next_obj_id_ ns' = next_obj_id_ ns → good k used ns'.
Proof.
  intros (_&first&Hids&Hu&?&?&?) Hwf Hc Hn. split; [done|]. exists first.
  rewrite Hn. split_and!; [by eapply ns_call_ids|done..].
Qed.

(** The id computed next is new. *)
Lemma counter_is_new (used : Z → Prop) first next k path :
  counted used first next → (next + Z.of_nat (Datatypes.S k) - first < 2 ^ 48)%Z →
  ¬ used (object_id_of path next).
Proof.
  intros Hc Hlt (c&?&Hmod)%Hc. rewrite object_id_low in Hmod.
  assert ((next - c) mod 2 ^ 48 = 0)%Z as Hz by by rewrite Zminus_mod, Hmod, Z.sub_diag.
  rewrite Z.mod_small in Hz; lia.
Qed.

Lemma fresh_id k used ns path :
  good (Datatypes.S k) used ns →
  let oid := object_id_of path (next_obj_id_ ns) in id_to_path_map_ ns !! oid = None ∧ ¬ used oid.
Proof.
  intros (_&first&[Hle Hids]&Hu&?&?&?) oid. split; [|by eapply counter_is_new].
  apply eq_None_not_Some. intros Hs.
  by apply (counter_is_new (λ i, is_Some (id_to_path_map_ ns !! i)) first (next_obj_id_ ns) k path);
    [intros i [q Hq]; eapply Hids| |].
Qed.

Lemma good_create k used ns path mode uid gid t :
  good (Datatypes.S k) used ns → starts_with "/" path = true → metadata_map_ ns !! path = None →
  let oid := object_id_of path (next_obj_id_ ns) in
  ∃ st ns', Namespace.create ns path mode uid gid t = Done (st, oid, ns') ∧ ok st = true ∧
    good k (λ i, i = oid ∨ used i) ns' ∧ same_but path ns ns' ∧
    directories_ ns' !! path = directories_ ns !! path ∧
    metadata_map_ ns' !! path = Some (new_metadata (Z.lor mode S_IFREG) uid gid t oid).
Proof.
  intros Hg Habs Hm oid. destruct (fresh_id k used ns path Hg) as [Hfresh _].
  destruct Hg as (Hwf&first&Hids&Hu&?&?&?).
  assert (∃ st ns', Namespace.create ns path mode uid gid t = Done (st, oid, ns')) as (st&ns'&Hc).
  { unfold Namespace.create, get_object_id, int64_ret. rewrite Hm.
    assert (in_int64 (next_obj_id_ ns + 1) = true) as ->.
    { apply bool_decide_eq_true. unfold int64_min, int64_max. destruct Hids. lia. }
    simpl. rewrite Hfresh, bool_decide_eq_false_2 by done. simpl. unfold store_metadata.
    match goal with |- context [kv_put ?s ?k ?v] =>
      destruct (kv_put_spec s k v (wf_opened _ Hwf)) as (st&s'&Hput&_); rewrite Hput end. simpl.
    rewrite (rl_put Hrel _ _ _ _ _ (wf_opened _ Hwf) Hput). by do 2 eexists. }
  exists st, ns'. pose proof (create_wf _ _ _ _ _ _ _ _ _ Hwf Habs Hfresh Hc) as Hwf'.
  assert (ids_since first ns') as Hids' by (eapply ns_call_ids; [exact Hids|by eapply call_create]).
  apply create_inv in Hc as Hinv. destruct Hinv as [([? ?]&_)|(s&_&Hok&_&_&Hns)]; [congruence|].
  rewrite Hns. split_and!; [by rewrite <-Hns|done| | |done|simpl; by rewrite lookup_insert_eq].
  - rewrite <-Hns. split; [done|]. exists first. rewrite Hns in *. simpl in *.
    split_and!; [done| |lia..]. intros i [->|(c&?&?)%Hu]; [|exists c; split; [lia|done]].
    exists (next_obj_id_ ns). destruct Hids as [? _]. split; [lia|apply object_id_low].
  - intros q Hq. simpl. by rewrite lookup_insert_ne.
Qed.

Lemma good_remove k used ns path m :
  good k used ns → metadata_map_ ns !! path = Some m → is_dir m = false →
  ∃ ns', Namespace.remove ns path = Done (OK, Some (md_object_id m), ns') ∧
    good k used ns' ∧ same_but path ns ns' ∧ directories_ ns' !! path = directories_ ns !! path ∧
    metadata_map_ ns' !! path = None.
Proof.
  intros Hg Hm Hf. pose proof Hg as [Hwf _].
  assert (∃ st oid ns', Namespace.remove ns path = Done (st, oid, ns') ∧ ok st = true) as (st&oid&ns'&Hc&Hok).
  { unfold Namespace.remove. rewrite Hm, Hf.
    destruct (kv_remove_spec (store_ ns) path (wf_opened _ Hwf)) as (st&s'&Hrm&_). rewrite Hrm. simpl.
    rewrite (rl_remove Hrel _ _ _ _ (wf_opened _ Hwf) Hrm).
    rewrite (wf_files _ Hwf path m Hm Hf), bool_decide_eq_true_2 by done. by do 3 eexists. }
  pose proof (remove_wf _ _ _ _ _ Hwf Hc) as Hwf'.
  apply remove_inv in Hc as Hinv.
  destruct Hinv as [(?&_)|(m'&s&Hm'&_&->&->&_&_&Hns)]; [congruence|].
  rewrite Hm in Hm'. injection Hm' as <-. exists ns'. split_and!; [done| |rewrite Hns..].
  - eapply good_call; [done|done|by eapply call_remove|by rewrite Hns].
  - intros q Hq. simpl. by rewrite lookup_delete_ne.
  - done.
  - simpl. by rewrite lookup_delete_eq.
Qed.

Lemma good_mkdir k used ns path mode uid gid t :
  good k used ns → starts_with "/" path = true → mkdir_mode mode → metadata_map_ ns !! path = None →
  ∃ ns', Namespace.mkdir ns path mode uid gid t = Done (OK, ns') ∧
    good k used ns' ∧ same_but path ns ns' ∧ directories_ ns' !! path = Some ∅ ∧
    metadata_map_ ns' !! path = Some (new_metadata (wrap_int32 (Z.lor mode S_IFDIR)) uid gid t 0).
Proof.
  intros Hg Habs Hmode Hm. pose proof Hg as [Hwf _].
  assert (∃ st ns', Namespace.mkdir ns path mode uid gid t = Done (st, ns') ∧ ok st = true) as (st&ns'&Hc&Hok).
  { unfold Namespace.mkdir, store_metadata. rewrite Hm. simpl.
    match goal with |- context [kv_put ?s ?k ?v] =>
      destruct (kv_put_spec s k v (wf_opened _ Hwf)) as (st&s'&Hput&_); rewrite Hput end. simpl.
    rewrite (rl_put Hrel _ _ _ _ _ (wf_opened _ Hwf) Hput). by do 2 eexists. }
  pose proof (mkdir_wf _ _ _ _ _ _ _ _ Hwf Habs Hmode Hc) as Hwf'.
  destruct (mkdir_inv _ _ _ _ _ _ _ _ Hwf Hc) as [(?&_)|(s&st'&_&_&->&_&_&Hns)]; [congruence|].
  exists ns'. split_and!; [done| |rewrite Hns..].
  - eapply good_call; [done|done|by eapply call_mkdir|by rewrite Hns].
  - intros q Hq. simpl. by rewrite !lookup_insert_ne.
  - simpl. by rewrite lookup_insert_eq.
  - simpl. by rewrite lookup_insert_eq.
Qed.

Lemma good_rmdir k used ns path :
  good k used ns → directories_ ns !! path = Some ∅ →
  ∃ ns', Namespace.rmdir ns path = Done (OK, ns') ∧
    good k used ns' ∧ same_but path ns ns' ∧ directories_ ns' !! path = None ∧ metadata_map_ ns' !! path = None.
Proof.
  intros Hg Hd. pose proof Hg as [Hwf _].
  assert (∃ st ns', Namespace.rmdir ns path = Done (st, ns') ∧ ok st = true) as (st&ns'&Hc&Hok).
  { unfold Namespace.rmdir. rewrite Hd, bool_decide_eq_true_2 by done.
    destruct (kv_remove_spec (store_ ns) path (wf_opened _ Hwf)) as (st&s'&Hrm&_). rewrite Hrm. simpl.
    rewrite (rl_remove Hrel _ _ _ _ (wf_opened _ Hwf) Hrm). by do 2 eexists. }
  pose proof (rmdir_wf _ _ _ _ Hwf Hc) as Hwf'.
  destruct (rmdir_inv _ _ _ _ Hwf Hc) as [(?&_)|(s&_&->&_&_&Hns)]; [congruence|].
  exists ns'. split_and!; [done| |rewrite Hns..].
  - eapply good_call; [done|done|by eapply call_rmdir|by rewrite Hns].
  - intros q Hq. simpl. by rewrite !lookup_delete_ne.
  - simpl. by rewrite lookup_delete_eq.
  - simpl. by rewrite lookup_delete_eq.
Qed.

Lemma good_add_subfile k used ns parent name subs :
  good k used ns → dir_path parent → plain_name name →
  directories_ ns !! parent = Some subs → name ∉ subs →
  ∃ st ns', Namespace.add_subfile ns parent name = Done (st, ns') ∧ ok st = true ∧
    good k used ns' ∧ same_but parent ns ns' ∧ directories_ ns' !! parent = Some ({[name]} ∪ subs) ∧
    metadata_map_ ns' !! parent = metadata_map_ ns !! parent.
Proof.
  intros Hg Hp Hn Hd Hin. pose proof Hg as [Hwf _].
  assert (∃ s, Namespace.add_subfile ns parent name
    = Done (OK, with_directories (with_store ns s) (<[parent:={[name]} ∪ subs]> (directories_ ns)))) as [s Hc].
  { unfold Namespace.add_subfile. rewrite Hd, bool_decide_eq_false_2 by done.
    match goal with |- context [kv_put ?s ?k ?v] =>
      destruct (kv_put_spec s k v (wf_opened _ Hwf)) as (st&s'&Hput&_); rewrite Hput end. simpl.
    rewrite (rl_put Hrel _ _ _ _ _ (wf_opened _ Hwf) Hput). by eexists. }
  do 2 eexists. split_and!; [exact Hc|done| | | |done].
  - eapply good_call; [done|by eapply add_subfile_wf|by eapply call_add_subfile|done].
  - intros q Hq. simpl. by rewrite lookup_insert_ne.
  - simpl. by rewrite lookup_insert_eq.
Qed.

Lemma good_remove_subfile k used ns parent name subs :
  good k used ns → directories_ ns !! parent = Some subs → name ∈ subs →
  ∃ st ns', Namespace.remove_subfile ns parent name = Done (st, ns') ∧ ok st = true ∧
    good k used ns' ∧ same_but parent ns ns' ∧ directories_ ns' !! parent = Some (subs ∖ {[name]}) ∧
    metadata_map_ ns' !! parent = metadata_map_ ns !! parent.
Proof.
  intros Hg Hd Hin. pose proof Hg as [Hwf _].
  assert (∃ s, Namespace.remove_subfile ns parent name
    = Done (OK, with_directories (with_store ns s) (<[parent:=subs ∖ {[name]}]> (directories_ ns)))) as [s Hc].
  { unfold Namespace.remove_subfile. rewrite Hd, bool_decide_eq_true_2 by done.
    match goal with |- context [kv_remove ?s ?k] =>
      destruct (kv_remove_spec s k (wf_opened _ Hwf)) as (st&s'&Hrm&_); rewrite Hrm end. simpl.
    rewrite (rl_remove Hrel _ _ _ _ (wf_opened _ Hwf) Hrm). by eexists. }
  do 2 eexists. split_and!; [exact Hc|done| | | |done].
  - eapply good_call; [done|by eapply remove_subfile_wf|by eapply call_remove_subfile|done].
  - intros q Hq. simpl. by rewrite lookup_insert_ne.
  - simpl. by rewrite lookup_insert_eq.
Qed.

Lemma good_setattr k used ns path info m :
  good k used ns → metadata_map_ ns !! path = Some m → is_dir (apply_info m info) = is_dir m →
  ∃ st ns', Namespace.setattr ns path info = Done (st, ns') ∧ ok st = true ∧
    good k used ns' ∧ same_but path ns ns' ∧ directories_ ns' !! path = directories_ ns !! path ∧
    metadata_map_ ns' !! path = Some (apply_info m info).
Proof.
  intros Hg Hm Htype. pose proof Hg as [Hwf _].
  assert (∃ st s, Namespace.setattr ns path info
    = Done (st, with_store (with_metadata ns (<[path:=apply_info m info]> (metadata_map_ ns))) s) ∧
    ok st = true) as (st&s&Hc&Hok).
  { unfold Namespace.setattr, store_metadata. rewrite Hm. simpl.
    match goal with |- context [kv_put ?s ?k ?v] =>
      destruct (kv_put_spec s k v (wf_opened _ Hwf)) as (st&s'&Hput&_); rewrite Hput end. simpl.
    do 2 eexists. split; [done|]. by apply (rl_put Hrel _ _ _ _ _ (wf_opened _ Hwf) Hput). }
  assert (keeps_type ns path info) as Hkt by (intros m' Hm'; congruence).
  do 2 eexists. split_and!; [exact Hc|done| | |done|simpl; by rewrite lookup_insert_eq].
  - eapply good_call; [done|by eapply setattr_wf|by eapply call_setattr|done].
  - intros q Hq. simpl. by rewrite lookup_insert_ne.
Qed.
End namespaces.
Arguments reliable S {_ _}.

(** ** The cluster and the tree *)

(** What calls on files leave alone: the indices that are registered, by the
    directory they are for and their name, and the index servers. *)
Record Rest (I : Type) := {
  registry : gset (string * string);
  index_servers : gmap RpcNodeAddress (IndexManager I);
}.
Arguments registry {I}. Arguments index_servers {I}.

Section relation.
Context {S P R I : Type} `{!KeyValueStore S, !KeyValueStoreSpec S, !ConsistentHashMap P string}.
Context `{!ConsistentHashMapSpec P string}.
Context `{!ConsistentHashMap R NodeInfo, !ConsistentHashMapSpec R NodeInfo, !RangeIndexInterface I}.
Context `{!VoblaStatus, !VoblaStatusSpec, !MD5, !BoostFilesystem, !BoostFilesystemSpec}.
Context `{!ThriftCodec FileMetadata, !ThriftCodecSpec FileMetadata}.
Context `{!ThriftCodec IndexNamespaceNode, !ThriftCodecSpec IndexNamespaceNode}.
Context `{!ThriftCodec IndexConsistentHashRing, !ThriftCodecSpec IndexConsistentHashRing}.
Context (c : VSFSRpcClient R).

Abbreviation world := (Cluster S P R I).
Abbreviation master := (MasterController S P R).
Implicit Types (w : world) (fs : FileSystem) (mc : master) (rest : Rest I).

(** A master's tables at a path. *)
Definition tables_at fs p (ns : Namespace S) : Prop :=
  metadata_map_ ns !! p = fs_nodes fs !! p ∧ directories_ ns !! p = fs_entries fs !! p.

(** The ids given to files of the master at [a]. *)
Definition given_by (a : RpcNodeAddress) fs (i : Z) : Prop :=
  ∃ q, (q, i) ∈ fs_given fs ∧ owner_of c q = a.

(** The master at [a] has only paths it is in charge of, and of the registered
    indices those it is in charge of. *)
Definition registers rest (a : RpcNodeAddress) mc : Prop :=
  ∀ root name, name ∈ names_at (index_namespace_ mc) root ↔
    (root, name) ∈ registry rest ∧ owner_of c (index_path root name) = a.
Definition kept rest (a : RpcNodeAddress) mc : Prop :=
  indices_wf mc ∧ (∀ q, is_Some (metadata_map_ (namespace_ mc) !! q) → owner_of c q = a) ∧
  registers rest a mc.

(** Every master of the ring is up, gave out the ids of the tree, can take [k]
    more files, and has of the paths it is in charge of what the tree has. *)
Definition sync rest (k : nat) w fs : Prop :=
  index_nodes w = index_servers rest ∧
  ∀ pos node, ch_view (master_map_ c) !! pos = Some node →
    ∃ mc, master_nodes w !! address node = Some mc ∧
      good k (given_by (address node) fs) (namespace_ mc) ∧ kept rest (address node) mc ∧
      ∀ p, owner_of c p = address node → tables_at fs p (namespace_ mc).

Definition fs_same_but p fs fs' : Prop :=
  ∀ q, q ≠ p → fs_nodes fs' !! q = fs_nodes fs !! q ∧ fs_entries fs' !! q = fs_entries fs !! q.

Lemma sync_le rest k k' w fs : k' ≤ k → sync rest k w fs → sync rest k' w fs.
Proof.
  intros Hk [Hi Hs]. split; [done|]. intros pos node Hpos. destruct (Hs pos node Hpos) as (mc&?&?&?&?).
  exists mc. split_and!; [done|by eapply good_le|done|done].
Qed.

(** The registrations change at most for indices whose directory is [p]. *)
Definition same_registry_but p rest rest' : Prop :=
  index_servers rest' = index_servers rest ∧
  ∀ root name, index_path root name ≠ p → (root, name) ∈ registry rest' ↔ (root, name) ∈ registry rest.

(** One master changes its tables, and what it has registered, at one path it
    is in charge of. *)
Lemma sync_replace rest rest' k k' w fs fs' p mc mc' :
  sync rest k w fs → master_nodes w !! owner_of c p = Some mc → k' ≤ k →
  good k' (given_by (owner_of c p) fs') (namespace_ mc') → same_but p (namespace_ mc) (namespace_ mc') →
  tables_at fs' p (namespace_ mc') → fs_same_but p fs fs' →
  (∀ q i, (q, i) ∈ fs_given fs' → (q, i) ∈ fs_given fs ∨ q = p) →
  indices_wf mc' → same_registry_but p rest rest' → registers rest' (owner_of c p) mc' →
  sync rest' k' (set_master w (owner_of c p) (Some mc')) fs'.
Proof.
  intros [Hi Hs] Hmc Hk Hg Hns Hp Hfs Hgiven Hix [Hsame Hreg'] Hregs. split; [by rewrite Hsame|].
  intros pos node Hpos. simpl. destruct (Hs pos node Hpos) as (mc0&Hmc0&Hg0&(Hix0&Hown&Hreg)&Ht).
  destruct (decide (address node = owner_of c p)) as [He|Hne].
  - rewrite He in Hmc0, Hown, Ht |- *. rewrite Hmc in Hmc0. injection Hmc0 as <-.
    rewrite lookup_partial_alter_eq. exists mc'. split_and!; [done|exact Hg| |].
    + split_and!; [exact Hix| |exact Hregs]. intros q Hq. destruct (decide (q = p)) as [->|Hqp]; [done|].
      apply Hown. by rewrite (proj1 (Hns q Hqp)) in Hq.
    + intros q Hq. destruct (decide (q = p)) as [->|Hqp]; [exact Hp|].
      destruct (Ht q Hq) as [Hm Hd], (Hns q Hqp) as [Hnm Hnd], (Hfs q Hqp) as [Hfm Hfd].
      unfold tables_at. rewrite Hnm, Hnd, Hfm, Hfd. done.
  - rewrite lookup_partial_alter_ne by done. exists mc0. split_and!; [done| | |].
    + eapply good_le; [exact Hk| |exact Hg0]. intros i (q'&[?| ->]%Hgiven&?); [by exists q'|congruence].
    + split_and!; [exact Hix0|exact Hown|]. intros root name. rewrite (Hreg root name).
      split; intros [? Ho]; (split; [apply (Hreg' root name); [congruence|done]|done]).
    + intros q Hq. assert (q ≠ p) as Hqp by congruence. destruct (Hfs q Hqp) as [Hfm Hfd].
      unfold tables_at. rewrite Hfm, Hfd. by apply Ht.
Qed.
End relation.

Section simulation.
Context {S P R I : Type} `{!KeyValueStore S, !KeyValueStoreSpec S, !ConsistentHashMap P string}.
Context `{!ConsistentHashMapSpec P string}.
Context `{!ConsistentHashMap R NodeInfo, !ConsistentHashMapSpec R NodeInfo, !RangeIndexInterface I}.
Context `{!VoblaStatus, !VoblaStatusSpec, !MD5, !BoostFilesystem, !BoostFilesystemSpec}.
Context `{!ThriftCodec FileMetadata, !ThriftCodecSpec FileMetadata}.
Context `{!ThriftCodec IndexNamespaceNode, !ThriftCodecSpec IndexNamespaceNode}.
Context `{!ThriftCodec IndexConsistentHashRing, !ThriftCodecSpec IndexConsistentHashRing}.
Context (Hrel : reliable S).
Context (c : VSFSRpcClient R) (Hring : ch_view (master_map_ c) ≠ ∅) (rest : Rest I).

Abbreviation world := (Cluster S P R I).
Abbreviation master := (MasterController S P R).
Implicit Types (w : world) (fs : FileSystem) (mc : master).
#[local] Abbreviation given_by := (given_by c).
#[local] Abbreviation kept := (kept c rest).
#[local] Abbreviation sync := (sync c rest).

(** The master in charge of a path. *)
Lemma sync_at k w fs p :
  sync k w fs →
  ∃ mc, master_nodes w !! owner_of c p = Some mc ∧
    good k (given_by (owner_of c p) fs) (namespace_ mc) ∧ kept (owner_of c p) mc ∧
    tables_at fs p (namespace_ mc).
Proof.
  intros [_ Hs]. destruct (get_path_owner c p Hring) as (pos&node&_&Hpos&Ho). rewrite Ho.
  destruct (Hs pos node Hpos) as (mc&?&?&?&Ht). exists mc. split_and!; [done..|]. by apply Ht.
Qed.

(** One master changes its tables at one path it is in charge of. *)
Lemma sync_update k k' w fs fs' p mc ns' :
  sync k w fs → master_nodes w !! owner_of c p = Some mc → k' ≤ k →
  good k' (given_by (owner_of c p) fs') ns' → same_but p (namespace_ mc) ns' →
  tables_at fs' p ns' → fs_same_but p fs fs' →
  (∀ q i, (q, i) ∈ fs_given fs' → (q, i) ∈ fs_given fs ∨ q = p) →
  sync k' (set_master w (owner_of c p) (Some (set_namespace mc ns'))) fs'.
Proof.
  intros Hs Hmc Hk Hg Hns Hp Hfs Hgiven. destruct (sync_at k w fs p Hs) as (mc0&Hmc0&_&(Hix&_&Hreg)&_).
  rewrite Hmc in Hmc0. injection Hmc0 as <-.
  by eapply sync_replace with (mc := mc) (mc' := set_namespace mc ns').
Qed.

Lemma route p :
  ∃ node, get (master_map_ c) (path_to_hash p) = (OK, Some node) ∧ address node = owner_of c p.
Proof. destruct (get_path_owner c p Hring) as (pos&node&?&_&?). by exists node. Qed.

Lemma initialized : is_initialized c = true.
Proof.
  unfold is_initialized, empty. rewrite ch_num_nodes_spec, bool_decide_eq_false_2; [done|].
  intros Hsz%map_size_empty_inv. done.
Qed.

Lemma call_master_done {A} w a mc (handler : master → run (rpc A * master)) r mc' :
  master_nodes w !! a = Some mc → handler mc = Done (r, mc') →
  call_master w a handler = (outcome_of r, set_master w a (Some mc')).
Proof. unfold call_master. by intros -> ->. Qed.

Lemma set_master_same w a mc : master_nodes w !! a = Some mc → set_master w a (Some mc) = w.
Proof.
  intros Hmc. destruct w as [mn ixs n]. unfold set_master; simpl in *. f_equal.
  by apply partial_alter_id.
Qed.

Lemma set_namespace_same mc : set_namespace mc (namespace_ mc) = mc.
Proof. by destruct mc. Qed.

(** *** The remote calls *)

Lemma create_on_master k w fs p mode uid gid :
  sync (Datatypes.S k) w fs → tree_path p → fs_nodes fs !! p = None →
  ∃ oid w', m_create w (owner_of c p) p (Z.lor mode S_IFREG) uid gid = (Reply oid, w') ∧
    id_ok (owner_of c) (FCreate p mode uid gid) oid fs ∧
    sync k w' (put_file p (new_file mode uid gid (now w) oid) (give p oid fs)).
Proof.
  intros Hs Hp Hfree. destruct (sync_at _ _ _ p Hs) as (mc&Hmc&Hg&_&Hm&Hd).
  pose proof (tree_path_absolute p Hp) as Habs. rewrite Hfree in Hm.
  destruct (fresh_id k _ _ p Hg) as [_ Hnew].
  destruct (good_create Hrel k _ (namespace_ mc) p (wrap_int32 (Z.lor mode S_IFREG)) (wrap_uint32 uid)
              (wrap_uint32 gid) (now w) Hg Habs Hm) as (st&ns'&Hc&Hok&Hg'&Hsame&Hd'&Hm').
  rewrite new_file_wire in Hm'. do 2 eexists. split_and!.
  - simpl. apply call_master_done with (mc := mc) (mc' := set_namespace mc ns') (r := Return _); [done|].
    unfold rpc_create, MasterController.create, is_valid_path. rewrite fs_is_absolute_spec, Habs, Hc.
    simpl. unfold check_status. by rewrite Hok.
  - intros _. split; [apply object_id_high|]. intros q Hown Hq. apply Hnew. by exists q.
  - eapply sync_update with (mc := mc); [done|done|lia| |done| | |].
    + eapply good_le; [done| |exact Hg']. intros i (q&Hq&Hown). simpl in Hq.
      apply elem_of_union in Hq as [[= _ ->]%elem_of_singleton|Hq]; [by left|right; by exists q].
    + split; simpl; [by rewrite lookup_insert_eq|]. by rewrite Hd'.
    + intros q Hq. simpl. by rewrite lookup_insert_ne.
    + simpl. intros q i [[= -> _]%elem_of_singleton|?]%elem_of_union; auto.
Qed.

Lemma create_refused k w fs p mode uid gid m :
  sync k w fs → tree_path p → fs_nodes fs !! p = Some m →
  ∃ ouch, m_create w (owner_of c p) p mode uid gid = (Invalid ouch, w) ∧
    status_of_exception ouch = refused EEXIST.
Proof.
  intros Hs Hp Hm. destruct (sync_at _ _ _ p Hs) as (mc&Hmc&_&_&Hmm&_). rewrite Hm in Hmm. eexists. split.
  - simpl. rewrite call_master_done with (mc := mc) (mc' := mc) (r := Throw (status_to_rpc_invalid_op (refused EEXIST)));
      [by rewrite set_master_same|done|].
    unfold rpc_create, MasterController.create, is_valid_path.
    rewrite fs_is_absolute_spec, tree_path_absolute by done. unfold Namespace.create. rewrite Hmm. simpl.
    by rewrite set_namespace_same.
  - done.
Qed.

Lemma mkdir_on_master k w fs p mode uid gid :
  sync k w fs → tree_path p → mkdir_mode mode → fs_nodes fs !! p = None →
  ∃ w', m_mkdir w (owner_of c p) p (dir_info mode uid gid) = (Reply (), w') ∧
    sync k w' (put_dir p (new_dir mode uid gid (now w)) fs).
Proof.
  intros Hs Hp Hmode Hfree. destruct (sync_at _ _ _ p Hs) as (mc&Hmc&Hg&_&Hm&Hd).
  pose proof (tree_path_absolute p Hp) as Habs. rewrite Hfree in Hm.
  destruct (good_mkdir Hrel k _ (namespace_ mc) p (wrap_uint32 (Z.lor mode S_IFDIR)) (wrap_uint32 uid)
              (wrap_uint32 gid) (now w) Hg Habs (mkdir_mode_wire _ Hmode) Hm) as (ns'&Hc&Hg'&Hsame&Hd'&Hm').
  rewrite new_dir_wire in Hm'. eexists. split.
  - simpl. apply call_master_done with (mc := mc) (mc' := set_namespace mc ns') (r := Return ()); [done|].
    unfold rpc_mkdir, MasterController.mkdir, is_valid_path. simpl.
    rewrite fs_is_absolute_spec, Habs, Hc. done.
  - eapply sync_update with (mc := mc); [done|done|lia|done|done| | |by left].
    + split; simpl; by rewrite lookup_insert_eq.
    + intros q Hq. simpl. by rewrite !lookup_insert_ne.
Qed.

Lemma mkdir_refused k w fs p info m :
  sync k w fs → tree_path p → fs_nodes fs !! p = Some m →
  ∃ ouch, m_mkdir w (owner_of c p) p info = (Invalid ouch, w) ∧
    status_of_exception ouch = refused EEXIST.
Proof.
  intros Hs Hp Hm. destruct (sync_at _ _ _ p Hs) as (mc&Hmc&_&_&Hmm&_). rewrite Hm in Hmm. eexists. split.
  - simpl. rewrite call_master_done with (mc := mc) (mc' := mc) (r := Throw (status_to_rpc_invalid_op (refused EEXIST)));
      [by rewrite set_master_same|done|].
    unfold rpc_mkdir, MasterController.mkdir, is_valid_path.
    rewrite fs_is_absolute_spec, tree_path_absolute by done. unfold Namespace.mkdir. rewrite Hmm. simpl.
    by rewrite set_namespace_same.
  - done.
Qed.

Lemma rmdir_on_master k w fs p :
  sync k w fs → fs_entries fs !! p = Some ∅ →
  ∃ w', m_rmdir w (owner_of c p) p = (Reply (), w') ∧ sync k w' (drop_dir p fs).
Proof.
  intros Hs He. destruct (sync_at _ _ _ p Hs) as (mc&Hmc&Hg&_&Hm&Hd). rewrite He in Hd.
  destruct (good_rmdir Hrel k _ (namespace_ mc) p Hg Hd) as (ns'&Hc&Hg'&Hsame&Hd'&Hm'). eexists. split.
  - simpl. apply call_master_done with (mc := mc) (mc' := set_namespace mc ns') (r := Return ()); [done|].
    unfold rpc_rmdir, MasterController.rmdir. by rewrite Hc.
  - eapply sync_update with (mc := mc); [done|done|lia|done|done| | |by left].
    + split; simpl; by rewrite lookup_delete_eq.
    + intros q Hq. simpl. by rewrite !lookup_delete_ne.
Qed.

Definition rmdir_error fs p : Z :=
  match fs_entries fs !! p with Some _ => ENOTEMPTY | None => ENOENT end.

Lemma rmdir_refused k w fs p :
  sync k w fs → fs_entries fs !! p ≠ Some ∅ →
  ∃ ouch, m_rmdir w (owner_of c p) p = (Invalid ouch, w) ∧
    status_of_exception ouch
    = refused (rmdir_error fs p).
Proof.
  intros Hs He. destruct (sync_at _ _ _ p Hs) as (mc&Hmc&_&_&_&Hd). eexists. split.
  - simpl. rewrite call_master_done with (mc := mc) (mc' := mc)
      (r := Throw (status_to_rpc_invalid_op (refused (rmdir_error fs p))));
      [by rewrite set_master_same|done|].
    unfold rpc_rmdir, MasterController.rmdir, Namespace.rmdir, rmdir_error. rewrite Hd.
    destruct (fs_entries fs !! p) as [subs|] eqn:Hsubs.
    + rewrite bool_decide_eq_false_2 by congruence. simpl. by rewrite set_namespace_same.
    + simpl. by rewrite set_namespace_same.
  - unfold rmdir_error. by destruct (fs_entries fs !! p).
Qed.

Lemma remove_on_master k w fs p m :
  sync k w fs → fs_nodes fs !! p = Some m → is_dir m = false →
  ∃ w', m_remove w (owner_of c p) p = (Reply (md_object_id m), w') ∧ sync k w' (drop_file p fs).
Proof.
  intros Hs He Hf. destruct (sync_at _ _ _ p Hs) as (mc&Hmc&Hg&_&Hm&Hd). rewrite He in Hm.
  destruct (good_remove Hrel k _ (namespace_ mc) p m Hg Hm Hf) as (ns'&Hc&Hg'&Hsame&Hd'&Hm'). eexists. split.
  - simpl. apply call_master_done with (mc := mc) (mc' := set_namespace mc ns') (r := Return _); [done|].
    unfold rpc_remove, MasterController.remove. by rewrite Hc.
  - eapply sync_update with (mc := mc); [done|done|lia|done|done| | |by left].
    + split; simpl; [by rewrite lookup_delete_eq|by rewrite Hd'].
    + intros q Hq. simpl. by rewrite !lookup_delete_ne.
Qed.

(** The retry loop ends with the first reply. *)
Lemma subfile_loop_reply (call : world → outcome () * world) fuel status w w' :
  0 < fuel → call w = (Reply (), w') → subfile_loop call fuel kNumBackOffs status w = ends (status, w').
Proof. intros Hf Hc. destruct fuel; [lia|]. simpl. by rewrite Hc. Qed.

Lemma edit_sync k w fs f p subs mc ns' :
  sync k w fs → p ≠ "/" → fs_entries fs !! fs_parent_path p = Some subs →
  master_nodes w !! owner_of c (fs_parent_path p) = Some mc →
  good k (given_by (owner_of c (fs_parent_path p)) fs) ns' → same_but (fs_parent_path p) (namespace_ mc) ns' →
  directories_ ns' !! fs_parent_path p = Some (f (fs_filename p) subs) →
  metadata_map_ ns' !! fs_parent_path p = metadata_map_ (namespace_ mc) !! fs_parent_path p →
  sync k (set_master w (owner_of c (fs_parent_path p)) (Some (set_namespace mc ns')))
    (edit_parent f p fs).
Proof.
  intros Hs Hp Hsubs Hmc Hg Hsame Hd Hm. unfold edit_parent. rewrite bool_decide_eq_false_2 by done.
  eapply sync_update with (mc := mc); [done|done|lia|done|done| | |by left].
  - destruct (sync_at _ _ _ (fs_parent_path p) Hs) as (mc'&Hmc'&_&_&Hm'&_). rewrite Hmc in Hmc'. injection Hmc' as <-.
    split; simpl; [congruence|]. rewrite lookup_alter_eq, Hsubs. done.
  - intros q Hq. simpl. by rewrite lookup_alter_ne.
Qed.

Lemma add_subfile_sync fuel k w fs p :
  0 < fuel → sync k w fs → tree_path p → has_parent p fs →
  ¬ names_in fs (fs_parent_path p) (fs_filename p) →
  ∃ w', Client.add_subfile fuel c p w = ends (OK, w') ∧ sync k w' (add_name p fs).
Proof.
  intros Hfuel Hs Hp Hpar Hno. unfold Client.add_subfile, change_subfile, add_name.
  destruct (decide (p = "/")) as [->|Hne].
  { unfold edit_parent. rewrite !bool_decide_eq_true_2 by done. by exists w. }
  destruct Hpar as [?|[subs Hsubs]]; [done|].
  destruct (tree_path_split p Hp Hne) as (Hdp&Hpn&_).
  destruct (route (fs_parent_path p)) as (node&Hget&Haddr).
  destruct (sync_at _ _ _ (fs_parent_path p) Hs) as (mc&Hmc&Hg&_&_&Hd). rewrite Hsubs in Hd.
  destruct (good_add_subfile Hrel k _ (namespace_ mc) (fs_parent_path p) (fs_filename p) subs Hg Hdp Hpn Hd)
    as (st&ns'&Hc&Hok&Hg'&Hsame&Hd'&Hm'); [unfold names_in in Hno; naive_solver|].
  rewrite bool_decide_eq_false_2 by done. rewrite Hget. simpl. rewrite Haddr. eexists. split.
  - apply subfile_loop_reply; [done|].
    apply call_master_done with (mc := mc) (mc' := set_namespace mc ns') (r := Return ()); [done|].
    unfold rpc_add_subfile, MasterController.add_subfile, is_valid_path.
    rewrite fs_is_absolute_spec, dir_path_absolute, Hc by done. simpl. unfold check_status. by rewrite Hok.
  - by eapply edit_sync.
Qed.

Lemma remove_subfile_sync fuel k w fs p :
  0 < fuel → sync k w fs → (p ≠ "/" → names_in fs (fs_parent_path p) (fs_filename p)) →
  ∃ w', Client.remove_subfile fuel c p w = ends (OK, w') ∧ sync k w' (drop_name p fs).
Proof.
  intros Hfuel Hs Hin. unfold Client.remove_subfile, change_subfile, drop_name.
  destruct (decide (p = "/")) as [->|Hne].
  { unfold edit_parent. rewrite !bool_decide_eq_true_2 by done. by exists w. }
  destruct (Hin Hne) as (subs&Hsubs&Hn).
  destruct (route (fs_parent_path p)) as (node&Hget&Haddr).
  destruct (sync_at _ _ _ (fs_parent_path p) Hs) as (mc&Hmc&Hg&_&_&Hd). rewrite Hsubs in Hd.
  destruct (good_remove_subfile Hrel k _ (namespace_ mc) (fs_parent_path p) (fs_filename p) subs Hg Hd Hn)
    as (st&ns'&Hc&Hok&Hg'&Hsame&Hd'&Hm').
  rewrite bool_decide_eq_false_2 by done. rewrite Hget. simpl. rewrite Haddr. eexists. split.
  - apply subfile_loop_reply; [done|].
    apply call_master_done with (mc := mc) (mc' := set_namespace mc ns') (r := Return ()); [done|].
    unfold rpc_remove_subfile, MasterController.remove_subfile. rewrite Hc. simpl.
    unfold check_status. by rewrite Hok.
  - by eapply edit_sync.
Qed.

(** *** The calls of the client *)

Definition simulates (fuel k : nat) (o : fs_op) w fs : Prop :=
  ∃ oid w', run_op fuel c o w = ends ((fs_exec (now w) oid o fs).1, w') ∧
    id_ok (owner_of c) o oid fs ∧ sync k w' (fs_exec (now w) oid o fs).2.

(** The directories of the indices may be missing in their parents. *)
Section calls.
Context {hidden : string → Prop}.
Abbreviation wf := (tree_wf_but hidden).

(** A path that is free has no entry in its directory. *)
Lemma free_name fs p :
  wf fs → tree_path p → p ≠ "/" → fs_nodes fs !! p = None →
  ¬ names_in fs (fs_parent_path p) (fs_filename p).
Proof.
  intros Hwf Hp Hne Hfree. destruct (tree_path_split p Hp Hne) as (Hd&Hn&He).
  rewrite (tw_entries _ Hwf) by done. rewrite <-He, Hfree. by intros [[] _].
Qed.
Lemma taken_name fs p m :
  wf fs → ¬ hidden p → p ≠ "/" → fs_nodes fs !! p = Some m →
  names_in fs (fs_parent_path p) (fs_filename p).
Proof.
  intros Hwf Hvis Hne Hm. destruct (tree_path_split p (tw_paths _ Hwf p (ltac:(eauto))) Hne) as (Hd&Hn&He).
  rewrite (tw_entries _ Hwf) by done. rewrite <-He, Hm. eauto.
Qed.

Lemma sim_create fuel k w fs p mode uid gid :
  0 < fuel → sync (Datatypes.S k) w fs → wf fs → op_ok (FCreate p mode uid gid) fs →
  simulates fuel k (FCreate p mode uid gid) w fs.
Proof.
  intros Hfuel Hs Hwf (Hne&Hp&Hpar). unfold simulates, run_op, Client.create. rewrite initialized. simpl negb.
  cbv iota. destruct (route p) as (node&->&Haddr). cbv zeta iota beta. simpl ok. simpl negb. cbv iota.
  simpl default. rewrite Haddr. simpl fs_exec.
  destruct (fs_nodes fs !! p) as [m|] eqn:Hm.
  - destruct (create_refused _ w fs p (Z.lor mode S_IFREG) uid gid m Hs Hp Hm) as (ouch&Hc&Hst).
    exists 0%Z, w. unfold kNumBackOffs. cbn [create_loop]. rewrite !Hc, Hst.
    split_and!; [done|naive_solver congruence|]. by eapply sync_le; [|exact Hs]; lia.
  - destruct (create_on_master k w fs p mode uid gid Hs Hp Hm) as (oid&w1&Hc&Hid&Hs1).
    unfold kNumBackOffs. cbn [create_loop]. rewrite Hc. simpl negb. cbv iota.
    destruct (add_subfile_sync fuel k w1 _ p Hfuel Hs1 Hp (Hpar eq_refl)) as (w'&Hadd&Hs').
    { exact (free_name fs p Hwf Hp Hne Hm). }
    exists oid, w'. rewrite Hadd. split_and!; [done|exact Hid|done].
Qed.

Lemma sim_unlink fuel k w fs p :
  0 < fuel → sync k w fs → wf fs → op_ok (FUnlink p) fs → ¬ hidden p →
  simulates fuel k (FUnlink p) w fs.
Proof.
  intros Hfuel Hs Hwf (m&Hm&Hf&Hne) Hvis. unfold simulates, run_op, Client.unlink. simpl fs_exec.
  rewrite Hm, Hf.
  destruct (remove_subfile_sync fuel k w fs p Hfuel Hs) as (w1&Hrm&Hs1); [by intros; eapply taken_name|].
  rewrite Hrm. simpl. destruct (route p) as (node&Hget&Haddr). unfold get_path, check_get.
  rewrite Hget. simpl. rewrite Haddr.
  destruct (remove_on_master k w1 (drop_name p fs) p m Hs1) as (w'&Hc&Hs');
    [by unfold drop_name; rewrite edit_parent_nodes|done|].
  simpl in Hc. exists 0%Z, w'. rewrite Hc. by split_and!.
Qed.

Lemma sim_mkdir fuel k w fs p mode uid gid :
  0 < fuel → sync k w fs → wf fs → op_ok (FMkdir p mode uid gid) fs →
  simulates fuel k (FMkdir p mode uid gid) w fs.
Proof.
  intros Hfuel Hs Hwf (Hp&Hmode&Hpar). unfold simulates, run_op, Client.mkdir. rewrite initialized. simpl negb.
  cbv iota. destruct (route p) as (node&->&Haddr). cbv zeta iota beta. simpl ok. simpl negb. cbv iota.
  simpl default. rewrite Haddr. simpl fs_exec.
  destruct (fs_nodes fs !! p) as [m|] eqn:Hm.
  - destruct (mkdir_refused k w fs p (dir_info mode uid gid) m Hs Hp Hm) as (ouch&Hc&Hst).
    exists 0%Z, w. rewrite Hc. simpl. by rewrite Hst.
  - destruct (mkdir_on_master k w fs p mode uid gid Hs Hp Hmode Hm) as (w1&Hc&Hs1).
    rewrite Hc. specialize (Hpar eq_refl). pose proof (free_path fs p Hwf Hm) as Hdir.
    destruct (decide (p = "/")) as [->|Hne].
    { exists 0%Z, w1. unfold Client.add_subfile, change_subfile.
      rewrite bool_decide_eq_true_2 by done. simpl. split_and!; [done|done|].
      unfold add_name, edit_parent. by rewrite bool_decide_eq_true_2. }
    destruct (add_subfile_sync fuel k w1 _ p Hfuel Hs1 Hp) as (w'&Hadd&Hs').
    + right. destruct Hpar as [?|[subs Hsubs]]; [done|]. simpl. rewrite lookup_insert. case_decide; eauto.
    + intros Hin. apply (free_name fs p Hwf Hp Hne Hm).
      pose proof (put_node_names p (new_dir mode uid gid (now w)) fs (fs_parent_path p) (fs_filename p) Hdir) as Hn.
      unfold put_node in Hn. rewrite new_dir_type in Hn by done. by apply Hn.
    + exists 0%Z, w'. rewrite Hadd. by split_and!.
Qed.

Lemma sim_rmdir fuel k w fs p :
  0 < fuel → sync k w fs → wf fs → ¬ hidden p → simulates fuel k (FRmdir p) w fs.
Proof.
  intros Hfuel Hs Hwf Hvis. unfold simulates, run_op, Client.rmdir. rewrite initialized. simpl negb.
  cbv iota. destruct (route p) as (node&->&Haddr). cbv zeta iota beta. simpl ok. simpl negb. cbv iota.
  simpl default. rewrite Haddr. simpl fs_exec.
  destruct (decide (fs_entries fs !! p = Some ∅)) as [He|He].
  - destruct (rmdir_on_master k w fs p Hs He) as (w1&Hc&Hs1). rewrite Hc, He.
    rewrite bool_decide_eq_true_2 by done. destruct (dir_node fs p ∅ Hwf He) as (m&Hm&_).
    destruct (remove_subfile_sync fuel k w1 _ p Hfuel Hs1) as (w'&Hrm&Hs').
    { intros Hne. destruct (taken_name fs p m Hwf Hvis Hne Hm) as (subs&Hsubs&Hn). exists subs.
      split; [|done]. simpl. rewrite lookup_delete_ne; [done|].
      intros Hpp. rewrite <-Hpp, He in Hsubs. injection Hsubs as <-. set_solver. }
    exists 0%Z, w'. rewrite Hrm. by split_and!.
  - destruct (rmdir_refused k w fs p Hs He) as (ouch&Hc&Hst). exists 0%Z, w. rewrite Hc.
    unfold rmdir_error in Hst. destruct (fs_entries fs !! p) as [subs|] eqn:Hsubs.
    + rewrite bool_decide_eq_false_2 by congruence. simpl. by rewrite Hst.
    + simpl. by rewrite Hst.
Qed.

(** A call whose exceptions become the status, at the master of a path. *)
Lemma at_master_reply {A} w p (call : RpcNodeAddress → world → outcome A * world) a w' :
  call (owner_of c p) w = (Reply a, w') → at_master c p call w = Done (OK, Some a, w').
Proof.
  intros Hc. destruct (route p) as (node&Hget&Haddr). unfold at_master, check_get, get_path.
  rewrite Hget. simpl. by rewrite Haddr, Hc.
Qed.
Lemma at_master_invalid {A} w p (call : RpcNodeAddress → world → outcome A * world) st w' :
  call (owner_of c p) w = (Invalid (status_to_rpc_invalid_op st), w') →
  at_master c p call w = Done (Err (error_of st) (message_of st), None, w').
Proof.
  intros Hc. destruct (route p) as (node&Hget&Haddr). unfold at_master, check_get, get_path.
  rewrite Hget. simpl. by rewrite Haddr, Hc.
Qed.

Lemma ask_owner {A} k w fs p (handler : master → run (rpc A)) r :
  sync k w fs → (∀ mc, tables_at fs p (namespace_ mc) → handler mc = Done r) →
  ask_master w (owner_of c p) handler = (outcome_of r, w).
Proof. intros Hs Hh. destruct (sync_at _ _ _ p Hs) as (mc&Hmc&_&_&Ht). by apply ask_master_reply with (mc := mc); [|apply Hh]. Qed.

Lemma sim_readdir fuel k w fs p :
  sync k w fs → starts_with "/" p = true → simulates fuel k (FReaddir p) w fs.
Proof.
  intros Hs Habs. unfold simulates, run_op, Client.readdir. simpl fs_exec.
  destruct (fs_entries fs !! p) as [subs|] eqn:He; exists 0%Z, w.
  - erewrite at_master_reply; [by split_and!|]. simpl.
    rewrite (ask_owner k w fs p _ (Return (sorted_elements String.le subs)) Hs); [done|].
    intros mc [_ Hd]. unfold rpc_readdir, MasterController.readdir, is_valid_path, Namespace.readdir.
    by rewrite fs_is_absolute_spec, Habs, Hd, He.
  - rewrite (at_master_invalid w p _ (refused ENOENT) w); [by split_and!|]. simpl.
    rewrite (ask_owner k w fs p _ (Throw (status_to_rpc_invalid_op (refused ENOENT))) Hs); [done|].
    intros mc [_ Hd]. unfold rpc_readdir, MasterController.readdir, is_valid_path, Namespace.readdir.
    by rewrite fs_is_absolute_spec, Habs, Hd, He.
Qed.

Lemma sim_getattr fuel k w fs p : sync k w fs → simulates fuel k (FGetattr p) w fs.
Proof.
  intros Hs. unfold simulates, run_op, Client.getattr. simpl fs_exec.
  destruct (fs_nodes fs !! p) as [m|] eqn:Hm; exists 0%Z, w.
  - erewrite at_master_reply; [by split_and!|]. simpl.
    rewrite (ask_owner k w fs p _ (Return (info_of m)) Hs); [done|].
    intros mc [Hmm _]. unfold rpc_getattr, MasterController.getattr, Namespace.getattr. by rewrite Hmm, Hm.
  - rewrite (at_master_invalid w p _ (SystemError ENOENT) w); [by split_and!|]. simpl.
    rewrite (ask_owner k w fs p _ (Throw (status_to_rpc_invalid_op (SystemError ENOENT))) Hs); [done|].
    intros mc [Hmm _]. unfold rpc_getattr, MasterController.getattr, Namespace.getattr. by rewrite Hmm, Hm.
Qed.

Lemma sim_object_id fuel k w fs p : sync k w fs → simulates fuel k (FObjectId p) w fs.
Proof.
  intros Hs. unfold simulates, run_op, Client.object_id. simpl fs_exec.
  destruct (fs_nodes fs !! p) as [m|] eqn:Hm; exists 0%Z, w.
  - erewrite at_master_reply; [by split_and!|]. simpl.
    rewrite (ask_owner k w fs p _ (Return (md_object_id m)) Hs); [done|].
    intros mc [Hmm _]. unfold rpc_object_id, MasterController.object_id, Namespace.object_id. by rewrite Hmm, Hm.
  - rewrite (at_master_invalid w p _ (SystemError ENOENT) w); [by split_and!|]. simpl.
    rewrite (ask_owner k w fs p _ (Throw (status_to_rpc_invalid_op (SystemError ENOENT))) Hs); [done|].
    intros mc [Hmm _]. unfold rpc_object_id, MasterController.object_id, Namespace.object_id. by rewrite Hmm, Hm.
Qed.

Lemma sim_setattr fuel k w fs p info :
  sync k w fs → op_ok (FSetattr p info) fs → simulates fuel k (FSetattr p info) w fs.
Proof.
  intros Hs Hok. unfold simulates, run_op, Client.setattr. simpl fs_exec.
  destruct (sync_at _ _ _ p Hs) as (mc&Hmc&Hg&_&Hm&Hd).
  destruct (fs_nodes fs !! p) as [m|] eqn:Hn.
  - destruct (good_setattr Hrel k _ (namespace_ mc) p info m Hg Hm (Hok m Hn))
      as (st&ns'&Hc&Hst&Hg'&Hsame&Hd'&Hm').
    exists 0%Z, (set_master w (owner_of c p) (Some (set_namespace mc ns'))).
    erewrite at_master_reply.
    2:{ simpl. apply call_master_done with (mc := mc) (r := Return ()); [done|].
        unfold rpc_setattr, MasterController.setattr. rewrite Hc. simpl. unfold check_status. by rewrite Hst. }
    split_and!; [done|done|]. eapply sync_update with (mc := mc); [done|done|lia|done|done| | |by left].
    + split; simpl; [by rewrite lookup_insert_eq|by rewrite Hd'].
    + intros q Hq. simpl. by rewrite lookup_insert_ne.
  - exists 0%Z, w. rewrite (at_master_invalid w p _ (SystemError ENOENT) w); [by split_and!|].
    simpl. rewrite call_master_done with (mc := mc) (mc' := mc)
      (r := Throw (status_to_rpc_invalid_op (SystemError ENOENT))); [by rewrite set_master_same|done|].
    unfold rpc_setattr, MasterController.setattr, Namespace.setattr. rewrite Hm. simpl.
    by rewrite set_namespace_same.
Qed.

Lemma remove_dir_refused k w fs p m :
  sync k w fs → fs_nodes fs !! p = Some m → is_dir m = true →
  m_remove w (owner_of c p) p = (Invalid (status_to_rpc_invalid_op (refused EISDIR)), w).
Proof.
  intros Hs Hm Hdir. destruct (sync_at _ _ _ p Hs) as (mc&Hmc&_&_&Hmm&_). rewrite Hm in Hmm. simpl.
  rewrite call_master_done with (mc := mc) (mc' := mc)
    (r := Throw (status_to_rpc_invalid_op (refused EISDIR))); [by rewrite set_master_same|done|].
  unfold rpc_remove, MasterController.remove, Namespace.remove. rewrite Hmm, Hdir. simpl.
  by rewrite set_namespace_same.
Qed.

Lemma unlink_dir_sync fuel k w fs p m :
  0 < fuel → sync k w fs → wf fs → ¬ hidden p → p ≠ "/" → fs_nodes fs !! p = Some m → is_dir m = true →
  ∃ w', Client.unlink fuel c p w = ends (refused EISDIR, None, w') ∧ sync k w' (drop_name p fs).
Proof.
  intros Hfuel Hs Hwf Hvis Hne Hm Hdir. unfold Client.unlink.
  destruct (remove_subfile_sync fuel k w fs p Hfuel Hs) as (w'&Hrm&Hs'); [by intros; eapply taken_name|].
  rewrite Hrm. simpl. destruct (route p) as (node&Hget&Haddr). unfold get_path, check_get.
  rewrite Hget. simpl. rewrite Haddr. exists w'. split; [|done].
  pose proof (remove_dir_refused k w' (drop_name p fs) p m Hs') as Hr. simpl in Hr. rewrite Hr; [done| |done].
  unfold drop_name. by rewrite edit_parent_nodes.
Qed.

Lemma op_simulates fuel k w fs o :
  0 < fuel → sync (Datatypes.S k) w fs → wf fs → op_ok o fs → visible hidden o →
  simulates fuel k o w fs.
Proof.
  intros Hfuel Hs Hwf Hok Hvis. pose proof (sync_le _ _ _ k _ _ (Nat.le_succ_diag_r k) Hs) as Hs'.
  destruct o; [by apply sim_create|by apply sim_unlink|by apply sim_mkdir|by apply sim_rmdir
    |by apply sim_readdir|by apply sim_getattr|by apply sim_setattr|by apply sim_object_id].
Qed.

End calls.

(** A master that crashes and comes back. *)
Lemma restart_good k used (ns ns' : Namespace S) jump :
  good (jump + k) used ns → same_tables ns ns' → ns_wf ns' →
  next_obj_id_ ns' = (next_obj_id_ ns + Z.of_nat jump)%Z → good k used ns'.
Proof.
  intros (_&first&[Hle Hids]&Hu&?&?&?) (_&_&Hi&_) Hwf Hn. split; [done|]. exists first.
  assert (∀ i, (∃ c, first ≤ c < next_obj_id_ ns ∧ i mod 2 ^ 48 = c mod 2 ^ 48)%Z →
    ∃ c, (first ≤ c < next_obj_id_ ns' ∧ i mod 2 ^ 48 = c mod 2 ^ 48)%Z) as Hlift.
  { intros i (c'&?&?). exists c'. split; [lia|done]. }
  split_and!; [|by intros i ?%Hu%Hlift|done|lia..].
  split; [lia|]. rewrite Hi. intros i p ?%Hids. by apply Hlift.
Qed.

Lemma restart_sync disk indeterminate k a self jump r1 r2 w fs :
  durable disk → rand_value r1 → rand_value r2 → sync (jump + k) w fs →
  sync k (restart_at disk indeterminate a self jump r1 r2 w) fs.
Proof.
  intros Hdisk Hr1 Hr2 Hs. assert (k ≤ jump + k) as Hk by lia. unfold restart_at.
  destruct (master_nodes w !! a) as [mca|] eqn:Ha; [|by apply (sync_le _ _ _ k w fs Hk)].
  destruct Hs as [Hi Hs]. split; [exact Hi|]. intros pos node Hpos. simpl.
  destruct (Hs pos node Hpos) as (mc&Hmc&Hg&(Hix&Hown&Hreg)&Ht).
  destruct (decide (a = address node)) as [->|Hne].
  - rewrite Hmc in Ha. injection Ha as <-. rewrite lookup_partial_alter_eq.
    destruct (restart_recovers disk Hdisk indeterminate mc self
      (next_obj_id_ (namespace_ mc) + Z.of_nat jump) r1 r2 (proj1 Hg) Hix Hr1 Hr2)
      as (mc'&->&[Hsame Hnames _ _]&Hwf&Hix'&Hnext&_).
    exists mc'. destruct Hsame as (Hm&Hd&Hrest). split_and!; [done|by eapply restart_good| |].
    + split_and!; [exact Hix'|by rewrite Hm|]. intros root name. by rewrite <-(Hnames root).
    + intros p Hp. destruct (Ht p Hp). split; congruence.
  - rewrite lookup_partial_alter_ne by done. exists mc. split_and!; [done|by eapply good_le|done|done].
Qed.

Lemma events_simulate disk indeterminate fuel evs w fs :
  durable disk → 0 < fuel → crashes_ok evs → sync (budget evs) w fs → tree_wf fs → ops_ok (calls_of evs) fs →
  ∃ answers w' fs', run_events disk indeterminate fuel c evs w = ends (answers, w') ∧
    fs_run (owner_of c) (calls_of evs) fs answers fs' ∧ sync 0 w' fs'.
Proof.
  intros Hdisk Hfuel. revert w fs. induction evs as [|[t o|a self jump r1 r2] evs IH]; intros w fs Hcr Hs Hwf Hok.
  { exists [], w, fs. split_and!; [done|constructor|done]. }
  all: apply Forall_cons in Hcr as [Hr Hcr].
  - destruct Hok as [Hok Hops].
    destruct (op_simulates (hidden := λ _, False) fuel (budget evs) (at_time w t) fs o)
      as (oid&w1&Hrun&Hid&Hs1); [done|done|exact Hwf|done|apply visible_all|].
    simpl now in *. destruct (IH w1 (fs_exec t oid o fs).2) as (answers&w'&fs'&Hrest&Hspec&Hs');
      [done|done|apply fs_exec_wf; auto using visible_all|apply Hops|].
    exists ((fs_exec t oid o fs).1 :: answers), w', fs'.
    split_and!; [|by econstructor; [|apply surjective_pairing|]|done].
    cbn [run_events]. rewrite Hrun. simpl. by rewrite Hrest.
  - cbn [run_events]. destruct Hr as [Hr1 Hr2]. apply IH; [done|by apply restart_sync|done|exact Hok].
Qed.
End simulation.

(** ** Property *)

Section properties.
Context {S P R I : Type} `{!KeyValueStore S, !KeyValueStoreSpec S}.
Context `{!ConsistentHashMap P string, !ConsistentHashMapSpec P string}.
Context `{!ConsistentHashMap R NodeInfo, !ConsistentHashMapSpec R NodeInfo, !RangeIndexInterface I}.
Context `{!VoblaStatus, !VoblaStatusSpec, !MD5, !BoostFilesystem, !BoostFilesystemSpec}.
Context `{!ThriftCodec FileMetadata, !ThriftCodecSpec FileMetadata}.
Context `{!ThriftCodec IndexNamespaceNode, !ThriftCodecSpec IndexNamespaceNode}.
Context `{!ThriftCodec IndexConsistentHashRing, !ThriftCodecSpec IndexConsistentHashRing}.

(** C4: a cluster of masters is one file system.  Files and directories are
    spread over any number of masters by the hashes of their paths, an entry of
    a directory and the node it names usually on two of them.  Between the
    calls masters crash and come back on what their stores hold.  As long as
    the stores take writes, the counters of ids do not go back and have ids
    left for the files of the run, every sequence of [create], [unlink],
    [mkdir], [rmdir], [readdir], [getattr], [setattr] and [object_id] calls
    within the contract [ops_ok] returns, with the statuses and values of the
    same sequence on one tree, errors included, whatever crashes happen
    meanwhile; new files get ids with the top bits of the hash of their paths
    that no file of their master was ever given.  Afterwards the masters hold
    that tree, whose nodes and directory entries fit each other. *)
Theorem cluster_refines_filesystem (disk : S → S) indeterminate (c : VSFSRpcClient R) rest fuel evs
    (w : Cluster S P R I) fs :
  reliable S → durable disk → ch_view (master_map_ c) ≠ ∅ → 0 < fuel → crashes_ok evs →
  sync c rest (budget evs) w fs → tree_wf fs → ops_ok (calls_of evs) fs →
  ∃ answers w' fs', run_events disk indeterminate fuel c evs w = ends (answers, w') ∧
    fs_run (owner_of c) (calls_of evs) fs answers fs' ∧ sync c rest 0 w' fs' ∧ tree_wf fs'.
Proof.
  intros Hrel Hdisk Hring Hfuel Hcr Hs Hwf Hok.
  destruct (events_simulate Hrel c Hring rest disk indeterminate fuel evs w fs)
    as (answers&w'&fs'&?&?&?); [done..|].
  exists answers, w', fs'. split_and!; [done..|]. by eapply fs_run_wf.
Qed.

(** The contract is needed.  [unlink] of a directory fails with [EISDIR], but
    not before the client has taken the name out of the parent directory: the
    directory is still there for [getattr] and its parent no longer lists it,
    so nodes and entries fit each other no more. *)
Theorem failed_unlink_of_directory_orphans_it (c : VSFSRpcClient R) rest fuel k (w : Cluster S P R I)
    fs p m :
  reliable S → ch_view (master_map_ c) ≠ ∅ → 0 < fuel → sync c rest k w fs → tree_wf fs →
  p ≠ "/" → fs_nodes fs !! p = Some m → is_dir m = true →
  ∃ w' fs', Client.unlink fuel c p w = ends (refused EISDIR, None, w') ∧ sync c rest k w' fs' ∧
    fs_nodes fs' !! p = Some m ∧ ¬ names_in fs' (fs_parent_path p) (fs_filename p) ∧ ¬ tree_wf fs'.
Proof.
  intros Hrel Hring Hfuel Hs Hwf Hne Hm Hdir.
  destruct (unlink_dir_sync Hrel c Hring rest fuel k w fs p m Hfuel Hs Hwf) as (w'&Hu&Hs'); try done; [tauto|].
  exists w', (drop_name p fs).
  assert (fs_nodes (drop_name p fs) !! p = Some m) as Hm'.
  { unfold drop_name. by rewrite edit_parent_nodes. }
  assert (¬ names_in (drop_name p fs) (fs_parent_path p) (fs_filename p)) as Hno.
  { rewrite drop_name_names. intros [_ []]. by split_and!. }
  split_and!; [done..|]. intros Hwf'. apply Hno.
  exact (taken_name (hidden := λ _, False) _ p m Hwf' (λ H, H) Hne Hm').
Qed.
End properties.

(** ** Witness: two masters *)

Section witnesses.
Import Reference.
#[local] Existing Instances TestLevelDBStore.test_store TestLevelDBStore.test_store_spec.
#[local] Existing Instances RangeIndexWrapper.updates_codec RangeIndexWrapper.buffer_codec.
#[local] Existing Instances RangeIndexWrapper.types RangeIndexWrapper.casts.
#[local] Existing Instances Cluster.metadata_codec Cluster.node_codec Cluster.ring_codec.
#[local] Instance metadata_codec_spec : ThriftCodecSpec FileMetadata := codec_spec FileMetadata.
#[local] Instance node_codec_spec : ThriftCodecSpec IndexNamespaceNode := codec_spec IndexNamespaceNode.
#[local] Instance ring_codec_spec : ThriftCodecSpec IndexConsistentHashRing := codec_spec (list IndexPartition).

Definition addr_b : RpcNodeAddress := {| host := "b"; port := 9876 |}.
Definition two_masters : gmap Z NodeInfo := {[0%Z := node_of addr_a; 25900%Z := node_of addr_b]}.
Definition two_client : VSFSRpcClient (gmap Z NodeInfo) :=
  {| primary_ := addr_a; master_map_ := two_masters; index_server_map_ := two_masters |}.
Definition world_ab : Cluster (gmap string string) (gmap Z string) (gmap Z NodeInfo) RangeIndexObject :=
  {| master_nodes := {[addr_a := master_a; addr_b := set_namespace master_a (Namespace.new ∅ 0)]};
     index_nodes := ∅; now := noon |}.
Definition no_rest : Rest RangeIndexObject := {| registry := ∅; index_servers := ∅ |}.
Definition empty_tree : FileSystem :=
  {| fs_nodes := metadata_map_ rooted; fs_entries := directories_ rooted; fs_given := ∅ |}.

(** Both masters crash in the middle of the run. *)
Definition demo_events : list event :=
  [Call noon (FCreate "/f" 420 0 0); Call noon (FCreate "/f" 420 0 0);
   Call noon (FMkdir "/d" 493 0 0); Crash addr_a (node_of addr_a) 3 5 7; Call noon (FCreate "/d/g" 420 0 0);
   Call noon (FReaddir "/"); Call noon (FRmdir "/d"); Crash addr_b (node_of addr_b) 0 5 7;
   Call noon (FUnlink "/d/g"); Call noon (FRmdir "/d"); Call noon (FObjectId "/d/g");
   Call noon (FReaddir "/")].

(** The paths live on different masters than their parents. *)
Example demo_owners :
  (λ p, host (owner_of two_client p)) <$> ["/"; "/f"; "/d"; "/d/g"] = ["a"; "b"; "a"; "b"].
Proof. vm_compute. reflexivity. Qed.

Example demo_statuses :
  match run_events id 0 1 two_client demo_events world_ab with
  | Some (Done (answers, _)) =>
      (λ a, match a with ADone st | AnId st _ | TheNames st _ | TheInfo st _ => error_of st end) <$> answers
  | _ => []
  end = [0; - EEXIST; 0; 0; 0; - ENOTEMPTY; 0; 0; - ENOENT; 0]%Z.
Proof. vm_compute. reflexivity. Qed.

Lemma demo_reliable : reliable (gmap string string).
Proof. split; intros s; [intros k v st s' _ H|intros k st s' _ H]; simpl in H; by injection H as <- <-. Qed.

Lemma demo_durable : durable (id : gmap string string → gmap string string).
Proof. by split. Qed.

Lemma fresh_good n (ns : Namespace (gmap string string)) :
  rtc ns_step (Namespace.new ∅ 0) ns → next_obj_id_ ns = 0%Z → id_to_path_map_ ns = ∅ →
  (Z.of_nat n < 2 ^ 48)%Z → good n (λ _, False) ns.
Proof.
  intros Hsteps Hnext Hids Hn. split.
  - apply (reachable_wf (Namespace.new ∅ 0)); [|done]. exists (∅ : gmap string string), 0%Z, OK. by split_and!.
  - exists 0%Z. rewrite Hnext. split_and!; [|by intros i []|lia..].
    split; [lia|]. intros i p. by rewrite Hids, lookup_empty.
Qed.

Lemma rooted_good : good 13 (λ _, False) rooted.
Proof.
  apply fresh_good; [|vm_compute; reflexivity|vm_compute; reflexivity|lia].
  eapply rtc_once, (step_mkdir _ "/" (Z.lor 493 S_IFDIR) 0 0 noon OK);
    [done|by right; vm_compute|vm_compute; reflexivity].
Qed.

Lemma demo_indices : indices_wf master_a.
Proof. split; [by apply in_wf_empty|by apply pm_wf_empty]. Qed.

Lemma demo_kept (c : VSFSRpcClient (gmap Z NodeInfo)) a ns :
  (∀ q, is_Some (metadata_map_ ns !! q) → owner_of c q = a) →
  kept c no_rest a (set_namespace master_a ns).
Proof.
  intros Hq. split_and!; [exact demo_indices|exact Hq|]. intros root name. split; [|by intros [? _]].
  change (index_namespace_ (set_namespace master_a ns)) with (IndexNamespace.new (∅ : gmap string string)).
  unfold names_at. simpl. rewrite lookup_empty. simpl. set_solver.
Qed.

Lemma rooted_paths q : is_Some (metadata_map_ rooted !! q) → q = "/".
Proof.
  assert (metadata_map_ rooted = {["/" := new_metadata (Z.lor 493 S_IFDIR) 0 0 noon 0]}) as ->
    by (vm_compute; reflexivity).
  rewrite lookup_singleton. case_decide; [done|by intros []].
Qed.

(** The tree of the namespaces: the root alone. *)
Lemma rooted_tables (c : VSFSRpcClient (gmap Z NodeInfo)) p : tables_at empty_tree p rooted.
Proof. done. Qed.
Lemma unrooted_tables p : p ≠ "/" → tables_at empty_tree p (Namespace.new (∅ : gmap string string) 0).
Proof.
  intros Hp.
  assert (fs_nodes empty_tree = {["/" := new_metadata (Z.lor 493 S_IFDIR) 0 0 noon 0]}) as Hn
    by (vm_compute; reflexivity).
  assert (fs_entries empty_tree = {["/" := ∅]}) as He by (vm_compute; reflexivity).
  unfold tables_at. rewrite Hn, He, !lookup_singleton, !decide_False by done. split; apply lookup_empty.
Qed.

Lemma demo_sync : sync two_client no_rest 13 world_ab empty_tree.
Proof.
  split; [done|]. intros pos node Hpos. change (two_masters !! pos = Some node) in Hpos.
  unfold two_masters in Hpos. rewrite lookup_insert in Hpos. case_decide; [|rewrite lookup_singleton in Hpos;
    case_decide; [|done]]; injection Hpos as <-.
  - exists master_a. split_and!; [done|eapply good_le, rooted_good; [done|by intros i (q&?&_)]| |done].
    apply (demo_kept two_client addr_a rooted). intros q ->%rooted_paths. by vm_compute.
  - eexists. split_and!; [by vm_compute| | |].
    + eapply good_le, (fresh_good 13); [done|by intros i (q&?&_)|done..].
    + apply (demo_kept two_client addr_b). intros q [x Hx].
      change ((∅ : gmap string FileMetadata) !! q = Some x) in Hx. by rewrite lookup_empty in Hx.
    + intros p Hp. apply unrooted_tables. intros ->. by vm_compute in Hp.
Qed.

Lemma demo_tree : tree_wf empty_tree.
Proof.
  assert (fs_nodes empty_tree = {["/" := new_metadata (Z.lor 493 S_IFDIR) 0 0 noon 0]}) as Hn
    by (vm_compute; reflexivity).
  assert (fs_entries empty_tree = {["/" := ∅]}) as He by (vm_compute; reflexivity).
  split; unfold names_in; rewrite ?Hn, ?He.
  - intros p. rewrite !lookup_singleton. case_decide; [|split; [by intros []|naive_solver]].
    split; [|by eauto]. intros _. eexists. split; [done|]. by vm_compute.
  - intros p. rewrite lookup_singleton. case_decide; [by left|by intros []].
  - intros d n (subs&Hs&Hin). rewrite lookup_singleton in Hs. case_decide; simplify_eq. set_solver.
  - intros d n Hd Hnn. setoid_rewrite lookup_singleton.
    rewrite (decide_False (P := "/" = fs_append d n)); [|intros Hx; by eapply fs_append_not_root].
    split; [|by intros [[] _]]. intros (subs&Hs&Hin). case_decide; simplify_eq. set_solver.
  - done.
  - intros p m. rewrite lookup_singleton. case_decide; [|done]. intros [= <-]. by vm_compute.
Qed.

(** The calls are in the contract, whatever the ids of the new files. *)
Lemma tree_at d n p :
  bool_decide (dir_path d ∧ plain_name n ∧ p = fs_append d n) = true → tree_path p.
Proof. intros (?&?&?)%bool_decide_eq_true. right. by exists d, n. Qed.
Lemma parent_there p fs :
  bool_decide (is_Some (fs_entries fs !! fs_parent_path p)) = true →
  fs_nodes fs !! p = None → has_parent p fs.
Proof. intros Hp%bool_decide_eq_true _. by right. Qed.
Lemma file_there p fs :
  bool_decide (p ≠ "/") = true → match fs_nodes fs !! p with Some m => is_dir m | None => true end = false →
  op_ok (FUnlink p) fs.
Proof.
  intros Hp%bool_decide_eq_true Hf. simpl. destruct (fs_nodes fs !! p) as [m|]; [|done]. by exists m.
Qed.

Lemma demo_calls_ok : ops_ok (calls_of demo_events) empty_tree.
Proof.
  change (calls_of demo_events) with
    [(noon, FCreate "/f" 420 0 0); (noon, FCreate "/f" 420 0 0); (noon, FMkdir "/d" 493 0 0);
     (noon, FCreate "/d/g" 420 0 0); (noon, FReaddir "/"); (noon, FRmdir "/d"); (noon, FUnlink "/d/g");
     (noon, FRmdir "/d"); (noon, FObjectId "/d/g"); (noon, FReaddir "/")].
  repeat match goal with |- ops_ok _ _ => split; [|intros ?] end; try exact Logic.I.
  - split_and!; [done|apply (tree_at "/" "f"); vm_compute; reflexivity
      |apply parent_there; vm_compute; reflexivity].
  - split_and!; [done|apply (tree_at "/" "f"); vm_compute; reflexivity
      |apply parent_there; vm_compute; reflexivity].
  - split_and!; [apply (tree_at "/" "d"); vm_compute; reflexivity|by left
      |apply parent_there; vm_compute; reflexivity].
  - split_and!; [done|apply (tree_at "/d" "g"); vm_compute; reflexivity
      |apply parent_there; vm_compute; reflexivity].
  - reflexivity.
  - apply file_there; vm_compute; reflexivity.
  - reflexivity.
Qed.

(** The cluster after [mkdir("/d")]. *)
Definition world_abd : Cluster (gmap string string) (gmap Z string) (gmap Z NodeInfo) RangeIndexObject :=
  match Client.mkdir 1 two_client "/d" 493 0 0 world_ab with
  | Some (Done (_, w)) => w
  | _ => world_ab
  end.
Definition tree_d : FileSystem := (fs_exec noon 0 (FMkdir "/d" 493 0 0) empty_tree).2.

Lemma mkdir_d_ok : op_ok (FMkdir "/d" 493 0 0) empty_tree.
Proof.
  split_and!; [apply (tree_at "/" "d"); vm_compute; reflexivity|by left
    |apply parent_there; vm_compute; reflexivity].
Qed.
Lemma demo_tree_d : tree_wf tree_d.
Proof. apply fs_exec_wf; [exact demo_tree|exact mkdir_d_ok|done]. Qed.
Lemma demo_sync_d : sync two_client no_rest 0 world_abd tree_d.
Proof.
  assert (ch_view (master_map_ two_client) ≠ ∅) as Hring by done.
  destruct (op_simulates (hidden := λ _, False) demo_reliable two_client Hring no_rest 1 0 world_ab empty_tree (FMkdir "/d" 493 0 0))
    as (oid&w'&Hrun&_&Hs); [lia|by eapply sync_le; [|exact demo_sync]; lia|exact demo_tree|exact mkdir_d_ok|done|].
  unfold world_abd. unfold run_op in Hrun.
  destruct (Client.mkdir 1 two_client "/d" 493 0 0 world_ab) as [[[st w]|]|]; try discriminate Hrun.
  injection Hrun as _ ->. exact Hs.
Qed.

Lemma demo_crashes : crashes_ok demo_events.
Proof. repeat (constructor; try done); by vm_compute. Qed.

Lemma cluster_refines_filesystem_witness :
  ∃ answers w' fs', run_events id 0 1 two_client demo_events world_ab = ends (answers, w') ∧
    fs_run (owner_of two_client) (calls_of demo_events) empty_tree answers fs' ∧ sync two_client no_rest 0 w' fs' ∧
    tree_wf fs'.
Proof.
  apply cluster_refines_filesystem;
    [exact demo_reliable|exact demo_durable|done|lia|exact demo_crashes|exact demo_sync|exact demo_tree
    |exact demo_calls_ok].
Defined.

Lemma failed_unlink_of_directory_orphans_it_witness :
  ∃ w' fs', Client.unlink 1 two_client "/d" world_abd = ends (refused EISDIR, None, w') ∧
    sync two_client no_rest 0 w' fs' ∧ ¬ tree_wf fs'.
Proof.
  destruct (failed_unlink_of_directory_orphans_it two_client no_rest 1 0 world_abd tree_d "/d"
    (new_dir 493 0 0 noon)) as (w'&fs'&Hu&Hs&_&_&Hwf);
    [exact demo_reliable|done|lia|exact demo_sync_d|exact demo_tree_d|done
    |vm_compute; reflexivity|vm_compute; reflexivity|].
  exists w', fs'. split_and!; [exact Hu|exact Hs|exact Hwf].
Defined.
End witnesses.
