(* ===== verification/ClusterVsfs.v ===== *)
(** * A whole cluster implements a searchable file system

    The state of masters and index servers together stands for one state of
    [Searchable]: the masters have its tree and its registered indices
    ([ClusterFiles.sync]), the index servers have what the indices hold
    ([ClusterSearch.represents]).  Every call of a client, on files, on indices
    or to make or remove an index, answers what the specification allows, crashes of
    masters between the calls included. *)

From S2P Require Import Prelude CxxString Platform PathUtil ThriftUtils IndexImpl LogManager KVStore.
From S2P Require Import RangeIndex IndexInfo RangeIndexWrapper IndexManager IndexSpec.
From S2P Require Import PartitionManager IndexNamespace Namespace FileSystem MasterController Restart.
From S2P Require Import ServerMap ComplexQuery Client ClientIndex Cluster ClusterIndex ClusterSearch.
From S2P Require Import Searchable ClusterFiles.

(** ** The calls of a client on a cluster *)

Section run.
Context {S P R I : Type} `{!KeyValueStore S, !ConsistentHashMap P string, !ConsistentHashMap R NodeInfo}.
Context `{!RangeIndexInterface I, !VoblaStatus, !MD5, !BoostFilesystem}.
Context `{!ThriftCodec FileMetadata, !ThriftCodec IndexNamespaceNode, !ThriftCodec IndexConsistentHashRing}.
Context `{!ThriftCodec RpcIndexRecordUpdateList, !ThriftCodec (list LogEntity)}.
(** What the crash of a master leaves on its disk, and what uninitialised
    fields hold; the size of an update batch. *)
Context (disk : S → S) (indeterminate junk : Z) (second_get : Status → run Status) (batch_size fuel : nat).
Context (c : VSFSRpcClient R).

Abbreviation world := (Cluster S P R I).

Definition run_call (op : vsfs_op) (w : world) : late (vsfs_answer * world) :=
  match op with
  | FileCall o => AWAIT (a, w) ⇐ ClusterFiles.run_op fuel c o w;; ends (FileAnswer a, w)
  | MakeIndex root name key_type mode uid gid =>
      AWAIT (status, w) ⇐ ClientIndex.create_index (index_rpc := cluster_index_rpc junk) fuel c
                            root name BTREE key_type mode uid gid w;;
      ends (Replied status, w)
  | RemoveIndex root name =>
      AWAIT (status, w) ⇐ ClientIndex.remove_index (index_rpc := cluster_index_rpc junk) fuel c root name w;;
      ends (Replied status, w)
  | IndexCall o =>
      AWAIT (status, paths, w) ⇐ ClusterSearch.run_op c batch_size fuel junk second_get o w;;
      ends (Found status paths, w)
  end.

Fixpoint run_program (prog : program) (w : world) : late (list vsfs_answer * world) :=
  match prog with
  | Stop => ends ([], w)
  | Do t op next =>
      AWAIT (a, w) ⇐ run_call op (at_time w t);;
      AWAIT (answers, w) ⇐ run_program (next a) w;;
      ends (a :: answers, w)
  | CrashMaster a self jump r1 r2 next =>
      run_program next (restart_at disk indeterminate a self jump r1 r2 w)
  end.
End run.

(** ** The masters have what index calls ask of the tree *)

Section agreement.
Context {S P R I : Type} `{!KeyValueStore S, !KeyValueStoreSpec S, !ConsistentHashMap P string}.
Context `{!ConsistentHashMapSpec P string}.
Context `{!ConsistentHashMap R NodeInfo, !ConsistentHashMapSpec R NodeInfo}.
Context `{!RangeIndexInterface I, !RangeIndexInterfaceSpec I}.
Context `{!VoblaStatus, !VoblaStatusSpec, !MD5, !BoostFilesystem, !BoostFilesystemSpec}.
Context `{!ThriftCodec FileMetadata, !ThriftCodecSpec FileMetadata}.
Context `{!ThriftCodec IndexNamespaceNode, !ThriftCodecSpec IndexNamespaceNode}.
Context `{!ThriftCodec IndexConsistentHashRing, !ThriftCodecSpec IndexConsistentHashRing}.
Context (c : VSFSRpcClient R).
Abbreviation world := (Cluster S P R I).
Implicit Types (w : world) (fs : FileSystem) (v : Vsfs I).

(** The object ids a node of the ring is in charge of differ from those of any
    other node in their top 16 bits: the files of an id and the id itself are
    on the same master. *)
Definition aligned_ring : Prop :=
  ∀ x y, Z.shiftr x 48 = Z.shiftr y 48 → object_addr c x = object_addr c y.

Lemma ring_aligned : aligned_ring → aligned (owner_of c).
Proof. intros Ha p q Hpq. by apply Ha. Qed.

Definition plain_ring : Prop :=
  ∀ pos node, ch_view (master_map_ c) !! pos = Some node → plain_address (address node).

Context (Hring : ch_view (master_map_ c) ≠ ∅).

Lemma object_node x : ∃ pos node, ch_view (master_map_ c) !! pos = Some node ∧ object_addr c x = address node.
Proof.
  unfold object_addr. rewrite get_spec.
  destruct (ring_owner_total (ch_view (master_map_ c)) x Hring) as [node Hn].
  rewrite Hn. destruct (ring_owner_elem _ _ _ Hn) as [pos Hpos]. eauto.
Qed.

Context {rest : Rest I} {k : nat} {w : world} {fs : FileSystem} (Hs : sync c rest k w fs).

Lemma sync_masters_up : plain_ring → masters_up c (master_nodes w).
Proof.
  intros Hp. split; [done|]. intros pos node Hpos. split; [by eapply Hp|].
  destruct (proj2 Hs pos node Hpos) as (mc&Hmc&_). eauto.
Qed.

Lemma path_attrs_tree p : path_attrs c (master_nodes w) p = tree_attrs fs p.
Proof.
  destruct (sync_at c Hring rest k w fs p Hs) as (mc&Hmc&_&_&Hm&_).
  unfold path_attrs, tree_attrs, attrs_of, Namespace.getattr. rewrite Hmc, Hm.
  by destruct (fs_nodes fs !! p).
Qed.

Lemma file_id_tree p : file_id c (master_nodes w) p = tree_id fs p.
Proof.
  destruct (sync_at c Hring rest k w fs p Hs) as (mc&Hmc&_&_&Hm&_).
  unfold file_id, tree_id, id_of_file. rewrite Hmc, Hm. by destruct (fs_nodes fs !! p).
Qed.

Lemma object_path_tree hidden oid :
  aligned_ring → tree_wf_but hidden fs → given_bits fs → given_once fs →
  object_path c (master_nodes w) oid = tree_find fs oid.
Proof.
  intros Ha Hwf Hbits Honce. destruct (object_node oid) as (pos&node&Hpos&Haddr).
  destruct (proj2 Hs pos node Hpos) as (mc&Hmc&[Hns _]&(_&Hown&_)&Ht).
  unfold object_path. rewrite Haddr, Hmc.
  destruct (id_to_path_map_ (namespace_ mc) !! oid) as [p|] eqn:Hid; simpl.
  - destruct (wf_ids _ Hns _ _ Hid) as (m&Hm&Hf&<-). symmetry. eapply tree_find_file; [done..| |done].
    destruct (Ht p) as [<- _]; [|done]. apply Hown. eauto.
  - symmetry. apply tree_find_none. intros p m Hm Hf Heq.
    assert (owner_of c p = address node) as Ho.
    { rewrite <-Haddr. apply (Ha (path_to_hash p) oid). rewrite <-Heq. symmetry.
      by eapply Hbits, (tw_given _ Hwf). }
    destruct (Ht p Ho) as [Hmm _]. rewrite Hm in Hmm.
    rewrite <-Heq, (wf_files _ Hns _ _ Hmm Hf) in Hid. done.
Qed.

(** Every registered index is at one master of the ring. *)
Lemma located_selected q : located_parts c (master_nodes w) q = selected (registry rest) q.
Proof.
  apply set_eq. intros part. unfold located_parts, selected.
  rewrite elem_of_list_to_set, list_elem_of_fmap, elem_of_map. split.
  - intros (idx&->&Hidx). unfold located_indices in Hidx.
    apply list_elem_of_bind in Hidx as ([pos node]&Hidx&Hpos%elem_of_sorted_map). cbn [snd] in Hidx.
    rewrite get_ch_ring_as_map_spec in Hpos.
    destruct (proj2 Hs pos node Hpos) as (mc&Hmc&_&(_&_&Hreg)&_). rewrite Hmc in Hidx.
    unfold locate_indices_for_names in Hidx. cbn [snd] in Hidx.
    apply list_elem_of_bind in Hidx as (name&(root&->&Hroot)%list_elem_of_fmap&Hname).
    apply elem_of_collect in Hroot as [Hpre [Hin _]%Hreg]. exists (root, name). split; [done|].
    apply elem_of_filter. split; [|done]. simpl. split; [done|].
    apply list_elem_of_fmap in Hname as ([name' range]&->&Hrange%elem_of_map_to_list). eauto.
  - intros ([root name]&->&[[Hpre [range Hrange]] Hin]%elem_of_filter). simpl in *.
    exists (index_path root name). split; [done|]. unfold located_indices.
    destruct (get_path_owner c (index_path root name) Hring) as (pos&node&_&Hpos&Ho).
    destruct (proj2 Hs pos node Hpos) as (mc&Hmc&_&(_&_&Hreg)&_).
    apply list_elem_of_bind. exists (pos, node).
    rewrite get_ch_ring_as_map_spec. split; [|by apply elem_of_sorted_map]. cbn [snd]. rewrite Hmc.
    unfold locate_indices_for_names. cbn [snd]. apply list_elem_of_bind. exists name. split.
    + apply list_elem_of_fmap. exists root. split; [done|]. apply elem_of_collect. split; [done|].
      by apply Hreg.
    + apply list_elem_of_fmap. exists (name, range). split; [done|]. by apply elem_of_map_to_list.
Qed.
End agreement.

(** ** The specification of index calls looks at its parameters pointwise *)

Lemma nearest_ext `{!BoostFilesystem} attrs attrs' fuel parent name root :
  (∀ p, attrs p = attrs' p) → nearest attrs fuel parent name root → nearest attrs' fuel parent name root.
Proof.
  intros Ha (names&k&?&?&?&?&?&Hh&Hmin). exists names, k. unfold holds_index in *.
  split_and!; [done..|by rewrite <-Ha|]. intros j Hj. rewrite <-Ha. by apply Hmin.
Qed.

Lemma call_spec_ext {I} `{!RangeIndexInterface I, !BoostFilesystem} root_of batch_size id_of id_of' path_of path_of'
    parts_of parts_of' o (ix : gmap string I) :
  (∀ p, id_of p = id_of' p) → (∀ oid, path_of oid = path_of' oid) → (∀ q, parts_of q = parts_of' q) →
  call_spec root_of batch_size id_of path_of parts_of o ix
  = call_spec root_of batch_size id_of' path_of' parts_of' o ix.
Proof.
  intros Hid Hpath Hparts. destruct o as [requests order|q]; simpl.
  - assert (updates_in_order root_of batch_size id_of requests order
      = updates_in_order root_of batch_size id_of' requests order) as ->; [|done].
    unfold updates_in_order. apply list_bind_ext; [|done]. intros i. unfold updates_of.
    apply list_fmap_ext. intros j r _. unfold record_for. by rewrite Hid.
  - rewrite Hparts. do 2 f_equal. apply list_fmap_ext. auto.
Qed.

(** ** The simulation *)

Section simulation.
Context {S P R I : Type} `{!KeyValueStore S, !KeyValueStoreSpec S, !ConsistentHashMap P string}.
Context `{!ConsistentHashMapSpec P string}.
Context `{!ConsistentHashMap R NodeInfo, !ConsistentHashMapSpec R NodeInfo}.
Context `{!RangeIndexInterface I, !RangeIndexInterfaceSpec I}.
Context `{!VoblaStatus, !VoblaStatusSpec, !MD5, !BoostFilesystem, !BoostFilesystemSpec}.
Context `{!ThriftCodec FileMetadata, !ThriftCodecSpec FileMetadata}.
Context `{!ThriftCodec IndexNamespaceNode, !ThriftCodecSpec IndexNamespaceNode}.
Context `{!ThriftCodec IndexConsistentHashRing, !ThriftCodecSpec IndexConsistentHashRing}.
Context `{!ThriftCodec RpcIndexRecordUpdateList, !ThriftCodec (list LogEntity)}.
Context (Hrel : reliable S) (junk : Z) (Hjunk : (junk ≤ 0)%Z).
Context (c : VSFSRpcClient R) (Hring : ch_view (master_map_ c) ≠ ∅).
Context (Hplain : plain_ring c) (Ha : aligned_ring c).
Context (second_get : Status → run Status) (batch_size fuel : nat) (Hfuel : 0 < fuel).
#[local] Instance index_rpc : IndexRpc (Cluster S P R I) := cluster_index_rpc junk.

Abbreviation world := (Cluster S P R I).
Abbreviation master := (MasterController S P R).
Implicit Types (w : world) (fs : FileSystem) (v : Vsfs I).

(** The cluster stands for a state of the specification, and has ids left for
    [k] more files. *)
Definition rest_of v w : Rest I := {| registry := v_registry v; index_servers := index_nodes w |}.
Definition implements (k : nat) w v : Prop :=
  sync c (rest_of v w) k w (v_tree v) ∧ represents c w (v_indices v).

Lemma represents_nodes w w' ix : index_nodes w' = index_nodes w → represents c w ix → represents c w' ix.
Proof. intros He [? Hup Hheld]. split; [done|by intros part; rewrite He|by rewrite He]. Qed.

Lemma sync_servers rest k w w' fs :
  sync c rest k w fs → master_nodes w' = master_nodes w →
  sync c {| registry := registry rest; index_servers := index_nodes w' |} k w' fs.
Proof. intros [_ Hs] Hmn. split; [done|]. by rewrite Hmn. Qed.

Lemma implements_le k k' w v : k' ≤ k → implements k w v → implements k' w v.
Proof. intros Hk [Hs Hrep]. split; [by eapply sync_le|done]. Qed.

Lemma implements_at_time k w v t : implements k w v → implements k (at_time w t) v.
Proof. intros [Hs Hrep]. split; [exact Hs|]. by apply (represents_nodes w). Qed.

(** What a call may answer and leave behind. *)
Definition simulated k op w v : Prop :=
  ∃ a w' v', run_call junk second_get batch_size fuel c op w = ends (a, w') ∧
    vsfs_step (owner_of c) batch_size fuel (now w) op v a v' ∧ implements k w' v'.

Lemma file_call_simulated k w v o :
  implements (Datatypes.S k) w v → vsfs_wf v → vsfs_ok batch_size fuel (FileCall o) v →
  simulated k (FileCall o) w v.
Proof.
  intros [Hs Hrep] Hwf [Hok Hvis].
  destruct (op_simulates (hidden := hidden v) Hrel c Hring (rest_of v w) fuel k w (v_tree v) o)
    as (oid&w'&Hrun&Hid&Hs'); [done|done|apply Hwf|done|done|].
  exists (FileAnswer (fs_exec (now w) oid o (v_tree v)).1), w',
    (with_files v (fs_exec (now w) oid o (v_tree v)).2). split_and!.
  - simpl. by rewrite Hrun.
  - by apply step_file with oid; [|apply surjective_pairing].
  - assert (index_nodes w' = index_nodes w) as He by apply Hs'.
    split; [|by apply (represents_nodes w)]. unfold rest_of. rewrite He. exact Hs'.
Qed.

Lemma index_call_simulated k w v o :
  implements k w v → vsfs_wf v → vsfs_ok batch_size fuel (IndexCall o) v →
  simulated k (IndexCall o) w v.
Proof.
  intros [Hs Hrep] Hwf Hok.
  pose proof (sync_masters_up c Hring Hs Hplain) as Hup.
  assert (spec_op c (master_nodes w) (nearest_root fuel (v_tree v)) batch_size o (v_indices v)
          = index_call batch_size fuel v o) as Hspec.
  { apply call_spec_ext; intros.
    - by apply (file_id_tree c Hring Hs).
    - eapply (object_path_tree c Hring Hs); [done|apply Hwf..].
    - by apply (located_selected c Hring Hs). }
  assert (ClusterSearch.op_ok c (master_nodes w) (nearest_root fuel (v_tree v)) batch_size fuel
            (dom (v_indices v)) o) as Hop.
  { destruct o as [requests order|q].
    - destruct Hok as (Hperm&Hnear&_). split; [done|]. intros r Hr.
      eapply nearest_ext; [|by apply Hnear]. intros p. symmetry. by apply (path_attrs_tree c Hring Hs).
    - intros pos node mc name root Hpos Hmc _ [_ Hin]%elem_of_collect. rewrite get_ch_ring_as_map_spec in Hpos.
      destruct (proj2 Hs pos node Hpos) as (mc'&Hmc'&_&(_&_&Hreg)&_). rewrite Hmc in Hmc'. injection Hmc' as <-.
      apply Hreg in Hin as [Hin _]. destruct (vw_registry _ Hwf _ _ Hin) as (?&?&?).
      split_and!; [done..|]. by apply elem_of_dom. }
  assert (is_Some (index_call batch_size fuel v o)) as [[out ix'] Hcall].
  { destruct o; [by apply Hok|by eexists]. }
  destruct (run_op_holds junk c (master_nodes w) Hup (nearest_root fuel (v_tree v)) batch_size fuel second_get
    w (v_indices v) ix' o out) as (paths&w'&Hrun&Hperm&Hmn&Hrep'&_); [done..|by rewrite Hspec|].
  exists (Found OK paths), w', (with_indices v ix'). split_and!.
  - simpl. by rewrite Hrun.
  - by eapply step_index.
  - split; [|done]. exact (sync_servers (rest_of v w) k w w' (v_tree v) Hs Hmn).
Qed.

(** *** Making an index *)

Lemma stat_is_dir_info m : stat_is_dir (Some (info_of m)) = is_dir m.
Proof.
  unfold stat_is_dir, is_dir. simpl.
  by rewrite <-(S_ISDIR_wrap (wrap_uint32 _)), wrap_int32_mod, S_ISDIR_wrap.
Qed.

(** The index server makes the partition, or has it already. *)
Lemma call_part w v part (handler : IndexManager I → run (rpc () * IndexManager I)) :
  represents c w (v_indices v) →
  ∃ im, index_nodes w !! part_addr c part = Some im ∧
    manager_holds (λ p, part_addr c p = part_addr c part) im (v_indices v) ∧
    ∀ r im', handler im = Done (r, im') →
      call_index w (part_addr c part) handler = (outcome_of r, set_index w (part_addr c part) (Some im')).
Proof.
  intros Hrep. destruct (rp_up _ _ _ Hrep part) as [_ [im Him]]. exists im. split_and!; [done| |].
  - by apply (rp_held _ _ _ Hrep).
  - intros r im' Hh. unfold call_index. by rewrite Him, Hh.
Qed.

Lemma set_index_represents w ix a im' ix' :
  represents c w ix → manager_holds (λ p, part_addr c p = a) im' ix' →
  (∀ b im, b ≠ a → manager_holds (λ p, part_addr c p = b) im ix → manager_holds (λ p, part_addr c p = b) im ix') →
  represents c (set_index w a (Some im')) ix'.
Proof.
  intros [Hne Hup Hheld] Hh Hother. split; [done| |].
  - intros p. destruct (Hup p) as [? ?]. split; [done|]. simpl. rewrite lookup_partial_alter.
    case_decide; [by eexists|done].
  - intros b im Hb. simpl in Hb. rewrite lookup_partial_alter in Hb.
    destruct (decide (a = b)) as [<-|Hne']; [by injection Hb as <-|]. apply Hother; [done|by apply Hheld].
Qed.

Lemma create_on_server w v root name key_type mode uid gid index :
  represents c w (v_indices v) → v_indices v !! index_part root name = None →
  plain_name name → create_range_index key_type = Some index →
  ∃ w', i_create_index w (part_addr c (index_part root name))
          (create_request (index_part root name) name BTREE key_type mode uid gid) = (Reply (), w') ∧
    master_nodes w' = master_nodes w ∧ now w' = now w ∧
    represents c w' (<[index_part root name := index]> (v_indices v)).
Proof.
  intros Hrep Hnew [Hname _] Hc.
  destruct (call_part w v (index_part root name)
    (λ im, Done (IndexManager.rpc_create_index junk
       (create_request (index_part root name) name BTREE key_type mode uid gid) im)) Hrep)
    as (im&Him&Hh&Hcall).
  destruct (create_holds junk (λ p, part_addr c p = part_addr c (index_part root name)) im (v_indices v) (index_part root name) name key_type index)
    as (im'&Hcr&Hh'); [done|exact Hh|done..| |by destruct name|done|].
  { unfold index_part. by destruct (index_path root name). }
  exists (set_index w (part_addr c (index_part root name)) (Some im')). split_and!; [|done..|].
  - simpl. rewrite (Hcall (Return ()) im'); [done|]. unfold IndexManager.rpc_create_index. simpl. by rewrite Hcr.
  - apply (set_index_represents w (v_indices v)); [done|done|]. intros b imb Hb Hhb.
    by apply manager_holds_other.
Qed.

Lemma set_index_same w a im : index_nodes w !! a = Some im → set_index w a (Some im) = w.
Proof.
  intros Him. destruct w as [mn ixs n]. unfold set_index; simpl in *. f_equal. by apply partial_alter_id.
Qed.

Lemma create_on_server_refused w v root name index_type key_type mode uid gid index :
  represents c w (v_indices v) → v_indices v !! index_part root name = Some index → plain_name name →
  ∃ ouch, i_create_index w (part_addr c (index_part root name))
         (create_request (index_part root name) name index_type key_type mode uid gid) = (Invalid ouch, w) ∧
    status_of_exception ouch = Err (- EEXIST) "The index is existed.".
Proof.
  intros Hrep Hix [Hname _].
  destruct (call_part w v (index_part root name)
    (λ im, Done (IndexManager.rpc_create_index junk
       (create_request (index_part root name) name index_type key_type mode uid gid) im)) Hrep)
    as (im&Him&Hh&Hcall).
  exists (status_to_rpc_invalid_op (Err (- EEXIST) "The index is existed.")). split; [|done].
  simpl. rewrite (Hcall (Throw (status_to_rpc_invalid_op (Err (- EEXIST) "The index is existed."))) im).
  { by rewrite set_index_same. }
  unfold IndexManager.rpc_create_index. simpl.
  rewrite (create_existing junk (λ p, part_addr c p = part_addr c (index_part root name)) im (v_indices v)
    (index_part root name) name index_type key_type index); [done|exact Hh|done|done| |by destruct name].
  unfold index_part. by destruct (index_path root name).
Qed.

(** The master registers the index and makes its directory. *)
Lemma insert_accepted (ins : IndexNamespace S) root name :
  in_wf ins → index_root root → name ∉ names_at ins root →
  ∃ st ins', IndexNamespace.insert ins root name = Done (st, ins') ∧ ok st = true ∧ in_wf ins' ∧
    ∀ key, names_at ins' key = if decide (key = root) then {[name]} ∪ names_at ins root else names_at ins key.
Proof.
  intros Hwf Hroot Hnew.
  assert (cleanup_path root = Done root) as Hclean.
  { apply cleanup_path_id. destruct Hroot as [?|[(?&?&_) _]]; auto. }
  assert (∃ st ins', IndexNamespace.insert ins root name = Done (st, ins') ∧ ok st = true ∧
    ∀ key, names_at ins' key = if decide (key = root) then {[name]} ∪ names_at ins root else names_at ins key)
    as (st&ins'&Hins&Hok&Hnames); [|by exists st, ins'; eauto 6 using insert_wf].
  unfold IndexNamespace.insert. rewrite Hclean. simpl.
  set (node := match nodes_ ins !! root with Some _ => _ | None => _ end).
  assert (names node = names_at ins root) as Hnode.
  { unfold node, names_at. by destruct (nodes_ ins !! root). }
  rewrite bool_decide_eq_false_2 by by rewrite Hnode.
  match goal with |- context [kv_put ?s ?k ?v] =>
    destruct (kv_put_spec s k v (in_opened _ Hwf)) as (st&s'&Hput&_); rewrite Hput end. simpl.
  pose proof (rl_put Hrel _ _ _ _ _ (in_opened _ Hwf) Hput) as Hok. rewrite Hok.
  do 2 eexists. split_and!; [done|done|]. intros key. unfold names_at at 1. simpl. rewrite lookup_insert.
  case_decide as Hk; [subst|by rewrite decide_False by done].
  rewrite decide_True by done. simpl. by rewrite Hnode.
Qed.

Lemma new_index_dir_wire mode uid gid t :
  new_metadata (wrap_int32 (Z.lor (wrap_uint32 mode) S_IFDIR)) (wrap_uint32 uid) (wrap_uint32 gid) t 0
  = new_dir mode uid gid t.
Proof.
  unfold new_metadata, new_dir, new_node. rewrite !wrap_int32_mod. f_equal.
  apply wrap_int32_bits. intros n Hn. unfold wrap_uint32.
  by rewrite !Z.lor_spec, Z.mod_pow2_bits_low by lia.
Qed.

Lemma register_index k w v fs root name key_type mode uid gid servers :
  sync c {| registry := v_registry v; index_servers := servers |} k w fs →
  index_root root → mkdir_mode mode → tree_path (index_path root name) →
  fs_nodes fs !! index_path root name = None → (root, name) ∉ v_registry v →
  ∃ w', m_create_index w (owner_of c (index_path root name))
          (create_request root name BTREE key_type mode uid gid) = (Reply (), w') ∧
    sync c {| registry := {[(root, name)]} ∪ v_registry v; index_servers := servers |} k w'
      (put_dir (index_path root name) (new_dir mode uid gid (now w)) fs).
Proof.
  intros Hs Hroot Hmode Hp Hfree Hnew. set (p := index_path root name) in *.
  destruct (sync_at c Hring _ k w fs p Hs) as (mc&Hmc&Hg&([Hin Hpm]&Hown&Hreg)&Hm&Hd). rewrite Hfree in Hm.
  destruct (insert_accepted (index_namespace_ mc) root name Hin Hroot) as (st&ins'&Hins&Hok&Hin'&Hnames).
  { rewrite (Hreg root name). by intros [? _]. }
  assert (mkdir_mode (wrap_uint32 mode)) as Hmode' by by apply mkdir_mode_uint.
  destruct (good_mkdir Hrel k _ (namespace_ mc) p (wrap_uint32 mode) (wrap_uint32 uid) (wrap_uint32 gid) (now w)
    Hg (tree_path_absolute p Hp) Hmode' Hm) as (ns'&Hc&Hg'&Hsame&Hd'&Hm').
  rewrite new_index_dir_wire in Hm'. eexists. split.
  - simpl. apply call_master_done with (mc := mc) (mc' := set_namespace (set_index_namespace mc ins') ns')
      (r := Return ()); [done|].
    unfold rpc_create_index, MasterController.create_index. simpl. rewrite Hins. simpl. rewrite Hok. simpl.
    fold p. rewrite Hc. done.
  - eapply sync_replace with (mc := mc); [done|done|lia|done|done| | |by left| | |].
    + split; simpl; by rewrite lookup_insert_eq.
    + intros q Hq. simpl. by rewrite !lookup_insert_ne.
    + by split.
    + split; [done|]. intros root' name' Hne. simpl. rewrite elem_of_union, elem_of_singleton.
      split; [intros [[= -> ->]|?]; [by destruct Hne|done]|by right].
    + intros root' name'. simpl. rewrite Hnames. rewrite elem_of_union, elem_of_singleton.
      case_decide as Hr; [subst root'; rewrite elem_of_union, elem_of_singleton|];
        rewrite (Hreg _ name'); simpl; [|naive_solver].
      split; [intros [->|[??]]; [by split; [left|]|by split; [right|]]|].
      intros [[[= ->]|?] ?]; [by left|by right].
Qed.

(** Calls take no time. *)
Lemma call_master_now {A} w a (handler : master → run (rpc A * master)) : now (call_master w a handler).2 = now w.
Proof. unfold call_master. by destruct (master_nodes w !! a) as [mc|]; [destruct (handler mc) as [[]|]|]. Qed.

Lemma subfile_loop_now (call : world → outcome () * world) fuel' backoff status w status' w' :
  (∀ w, now (call w).2 = now w) → subfile_loop call fuel' backoff status w = ends (status', w') → now w' = now w.
Proof.
  intros Hcall. revert backoff status w. induction fuel' as [|fuel' IH]; intros [|backoff] status w;
    simpl; try (by intros [= <- <-]).
  pose proof (Hcall w) as Hw. destruct (call w) as [[a|ouch|ty what] w1]; simpl in *; [by intros [= <- <-]|..];
    rewrite <-Hw; apply IH.
Qed.

Lemma mkdir_now p mode uid gid w status w' :
  Client.mkdir fuel c p mode uid gid w = ends (status, w') → now w' = now w.
Proof.
  unfold Client.mkdir. destruct (is_initialized c); simpl; [|by intros [= <- <-]].
  destruct (get (master_map_ c) (path_to_hash p)) as [st node]. destruct (ok st); simpl; [|by intros [= <- <-]].
  match goal with |- context [call_master ?w ?a ?h] =>
    pose proof (call_master_now w a h) as Hw; destruct (call_master w a h) as [[[]|ouch|ty what] w1] end;
    simpl in *; [|by intros [= <- <-]|by intros [= <- <-]].
  unfold Client.add_subfile, change_subfile. case_bool_decide; [by intros [= <- <-]|].
  destruct (get (master_map_ c) (path_to_hash (fs_parent_path p))) as [st' node'].
  destruct (ok st'); [|done]. rewrite <-Hw.
  match goal with |- context [late_bind (subfile_loop ?call ?f ?b ?s w1)] =>
    assert (∀ st2 w2, subfile_loop call f b s w1 = ends (st2, w2) → now w2 = now w1) as Hloop
      by (intros st2 w2; apply subfile_loop_now; intros; apply call_master_now);
    destruct (subfile_loop call f b s w1) as [[[st2 w2]|]|] end; simpl; [|done..].
  rewrite <-(Hloop st2 w2 eq_refl). destruct (ok st2); [by intros [= <- <-]|].
  match goal with |- context [call_master ?w ?a ?h] =>
    pose proof (call_master_now w a h) as Hw2; destruct (call_master w a h) as [[?|ouch|ty what] w3] end;
    simpl in *; [by intros [= <- <-]|done|by intros [= <- <-]].
Qed.

Lemma partition_is_part root name :
  dir_path root → root ≠ "/" → plain_name name → partition_path root name 0 = index_part root name.
Proof.
  intros Hr Hne Hn. destruct (index_paths root name Hr Hne Hn) as (_&_&_&_&->). done.
Qed.

Lemma make_refused_simulated k w v root name key_type mode uid gid st :
  implements (Datatypes.S k) w v → vsfs_wf v → root ≠ "/" → index_root root → plain_name name →
  make_refused v root name = Some st → simulated k (MakeIndex root name key_type mode uid gid) w v.
Proof.
  intros Himp Hwf Hne Hroot Hname Hr. pose proof Himp as [Hs Hrep].
  exists (Replied st), w, v. split_and!; [|by apply step_make_refused|by eapply implements_le; [|exact Himp]; lia].
  cbn [run_call]. unfold ClientIndex.create_index.
  rewrite (masters_getattr c (master_nodes w) (sync_masters_up c Hring Hs Hplain) w root eq_refl).
  rewrite (path_attrs_tree c Hring Hs). unfold tree_attrs, make_refused in *.
  destruct (fs_nodes (v_tree v) !! root) as [m|] eqn:Hm.
  2:{ injection Hr as <-. unfold missing. simpl. by rewrite system_error_code_spec. }
  cbn [fst snd lift late_bind ok negb]. rewrite stat_is_dir_info.
  destruct (is_dir m) eqn:Hd; [|by injection Hr as <-].
  destruct (v_indices v !! index_part root name) as [index|] eqn:Hix; [|done]. injection Hr as <-.
  rewrite partition_is_part by (done || by eapply index_root_dir).
  destruct (part_addr_get c (index_part root name) (rp_ring _ _ _ Hrep)) as (node&Hget&Haddr).
  unfold check_get. rewrite Hget. cbn [fst snd lift late_bind ok negb from_option id snd]. rewrite Haddr.
  destruct (create_on_server_refused w v root name BTREE key_type mode uid gid index Hrep Hix Hname)
    as (ouch&Hcall&Hst).
  unfold index_rpc in Hcall. rewrite Hcall. cbn [status_of_outcome from_option id]. by rewrite Hst.
Qed.

(** The calls on files inside [create_index]. *)
Lemma mkdir_step hidden rest k w fs p mode uid gid :
  sync c rest k w fs → tree_wf_but hidden fs → FileSystem.op_ok (FMkdir p mode uid gid) fs →
  ∃ st w', Client.mkdir fuel c p mode uid gid w = ends (st, w') ∧
    negb (ok st) && negb (Z.eqb (error_of st) (- EEXIST)) = false ∧ now w' = now w ∧
    sync c rest k w' (fs_exec (now w) 0 (FMkdir p mode uid gid) fs).2.
Proof.
  intros Hs Hwf Hok.
  destruct (sim_mkdir (hidden := hidden) Hrel c Hring rest fuel k w fs p mode uid gid)
    as (oid&w'&Hrun&_&Hs'); [done..|].
  change (fs_exec (now w) oid (FMkdir p mode uid gid) fs) with (fs_exec (now w) 0 (FMkdir p mode uid gid) fs) in *.
  unfold ClusterFiles.run_op in Hrun.
  destruct (Client.mkdir fuel c p mode uid gid w) as [[[st w1]|]|] eqn:Hmk; simpl in Hrun; try done.
  injection Hrun as Hans ->. exists st, w'. split_and!; [done| |by eapply mkdir_now|done].
  destruct (fs_nodes fs !! p); injection Hans as ->; [by rewrite Z.eqb_refl, andb_false_r|done].
Qed.

Lemma create_step hidden rest k w fs p mode uid gid :
  sync c rest (Datatypes.S k) w fs → tree_wf_but hidden fs → FileSystem.op_ok (FCreate p mode uid gid) fs →
  fs_nodes fs !! p = None →
  ∃ oid w', Client.create fuel c p mode uid gid w = ends (OK, Some oid, w') ∧
    id_ok (owner_of c) (FCreate p mode uid gid) oid fs ∧
    sync c rest k w' (fs_exec (now w) oid (FCreate p mode uid gid) fs).2.
Proof.
  intros Hs Hwf Hok Hfree.
  destruct (sim_create (hidden := hidden) Hrel c Hring rest fuel k w fs p mode uid gid)
    as (oid&w'&Hrun&Hid&Hs'); [done..|]. exists oid, w'. split_and!; [|done|done].
  unfold ClusterFiles.run_op in Hrun.
  destruct (Client.create fuel c p mode uid gid w) as [[[[st id] w1]|]|]; simpl in Hrun; try done.
  rewrite Hfree in Hrun. by injection Hrun as -> -> ->.
Qed.

(** All calls of [create_index], one after the other. *)
Lemma making_steps k w v root name key_type mode uid gid :
  implements (Datatypes.S k) w v → vsfs_wf v →
  vsfs_ok batch_size fuel (MakeIndex root name key_type mode uid gid) v →
  make_refused v root name = None →
  ∃ w1 st w2 w3 oid w4 index,
    i_create_index w (part_addr c (index_part root name))
      (create_request (index_part root name) name BTREE key_type mode uid gid) = (Reply (), w1) ∧
    Client.mkdir fuel c (vsfs_dir root) mode uid gid w1 = ends (st, w2) ∧
    negb (ok st) && negb (Z.eqb (error_of st) (- EEXIST)) = false ∧
    m_create_index w2 (owner_of c (index_path root name))
      (create_request root name BTREE key_type mode uid gid) = (Reply (), w3) ∧
    Client.create fuel c (index_part root name) 493 uid gid w3 = ends (OK, Some oid, w4) ∧
    create_range_index key_type = Some index ∧
    id_ok (owner_of c) (part_file root name uid gid) oid (index_dirs (now w) root name mode uid gid (v_tree v)) ∧
    implements k w4 (make_index (now w) oid root name mode uid gid index v).
Proof.
  intros [Hs Hrep] Hwf Hok Hr.
  pose proof (making_index batch_size fuel (now w) _ _ _ _ _ _ _ Hwf Hok Hr) as Hm.
  destruct Hok as (Hne&Hroot&Hname&Hok). destruct (Hok Hr) as (Hmode&[index Hindex]&_).
  destruct (create_on_server w v root name key_type mode uid gid index Hrep (mk_new _ _ _ _ _ _ _ Hm) Hname Hindex)
    as (w1&Hcall&Hmn1&Hnow1&Hrep1).
  pose proof (sync_servers _ _ w w1 (v_tree v) Hs Hmn1) as Hs1. simpl in Hs1.
  destruct (mkdir_step (hidden v) _ _ w1 _ (vsfs_dir root) mode uid gid Hs1 (vw_tree _ Hwf) (mk_vsfs _ _ _ _ _ _ _ Hm))
    as (st&w2&Hmk&Hst&Hnow2&Hs2). rewrite Hnow1 in *.
  destruct (register_index _ w2 v _ root name key_type mode uid gid _ Hs2 Hroot Hmode (mk_path _ _ _ _ _ _ _ Hm)
    (mk_free _ _ _ _ _ _ _ Hm)) as (w3&Hreg&Hs3).
  { intros Hin. destruct (tw_hidden _ (mk_vsfs_wf _ _ _ _ _ _ _ Hm) (index_path root name)) as (m'&Hm'&_).
    - by exists root, name.
    - by rewrite (mk_free _ _ _ _ _ _ _ Hm) in Hm'. }
  rewrite Hnow2 in Hs3. fold (index_dirs (now w) root name mode uid gid (v_tree v)) in Hs3.
  assert (now w3 = now w) as Hnow3.
  { rewrite <-Hnow2. change w3 with (snd (Reply (), w3)). rewrite <-Hreg. apply call_master_now. }
  destruct (create_step (λ q, hidden v q ∨ q = index_path root name) _ _ w3 _ (index_part root name) 493 uid gid
    Hs3) as (oid&w4&Hcr&Hid&Hs4); [by eapply mk_wf|by eapply mk_part|by eapply mk_part_free|].
  rewrite Hnow3 in Hs4. exists w1, st, w2, w3, oid, w4, index. split_and!; [done..|].
  split; [|apply (represents_nodes w1); [by apply Hs4|done]].
  unfold rest_of. rewrite (proj1 Hs4). exact Hs4.
Qed.

Lemma make_simulated k w v root name key_type mode uid gid :
  implements (Datatypes.S k) w v → vsfs_wf v →
  vsfs_ok batch_size fuel (MakeIndex root name key_type mode uid gid) v →
  make_refused v root name = None → simulated k (MakeIndex root name key_type mode uid gid) w v.
Proof.
  intros Himp Hwf Hok Hr.
  destruct (making_steps k w v root name key_type mode uid gid Himp Hwf Hok Hr)
    as (w1&st&w2&w3&oid&w4&index&Hcall&Hmk&Hst&Hreg&Hcr&Hindex&Hid&Himp').
  pose proof (making_index batch_size fuel (now w) _ _ _ _ _ _ _ Hwf Hok Hr) as Hm.
  destruct Hok as (Hne&Hroot&Hname&_). destruct Himp as [Hs Hrep].
  destruct (mk_root _ _ _ _ _ _ _ Hm) as (m&Hmr&Hmd).
  exists (Replied OK), w4, (make_index (now w) oid root name mode uid gid index v).
  split_and!; [|by eapply step_make|done]. cbn [run_call]. unfold ClientIndex.create_index.
  rewrite (masters_getattr c (master_nodes w) (sync_masters_up c Hring Hs Hplain) w root eq_refl).
  rewrite (path_attrs_tree c Hring Hs). unfold tree_attrs. rewrite Hmr.
  cbn [fst snd lift late_bind ok negb]. rewrite stat_is_dir_info, Hmd.
  rewrite partition_is_part by (done || by eapply index_root_dir).
  destruct (part_addr_get c (index_part root name) (rp_ring _ _ _ Hrep)) as (node&Hget&Haddr).
  destruct (route c Hring (index_path root name)) as (node'&Hget'&Haddr').
  unfold check_get. rewrite Hget. cbn [fst snd lift late_bind ok negb from_option id]. rewrite Haddr.
  unfold index_rpc in *. rewrite Hcall. cbn [status_of_outcome from_option id ok negb].
  fold (vsfs_dir root). rewrite Hmk. cbn [late_bind ends]. rewrite Hst, Hget'.
  cbn [fst snd lift late_bind ok negb from_option id]. rewrite Haddr', Hreg.
  cbn [status_of_outcome from_option id ok late_bind ends]. by rewrite Hcr.
Qed.

(** *** Removing an index *)

Lemma unlink_step hidden rest k w fs p :
  sync c rest k w fs → tree_wf_but hidden fs → FileSystem.op_ok (FUnlink p) fs → ¬ hidden p →
  ∃ st id w', Client.unlink fuel c p w = ends (st, id, w') ∧
    sync c rest k w' (fs_exec (now w) 0 (FUnlink p) fs).2.
Proof.
  intros Hs Hwf Hok Hvis.
  destruct (sim_unlink (hidden := hidden) Hrel c Hring rest fuel k w fs p) as (oid&w'&Hrun&_&Hs'); [done..|].
  unfold ClusterFiles.run_op in Hrun.
  destruct (Client.unlink fuel c p w) as [[[[st id] w1]|]|]; simpl in Hrun; try done.
  injection Hrun as _ ->. by exists st, id, w'.
Qed.

(** The index server does nothing. *)
Lemma remove_on_server w ix root name part :
  represents c w ix →
  ∃ node, get (index_server_map_ c) (path_to_hash part) = (OK, Some node) ∧
    i_remove_index w (address node) root name = (Reply (), w).
Proof.
  intros Hrep. destruct (part_addr_get c part (rp_ring _ _ _ Hrep)) as (node&Hget&Haddr).
  exists node. split; [done|]. rewrite Haddr. destruct (rp_up _ _ _ Hrep part) as [_ [im Him]].
  simpl. unfold call_index. rewrite Him. simpl. by rewrite set_index_same.
Qed.

Lemma remove_partitions_step hidden rest k t root name names status w fs ix :
  sync c rest k w fs → tree_wf_but hidden fs → represents c w ix →
  removable hidden fs (fs_append (index_path root name) <$> names) →
  ∃ w', ClientIndex.remove_partitions fuel c root name (index_path root name) names status w = ends (status, w') ∧
    sync c rest k w' (unlink_all t (fs_append (index_path root name) <$> names) fs) ∧ represents c w' ix.
Proof.
  revert w fs. induction names as [|n names IH]; intros w fs Hs Hwf Hrep Hr; [by exists w|].
  rewrite fmap_cons in *. apply (removable_cons t) in Hr as (Hop&Hvis&Hr).
  destruct (unlink_step hidden rest k w fs _ Hs Hwf Hop Hvis) as (st&oid&w1&Hun&Hs1).
  change (fs_exec (now w) 0 (FUnlink (fs_append (index_path root name) n)) fs)
    with (fs_exec t 0 (FUnlink (fs_append (index_path root name) n)) fs) in Hs1.
  assert (represents c w1 ix) as Hrep1.
  { apply (represents_nodes w); [|done]. by rewrite (proj1 Hs1), (proj1 Hs). }
  destruct (remove_on_server w1 ix root name (fs_append (index_path root name) n) Hrep1) as (node&Hget&Hrm).
  destruct (IH w1 _ Hs1) as (w'&Hrest&Hs'&Hrep'); [by apply fs_exec_wf|done|done|].
  exists w'. split_and!; [|exact Hs'|exact Hrep']. cbn [ClientIndex.remove_partitions].
  rewrite Hun. cbn [late_bind ends]. unfold check_get. rewrite Hget.
  cbn [fst snd lift late_bind ok negb from_option id]. rewrite Hrm. exact Hrest.
Qed.

Lemma remove_simulated k w v root name :
  implements k w v → vsfs_wf v → vsfs_ok batch_size fuel (RemoveIndex root name) v →
  simulated k (RemoveIndex root name) w v.
Proof.
  intros Himp Hwf Hok. pose proof Himp as [Hs Hrep].
  pose proof (index_files_removable _ _ v root name Hwf Hok) as Hr.
  destruct (sim_readdir c Hring (rest_of v w) fuel k w (v_tree v) (index_path root name) Hs (proj1 Hok))
    as (oid&w0&Hrun&_&Hs0).
  assert (represents c w0 (v_indices v)) as Hrep0.
  { apply (represents_nodes w); [|done]. by rewrite (proj1 Hs0). }
  unfold simulated. cbn [run_call]. unfold ClientIndex.remove_index, lift.
  unfold ClusterFiles.run_op in Hrun. simpl fs_exec in Hrun, Hs0.
  destruct (Client.readdir c (index_path root name) w) as [[[st names] w1]|]; [|done]. simpl in Hrun.
  unfold index_files in Hr.
  destruct (fs_entries (v_tree v) !! index_path root name) as [subs|] eqn:Hsubs; simpl in Hr, Hs0;
    injection Hrun as -> -> ->; cbn [late_bind ok negb].
  - destruct (remove_partitions_step _ _ k (now w) root name _ OK w0 _ _ Hs0 (vw_tree _ Hwf) Hrep0 Hr)
      as (w'&Hrun'&Hs'&Hrep').
    unfold index_rpc in Hrun'. do 3 eexists. split_and!; [simpl; by rewrite Hrun'|apply step_remove; by rewrite Hsubs|].
    unfold index_files. rewrite Hsubs. split; [|exact Hrep']. unfold rest_of. rewrite (proj1 Hs'). exact Hs'.
  - do 3 eexists. split_and!; [done|by apply step_remove_missing|].
    split; [|exact Hrep0]. unfold rest_of. rewrite (proj1 Hs0). exact Hs0.
Qed.

(** *** Every call, crashes, and programs *)

Lemma call_simulated k w v op :
  implements (Datatypes.S k) w v → vsfs_wf v → vsfs_ok batch_size fuel op v → simulated k op w v.
Proof.
  intros Himp Hwf Hok. destruct op as [o|root name key_type mode uid gid|root name|o].
  - by apply file_call_simulated.
  - destruct (make_refused v root name) as [st|] eqn:Hr; [|by apply make_simulated].
    destruct Hok as (?&?&?&_). by eapply make_refused_simulated.
  - apply remove_simulated; [by eapply implements_le; [|exact Himp]; lia|done|done].
  - apply index_call_simulated; [by eapply implements_le; [|exact Himp]; lia|done|done].
Qed.

Lemma crash_implements (disk : S → S) indeterminate k w v a self jump r1 r2 :
  durable disk → rand_value r1 → rand_value r2 → implements (jump + k) w v →
  implements k (restart_at disk indeterminate a self jump r1 r2 w) v.
Proof.
  intros Hdisk Hr1 Hr2 [Hs Hrep].
  assert (index_nodes (restart_at disk indeterminate a self jump r1 r2 w) = index_nodes w) as He.
  { unfold restart_at. by destruct (master_nodes w !! a). }
  split; [|by apply (represents_nodes w)]. unfold rest_of. rewrite He. by apply restart_sync.
Qed.

Lemma program_simulated (disk : S → S) indeterminate k prog w v :
  durable disk → implements k w v → vsfs_wf v → program_ok (owner_of c) batch_size fuel k prog v →
  ∃ answers w' v', run_program disk indeterminate junk second_get batch_size fuel c prog w = ends (answers, w') ∧
    vsfs_run (owner_of c) batch_size fuel prog v answers v' ∧ implements 0 w' v'.
Proof.
  intros Hdisk. revert k w v. induction prog as [|t op next IH|a self jump r1 r2 next IH]; intros k w v Himp Hwf Hok.
  - exists [], w, v. split_and!; [done|constructor|by eapply implements_le; [|exact Himp]; lia].
  - destruct k as [|k]; [done|]. destruct Hok as [Hop Hnext].
    destruct (call_simulated k (at_time w t) v op) as (a&w1&v1&Hrun&Hstep&Himp1);
      [by apply implements_at_time|done|done|]. simpl now in Hstep.
    destruct (IH a k w1 v1) as (answers&w'&v'&Hrest&Hspec&Himp'); [done| |by eapply Hnext|].
    { eapply vsfs_step_wf; [by apply ring_aligned|done..]. }
    exists (a :: answers), w', v'. split_and!; [|by econstructor|done].
    cbn [run_program]. rewrite Hrun. cbn [late_bind ends]. by rewrite Hrest.
  - destruct Hok as (Hj&Hr1&Hr2&Hnext).
    destruct (IH (k - jump) (restart_at disk indeterminate a self jump r1 r2 w) v)
      as (answers&w'&v'&Hrest&Hspec&Himp'); [|done|done|].
    { apply crash_implements; [done..|]. by replace (jump + (k - jump)) with k by lia. }
    exists answers, w', v'. split_and!; [done|by constructor|done].
Qed.
End simulation.

(** ** Property *)

Section properties.
Context {S P R I : Type} `{!KeyValueStore S, !KeyValueStoreSpec S, !ConsistentHashMap P string}.
Context `{!ConsistentHashMapSpec P string}.
Context `{!ConsistentHashMap R NodeInfo, !ConsistentHashMapSpec R NodeInfo}.
Context `{!RangeIndexInterface I, !RangeIndexInterfaceSpec I}.
Context `{!VoblaStatus, !VoblaStatusSpec, !MD5, !BoostFilesystem, !BoostFilesystemSpec}.
Context `{!ThriftCodec FileMetadata, !ThriftCodecSpec FileMetadata}.
Context `{!ThriftCodec IndexNamespaceNode, !ThriftCodecSpec IndexNamespaceNode}.
Context `{!ThriftCodec IndexConsistentHashRing, !ThriftCodecSpec IndexConsistentHashRing}.
Context `{!ThriftCodec RpcIndexRecordUpdateList, !ThriftCodec (list LogEntity)}.

End properties.

(** ** Witness: two masters and two index servers *)

Section witnesses.
Import Reference.
#[local] Existing Instances TestLevelDBStore.test_store TestLevelDBStore.test_store_spec.
#[local] Existing Instances RangeIndexWrapper.updates_codec RangeIndexWrapper.buffer_codec.
#[local] Existing Instances RangeIndexWrapper.types RangeIndexWrapper.casts.
#[local] Existing Instances Cluster.metadata_codec Cluster.node_codec Cluster.ring_codec.
#[local] Existing Instances ClusterFiles.metadata_codec_spec ClusterFiles.node_codec_spec.
#[local] Existing Instance ClusterFiles.ring_codec_spec.

Abbreviation demo_cluster :=
  (Cluster (gmap string string) (gmap Z string) (gmap Z NodeInfo) RangeIndexObject).

(** Positions that are multiples of 2^48: all ids with the same top 16 bits
    are between two of them. *)
Definition even_ring : gmap Z NodeInfo :=
  {[0%Z := node_of addr_a; (20000 * 2 ^ 48)%Z := node_of addr_b]}.
Definition even_client : VSFSRpcClient (gmap Z NodeInfo) :=
  {| primary_ := addr_a; master_map_ := even_ring; index_server_map_ := even_ring |}.
Definition no_indices : IndexManager RangeIndexObject := mkIndexManager "/data" ∅ ∅.
Definition fresh_world : demo_cluster :=
  {| master_nodes := {[addr_a := master_a; addr_b := set_namespace master_a (Namespace.new ∅ 0)]};
     index_nodes := {[addr_a := no_indices; addr_b := no_indices]}; now := noon |}.
Definition fresh_vsfs : Vsfs RangeIndexObject :=
  {| v_tree := empty_tree; v_registry := ∅; v_indices := ∅ |}.

(** The paths of the index are on another server than those of the files. *)
Example even_owners :
  (λ p, host (owner_of even_client p)) <$> ["/"; "/d"; "/d/f"; "/d/.vsfs"; "/d/.vsfs/x"; "/d/.vsfs/x/0"]
  = ["a"; "a"; "a"; "b"; "b"; "b"].
Proof. vm_compute. reflexivity. Qed.

Definition insert_f : client_op :=
  Update [{| req_op := 1; req_file_path := "/d/f"; req_index_name := "x"; req_key := "3" |}] [0].

(** A directory, an index on it, a file, its update; then master [a] crashes,
    the index is made again, and the file is searched for. *)
Definition search_program : program :=
  Do noon (FileCall (FMkdir "/d" 493 0 0)) (λ _,
  Do noon (MakeIndex "/d" "x" 1 493 0 0) (λ _,
  Do noon (FileCall (FCreate "/d/f" 420 0 0)) (λ _,
  Do noon (IndexCall insert_f) (λ _,
  CrashMaster addr_a (node_of addr_a) 3 5 7 (
  Do noon (MakeIndex "/d" "x" 1 493 0 0) (λ _,
  Do noon (IndexCall (Search query_x)) (λ _, Stop))))))).

(** The error numbers and paths that a program is answered. *)
Definition answered (prog : program) : list (Z * list string) :=
  match run_program id 0 0 Done 2048 5 even_client prog fresh_world with
  | Some (Done (answers, _)) =>
      (λ a, match a with
            | FileAnswer (ADone st) | FileAnswer (AnId st _) | Replied st => (error_of st, [])
            | Found st paths => (error_of st, paths)
            | _ => (0%Z, []) end) <$> answers
  | _ => []
  end.
Example search_program_answers :
  answered search_program
  = [(0%Z, []); (0%Z, []); (0%Z, []); (0%Z, []); ((- EEXIST)%Z, []); (0%Z, ["/d/f"])].
Proof. vm_compute. reflexivity. Qed.

Fixpoint in_order (ops : list vsfs_op) : program :=
  match ops with [] => Stop | op :: ops' => Do noon op (λ _, in_order ops') end.

(** The directory of an index is in no listing, so the directories above it can
    be removed.  The index stays registered: it cannot be made again. *)
Lemma removed_directory_keeps_its_index :
  answered (in_order [FileCall (FMkdir "/d" 493 0 0); MakeIndex "/d" "x" 1 493 0 0;
    FileCall (FRmdir "/d/.vsfs"); FileCall (FRmdir "/d"); FileCall (FMkdir "/d" 493 0 0);
    MakeIndex "/d" "x" 1 493 0 0])
  = [(0%Z, []); (0%Z, []); (0%Z, []); (0%Z, []); (0%Z, []); ((- EEXIST)%Z, [])].
Proof. vm_compute. reflexivity. Qed.

(** An index that is removed stays registered and on its server: searches still
    answer from it. *)
Lemma removed_index_is_still_searched :
  answered (in_order [FileCall (FMkdir "/d" 493 0 0); MakeIndex "/d" "x" 1 493 0 0;
    FileCall (FCreate "/d/f" 420 0 0); IndexCall insert_f; RemoveIndex "/d" "x"; RemoveIndex "/d" "x";
    IndexCall (Search query_x)])
  = [(0%Z, []); (0%Z, []); (0%Z, []); (0%Z, []); (0%Z, []); (0%Z, []); (0%Z, ["/d/f"])].
Proof. vm_compute. reflexivity. Qed.

(** A file that is removed stays in its indices, and is found with the empty
    path. *)
Lemma removed_file_is_found_without_path :
  answered (in_order [FileCall (FMkdir "/d" 493 0 0); MakeIndex "/d" "x" 1 493 0 0;
    FileCall (FCreate "/d/f" 420 0 0); IndexCall insert_f; FileCall (FUnlink "/d/f");
    IndexCall (Search query_x)])
  = [(0%Z, []); (0%Z, []); (0%Z, []); (0%Z, []); (0%Z, []); (0%Z, [""])].
Proof. vm_compute. reflexivity. Qed.

(** *** The start *)

Lemma even_nodes pos node : even_ring !! pos = Some node → node = node_of addr_a ∨ node = node_of addr_b.
Proof.
  unfold even_ring. intros [[_ <-]|[_ [_ <-]%lookup_singleton_Some]]%lookup_insert_Some; auto.
Qed.

Lemma even_plain : plain_ring even_client.
Proof. intros pos node [->| ->]%even_nodes; [apply addr_a_plain|apply addr_b_plain]. Qed.

Lemma at_or_above m x : (m * 2 ^ 48 ≤ x)%Z ↔ (m ≤ Z.shiftr x 48)%Z.
Proof.
  rewrite Z.shiftr_div_pow2 by done. split; intros H.
  - by apply Z.div_le_lower_bound; [|rewrite Z.mul_comm].
  - etrans; [apply Z.mul_le_mono_nonneg_r; [done|exact H]|]. rewrite Z.mul_comm. by apply Z.mul_div_le.
Qed.

Lemma even_aligned : aligned_ring even_client.
Proof.
  assert (sorted_map Z.le even_ring = [(0%Z, node_of addr_a); ((20000 * 2 ^ 48)%Z, node_of addr_b)]) as Hl
    by (vm_compute; reflexivity).
  assert (∀ x, object_addr even_client x
    = if decide (0 ≤ Z.shiftr x 48 < 20000)%Z then addr_a else addr_b) as Hx.
  { intros x. unfold object_addr. rewrite get_spec. change (ch_view (master_map_ even_client)) with even_ring.
    unfold ring_owner. rewrite Hl, !filter_cons, filter_nil. cbn [fst].
    destruct (decide (0 ≤ x)%Z) as [H1|H1]; destruct (decide (20000 * 2 ^ 48 ≤ x)%Z) as [H2|H2];
      rewrite at_or_above in H2; rewrite (at_or_above 0) in H1.
    - by rewrite decide_False by lia.
    - by rewrite decide_True by lia.
    - lia.
    - by rewrite decide_False by lia. }
  intros x y Hxy. by rewrite !Hx, Hxy.
Qed.

Lemma fresh_sync : sync even_client (rest_of fresh_vsfs fresh_world) 13 fresh_world empty_tree.
Proof.
  split; [done|]. intros pos node Hpos. change (even_ring !! pos = Some node) in Hpos.
  apply even_nodes in Hpos as [->| ->].
  - exists master_a. split_and!; [vm_compute; reflexivity| | |intros p _; exact (rooted_tables even_client p)].
    + eapply good_le, rooted_good; [lia|]. intros i (q&Hq&_). by apply not_elem_of_empty in Hq.
    + apply (demo_kept even_client addr_a rooted). intros q ->%rooted_paths. by vm_compute.
  - exists (set_namespace master_a (Namespace.new ∅ 0)). split_and!; [vm_compute; reflexivity| | |].
    + eapply good_le, (fresh_good 13); [lia| |apply rtc_refl|done|done|lia].
      intros i (q&Hq&_). by apply not_elem_of_empty in Hq.
    + apply (demo_kept even_client addr_b). intros q [x Hx].
      change ((∅ : gmap string FileMetadata) !! q = Some x) in Hx. by rewrite lookup_empty in Hx.
    + intros p Hp. apply unrooted_tables. intros ->. by vm_compute in Hp.
Qed.

Lemma fresh_implements : implements even_client 13 fresh_world fresh_vsfs.
Proof.
  split; [exact fresh_sync|]. split.
  - apply insert_non_empty.
  - intros part. destruct (part_addr_node even_client part) as (pos&node&Hpos&->); [done|].
    apply even_nodes in Hpos as [->| ->]; (split; [|by eexists]); [apply addr_a_plain|apply addr_b_plain].
  - intros a im Hn. unfold fresh_world in Hn. cbn [index_nodes] in Hn.
    assert (im = no_indices) as ->.
    { by apply lookup_insert_Some in Hn as [[_ <-]|[_ [_ <-]%lookup_singleton_Some]]. }
    intros part _. simpl. by rewrite !lookup_empty.
Qed.

Lemma fresh_wf : vsfs_wf fresh_vsfs.
Proof.
  split.
  - eapply hidden_ext, demo_tree. intros q. split; [|done]. intros (root&name&Hin&_).
    by apply not_elem_of_empty in Hin.
  - intros p i Hin. by apply not_elem_of_empty in Hin.
  - intros p q i Hin. by apply not_elem_of_empty in Hin.
  - intros root name Hin. by apply not_elem_of_empty in Hin.
Qed.

(** *** The program stays in the contract, whatever ids the files get *)

Abbreviation step := (vsfs_step (owner_of even_client) 2048 5 noon).
Abbreviation in_contract := (vsfs_ok (I := RangeIndexObject) 2048 5).

Definition vsfs_d : Vsfs RangeIndexObject := with_files fresh_vsfs tree_d.
Definition vsfs_x (oid : Z) : Vsfs RangeIndexObject := make_index noon oid "/d" "x" 493 0 0 empty_index vsfs_d.
Definition vsfs_f (oid oid' : Z) : Vsfs RangeIndexObject :=
  with_files (vsfs_x oid) (fs_exec noon oid' (FCreate "/d/f" 420 0 0) (v_tree (vsfs_x oid))).2.

Lemma step_d a v : step (FileCall (FMkdir "/d" 493 0 0)) fresh_vsfs a v → v = vsfs_d.
Proof.
  intros Hstep. inversion Hstep as [o oid v0 a0 fs' Hid He| | | | |]; subst. unfold vsfs_d, tree_d.
  change (fs_exec noon 0 (FMkdir "/d" 493 0 0) empty_tree = (a0, fs')) in He. by rewrite He.
Qed.

Lemma step_x a v : step (MakeIndex "/d" "x" 1 493 0 0) vsfs_d a v → ∃ oid, v = vsfs_x oid.
Proof.
  intros Hstep. inversion Hstep as [|root name kt mode uid gid v0 st Hr
    |root name kt mode uid gid v0 oid index Hr Hc Hid| | |]; subst.
  - vm_compute in Hr. discriminate Hr.
  - injection Hc as <-. by exists oid.
Qed.

Lemma step_f oid a v : step (FileCall (FCreate "/d/f" 420 0 0)) (vsfs_x oid) a v → ∃ oid', v = vsfs_f oid oid'.
Proof.
  intros Hstep. inversion Hstep as [o oid' v0 a0 fs' Hid He| | | | |]; subst. exists oid'. unfold vsfs_f. by rewrite He.
Qed.

Lemma index_d_ok : in_contract (MakeIndex "/d" "x" 1 493 0 0) vsfs_d.
Proof.
  split_and!; [done|right; vm_compute; by split_and!|done|]. intros _.
  split_and!; [by left|by eexists|vm_compute; reflexivity|vm_compute; reflexivity].
Qed.

Lemma file_f_ok oid : in_contract (FileCall (FCreate "/d/f" 420 0 0)) (vsfs_x oid).
Proof.
  split; [|done]. split_and!; [done|apply (tree_at "/d" "f"); vm_compute; reflexivity
    |apply parent_there; vm_compute; reflexivity].
Qed.

Lemma insert_f_ok oid oid' : in_contract (IndexCall insert_f) (vsfs_f oid oid').
Proof.
  split_and!; [vm_compute; reflexivity| |vm_compute; by eexists].
  intros r ->%list_elem_of_singleton. exists ["d"], 0.
  split_and!; [by vm_compute|by repeat constructor|simpl; lia|lia|by vm_compute|by vm_compute|lia].
Qed.

Lemma index_again_ok oid oid' out ix' :
  index_call 2048 5 (vsfs_f oid oid') insert_f = Some (out, ix') →
  in_contract (MakeIndex "/d" "x" 1 493 0 0) (with_indices (vsfs_f oid oid') ix').
Proof.
  intros Hcall. destruct (index_call_dom 2048 5 _ _ _ _ "/d/.vsfs/x/0" Hcall) as [_ Hix].
  destruct Hix as [index Hix]; [vm_compute; by eexists|].
  split_and!; [done|right; vm_compute; by split_and!|done|]. intros Hr. exfalso. revert Hr.
  unfold make_refused. change (index_part "/d" "x") with "/d/.vsfs/x/0". simpl v_indices. rewrite Hix.
  vm_compute. intros Hr. discriminate Hr.
Qed.

Lemma search_program_ok : program_ok (owner_of even_client) 2048 5 9 search_program fresh_vsfs.
Proof.
  split; [split; [exact mkdir_d_ok|done]|]. intros a1 v1 ->%step_d.
  split; [exact index_d_ok|]. intros a2 v2 [oid ->]%step_x.
  split; [apply file_f_ok|]. intros a3 v3 [oid' ->]%step_f.
  split; [apply insert_f_ok|]. intros a4 v4 Hstep4.
  split; [lia|]. split; [by vm_compute|]. split; [by vm_compute|].
  inversion Hstep4 as [| | | | |o v0 out paths ix' Hcall Hpaths]; subst.
  split; [by eapply index_again_ok|]. intros a5 v5 _. split; [done|]. done.
Qed.

End witnesses.
