(* ===== verification/Interference.v ===== *)
(** * Several clients at once

    A client's operation is a sequence of remote calls, and other clients'
    calls come in between.  [Shared] is a cluster with such calls: before each
    remote call of the client whose code runs, the next batch of foreign calls
    is handled.  The client's code is the one of [Client], at this instance of
    [ClusterRpc].  The theorem says that [create] takes effect at one point, its
    first call on the master of the path, whatever happens before and after. *)

From S2P Require Import Prelude CxxString Platform PathUtil ThriftUtils KVStore RangeIndex IndexManager.
From S2P Require Import PartitionManager IndexNamespace Namespace FileSystem MasterController ServerMap.
From S2P Require Import ComplexQuery Client ClientIndex Cluster ClusterFiles.

(** The calls of other clients that change a file namespace. *)
Inductive call :=
  | CCreate (path : string) (mode uid gid : Z)
  | CRemove (path : string)
  | CMkdir (path : string) (info : RpcFileInfo)
  | CRmdir (path : string)
  | CAddSubfile (parent subfile : string)
  | CRemoveSubfile (parent subfile : string)
  | CSetattr (path : string) (info : RpcFileInfo).

Section shared.
Context {S P R I : Type} `{!KeyValueStore S, !ConsistentHashMap P string, !ConsistentHashMap R NodeInfo}.
Context `{!RangeIndexInterface I, !VoblaStatus, !MD5, !BoostFilesystem}.
Context `{!ThriftCodec FileMetadata, !ThriftCodec IndexNamespaceNode, !ThriftCodec IndexConsistentHashRing}.

Abbreviation world := (Cluster S P R I).
Abbreviation foreign := (RpcNodeAddress * call)%type.

Definition do_call (w : world) (x : foreign) : world :=
  let a := x.1 in
  match x.2 with
  | CCreate p mode uid gid => (m_create w a p mode uid gid).2
  | CRemove p => (m_remove w a p).2
  | CMkdir p info => (m_mkdir w a p info).2
  | CRmdir p => (m_rmdir w a p).2
  | CAddSubfile d n => (m_add_subfile w a d n).2
  | CRemoveSubfile d n => (m_remove_subfile w a d n).2
  | CSetattr p info => (m_setattr w a p info).2
  end.

(** The cluster and the batches of foreign calls still to come. *)
Record Shared := mkShared { base : world; others : list (list foreign) }.

Definition next_batch (x : Shared) : list foreign := default [] (head (others x)).
Definition between {A} (f : world → A * world) (x : Shared) : A * Shared :=
  let '(a, w) := f (foldl do_call (base x) (next_batch x)) in (a, mkShared w (tail (others x))).

#[export] Instance shared_rpc : ClusterRpc Shared := {
  m_get_all_masters x a := between (λ w, m_get_all_masters w a) x;
  m_get_all_index_servers x a := between (λ w, m_get_all_index_servers w a) x;
  m_create x a path mode uid gid := between (λ w, m_create w a path mode uid gid) x;
  m_remove x a path := between (λ w, m_remove w a path) x;
  m_object_id x a path := between (λ w, m_object_id w a path) x;
  m_mkdir x a path info := between (λ w, m_mkdir w a path info) x;
  m_rmdir x a path := between (λ w, m_rmdir w a path) x;
  m_add_subfile x a parent sub := between (λ w, m_add_subfile w a parent sub) x;
  m_remove_subfile x a parent sub := between (λ w, m_remove_subfile w a parent sub) x;
  m_readdir x a path := between (λ w, m_readdir w a path) x;
  m_getattr x a path := between (λ w, m_getattr w a path) x;
  m_setattr x a path info := between (λ w, m_setattr w a path info) x;
  m_find_files x a objects := between (λ w, m_find_files w a objects) x;
  m_locate_indices_for_search x a root names := between (λ w, m_locate_indices_for_search w a root names) x;
  i_search x a query := between (λ w, i_search w a query) x;
}.
End shared.
Arguments Shared S P R I : clear implicits.

(** ** One foreign call *)

(** A namespace with [k] ids left. *)
Abbreviation able k ns := (good k (λ _, False) ns).

Section namespaces.
Context {S : Type} `{!KeyValueStore S, !KeyValueStoreSpec S, !VoblaStatus, !MD5}.
Context `{!BoostFilesystem, !BoostFilesystemSpec}.
Context `{!ThriftCodec FileMetadata, !ThriftCodecSpec FileMetadata}.
Context (Hrel : reliable S).
Implicit Types (ns : Namespace S) (x : call).

(** What a handler does to the namespace of its master. *)
Definition ns_handled (t : double) x ns : run (Namespace S) :=
  match x with
  | CCreate p mode uid gid =>
      if fs_is_absolute p then
        '(_, _, ns') ← Namespace.create ns p (wrap_int32 mode) (wrap_uint32 uid) (wrap_uint32 gid) t; Done ns'
      else Done ns
  | CRemove p => '(_, _, ns') ← Namespace.remove ns p; Done ns'
  | CMkdir p info =>
      if fs_is_absolute p then
        '(_, ns') ← Namespace.mkdir ns p (wrap_uint32 (default 0%Z (fi_mode info)))
          (wrap_uint32 (default 0%Z (fi_uid info))) (wrap_uint32 (default 0%Z (fi_gid info))) t; Done ns'
      else Done ns
  | CRmdir p => '(_, ns') ← Namespace.rmdir ns p; Done ns'
  | CAddSubfile d n =>
      if fs_is_absolute d then '(_, ns') ← Namespace.add_subfile ns d n; Done ns' else Done ns
  | CRemoveSubfile d n => '(_, ns') ← Namespace.remove_subfile ns d n; Done ns'
  | CSetattr p info => '(_, ns') ← Namespace.setattr ns p info; Done ns'
  end.

(** The calls the clients make: directories with the mode of a directory,
    entries with plain names; [chmod] is left out. *)
Definition well_formed x : Prop :=
  match x with
  | CMkdir _ info => mkdir_mode (wrap_uint32 (default 0%Z (fi_mode info)))
  | CAddSubfile d n => dir_path d ∧ plain_name n
  | CSetattr _ info => fi_mode info = None
  | _ => True
  end.

(** The path whose tables a call may change. *)
Definition target x : string :=
  match x with
  | CCreate p _ _ _ | CRemove p | CMkdir p _ | CRmdir p | CSetattr p _ => p
  | CAddSubfile d _ | CRemoveSubfile d _ => d
  end.

(** What a call does when it does something. *)
Definition effect x ns ns' : Prop :=
  let p := target x in
  same_but p ns ns' ∧
  match x with
  | CCreate _ _ _ _ =>
      metadata_map_ ns !! p = None ∧ is_Some (metadata_map_ ns' !! p) ∧ directories_ ns' !! p = directories_ ns !! p
  | CRemove _ => metadata_map_ ns' !! p = None ∧ directories_ ns' !! p = directories_ ns !! p
  | CMkdir _ _ =>
      metadata_map_ ns !! p = None ∧ is_Some (metadata_map_ ns' !! p) ∧ directories_ ns' !! p = Some ∅
  | CRmdir _ => metadata_map_ ns' !! p = None ∧ directories_ ns' !! p = None
  | CAddSubfile _ n =>
      metadata_map_ ns' !! p = metadata_map_ ns !! p ∧
      ∃ subs, directories_ ns !! p = Some subs ∧ directories_ ns' !! p = Some ({[n]} ∪ subs)
  | CRemoveSubfile _ n =>
      metadata_map_ ns' !! p = metadata_map_ ns !! p ∧
      ∃ subs, directories_ ns !! p = Some subs ∧ directories_ ns' !! p = Some (subs ∖ {[n]})
  | CSetattr _ info =>
      directories_ ns' !! p = directories_ ns !! p ∧
      ∃ m, metadata_map_ ns !! p = Some m ∧ metadata_map_ ns' !! p = Some (apply_info m info)
  end.

(** The call claims the path [p] for a new file or directory. *)
Definition takes p x : Prop :=
  match x with CCreate q _ _ _ | CMkdir q _ => q = p | _ => False end.
#[export] Instance takes_dec p x : Decision (takes p x).
Proof. unfold takes. destruct x; apply _. Defined.

Lemma able_le k k' used ns : k' ≤ k → good k used ns → able k' ns.
Proof. intros Hk. by eapply good_le. Qed.

(** A call that does nothing to [ns]: the path it would take is taken. *)
Definition idle x ns : Prop :=
  ∀ p, takes p x → starts_with "/" p = true → is_Some (metadata_map_ ns !! p).

(** A well-formed call is handled, and does its effect or nothing. *)
Definition outcome_ok k x ns ns' : Prop := able k ns' ∧ ((ns' = ns ∧ idle x ns) ∨ effect x ns ns').

Lemma nothing_done k t x ns :
  able k ns → ns_handled t x ns = Done ns → idle x ns →
  ∃ ns', ns_handled t x ns = Done ns' ∧ outcome_ok k x ns ns'.
Proof. intros Hg Hh Hi. exists ns. split; [done|]. split; [done|]. by left. Qed.

Lemma taken_idle x ns p m : target x = p → metadata_map_ ns !! p = Some m → idle x ns.
Proof. intros Ht Hm q Hq _. destruct x; simpl in *; try done; subst; by rewrite Hm. Qed.
Lemma relative_idle x ns p : target x = p → starts_with "/" p = false → idle x ns.
Proof. intros Ht Hm q Hq Habs. destruct x; simpl in *; try done; subst; congruence. Qed.
Lemma other_idle x ns : (match x with CCreate _ _ _ _ | CMkdir _ _ => False | _ => True end) → idle x ns.
Proof. intros Hx p Hp _. by destruct x. Qed.

(** A call that has an effect, by the lemma of the operation. *)
Ltac effect_done := split; [done|]; split; [done|]; right; split; [done|]; simpl; eauto 8.

Lemma handled_create k t p mode uid gid ns :
  able (Datatypes.S k) ns →
  ∃ ns', ns_handled t (CCreate p mode uid gid) ns = Done ns' ∧ outcome_ok k (CCreate p mode uid gid) ns ns'.
Proof.
  intros Hg. assert (able k ns) as Hk by (eapply able_le; [|exact Hg]; lia).
  destruct (starts_with "/" p) eqn:Habs.
  2:{ apply nothing_done; [done| |by eapply relative_idle]. simpl. by rewrite fs_is_absolute_spec, Habs. }
  destruct (metadata_map_ ns !! p) as [m|] eqn:Hm.
  { apply nothing_done; [done| |by eapply taken_idle]. simpl. rewrite fs_is_absolute_spec, Habs.
    unfold Namespace.create. by rewrite Hm. }
  simpl ns_handled. rewrite fs_is_absolute_spec, Habs.
  destruct (good_create Hrel k _ ns p (wrap_int32 mode) (wrap_uint32 uid) (wrap_uint32 gid) t Hg Habs Hm)
    as (st&ns'&->&_&Hg'%(able_le k k)&?&?&?); [|done]. exists ns'. effect_done.
Qed.

Lemma handled_mkdir k t p info ns :
  able k ns → well_formed (CMkdir p info) →
  ∃ ns', ns_handled t (CMkdir p info) ns = Done ns' ∧ outcome_ok k (CMkdir p info) ns ns'.
Proof.
  intros Hk Hx. destruct (starts_with "/" p) eqn:Habs.
  2:{ apply nothing_done; [done| |by eapply relative_idle]. simpl. by rewrite fs_is_absolute_spec, Habs. }
  destruct (metadata_map_ ns !! p) as [m|] eqn:Hm.
  { apply nothing_done; [done| |by eapply taken_idle]. simpl. rewrite fs_is_absolute_spec, Habs.
    unfold Namespace.mkdir. by rewrite Hm. }
  simpl ns_handled. rewrite fs_is_absolute_spec, Habs.
  destruct (good_mkdir Hrel k _ ns p _ (wrap_uint32 (default 0%Z (fi_uid info)))
    (wrap_uint32 (default 0%Z (fi_gid info))) t Hk Habs Hx Hm) as (ns'&->&?&?&?&?).
  exists ns'. effect_done.
Qed.

Lemma handled_entry k t x d n ns :
  able k ns → well_formed x → x = CAddSubfile d n ∨ x = CRemoveSubfile d n →
  ∃ ns', ns_handled t x ns = Done ns' ∧ outcome_ok k x ns ns'.
Proof.
  intros Hk Hx Hcase. assert (idle x ns) as Hi by (apply other_idle; by destruct Hcase as [->| ->]).
  destruct (directories_ ns !! d) as [subs|] eqn:Hd.
  2:{ apply nothing_done; [done| |done]. destruct Hcase as [->| ->]; simpl.
      - unfold Namespace.add_subfile. rewrite Hd. by case_match.
      - unfold Namespace.remove_subfile. by rewrite Hd. }
  destruct Hcase as [->| ->]; destruct (decide (n ∈ subs)) as [Hin|Hin].
  - apply nothing_done; [done| |done]. simpl. unfold Namespace.add_subfile.
    rewrite Hd, bool_decide_eq_true_2 by done. by case_match.
  - destruct Hx as [Hdp Hn]. simpl ns_handled. rewrite fs_is_absolute_spec, dir_path_absolute by done.
    destruct (good_add_subfile Hrel k _ ns d n subs Hk Hdp Hn Hd Hin) as (st&ns'&->&_&?&?&?&?).
    exists ns'. effect_done.
  - simpl ns_handled. destruct (good_remove_subfile Hrel k _ ns d n subs Hk Hd Hin) as (st&ns'&->&_&?&?&?&?).
    exists ns'. effect_done.
  - apply nothing_done; [done| |done]. simpl. unfold Namespace.remove_subfile.
    by rewrite Hd, bool_decide_eq_false_2.
Qed.

Lemma handled_remove k t p ns :
  able k ns → ∃ ns', ns_handled t (CRemove p) ns = Done ns' ∧ outcome_ok k (CRemove p) ns ns'.
Proof.
  intros Hk. destruct (metadata_map_ ns !! p) as [m|] eqn:Hm.
  2:{ apply nothing_done; [done| |by apply other_idle]. simpl. unfold Namespace.remove. by rewrite Hm. }
  destruct (is_dir m) eqn:Hd.
  { apply nothing_done; [done| |by apply other_idle]. simpl. unfold Namespace.remove. by rewrite Hm, Hd. }
  simpl. destruct (good_remove Hrel k _ ns p m Hk Hm Hd) as (ns'&->&?&?&?&?). exists ns'. effect_done.
Qed.

Lemma handled_rmdir k t p ns :
  able k ns → ∃ ns', ns_handled t (CRmdir p) ns = Done ns' ∧ outcome_ok k (CRmdir p) ns ns'.
Proof.
  intros Hk. destruct (decide (directories_ ns !! p = Some ∅)) as [Hd|Hd].
  - simpl. destruct (good_rmdir Hrel k _ ns p Hk Hd) as (ns'&->&?&?&?&?). exists ns'. effect_done.
  - apply nothing_done; [done| |by apply other_idle]. simpl. unfold Namespace.rmdir.
    destruct (directories_ ns !! p) as [subs|]; [|done]. by rewrite bool_decide_eq_false_2 by congruence.
Qed.

Lemma handled_setattr k t p info ns :
  able k ns → fi_mode info = None →
  ∃ ns', ns_handled t (CSetattr p info) ns = Done ns' ∧ outcome_ok k (CSetattr p info) ns ns'.
Proof.
  intros Hk Hx. destruct (metadata_map_ ns !! p) as [m|] eqn:Hm.
  2:{ apply nothing_done; [done| |by apply other_idle]. simpl. unfold Namespace.setattr. by rewrite Hm. }
  simpl. destruct (good_setattr Hrel k _ ns p info m Hk Hm) as (st&ns'&->&_&?&?&?&?).
  { unfold is_dir, apply_info. simpl. by rewrite Hx. }
  exists ns'. effect_done.
Qed.

Lemma call_handled k t x ns :
  able (Datatypes.S k) ns → well_formed x →
  ∃ ns', ns_handled t x ns = Done ns' ∧ outcome_ok k x ns ns'.
Proof.
  intros Hg Hx. assert (able k ns) as Hk by (eapply able_le; [|exact Hg]; lia).
  destruct x; [by apply handled_create|by apply handled_remove|by apply handled_mkdir
    |by apply handled_rmdir| | |by apply handled_setattr]; eapply handled_entry; eauto.
Qed.

(** *** What the calls of others leave alone *)

(** They do not remove [p] or its directory [d]. *)
Definition polite p d x : Prop :=
  match x with CRemove q => q ≠ p | CRmdir q => q ≠ p ∧ q ≠ d | _ => True end.
(** They do not touch the entry [n] of [d]. *)
Definition quiet d n x : Prop :=
  match x with CAddSubfile d' n' | CRemoveSubfile d' n' => ¬ (d' = d ∧ n' = n) | _ => True end.

Lemma id_kept k x ns ns' p d m :
  outcome_ok k x ns ns' → polite p d x → metadata_map_ ns !! p = Some m →
  ∃ m', metadata_map_ ns' !! p = Some m' ∧ md_object_id m' = md_object_id m.
Proof.
  intros [_ [[-> _]|[Hs He]]] Hp Hm; [by eauto|].
  destruct (decide (p = target x)) as [->|Hne]; [|destruct (Hs p Hne) as [-> _]; by eauto].
  destruct x; simpl in *; try (destruct He as [-> _]; by eauto); try naive_solver congruence.
Qed.

Lemma path_free k x ns ns' p :
  outcome_ok k x ns ns' → ¬ takes p x → metadata_map_ ns !! p = None → metadata_map_ ns' !! p = None.
Proof.
  intros [_ [[-> _]|[Hs He]]] Ht Hm; [done|].
  destruct (decide (p = target x)) as [->|Hne]; [|by destruct (Hs p Hne) as [-> _]].
  destruct x; simpl in *; naive_solver congruence.
Qed.

Lemma path_taken k x ns ns' p :
  outcome_ok k x ns ns' → takes p x → starts_with "/" p = true → is_Some (metadata_map_ ns' !! p).
Proof.
  intros [_ [[-> Hi]|[Hs He]]] Ht Habs; [by apply Hi|].
  destruct x; simpl in *; try done; subst; apply He.
Qed.

Lemma entry_kept k x ns ns' p d n subs :
  ns_wf ns → outcome_ok k x ns ns' → polite p d x → quiet d n x → directories_ ns !! d = Some subs →
  ∃ subs', directories_ ns' !! d = Some subs' ∧ (n ∈ subs' ↔ n ∈ subs).
Proof.
  clear Hrel. intros Hwf [_ [[-> _]|[Hs He]]] Hp Hq Hd; [by eauto|].
  destruct (decide (d = target x)) as [->|Hne]; [|destruct (Hs d Hne) as [_ ->]; by eauto].
  assert (is_Some (metadata_map_ ns !! target x)) as [m Hm].
  { destruct (proj1 (wf_dirs _ Hwf (target x))) as (m&?&_); eauto. }
  destruct x; simpl in *.
  - destruct He as (?&_). congruence.
  - destruct He as [_ ->]. eauto.
  - destruct He as (?&_). congruence.
  - by destruct Hp.
  - destruct He as (_&subs'&?&->). simplify_eq. eexists. split; [done|]. set_solver.
  - destruct He as (_&subs'&?&->). simplify_eq. eexists. split; [done|]. set_solver.
  - destruct He as [-> _]. eauto.
Qed.
End namespaces.

(** ** The cluster, seen from one path *)

Section interference.
Context {S P R I : Type} `{!KeyValueStore S, !KeyValueStoreSpec S, !ConsistentHashMap P string}.
Context `{!ConsistentHashMap R NodeInfo, !ConsistentHashMapSpec R NodeInfo, !RangeIndexInterface I}.
Context `{!VoblaStatus, !VoblaStatusSpec, !MD5, !BoostFilesystem, !BoostFilesystemSpec}.
Context `{!ThriftCodec FileMetadata, !ThriftCodecSpec FileMetadata}.
Context `{!ThriftCodec IndexNamespaceNode, !ThriftCodec IndexConsistentHashRing}.
Context (Hrel : reliable S).
Context (c : VSFSRpcClient R) (Hring : ch_view (master_map_ c) ≠ ∅).
Context (p : string) (Hp : tree_path p) (Hroot : p ≠ "/").

Abbreviation world := (Cluster S P R I).
Abbreviation shared := (Shared S P R I).
Abbreviation foreign := (RpcNodeAddress * call)%type.
Implicit Types (w : world) (x : foreign) (l : list foreign).
Let d : string := fs_parent_path p.
Let n : string := fs_filename p.

(** Every master can take [k] more files. *)
Definition all_good (k : nat) w : Prop :=
  ∀ a mc, master_nodes w !! a = Some mc → able k (namespace_ mc).

(** The master of the path is up and has it with the object id [id], or has no
    such path; the master of its directory has the directory, with or without
    the entry. *)
Definition has_id (id : option Z) w : Prop :=
  ∃ mc, master_nodes w !! owner_of c p = Some mc ∧
    md_object_id <$> metadata_map_ (namespace_ mc) !! p = id.
Definition entry (b : bool) w : Prop :=
  ∃ mc subs, master_nodes w !! owner_of c d = Some mc ∧
    directories_ (namespace_ mc) !! d = Some subs ∧ (n ∈ subs ↔ b = true).

(** A foreign call that claims the path, on its master. *)
Definition claims x : Prop := x.1 = owner_of c p ∧ takes p x.2.
#[export] Instance claims_dec x : Decision (claims x).
Proof. unfold claims. apply _. Defined.

Definition harmless x : Prop := well_formed x.2 ∧ polite p d x.2.

Lemma do_call_spec k w a (y : call) mc :
  all_good (Datatypes.S k) w → well_formed y → master_nodes w !! a = Some mc →
  ∃ mc', do_call w (a, y) = set_master w a (Some mc') ∧ outcome_ok k y (namespace_ mc) (namespace_ mc').
Proof.
  intros Hg Hy Hmc. destruct (call_handled Hrel k (now w) y (namespace_ mc) (Hg a mc Hmc) Hy) as (ns'&Hh&Ho).
  exists (set_namespace mc ns'). split; [|done]. unfold do_call; simpl.
  destruct y; simpl in *; unfold call_master; rewrite Hmc;
    unfold rpc_create, rpc_remove, rpc_mkdir, rpc_rmdir, rpc_add_subfile, rpc_remove_subfile, rpc_setattr,
      MasterController.create, MasterController.remove, MasterController.mkdir, MasterController.rmdir,
      MasterController.add_subfile, MasterController.remove_subfile, MasterController.setattr,
      is_valid_path, on_namespace, rpc_void;
    repeat match goal with
    | Hr : (if ?b then _ else _) = Done _ |- _ => destruct b
    | Hr : ?r ≫= _ = Done _ |- _ => destruct r as [res|]; [repeat destruct res as [res ?]|done]; simpl in *
    end; simplify_eq/=; rewrite ?set_namespace_same; done.
Qed.

(** What foreign calls keep; [cl] when they may claim the path, [qu] when they
    leave its entry alone. *)
Record kept (cl qu : Prop) w w' : Prop := {
  kp_up : (∃ id, has_id id w) → ∃ id, has_id id w';
  kp_id i : has_id (Some i) w → has_id (Some i) w';
  kp_free : ¬ cl → has_id None w → has_id None w';
  kp_taken : cl → (∃ id, has_id id w) → ∃ i, has_id (Some i) w';
  kp_entry b : qu → entry b w → entry b w';
}.

Lemma kept_refl w : kept False True w w.
Proof. by split. Qed.

Lemma kept_trans cl cl' qu qu' w w1 w' :
  kept cl qu w w1 → kept cl' qu' w1 w' → kept (cl ∨ cl') (qu ∧ qu') w w'.
Proof.
  intros [U1 I1 F1 T1 E1] [U2 I2 F2 T2 E2]. split.
  - auto.
  - auto.
  - intros Hcl Hf. apply F2; [tauto|]. apply F1; tauto.
  - intros [Hcl|Hcl] Hid; [|by auto]. destruct (T1 Hcl Hid) as [i Hi]. eauto.
  - intros b [? ?]. auto.
Qed.

(** The owner of [q] after a call on master [a]. *)
Lemma owner_after w a mc mc' q mcq (Q : Namespace S → Prop) :
  master_nodes w !! a = Some mc → master_nodes w !! owner_of c q = Some mcq →
  (a = owner_of c q → mc = mcq → Q (namespace_ mc')) → Q (namespace_ mcq) →
  ∃ mcq', master_nodes (set_master w a (Some mc')) !! owner_of c q = Some mcq' ∧ Q (namespace_ mcq').
Proof.
  intros Ha Hq Hsame Hother. simpl. destruct (decide (a = owner_of c q)) as [He|Hne].
  - rewrite He, lookup_partial_alter_eq. exists mc'. split; [done|]. apply Hsame; [done|congruence].
  - rewrite lookup_partial_alter_ne by done. by exists mcq.
Qed.

Lemma all_good_set k w a mc :
  all_good (Datatypes.S k) w → able k (namespace_ mc) → all_good k (set_master w a (Some mc)).
Proof.
  intros Hg Hmc b mcb Hb. simpl in Hb. rewrite lookup_partial_alter in Hb. case_decide; [by simplify_eq|].
  eapply able_le; [|by eapply Hg]. lia.
Qed.

Lemma all_good_le k k' w : k' ≤ k → all_good k w → all_good k' w.
Proof. intros Hk Hg a mc Ha. eapply able_le; [exact Hk|by eapply Hg]. Qed.

(** *** One foreign call *)

Lemma do_call_absent w a (y : call) : master_nodes w !! a = None → do_call w (a, y) = w.
Proof. intros Hmc. unfold do_call; destruct y; simpl; unfold call_master; by rewrite Hmc. Qed.

Lemma foreign_call k w x :
  all_good (Datatypes.S k) w → harmless x →
  all_good k (do_call w x) ∧ kept (claims x) (quiet d n x.2) w (do_call w x).
Proof.
  destruct x as [a y]. intros Hg [Hwf Hpol]. simpl in Hwf, Hpol.
  destruct (master_nodes w !! a) as [mc|] eqn:Hmc.
  2:{ rewrite do_call_absent by done. split; [eapply all_good_le; [|exact Hg]; lia|].
      split; try done. intros [Ha _] (id&mc&Hx&_). simpl in Ha. congruence. }
  destruct (do_call_spec k w a y mc Hg Hwf Hmc) as (mc'&->&Ho).
  pose proof (proj1 (Hg a mc Hmc)) as Hnswf.
  split; [apply all_good_set; [done|apply Ho]|]. split.
  - intros (id&mcp&Hmcp&_).
    destruct (owner_after w a mc mc' p mcp (λ _, True) Hmc Hmcp) as (m'&?&_); [done..|].
    eexists. by exists m'.
  - intros i (mcp&Hmcp&Hid). apply (owner_after w a mc mc' p mcp (λ ns, md_object_id <$> metadata_map_ ns !! p = Some i)); try done.
    intros _ <-. apply fmap_Some in Hid as (m&Hm&->).
    destruct (id_kept _ _ _ _ _ _ m Ho Hpol Hm) as (m'&->&<-). done.
  - intros Hcl (mcp&Hmcp&Hid). apply (owner_after w a mc mc' p mcp (λ ns, md_object_id <$> metadata_map_ ns !! p = None)); try done.
    intros Ha <-. apply fmap_None in Hid. rewrite fmap_None. eapply path_free; [exact Ho| |done].
    intros Ht. by apply Hcl.
  - intros [Ha Ht] (id&mcp&Hmcp&Hid). simpl in Ha, Ht. subst a.
    destruct (path_taken _ _ _ _ p Ho Ht (tree_path_absolute p Hp)) as [m Hm].
    exists (md_object_id m), mc'. simpl. by rewrite lookup_partial_alter_eq, Hm.
  - intros b Hq (mcd&subs&Hmcd&Hd&Hin).
    destruct (owner_after w a mc mc' d mcd
      (λ ns, ∃ subs, directories_ ns !! d = Some subs ∧ (n ∈ subs ↔ b = true)) Hmc Hmcd) as (m'&?&subs'&?&?).
    + intros _ <-. destruct (entry_kept _ _ _ _ p d n subs Hnswf Ho Hpol Hq Hd) as (subs'&?&?).
      exists subs'. split; [done|]. by etrans.
    + by exists subs.
    + by exists m', subs'.
Qed.

Lemma foreign_calls k w l :
  all_good (length l + k) w → Forall harmless l →
  all_good k (foldl do_call w l) ∧
  kept (Exists claims l) (Forall (λ x, quiet d n x.2) l) w (foldl do_call w l).
Proof.
  revert w. induction l as [|x l IH]; intros w Hg Hl; simpl.
  { split; [done|]. split; try done. by intros []%Exists_nil. }
  apply Forall_cons in Hl as [Hx Hl].
  destruct (foreign_call (length l + k) w x Hg Hx) as [Hg1 Hk1]. destruct (IH _ Hg1 Hl) as [Hg2 Hk2].
  split; [done|]. destruct (kept_trans _ _ _ _ _ _ _ Hk1 Hk2) as [U Id F T E].
  split; [done|done| | |]; setoid_rewrite Exists_cons || setoid_rewrite Forall_cons; done.
Qed.

(** *** The client's own calls *)

Definition calls_left (x : shared) : nat := length (concat (others x)).
Definition served (x : shared) : shared :=
  mkShared (foldl do_call (base x) (next_batch x)) (tail (others x)).
Definition fair (k : nat) (x : shared) : Prop :=
  all_good (calls_left x + k) (base x) ∧ Forall (Forall harmless) (others x).
Definition quiet_calls (x : shared) : Prop := Forall (Forall (λ y : foreign, quiet d n y.2)) (others x).

Lemma batch_served k (x : shared) :
  fair k x →
  fair k (served x) ∧
  kept (Exists claims (next_batch x)) (Forall (λ y, quiet d n y.2) (next_batch x)) (base x) (base (served x)).
Proof.
  intros [Hg Hl]. unfold fair, served, calls_left, next_batch in *.
  destruct (others x) as [|b bs] eqn:Hx; simpl in *.
  { split_and!; [done|done|]. split; try done. by intros []%Exists_nil. }
  apply Forall_cons in Hl as [Hb Hbs]. rewrite length_app, <-Nat.add_assoc in Hg.
  destruct (foreign_calls _ _ _ Hg Hb) as [? ?]. by split_and!.
Qed.

Lemma quiet_served (x : shared) : quiet_calls x → quiet_calls (served x) ∧ Forall (λ y, quiet d n y.2) (next_batch x).
Proof.
  unfold quiet_calls, served, next_batch. destruct (others x) as [|b bs]; simpl; [done|].
  intros [? ?]%Forall_cons. done.
Qed.

Lemma between_served {A} (f : world → A * world) (x : shared) a w :
  f (base (served x)) = (a, w) → between f x = (a, mkShared w (others (served x))).
Proof. unfold between, served. simpl. by intros ->. Qed.

Lemma all_good_update j k w a mc :
  k ≤ j → all_good j w → able k (namespace_ mc) → all_good k (set_master w a (Some mc)).
Proof.
  intros Hk Hg Hmc b mcb Hb. simpl in Hb. rewrite lookup_partial_alter in Hb. case_decide; [by simplify_eq|].
  eapply able_le; [exact Hk|by eapply Hg].
Qed.

Lemma create_free k w mode uid gid :
  all_good (Datatypes.S k) w → has_id None w →
  ∃ oid w', m_create w (owner_of c p) p mode uid gid = (Reply oid, w') ∧
    all_good k w' ∧ has_id (Some oid) w' ∧ ∀ b, entry b w → entry b w'.
Proof.
  intros Hg (mc&Hmc&Hid%fmap_None). pose proof (tree_path_absolute p Hp) as Habs.
  destruct (good_create Hrel k _ (namespace_ mc) p (wrap_int32 mode) (wrap_uint32 uid) (wrap_uint32 gid) (now w)
    (Hg _ _ Hmc) Habs Hid) as (st&ns'&Hc&Hok&Hg'&Hsame&Hd&Hm).
  do 2 eexists. split_and!.
  - simpl. apply call_master_done with (mc := mc) (mc' := set_namespace mc ns') (r := Return _); [done|].
    unfold rpc_create, MasterController.create, is_valid_path. rewrite fs_is_absolute_spec, Habs, Hc.
    simpl. unfold check_status. by rewrite Hok.
  - eapply all_good_update; [|done|by eapply able_le]. lia.
  - eexists. simpl. rewrite lookup_partial_alter_eq. split; [done|]. simpl. by rewrite Hm.
  - intros b (mcd&subs&Hmcd&Hsubs&Hin).
    destruct (owner_after w _ mc (set_namespace mc ns') d mcd
      (λ ns, ∃ subs, directories_ ns !! d = Some subs ∧ (n ∈ subs ↔ b = true)) Hmc Hmcd) as (m'&?&subs'&?&?).
    + intros _ <-. exists subs. split; [|done]. simpl.
      destruct (decide (d = p)) as [Hdp|Hdp]; [|by destruct (Hsame d Hdp) as [_ ->]].
      rewrite Hdp in Hsubs |- *. by rewrite Hd.
    + by exists subs.
    + by exists m', subs'.
Qed.

Lemma create_taken w i mode uid gid :
  has_id (Some i) w →
  m_create w (owner_of c p) p mode uid gid = (Invalid (status_to_rpc_invalid_op (refused EEXIST)), w).
Proof.
  intros (mc&Hmc&Hid). apply fmap_Some in Hid as (m&Hm&_). simpl.
  rewrite call_master_done with (mc := mc) (mc' := mc) (r := Throw (status_to_rpc_invalid_op (refused EEXIST)));
    [by rewrite set_master_same|done|].
  unfold rpc_create, MasterController.create, is_valid_path.
  rewrite fs_is_absolute_spec, tree_path_absolute by done. unfold Namespace.create. rewrite Hm. simpl.
  by rewrite set_namespace_same.
Qed.

Lemma add_entry k w :
  all_good k w → entry false w →
  ∃ w', m_add_subfile w (owner_of c d) d n = (Reply (), w') ∧ entry true w' ∧
    ∀ i, has_id (Some i) w → has_id (Some i) w'.
Proof.
  intros Hg (mc&subs&Hmc&Hsubs&Hin). destruct (tree_path_split p Hp Hroot) as (Hd&Hn&_).
  assert (n ∉ subs) as Hno by naive_solver.
  destruct (good_add_subfile Hrel k _ (namespace_ mc) d n subs (Hg _ _ Hmc) Hd Hn Hsubs Hno)
    as (st&ns'&Hc&Hok&Hg'&Hsame&Hd'&Hm). eexists. split_and!.
  - simpl. apply call_master_done with (mc := mc) (mc' := set_namespace mc ns') (r := Return ()); [done|].
    unfold rpc_add_subfile, MasterController.add_subfile, is_valid_path.
    rewrite fs_is_absolute_spec, (dir_path_absolute d Hd), Hc. simpl. unfold check_status. by rewrite Hok.
  - exists (set_namespace mc ns'), ({[n]} ∪ subs). simpl. rewrite lookup_partial_alter_eq.
    split_and!; [done|done|]. split; [done|set_solver].
  - intros i (mcp&Hmcp&Hid).
    apply (owner_after w _ mc (set_namespace mc ns') p mcp
      (λ ns, md_object_id <$> metadata_map_ ns !! p = Some i) Hmc Hmcp); [|done].
    intros _ <-. simpl. destruct (decide (p = d)) as [Hpd|Hpd]; [|by destruct (Hsame p Hpd) as [-> _]].
    rewrite Hpd in Hid |- *. by rewrite Hm.
Qed.

(** An attempt that finds the path taken. *)
Lemma create_loop_refused i backoff (x : shared) mode uid gid status id :
  has_id (Some i) (base (served x)) →
  create_loop (owner_of c p) p mode uid gid (Datatypes.S backoff) status id x
  = create_loop (owner_of c p) p mode uid gid backoff (refused EEXIST) id
      (mkShared (base (served x)) (others (served x))).
Proof.
  intros Hi. cbn [create_loop]. simpl m_create. by erewrite between_served by (by eapply create_taken).
Qed.

(** The attempts after a refused one are refused as well. *)
Lemma create_loop_taken k backoff (x : shared) mode uid gid status id :
  fair k x → (∃ i, has_id (Some i) (base x)) →
  ∃ x' : shared, create_loop (owner_of c p) p mode uid gid backoff status id x
        = (match backoff with 0 => status | _ => refused EEXIST end, id, x') ∧
    ∃ i, has_id (Some i) (base x').
Proof.
  revert x status. induction backoff as [|backoff IH]; intros x status Hf [i Hi]; [by eauto|].
  destruct (batch_served k x Hf) as [Hf' Hk]. pose proof (kp_id _ _ _ _ Hk i Hi) as Hi'.
  rewrite (create_loop_refused i) by done.
  destruct (IH (mkShared (base (served x)) (others (served x))) (refused EEXIST)) as (x'&Hl&?);
    [done|by exists i|].
  rewrite Hl. exists x'. split; [by destruct backoff|done].
Qed.

Lemma owner_route q :
  ∃ node, get (master_map_ c) (path_to_hash q) = (OK, Some node) ∧ address node = owner_of c q.
Proof. by apply route. Qed.

(** The first attempt comes after somebody else's. *)
Lemma create_loses k (x : shared) mode uid gid fuel :
  fair k x → (∃ id, has_id id (base x)) → Exists claims (next_batch x) →
  ∃ x' : shared, Client.create fuel c p mode uid gid x = ends (refused EEXIST, None, x') ∧
    ∃ i, has_id (Some i) (base x').
Proof.
  intros Hf Hid Hcl. destruct (batch_served k x Hf) as [Hf' Hk].
  destruct (kp_taken _ _ _ _ Hk Hcl Hid) as [i Hi].
  unfold Client.create. rewrite (initialized c Hring). simpl negb. cbv iota.
  destruct (owner_route p) as (node&->&Haddr). cbv zeta iota beta. simpl ok. simpl negb. cbv iota.
  simpl default. rewrite Haddr. unfold kNumBackOffs. rewrite (create_loop_refused i) by done.
  destruct (create_loop_taken k 2 (mkShared (base (served x)) (others (served x))) (Z.lor mode S_IFREG) uid gid
    (refused EEXIST) None) as (x'&Hl&?); [done|by exists i|].
  exists x'. split; [|done]. by rewrite Hl.
Qed.

(** The first attempt comes first. *)
Lemma create_wins k (x : shared) mode uid gid fuel :
  0 < fuel → fair (Datatypes.S k) x → quiet_calls x →
  has_id None (base x) → entry false (base x) → ¬ Exists claims (next_batch x) →
  ∃ i (x' : shared), Client.create fuel c p mode uid gid x = ends (OK, Some i, x') ∧
    has_id (Some i) (base x') ∧ entry true (base x').
Proof.
  intros Hfuel Hf Hq Hid He Hcl. destruct (batch_served _ x Hf) as [Hf1 Hk1].
  destruct (quiet_served x Hq) as [Hq1 Hqb].
  pose proof (kp_free _ _ _ _ Hk1 Hcl Hid) as Hid1. pose proof (kp_entry _ _ _ _ Hk1 false Hqb He) as He1.
  destruct Hf1 as [Hg1 Hl1].
  assert (all_good (Datatypes.S (calls_left (served x) + k)) (base (served x))) as Hg1'.
  { eapply all_good_le; [|exact Hg1]. lia. }
  destruct (create_free (calls_left (served x) + k) _ (Z.lor mode S_IFREG) uid gid Hg1' Hid1)
    as (i&w1&Hc&Hg2&Hid2&He2).
  set (x1 := mkShared w1 (others (served x))).
  assert (fair k x1) as Hf2 by by split.
  destruct (batch_served k x1 Hf2) as [[Hg3 Hl3] Hk3]. destruct (quiet_served x1 Hq1) as [_ Hqb1].
  pose proof (kp_id _ _ _ _ Hk3 i Hid2) as Hid3. pose proof (kp_entry _ _ _ _ Hk3 false Hqb1 (He2 _ He1)) as He3.
  destruct (add_entry _ _ Hg3 He3) as (w2&Hadd&He4&Hid4).
  exists i, (mkShared w2 (others (served x1))). split_and!; [|by apply Hid4|done].
  unfold Client.create. rewrite (initialized c Hring). simpl negb. cbv iota.
  destruct (owner_route p) as (node&->&Haddr). cbv zeta iota beta. simpl ok. simpl negb. cbv iota.
  simpl default. rewrite Haddr. unfold kNumBackOffs. cbn [create_loop]. simpl m_create.
  rewrite (between_served _ x _ _ Hc). fold x1. simpl negb. cbv iota.
  unfold Client.add_subfile, change_subfile. rewrite bool_decide_eq_false_2 by done.
  fold d. destruct (owner_route d) as (noded&->&Haddrd). simpl ok. cbv iota. simpl default. rewrite Haddrd.
  destruct fuel as [|fuel]; [lia|]. cbn [subfile_loop kNumBackOffs]. simpl m_add_subfile.
  fold n. by rewrite (between_served _ x1 _ _ Hadd).
Qed.
End interference.

(** ** Property *)

Section properties.
Context {S P R I : Type} `{!KeyValueStore S, !KeyValueStoreSpec S, !ConsistentHashMap P string}.
Context `{!ConsistentHashMap R NodeInfo, !ConsistentHashMapSpec R NodeInfo, !RangeIndexInterface I}.
Context `{!VoblaStatus, !VoblaStatusSpec, !MD5, !BoostFilesystem, !BoostFilesystemSpec}.
Context `{!ThriftCodec FileMetadata, !ThriftCodecSpec FileMetadata}.
Context `{!ThriftCodec IndexNamespaceNode, !ThriftCodec IndexConsistentHashRing}.

(** C9: creating a file is atomic.  While a client creates the path [p], the
    masters, which take writes and have ids left, handle any calls of other
    clients between its remote calls: they may create and remove files and
    directories, link and unlink names and change owners and times, but do not
    remove [p] or its directory.  The outcome is decided when the first remote
    call arrives.  If another client's [create]
    or [mkdir] of [p] came before it, the client gets [EEXIST] and leaves the
    path to the other one.  If not, and nobody else touches the entry of [p] in
    its directory, the client gets [OK] and the object id under which the file
    is there in the end, listed in its directory, whoever else tries to create
    it meanwhile. *)
Theorem create_is_atomic (c : VSFSRpcClient R) p mode uid gid fuel (x : Shared S P R I) :
  reliable S → ch_view (master_map_ c) ≠ ∅ → tree_path p → p ≠ "/" → 0 < fuel →
  fair p 1 x → has_id c p None (base x) → entry c p false (base x) →
  (Exists (claims c p) (next_batch x) ∨ quiet_calls p x) →
  ∃ st id x', Client.create fuel c p mode uid gid x = ends (st, id, x') ∧
    if decide (Exists (claims c p) (next_batch x))
    then st = refused EEXIST ∧ id = None ∧ ∃ i, has_id c p (Some i) (base x')
    else st = OK ∧ ∃ i, id = Some i ∧ has_id c p (Some i) (base x') ∧ entry c p true (base x').
Proof.
  intros Hrel Hring Hp Hroot Hfuel Hf Hid He Hq. case_decide as Hcl.
  - destruct (create_loses Hrel c Hring p Hp 1 x mode uid gid fuel) as (x'&Hc&Hx); [done|by eexists|done|].
    exists (refused EEXIST), None, x'. by split_and!.
  - destruct Hq as [Hq|Hq]; [done|].
    destruct (create_wins Hrel c Hring p Hp Hroot 0 x mode uid gid fuel) as (i&x'&Hc&?&?); try done.
    exists OK, (Some i), x'. split_and!; eauto.
Qed.
End properties.

(** ** Witness: two clients create the same file *)

Section witnesses.
Import Reference.
#[local] Existing Instances TestLevelDBStore.test_store TestLevelDBStore.test_store_spec.
#[local] Existing Instances RangeIndexWrapper.updates_codec RangeIndexWrapper.buffer_codec.
#[local] Existing Instances RangeIndexWrapper.types RangeIndexWrapper.casts.
#[local] Existing Instances Cluster.metadata_codec Cluster.node_codec Cluster.ring_codec.
#[local] Existing Instance ClusterFiles.metadata_codec_spec.

Abbreviation demo_shared :=
  (Shared (gmap string string) (gmap Z string) (gmap Z NodeInfo) RangeIndexObject).

(** The other client's [create] of [/f] comes second, or first. *)
Definition rival : RpcNodeAddress * call := (addr_b, CCreate "/f" 420 7 7).
Definition bystander : RpcNodeAddress * call := (addr_a, CMkdir "/d" (dir_info 493 0 0)).
Definition rival_second : demo_shared := mkShared world_ab [[bystander]; [rival]].
Definition rival_first : demo_shared := mkShared world_ab [[bystander; rival]; []].

Definition status_and_id {A} (r : late (Status * option Z * A)) : option (Status * bool) :=
  match r with Some (Done (st, id, _)) => Some (st, bool_decide (is_Some id)) | _ => None end.

Example demo_race :
  (λ x : demo_shared, status_and_id (Client.create 1 two_client "/f" 420 0 0 x))
    <$> [rival_second; rival_first]
  = [Some (OK, true); Some (refused EEXIST, false)].
Proof. vm_compute. reflexivity. Qed.

Lemma demo_fair (x : demo_shared) :
  base x = world_ab → calls_left x ≤ 9 → Forall (Forall (harmless "/f")) (others x) → fair "/f" 1 x.
Proof.
  intros Hb Hn Hl. split; [|done]. rewrite Hb. intros a mc Hmc.
  unfold world_ab in Hmc; simpl in Hmc. rewrite lookup_insert in Hmc.
  case_decide; [|rewrite lookup_singleton in Hmc; case_decide; [|done]]; injection Hmc as <-.
  - eapply able_le; [|exact rooted_good]. lia.
  - eapply able_le; [|by apply (fresh_good 13)]. lia.
Qed.

Lemma demo_path : tree_path "/f".
Proof. apply (tree_at "/" "f"). vm_compute. reflexivity. Qed.
Lemma demo_no_id : has_id two_client "/f" None world_ab.
Proof. exists (set_namespace master_a (Namespace.new ∅ 0)). split; vm_compute; reflexivity. Qed.
Lemma demo_no_entry : entry two_client "/f" false world_ab.
Proof. exists master_a, ∅. split_and!; [vm_compute; reflexivity|vm_compute; reflexivity|set_solver]. Qed.

Lemma demo_harmless : harmless "/f" rival ∧ harmless "/f" bystander.
Proof. split; (split; [|done]); [done|]. simpl. right. vm_compute. reflexivity. Qed.

Lemma create_is_atomic_witness :
  (∃ i x', Client.create 1 two_client "/f" 420 0 0 rival_second = ends (OK, Some i, x') ∧
     has_id two_client "/f" (Some i) (base x') ∧ entry two_client "/f" true (base x')) ∧
  (∃ x' : demo_shared, Client.create 1 two_client "/f" 420 0 0 rival_first = ends (refused EEXIST, None, x')).
Proof.
  destruct demo_harmless as [Hr Hb]. assert (ch_view (master_map_ two_client) ≠ ∅) as Hring by done. split.
  - destruct (create_is_atomic two_client "/f" 420 0 0 1 rival_second demo_reliable Hring demo_path)
      as (st&id&x'&Hc&Hx); [done|lia|apply demo_fair; [done|vm_compute; lia|by repeat constructor]
      |exact demo_no_id|exact demo_no_entry|right; repeat constructor|].
    rewrite decide_False in Hx.
    + destruct Hx as (->&i&->&?&?). exists i, x'. split_and!; [exact Hc|done|done].
    + intros [[_ Ht]|[]%Exists_nil]%Exists_cons. done.
  - destruct (create_is_atomic two_client "/f" 420 0 0 1 rival_first demo_reliable Hring demo_path)
      as (st&id&x'&Hc&Hx); [done|lia|apply demo_fair; [done|vm_compute; lia|by repeat constructor]
      |exact demo_no_id|exact demo_no_entry| |].
    + left. right. left. split; [vm_compute; reflexivity|done].
    + rewrite decide_True in Hx.
      * destruct Hx as (->&->&_). exists x'. exact Hc.
      * right. left. split; [vm_compute; reflexivity|done].
Defined.
End witnesses.
