(* ===== verification/ClusterFuse.v ===== *)
(** * Files of a mounted VSFS, end to end

    The FUSE operations on a cluster of masters and a local store: creating a
    file through FUSE, writing it, closing it, and opening it again by its
    path finds the data, although the path is resolved by the masters and the
    data is kept under a name the storage manager derives. *)

From S2P Require Import Prelude CxxString Platform Posix PathUtil ThriftUtils KVStore RangeIndex IndexManager.
From S2P Require Import PartitionManager IndexNamespace Namespace MasterController ServerMap.
From S2P Require Import ComplexQuery Client Storage Fuse Cluster.
From Stdlib Require Import Strings.Byte.

Section end_to_end.
Context {S P R I M OS : Type} `{!KeyValueStore S, !KeyValueStoreSpec S}.
Context `{!ConsistentHashMap P string, !ConsistentHashMap R NodeInfo, !RangeIndexInterface I}.
Context `{!VoblaStatus, !MD5, !BoostFilesystem}.
Context `{!ThriftCodec FileMetadata, !ThriftCodec IndexNamespaceNode, !ThriftCodec IndexConsistentHashRing}.
Context `{!Posix OS, !PosixSpec OS, !StorageManager M OS, !StorageManagerSpec M OS}.
Context (ctx : Context) (fuel : nat).

Abbreviation cluster := (Cluster S P R I).
Abbreviation master := (MasterController S P R).
Abbreviation St := (State M R cluster OS).
Abbreviation view s := (os_view (system s)).

(** The masters are ready for the file [path]: the ring leads to a master for
    the path and one for its parent, the parent exists and has no such entry,
    the path is new, and the stores take writes. *)
Record ready_for (c : VSFSRpcClient R) (w : cluster) (path : string) : Prop := {
  r_path : path ≠ "/" ∧ fs_is_absolute path = true ∧ fs_is_absolute (fs_parent_path path) = true;
  r_ring : empty (master_map_ c) = false;
  r_masters : ∃ n1 n2 (mc1 mc2 : master) subs,
    get_path (master_map_ c) path = (OK, Some n1) ∧
    get_path (master_map_ c) (fs_parent_path path) = (OK, Some n2) ∧
    master_nodes w !! address n1 = Some mc1 ∧ master_nodes w !! address n2 = Some mc2 ∧
    kv_opened (store_ (namespace_ mc1)) ∧ kv_opened (store_ (namespace_ mc2)) ∧
    metadata_map_ (namespace_ mc1) !! path = None ∧
    id_to_path_map_ (namespace_ mc1) !! object_id_of path (next_obj_id_ (namespace_ mc1)) ≠ Some path ∧
    in_int64 (next_obj_id_ (namespace_ mc1) + 1) = true ∧
    directories_ (namespace_ mc2) !! fs_parent_path path = Some subs ∧ fs_filename path ∉ subs;
  r_stores : ∀ s : S, kv_opened s → accepts s;
}.

Lemma ready_create c (w : cluster) path mode uid gid :
  ready_for c w path → 0 < fuel →
  ∃ oid w', Client.create fuel c path mode uid gid w = ends (OK, Some oid, w') ∧
    Client.open c path w' = Done (OK, Some oid, w').
Proof.
  intros [(?&?&?) ? (n1&n2&mc1&mc2&subs&?&?&?&?&?&?&?&?&?&?&?) ?] Hf.
  destruct (client_create_visible c w path mode uid gid fuel n1 n2 mc1 mc2 subs)
    as (oid&w'&?&?&_); eauto.
Qed.

(** The calls succeed: create, write all, release, open again, read. *)
Lemma reopened_reads_prefix path mode flags flags' buf (s s1 s2 s3 s4 s5 : St) fh fh' n bs :
  table_ok s → names_ok (view s) → ready_for (client_ (vsfs s)) (world s) path → 0 < fuel →
  (∀ oid, plain_at (view s) (sm_location (storage_manager_ (vsfs s)) path oid)) →
  has_flag (Z.lor flags O_CREAT) O_TRUNC = false → has_flag (Z.lor flags O_CREAT) O_APPEND = false →
  has_flag flags' O_TRUNC = false → has_flag flags' O_APPEND = false →
  (Z.of_nat (length buf) < 2 ^ 31)%Z →
  vsfs_create ctx fuel path mode flags s = ends ((0%Z, Some fh), s1) →
  vsfs_write fh buf 0 s1 = ends (Z.of_nat (length buf), s2) →
  vsfs_release fh s2 = ends (0%Z, s3) →
  vsfs_open path flags' s3 = ends ((0%Z, Some fh'), s4) →
  vsfs_read fh' (Z.of_nat (length buf)) 0 s4 = ends ((n, bs), s5) → (0 ≤ n)%Z →
  bs `prefix_of` buf ∧ (bs = [] → buf = []).
Proof.
  intros Hs Hok Hready Hfuel Hloc Ht Ha Ht' Ha' Hlen Hc Hw Hr Ho Hrd Hn.
  destruct (ready_create (client_ (vsfs s)) (world s) path mode (proc_uid ctx) (proc_gid ctx) Hready Hfuel)
    as (oid&w'&Hcreate&Hopen).
  unfold vsfs_create in Hc. apply fuse_bind_ends in Hc as ([st o]&s0&E1&E2).
  unfold rpc_late in E1. apply late_bind_ends in E1 as ([b w0]&Hb&[= -> <-]).
  rewrite Hcreate in Hb. injection Hb as <- <- <-. cbn [ok negb default id] in E2.
  set (s0 := {| vsfs := vsfs s; world := w'; system := system s |}) in *.
  set (p := sm_location (storage_manager_ (vsfs s)) path oid).
  specialize (Hloc oid). rename Hloc into Hp.
  destruct (open_add_spec path oid (Z.lor flags O_CREAT) (Some mode) s0 s1 fh Hs Hok Hp Ht Ha E2)
    as (Hs1&Hok1&Hh1&Hw1&Hm1&Hcl1&Hd1&Hl1&Hc1).
  change (sm_location (storage_manager_ (vsfs s0)) path oid) with p in Hh1, Hc1.
  destruct (vsfs_write_spec _ _ _ _ _ _ _ Hok1 Hh1 (Z.le_refl 0) Hlen Hw (Nat2Z.is_nonneg _))
    as (_&Hok2&_&Hw2&Hv2&(d&Hd2)&(data&_&Hc2)&_).
  assert (table_ok s2) as Hs2 by exact (keeps_vsfs_write fh buf 0 s1 _ s2 Hs1 Hw).
  destruct (vsfs_release_spec _ _ _ Hs2 Hok2 Hr) as (Hs3&Hok3&Hw3&Hm3&Hcl3&(fds&Hd3)).
  unfold vsfs_open in Ho. apply fuse_bind_ends in Ho as ([st o]&s0'&E1&E3).
  unfold rpc, rpc_late in E1. apply late_bind_ends in E1 as ([b w0]&Hb&[= -> <-]).
  rewrite Hcl3, Hv2, Hcl1, Hw3, Hw2, Hw1 in Hb. cbn [vsfs world s0] in Hb. rewrite Hopen in Hb.
  injection Hb as <- <- <-. cbn [ok negb default id] in E3.
  set (s3' := {| vsfs := vsfs s3; world := w'; system := system s3 |}) in *.
  assert (sm_location (storage_manager_ (vsfs s3')) path oid = p) as Hpe.
  { unfold s3', p; cbn [vsfs]. by rewrite Hm3, Hv2, Hm1. }
  destruct (open_add_spec path oid flags' None s3' s4 fh' Hs3 Hok3) as (_&_&Hh4&_&_&_&_&_&Hc4); try done.
  { rewrite Hpe. eapply plain_at_ext; [| |exact Hp].
    - cbn [system s3']. rewrite Hd3, Hd2. cbn. exact Hd1.
    - cbn [system s3']. rewrite Hd3, Hd2. cbn. exact Hl1. }
  rewrite Hpe in *. assert (contents (view s3') p = contents (view s2) p) as Hc3.
  { cbn [system s3']. by rewrite Hd3. }
  rewrite Hc3, Hc2 in Hc4. cbn [default id] in Hc4.
  destruct (vsfs_read_spec _ _ _ _ _ _ _ _ Hh4 (Z.le_refl 0) (Nat2Z.is_nonneg _) Hrd Hn)
    as (_&data'&Hc5&Hpre).
  rewrite Hc4 in Hc5. injection Hc5 as <-. by rewrite !Nat2Z.id, firstn_all, take_drop_splice in Hpre.
Qed.

(** A client of the mounted file system: it saves a buffer in a new file and
    loads it again, and stops with the result of the first call that fails or
    does not write everything. *)
Definition save_and_load (path : string) (mode flags flags' : Z) (buf : bytes) : fuse St (Z + bytes) :=
  let len := Z.of_nat (length buf) in
  '(r, fh) ← vsfs_create ctx fuel path mode flags;
  match fh with
  | None => mret (inl r)
  | Some fh =>
      n ← vsfs_write fh buf 0;
      if negb (bool_decide (n = len)) then mret (inl n) else
      r ← vsfs_release fh;
      if negb (bool_decide (r = 0%Z)) then mret (inl r) else
      '(r, fh) ← vsfs_open path flags';
      match fh with
      | None => mret (inl r)
      | Some fh =>
          '(n, bs) ← vsfs_read fh len 0;
          mret (if bool_decide (0 ≤ n)%Z then inr bs else inl n)
      end
  end.

Lemma ends_bind {A B} (m : fuse St A) (f : A → fuse St B) s a s1 :
  m s = ends (a, s1) → (m ≫= f) s = f a s1.
Proof. intros E. unfold mbind, fuse_bind. by rewrite E. Qed.

End end_to_end.

(** ** Witness: one master, the POSIX storage manager *)

Section witnesses.
Import Reference ReferenceOs.
#[local] Existing Instances TestLevelDBStore.test_store TestLevelDBStore.test_store_spec.
#[local] Existing Instances RangeIndexWrapper.updates_codec RangeIndexWrapper.buffer_codec.
#[local] Existing Instances RangeIndexWrapper.types RangeIndexWrapper.casts.
#[local] Existing Instances Cluster.metadata_codec Cluster.node_codec Cluster.ring_codec.

Abbreviation demo_state :=
  (State PosixStorageManager (gmap Z NodeInfo)
    (Cluster (gmap string string) (gmap Z string) (gmap Z NodeInfo) RangeIndexObject) OsView).

Definition demo_ctx : Context :=
  {| ctx_uid := 0; ctx_gid := 0; ctx_umask := 18; proc_uid := 0; proc_gid := 0 |}.
Definition mounted : demo_state :=
  {| vsfs := {| basedir_ := "/base"; mount_point_ := "/mnt";
                storage_manager_ := {| posix_base_path_ := "/base" |};
                client_ := demo_client; fh_to_obj_map_ := ∅ |};
     world := world_a; system := demo_os |}.
Definition after {A} (r : late (A * demo_state)) : demo_state :=
  match r with Some (Done (_, s)) => s | _ => mounted end.
Definition hello : bytes := [x68; x65; x6c; x6c; x6f].

Definition created := after (vsfs_create demo_ctx 1 "/f" 420 2 mounted).
Definition written := after (vsfs_write 1 hello 0 created).
Definition released := after (vsfs_release 1 written).
Definition reopened := after (vsfs_open "/f" 0 released).
Definition reread := after (vsfs_read 1 5 0 reopened).

Lemma mounted_table_ok : table_ok mounted.
Proof. split; [done|]. intros fd f. unfold mounted; simpl. by rewrite lookup_empty. Qed.

Lemma ready_for_f : ready_for demo_client world_a "/f".
Proof.
  split.
  - done.
  - done.
  - exists (node_of addr_a), (node_of addr_a), master_a, master_a, ∅.
    split_and!; try (vm_compute; reflexivity); [vm_compute; discriminate|set_solver].
  - apply store_accepts.
Qed.

Lemma result_unique {A B} (o : late (A * B)) a a' b b' : o = ends (a, b) → o = ends (a', b') → a = a'.
Proof. by intros -> [= -> _]. Qed.


#[local] Existing Instance Decimal.cast.

Lemma fuse_handles_invariant_witness :
  table_ok created ∧ ∃ r s'', dispatch 0 demo_ctx 1 (Release 1) created = ends (r, s'') ∧
    fh_to_obj_map_ (vsfs s'') = delete 1%Z (fh_to_obj_map_ (vsfs created)).
Proof.
  destruct (fuse_handles_invariant 0 demo_ctx 1 mounted created mounted_table_ok) as (Ht&_&Hr).
  - apply rtc_once. exists (Create "/f" 420 2), 0%Z. vm_compute. reflexivity.
  - split; [exact Ht|]. exact (Hr 1%Z).
Defined.


End witnesses.
