(* ===== verification/MountSpec.v ===== *)
(** * What a mounted VSFS promises: a file system with contents

    The specification against which [Mounted] proves the FUSE operations on a
    cluster of masters and an object store.  [Mount] is the tree of
    [FileSystem] with what a local file system adds to it: for every object id
    a file or a symbolic link, the bytes of the files, and the open handles.
    [mount_step] says what each callback may answer, the failures of the local
    file system included; [mount_ok] is the contract of the kernel, and
    [program] a client of the mount that chooses its next call by the answers
    so far. *)

From S2P Require Import Prelude CxxString Platform Posix PathUtil RangeIndex Namespace FileSystem.
From S2P Require Import ServerMap MasterController Restart ComplexQuery Client Storage Fuse.
From Stdlib Require Import Ascii Strings.Byte.

(** [m_objects] and [m_links] are what the store keeps under an object id: a
    local file, whose bytes are in [m_data], or the target of a link.  A handle
    stands for a local file and the flags it was opened with. *)
Record Mount := {
  m_tree : FileSystem;
  m_objects : gmap Z Z;
  m_links : gmap Z string;
  m_data : gmap Z bytes;
  m_open : gmap Z (Z * Z);
}.

Definition with_tree (μ : Mount) fs : Mount :=
  {| m_tree := fs; m_objects := m_objects μ; m_links := m_links μ; m_data := m_data μ; m_open := m_open μ |}.
Definition with_objects (μ : Mount) o : Mount :=
  {| m_tree := m_tree μ; m_objects := o; m_links := m_links μ; m_data := m_data μ; m_open := m_open μ |}.
Definition with_links (μ : Mount) l : Mount :=
  {| m_tree := m_tree μ; m_objects := m_objects μ; m_links := l; m_data := m_data μ; m_open := m_open μ |}.
Definition with_data (μ : Mount) d : Mount :=
  {| m_tree := m_tree μ; m_objects := m_objects μ; m_links := m_links μ; m_data := d; m_open := m_open μ |}.
Definition with_open (μ : Mount) h : Mount :=
  {| m_tree := m_tree μ; m_objects := m_objects μ; m_links := m_links μ; m_data := m_data μ; m_open := h |}.

(** What the kernel gets from a callback: a number, and what was filled in. *)
Inductive fuse_reply :=
  | Code (r : Z)
  | Attr (r : Z) (stbuf : Stat)
  | Names (r : Z) (filled : list (string * option Stat))
  | Handle (r : Z) (fh : option Z)
  | Bytes (r : Z) (bs : bytes)
  | Link (r : Z) (buf : link_buffer).

Section spec.
Context `{VoblaStatus, BoostFilesystem, MD5}.
Context {A : Type} (owner : string → A) (ctx : Context).
Implicit Types (μ : Mount) (p : string) (fh oid i r : Z).

(** The number of a failed call of the local file system. *)
Definition local_error r : Prop := (r < 0)%Z.

(** *** The calls that only concern the tree *)

Definition times_info (atime mtime : Z) : RpcFileInfo :=
  {| fi_object_id := None; fi_uid := None; fi_gid := None; fi_mode := None; fi_size := None;
     fi_ctime := None; fi_mtime := Some mtime; fi_atime := Some atime |}.
Definition owner_info (uid gid : Z) : RpcFileInfo :=
  {| fi_object_id := None; fi_uid := Some uid; fi_gid := Some gid; fi_mode := None; fi_size := None;
     fi_ctime := None; fi_mtime := None; fi_atime := None |}.

Definition tree_call (op : fuse_op) : option fs_op :=
  match op with
  | Utimens p atime mtime => Some (FSetattr p (times_info atime mtime))
  | Chmod p mode => Some (FSetattr p (set_mode mode))
  | Chown p uid gid => Some (FSetattr p (owner_info uid gid))
  | Mkdir p mode => Some (FMkdir p mode (ctx_uid ctx) (ctx_gid ctx))
  | Mknod p mode => Some (FCreate p mode (proc_uid ctx) (proc_gid ctx))
  | Rmdir p => Some (FRmdir p)
  | _ => None
  end.

(** The calls that make a file in the tree and then something local. *)
Definition creation (op : fuse_op) : option fs_op :=
  match op with
  | Create p mode _ => Some (FCreate p mode (proc_uid ctx) (proc_gid ctx))
  | Symlink _ p =>
      Some (FCreate p (Z.lor (if bool_decide (ctx_umask ctx = 0%Z) then 0 else 1) S_IFLNK)
              (ctx_uid ctx) (ctx_gid ctx))
  | _ => None
  end.

Definition answer_code (a : fs_answer) : Z :=
  match a with ADone st | AnId st _ | TheNames st _ | TheInfo st _ => error_of st end.

(** The calls that answer zero whatever they are asked. *)
Definition idle_call (op : fuse_op) : Prop :=
  match op with
  | Access _ _ | Truncate _ _ | Opendir _ | Releasedir _ | Getxattr _ _ => True
  | _ => False
  end.
(** The calls that are passed to the system and change nothing. *)
Definition passed_on (op : fuse_op) : Prop :=
  match op with Statfs | Flush _ | Fsync _ | Flock _ _ | Lock _ _ => True | _ => False end.

(** *** Files and handles *)

(** A local file that nothing refers to, and a handle that is free. *)
Definition new_local i μ : Prop :=
  m_data μ !! i = None ∧ (∀ oid, m_objects μ !! oid ≠ Some i) ∧ (∀ fh fl, m_open μ !! fh ≠ Some (i, fl)).
Definition new_handle fh μ : Prop := (0 ≤ fh < 2 ^ 31)%Z ∧ m_open μ !! fh = None.

Definition make_file oid i fh flags μ : Mount :=
  with_open (with_data (with_objects μ (<[oid:=i]> (m_objects μ))) (<[i:=[]]> (m_data μ)))
    (<[fh:=(i, flags)]> (m_open μ)).
Definition open_file i fh flags μ : Mount :=
  with_open (if has_flag flags O_TRUNC then with_data μ (<[i:=[]]> (m_data μ)) else μ)
    (<[fh:=(i, flags)]> (m_open μ)).
Definition forget oid μ : Mount :=
  with_links (with_objects μ (delete oid (m_objects μ))) (delete oid (m_links μ)).

(** Opening the object [oid]: a handle on its file, or on a new one. *)
Inductive opened oid flags μ : Z → Mount → Prop :=
  | opened_old fh i :
      m_objects μ !! oid = Some i → new_handle fh μ → opened oid flags μ fh (open_file i fh flags μ)
  | opened_new fh i :
      m_objects μ !! oid = None → has_flag flags O_CREAT = true → new_local i μ → new_handle fh μ →
      opened oid flags μ fh (make_file oid i fh flags μ).

(** A write through a handle puts [k] bytes of the buffer at the offset, or at
    the end with [O_APPEND]. *)
Inductive wrote fh (buf : bytes) (off : Z) μ : Z → Mount → Prop :=
  | wrote_some i fl data k :
      m_open μ !! fh = Some (i, fl) → m_data μ !! i = Some data → (0 ≤ k ≤ Z.of_nat (length buf))%Z →
      wrote fh buf off μ k
        (with_data μ (<[i := splice data (if has_flag fl O_APPEND then length data else Z.to_nat off)
                              (take (Z.to_nat k) buf)]> (m_data μ))).

(** All fragments go to the same offset; a failed write ends the call. *)
Inductive wrote_all fh (off total : Z) : list bytes → Mount → Z → Mount → Prop :=
  | wrote_none μ : wrote_all fh off total [] μ (wrap_int32 total) μ
  | wrote_failed buf bufs μ r : local_error r → wrote_all fh off total (buf :: bufs) μ r μ
  | wrote_more buf bufs μ μ1 μ' k r :
      wrote fh buf off μ k μ1 → wrote_all fh off (total + k) bufs μ1 r μ' →
      wrote_all fh off total (buf :: bufs) μ r μ'.

(** The attributes [getattr] fills in: those of the tree, and for a file the
    size of its contents. *)
Definition tree_attr (m : FileMetadata) (stbuf : Stat) : Stat :=
  let st := stat_of_info (info_of m) stbuf in
  if S_ISDIR (md_mode m) || S_ISLNK (md_mode m) then st
  else set_mode_size st (md_mode m) (st_size stbuf).
Definition only_tree (m : FileMetadata) : bool := S_ISDIR (md_mode m) || S_ISLNK (md_mode m).

(** ** The answers to each call *)

Inductive mount_step (t : double) : fuse_op → Mount → fuse_reply → Mount → Prop :=
  | step_tree op o oid μ a fs' :
      tree_call op = Some o → id_ok owner o oid (m_tree μ) → fs_exec t oid o (m_tree μ) = (a, fs') →
      mount_step t op μ (Code (answer_code a)) (with_tree μ fs')
  | step_idle op μ : idle_call op → mount_step t op μ (Code 0) μ
  | step_passed_on op μ r : passed_on op → (r ≤ 0)%Z → mount_step t op μ (Code r) μ
  | step_readdir junk p μ st names fs' :
      fs_exec t 0 (FReaddir p) (m_tree μ) = (TheNames st names, fs') →
      mount_step t (Readdir junk p) μ
        (Names (error_of st) ([(".", None); ("..", None)] ++ ((λ n, (n, None)) <$> default [] names))) μ
  (** [getattr] *)
  | step_getattr_missing p stbuf μ :
      fs_nodes (m_tree μ) !! p = None → mount_step t (Getattr p stbuf) μ (Attr (error_of missing) stbuf) μ
  | step_getattr_tree p stbuf μ m :
      fs_nodes (m_tree μ) !! p = Some m → only_tree m = true →
      mount_step t (Getattr p stbuf) μ (Attr 0 (tree_attr m stbuf)) μ
  | step_getattr_failed p stbuf μ m r :
      fs_nodes (m_tree μ) !! p = Some m → only_tree m = false → local_error r →
      mount_step t (Getattr p stbuf) μ (Attr r (tree_attr m stbuf)) μ
  | step_getattr p stbuf μ m i data local :
      fs_nodes (m_tree μ) !! p = Some m → only_tree m = false →
      m_objects μ !! md_object_id m = Some i → m_data μ !! i = Some data →
      st_size local = Z.of_nat (length data) →
      mount_step t (Getattr p stbuf) μ (Attr 0 (set_local (tree_attr m stbuf) local)) μ
  | step_fgetattr_failed fh stbuf μ r :
      local_error r → mount_step t (Fgetattr fh stbuf) μ (Attr r stbuf) μ
  | step_fgetattr fh stbuf μ i fl data st :
      m_open μ !! fh = Some (i, fl) → m_data μ !! i = Some data → st_size st = Z.of_nat (length data) →
      mount_step t (Fgetattr fh stbuf) μ (Attr 0 st) μ
  (** [create], [open], [release] *)
  | step_create_refused p mode flags μ st fs' oid :
      fs_exec t oid (FCreate p mode (proc_uid ctx) (proc_gid ctx)) (m_tree μ) = (AnId st None, fs') →
      mount_step t (Create p mode flags) μ (Handle (error_of st) None) μ
  | step_create_failed p mode flags μ oid fs' r :
      id_ok owner (FCreate p mode (proc_uid ctx) (proc_gid ctx)) oid (m_tree μ) →
      fs_exec t oid (FCreate p mode (proc_uid ctx) (proc_gid ctx)) (m_tree μ) = (AnId OK (Some oid), fs') →
      local_error r → mount_step t (Create p mode flags) μ (Handle r None) (with_tree μ fs')
  | step_create p mode flags μ oid fs' i fh :
      id_ok owner (FCreate p mode (proc_uid ctx) (proc_gid ctx)) oid (m_tree μ) →
      fs_exec t oid (FCreate p mode (proc_uid ctx) (proc_gid ctx)) (m_tree μ) = (AnId OK (Some oid), fs') →
      m_objects μ !! oid = None → new_local i μ → new_handle fh μ →
      mount_step t (Create p mode flags) μ (Handle 0 (Some fh))
        (make_file oid i fh (Z.lor flags O_CREAT) (with_tree μ fs'))
  | step_open_failed p flags μ r : local_error r → mount_step t (Open p flags) μ (Handle r None) μ
  | step_open p flags μ m fh μ' :
      fs_nodes (m_tree μ) !! p = Some m → opened (md_object_id m) flags μ fh μ' →
      mount_step t (Open p flags) μ (Handle 0 (Some fh)) μ'
  | step_release fh μ r :
      is_Some (m_open μ !! fh) → (r ≤ 0)%Z →
      mount_step t (Release fh) μ (Code r) (with_open μ (delete fh (m_open μ)))
  (** [read], [write], [write_buf] *)
  | step_read_closed fh size off μ :
      m_open μ !! fh = None → mount_step t (Read fh size off) μ (Bytes (- EBADF) []) μ
  | step_read_failed fh size off μ r :
      local_error r → mount_step t (Read fh size off) μ (Bytes r []) μ
  | step_read fh size off μ i fl data bs :
      m_open μ !! fh = Some (i, fl) → m_data μ !! i = Some data →
      bs `prefix_of` take (Z.to_nat size) (drop (Z.to_nat off) data) →
      (bs = [] → take (Z.to_nat size) (drop (Z.to_nat off) data) = []) →
      mount_step t (Read fh size off) μ (Bytes (Z.of_nat (length bs)) bs) μ
  | step_write_closed fh buf off μ :
      m_open μ !! fh = None → mount_step t (Write fh buf off) μ (Code (- EBADF)) μ
  | step_write_failed fh buf off μ r :
      local_error r → mount_step t (Write fh buf off) μ (Code r) μ
  | step_write fh buf off μ k μ' :
      wrote fh buf off μ k μ' → mount_step t (Write fh buf off) μ (Code k) μ'
  | step_write_buf_closed fh bufs off μ :
      m_open μ !! fh = None → mount_step t (WriteBuf fh bufs off) μ (Code (- EINVAL)) μ
  | step_write_buf fh bufs off μ r μ' :
      is_Some (m_open μ !! fh) → wrote_all fh off 0 bufs μ r μ' →
      mount_step t (WriteBuf fh bufs off) μ (Code r) μ'
  (** [unlink], [symlink], [readlink] *)
  | step_unlink_failed p μ oid fs' r :
      fs_exec t 0 (FUnlink p) (m_tree μ) = (AnId OK (Some oid), fs') → local_error r →
      mount_step t (Unlink p) μ (Code r) (with_tree μ fs')
  | step_unlink p μ oid fs' :
      fs_exec t 0 (FUnlink p) (m_tree μ) = (AnId OK (Some oid), fs') →
      mount_step t (Unlink p) μ (Code 0) (forget oid (with_tree μ fs'))
  | step_symlink_refused target p μ o st fs' oid :
      creation (Symlink target p) = Some o → fs_exec t oid o (m_tree μ) = (AnId st None, fs') →
      mount_step t (Symlink target p) μ (Code (error_of st)) μ
  | step_symlink_failed target p μ o oid fs' r :
      creation (Symlink target p) = Some o → id_ok owner o oid (m_tree μ) →
      fs_exec t oid o (m_tree μ) = (AnId OK (Some oid), fs') → local_error r →
      mount_step t (Symlink target p) μ (Code r) (with_tree μ fs')
  | step_symlink target p μ o oid fs' :
      creation (Symlink target p) = Some o → id_ok owner o oid (m_tree μ) →
      fs_exec t oid o (m_tree μ) = (AnId OK (Some oid), fs') → m_links μ !! oid = None →
      mount_step t (Symlink target p) μ (Code 0)
        (with_links (with_tree μ fs') (<[oid:=target]> (m_links μ)))
  | step_readlink_missing p size μ :
      fs_nodes (m_tree μ) !! p = None →
      mount_step t (Readlink p size) μ (Link (error_of missing) Untouched) μ
  | step_readlink_failed p size μ r :
      local_error r → mount_step t (Readlink p size) μ (Link r Untouched) μ
  | step_readlink p size μ m target :
      fs_nodes (m_tree μ) !! p = Some m → m_links μ !! md_object_id m = Some target →
      mount_step t (Readlink p size) μ (Link 0 (Unterminated (str_take (Z.to_nat size) target))) μ.

(** *** The contract of the kernel *)

(** The path of a file or directory, not of a query. *)
Definition ordinary p : Prop := p ≠ "" ∧ no_char "?"%char p.
(** A path that is not that of a symbolic link. *)
Definition not_link p μ : Prop :=
  ∀ m, fs_nodes (m_tree μ) !! p = Some m → m_links μ !! md_object_id m = None.

(** Paths are ordinary and the calls on the tree are in its contract; a file
    that is opened exists and is no link; handles that are released or looked
    at are open; offsets are not negative, and one call moves less than 2^31
    bytes. *)
Definition mount_ok (op : fuse_op) μ : Prop :=
  match op with
  | Utimens _ _ _ | Chmod _ _ | Chown _ _ _ | Mkdir _ _ | Mknod _ _ | Rmdir _ =>
      ∀ o, tree_call op = Some o → op_ok o (m_tree μ)
  | Create _ _ _ | Symlink _ _ => ∀ o, creation op = Some o → op_ok o (m_tree μ)
  | Access p _ => p ≠ ""
  | Readdir _ p => ordinary p ∧ starts_with "/" p = true
  | Getattr p _ =>
      ordinary p ∧ ∀ m, fs_nodes (m_tree μ) !! p = Some m → only_tree m = false → not_link p μ
  | Open p _ => (∃ m, fs_nodes (m_tree μ) !! p = Some m ∧ is_dir m = false) ∧ not_link p μ
  | Unlink p => op_ok (FUnlink p) (m_tree μ)
  | Readlink p size => ordinary p ∧ (0 ≤ size)%Z
  | Release fh | Fgetattr fh _ => is_Some (m_open μ !! fh)
  | Read _ size off => (0 ≤ size < 2 ^ 31)%Z ∧ (0 ≤ off)%Z
  | Write _ buf off => (Z.of_nat (length buf) < 2 ^ 31)%Z ∧ (0 ≤ off)%Z
  | WriteBuf _ _ off => (0 ≤ off)%Z
  | Statfs | Truncate _ _ | Opendir _ | Releasedir _ | Flush _ | Flock _ _ | Lock _ _ | Fsync _
  | Getxattr _ _ => True
  | Ioctl _ _ => False
  end.

(** ** Programs *)

(** A client of the mount: it looks at the answer before it goes on.  Between
    its calls the master at an address may crash and come back, as in
    [ClusterFiles], with a counter of ids that is [jump] beyond the old one. *)
Inductive program :=
  | Stop
  | Do (t : double) (op : fuse_op) (next : fuse_reply → program)
  | CrashMaster (a : RpcNodeAddress) (self : NodeInfo) (jump : nat) (r1 r2 : Z) (next : program).

Inductive mount_run : program → Mount → list fuse_reply → Mount → Prop :=
  | run_stop μ : mount_run Stop μ [] μ
  | run_do t op next μ reply μ1 replies μ' :
      mount_step t op μ reply μ1 → mount_run (next reply) μ1 replies μ' →
      mount_run (Do t op next) μ (reply :: replies) μ'
  | run_crash a self jump r1 r2 next μ replies μ' :
      mount_run next μ replies μ' → mount_run (CrashMaster a self jump r1 r2 next) μ replies μ'.

(** Calls and skipped ids are [k] together at most, and each call is in the
    contract whatever the answers before it. *)
Fixpoint program_ok (k : nat) (prog : program) μ : Prop :=
  match prog with
  | Stop => True
  | Do t op next =>
      match k with
      | 0 => False
      | Datatypes.S k =>
          mount_ok op μ ∧ ∀ reply μ', mount_step t op μ reply μ' → program_ok k (next reply) μ'
      end
  | CrashMaster _ _ jump r1 r2 next =>
      jump ≤ k ∧ rand_value r1 ∧ rand_value r2 ∧ program_ok (k - jump) next μ
  end.

(** ** The specification makes sense: files do not share contents *)

Record mount_wf μ : Prop := {
  mw_tree : tree_wf (m_tree μ);
  mw_bits : given_bits (m_tree μ);
  mw_once : given_once (m_tree μ);
  mw_objects oid i : m_objects μ !! oid = Some i → was_given oid (m_tree μ) ∧ is_Some (m_data μ !! i);
  mw_links oid target : m_links μ !! oid = Some target → was_given oid (m_tree μ);
  mw_files oid oid' i : m_objects μ !! oid = Some i → m_objects μ !! oid' = Some i → oid = oid';
  mw_open fh i fl : m_open μ !! fh = Some (i, fl) → is_Some (m_data μ !! i) ∧ (0 ≤ fh < 2 ^ 31)%Z;
}.
End spec.

Section wf.
Context `{!VoblaStatus, !BoostFilesystem, !BoostFilesystemSpec, !MD5}.
Context {A : Type} (owner : string → A) (ctx : Context) (Haligned : aligned owner).
Implicit Types (μ : Mount) (fs : FileSystem) (p : string).

(** A new file gets an id nothing is kept under. *)
Lemma new_id_unused μ p mode uid gid oid :
  mount_wf μ → fs_nodes (m_tree μ) !! p = None → id_ok owner (FCreate p mode uid gid) oid (m_tree μ) →
  m_objects μ !! oid = None ∧ m_links μ !! oid = None.
Proof.
  intros Hwf Hp Hid. destruct (Hid Hp) as [Hbits Hnew].
  assert (¬ was_given oid (m_tree μ)) as Hno.
  { intros [q Hq]. apply (Hnew q); [|done]. apply Haligned. by rewrite <-(mw_bits _ Hwf _ _ Hq), Hbits. }
  split; apply eq_None_not_Some; intros [x Hx]; apply Hno.
  - by apply (mw_objects _ Hwf) in Hx as [? _].
  - by apply (mw_links _ Hwf) in Hx.
Qed.

Lemma exec_wf t oid o μ :
  mount_wf μ → op_ok o (m_tree μ) → id_ok owner o oid (m_tree μ) →
  mount_wf (with_tree μ (fs_exec t oid o (m_tree μ)).2).
Proof.
  intros Hwf Hok Hid. destruct (exec_ids owner Haligned t oid o _ Hid (mw_bits _ Hwf) (mw_once _ Hwf)) as [Hb Ho].
  destruct Hwf as [Ht _ _ Hobj Hl Hf Hop]. split; simpl; try done; [apply fs_exec_wf; auto using visible_all| |].
  - intros oid' i Hi. destruct (Hobj oid' i Hi) as [[p Hp] ?]. split; [|done].
    exists p. by apply exec_keeps_given.
  - intros oid' target Hi. destruct (Hl oid' target Hi) as [p Hp]. exists p. by apply exec_keeps_given.
Qed.

Lemma same_tree_wf t oid o μ a fs' :
  fs_exec t oid o (m_tree μ) = (a, fs') → mount_wf μ → op_ok o (m_tree μ) →
  id_ok owner o oid (m_tree μ) → mount_wf (with_tree μ fs').
Proof.
  intros He Hwf Hok Hid. replace fs' with (fs_exec t oid o (m_tree μ)).2 by by rewrite He.
  by apply exec_wf.
Qed.

Lemma make_file_wf oid i fh flags μ :
  mount_wf μ → was_given oid (m_tree μ) → m_objects μ !! oid = None → new_local i μ → new_handle fh μ →
  mount_wf (make_file oid i fh flags μ).
Proof.
  intros [Ht Hb Ho Hobj Hl Hf Hop] Hg Hnone (Hi&Hio&Hih) [Hfh Hnh]. split; simpl; try done.
  - intros oid' i'. rewrite !lookup_insert. case_decide as Ho'; case_decide as Hi'; intros; simplify_eq; eauto.
    by destruct (Hio oid').
  - intros oid' oid'' i'. rewrite !lookup_insert. case_decide; case_decide; intros; simplify_eq; eauto;
      [by destruct (Hio oid'')|by destruct (Hio oid')].
  - intros fh' i' fl. rewrite !lookup_insert. case_decide; case_decide; intros; simplify_eq; eauto.
    by destruct (Hih fh' fl).
Qed.

Lemma set_data_wf i data μ :
  mount_wf μ → mount_wf (with_data μ (<[i:=data]> (m_data μ))).
Proof.
  intros [Ht Hb Ho Hobj Hl Hf Hop]. split; simpl; try done.
  - intros oid' i' Hi. rewrite lookup_insert. destruct (Hobj _ _ Hi). case_decide; eauto.
  - intros fh' i' fl Hi. rewrite lookup_insert. destruct (Hop _ _ _ Hi). case_decide; eauto.
Qed.

Lemma open_file_wf i fh flags μ :
  mount_wf μ → is_Some (m_data μ !! i) → new_handle fh μ → mount_wf (open_file i fh flags μ).
Proof.
  intros Hwf Hi [Hfh Hnh]. unfold open_file.
  assert (mount_wf (if has_flag flags O_TRUNC then with_data μ (<[i:=[]]> (m_data μ)) else μ)
    ∧ is_Some (m_data (if has_flag flags O_TRUNC then with_data μ (<[i:=[]]> (m_data μ)) else μ) !! i)
    ∧ m_open (if has_flag flags O_TRUNC then with_data μ (<[i:=[]]> (m_data μ)) else μ) = m_open μ)
    as ([Ht Hb Ho Hobj Hl Hf Hop]&Hi'&He).
  { destruct (has_flag flags O_TRUNC); [|done]. split_and!; [by apply set_data_wf| |done].
    simpl. rewrite lookup_insert_eq. eauto. }
  split; simpl; try done. intros fh' i' fl. rewrite lookup_insert.
  case_decide; [intros [= <- <-]; by subst|]. rewrite <-He. apply Hop.
Qed.

Lemma opened_wf oid flags μ fh μ' :
  mount_wf μ → was_given oid (m_tree μ) → opened oid flags μ fh μ' → mount_wf μ'.
Proof.
  intros Hwf Hg [fh' i Hi Hnh|fh' i Hi Hfl Hnew Hnh].
  - apply open_file_wf; [done| |done]. by apply (mw_objects _ Hwf) in Hi as [_ ?].
  - by apply make_file_wf.
Qed.

Lemma wrote_wf fh buf off μ k μ' : mount_wf μ → wrote fh buf off μ k μ' → mount_wf μ'.
Proof. intros Hwf [i fl data k' Hh Hi Hk]. by apply set_data_wf. Qed.

Lemma wrote_all_wf fh off total bufs μ r μ' : mount_wf μ → wrote_all fh off total bufs μ r μ' → mount_wf μ'.
Proof. intros Hwf. induction 1; [done..|]. apply IHwrote_all. by eapply wrote_wf. Qed.

Lemma close_wf fh μ : mount_wf μ → mount_wf (with_open μ (delete fh (m_open μ))).
Proof.
  intros [Ht Hb Ho Hobj Hl Hf Hop]. split; simpl; try done.
  intros fh' i fl [_ Hi]%lookup_delete_Some. by eapply Hop.
Qed.

Lemma forget_wf oid μ : mount_wf μ → mount_wf (forget oid μ).
Proof.
  intros [Ht Hb Ho Hobj Hl Hf Hop]. split; simpl; try done.
  - intros oid' i [_ Hi]%lookup_delete_Some. by apply Hobj.
  - intros oid' target [_ Hi]%lookup_delete_Some. by eapply Hl.
  - intros oid' oid'' i [_ Hi]%lookup_delete_Some [_ Hi']%lookup_delete_Some. by eapply Hf.
Qed.

Lemma link_wf oid target μ :
  mount_wf μ → was_given oid (m_tree μ) → mount_wf (with_links μ (<[oid:=target]> (m_links μ))).
Proof.
  intros [Ht Hb Ho Hobj Hl Hf Hop] Hg. split; simpl; try done.
  intros oid' target'. rewrite lookup_insert. case_decide; [intros; by subst|]. apply Hl.
Qed.

(** A file that is not a directory is kept under an id given to its path. *)
Lemma file_given μ p m :
  mount_wf μ → fs_nodes (m_tree μ) !! p = Some m → is_dir m = false → was_given (md_object_id m) (m_tree μ).
Proof. intros Hwf Hm Hf. exists p. by apply (tw_given _ (mw_tree _ Hwf)). Qed.

(** Every answer keeps the specification well formed. *)
Lemma create_step_wf t μ p mode uid gid oid fs' :
  mount_wf μ → op_ok (FCreate p mode uid gid) (m_tree μ) →
  id_ok owner (FCreate p mode uid gid) oid (m_tree μ) →
  fs_exec t oid (FCreate p mode uid gid) (m_tree μ) = (AnId OK (Some oid), fs') →
  mount_wf (with_tree μ fs') ∧ was_given oid fs'.
Proof.
  intros Hwf Hok Hid He. split; [by eapply same_tree_wf|].
  apply new_file_given in He as (_&_&?). by exists p.
Qed.

Lemma unlink_step_wf t μ p a fs' :
  mount_wf μ → op_ok (FUnlink p) (m_tree μ) → fs_exec t 0 (FUnlink p) (m_tree μ) = (a, fs') →
  mount_wf (with_tree μ fs').
Proof. intros Hwf Hok He. by eapply (same_tree_wf t 0 (FUnlink p)). Qed.

Lemma mount_step_wf t op μ reply μ' :
  mount_wf μ → mount_ok ctx op μ → mount_step owner ctx t op μ reply μ' → mount_wf μ'.
Proof.
  intros Hwf Hok Hstep. inversion Hstep; subst; clear Hstep; try done.
  - eapply same_tree_wf; [done|done| |done]. destruct op; simpl in *; try done; by apply Hok.
  - by eapply create_step_wf; [|apply Hok| |].
  - destruct (create_step_wf t μ p mode (proc_uid ctx) (proc_gid ctx) oid fs') as [??]; [done|by apply Hok|done..|].
    by apply make_file_wf.
  - destruct Hok as [(m'&Hm'&Hf) _]. simplify_eq. eapply opened_wf; [done| |done]. by eapply file_given.
  - by apply close_wf.
  - by eapply wrote_wf.
  - by eapply wrote_all_wf.
  - by eapply unlink_step_wf.
  - by eapply forget_wf, unlink_step_wf.
  - eapply create_step_wf; [done|by apply Hok| |]; simplify_eq/=; done.
  - simplify_eq/=. destruct (create_step_wf t μ p _ _ _ oid fs' Hwf (Hok _ eq_refl)) as [??]; [done..|].
    by apply (link_wf oid target (with_tree μ fs')).
Qed.
End wf.
