(* ===== verification/LocalFiles.v ===== *)
(** * The local files behind a mount

    The half of a mounted file system that stays on the client's machine: the
    files and links an object store keeps under the ids of the tree, their
    bytes, and the open handles.  Each call of the storage manager and of the
    file objects keeps [local], which says that they are those of a [Mount]. *)

From S2P Require Import Prelude CxxString Platform Posix PathUtil ThriftUtils KVStore RangeIndex IndexManager.
From S2P Require Import PartitionManager IndexNamespace Namespace FileSystem MasterController Restart.
From S2P Require Import ServerMap ComplexQuery Client ClientIndex Storage Fuse Cluster ClusterFiles MountSpec.
From Stdlib Require Import Ascii Strings.Byte.

Section local.
Context {R W OS : Type} `{!ClusterRpc W, !ConsistentHashMap R NodeInfo}.
Context `{!MD5, !BoostFilesystem, !BoostFilesystemSpec, !VoblaStatus, !VoblaStatusSpec}.
Context `{!Posix OS, !PosixSpec OS}.
Context (c : VSFSRpcClient R) (sm : ObjectStorageManager) (Hsm : object_valid sm).

Abbreviation St := (State AnyStorageManager R W OS).
Abbreviation F := (fuse St).
Abbreviation view s := (os_view (system s)).
Abbreviation loc := (object_location sm).
Implicit Types (s : St) (μ : Mount).

(** The store keeps under the place of each object id what the specification
    says, and the table has the handles of the specification. *)
Record local s μ : Prop := {
  lc_client : client_ (vsfs s) = c;
  lc_store : storage_manager_ (vsfs s) = UseObject sm;
  lc_table : table_ok s;
  lc_place oid : entry_of (view s) (loc oid);
  lc_objects oid : os_files (view s) !! loc oid = m_objects μ !! oid;
  lc_links oid : os_links (view s) !! loc oid = m_links μ !! oid;
  lc_data : os_data (view s) = m_data μ;
  lc_open fh :
    m_open μ !! fh = match fh_to_obj_map_ (vsfs s) !! fh with
                     | Some _ => os_fds (view s) !! fh | None => None end;
}.

Definition with_system s os : St := {| vsfs := vsfs s; world := world s; system := os |}.
Definition with_world s w : St := {| vsfs := vsfs s; world := w; system := system s |}.

Lemma local_world s μ w fs : local s μ → local (with_world s w) (with_tree μ fs).
Proof. by intros []. Qed.

(** A system call that changes nothing the specification sees. *)
Lemma local_same s μ os : local s μ → os_view os = view s → local (with_system s os) μ.
Proof.
  intros [Hc Hs [Hv Ht] Hp Ho Hl Hd Hh] E.
  split; simpl; rewrite ?E; try done. split; [done|]. simpl. by rewrite E.
Qed.

Lemma local_plain s μ oid : local s μ → m_links μ !! oid = None → plain_at (view s) (loc oid).
Proof. intros Hs Hl. split; [by apply (lc_place _ _ Hs)|]. by rewrite (lc_links _ _ Hs). Qed.

Lemma local_handle s μ fh i fl :
  local s μ → m_open μ !! fh = Some (i, fl) →
  fh_to_obj_map_ (vsfs s) !! fh = Some (new_file fh) ∧ (0 ≤ fh < 2 ^ 31)%Z ∧
  os_fds (view s) !! fh = Some (i, fl).
Proof.
  intros Hs Hh. rewrite (lc_open _ _ Hs) in Hh.
  destruct (fh_to_obj_map_ (vsfs s) !! fh) as [f|] eqn:Hf; [|done].
  by destruct (proj2 (lc_table _ _ Hs) fh f Hf) as (->&?&_).
Qed.

Lemma local_closed s μ fh :
  local s μ → m_open μ !! fh = None → fh_to_obj_map_ (vsfs s) !! fh = None.
Proof.
  intros Hs Hh. rewrite (lc_open _ _ Hs) in Hh.
  destruct (fh_to_obj_map_ (vsfs s) !! fh) as [f|] eqn:Hf; [|done].
  destruct (proj2 (lc_table _ _ Hs) fh f Hf) as (_&_&[x Hx]). congruence.
Qed.

(** *** Calls of the storage manager *)

Lemma system_error_negative e : (0 < e)%Z → local_error (error_of (SystemError e)).
Proof. unfold local_error. simpl. rewrite system_error_code_spec. lia. Qed.

(** The error of a call that changed nothing. *)
Lemma status_of_error {A} (call : OS → sysret A * OS) s μ e os :
  local s μ → sets_errno call → call (system s) = (Errno e, os) → os_view os = view s →
  local_error (error_of (SystemError e)) ∧ local (with_system s os) μ.
Proof. intros Hs He Hc Hv. split; [|by apply local_same]. eapply system_error_negative, He, Hc. Qed.

Lemma local_unlink s μ p oid :
  local s μ →
  ∃ st os, storage (λ m os, sm_unlink m p oid os) s = ends (st, with_system s os) ∧
    ((st = OK ∧ local (with_system s os) (forget oid μ)) ∨
     (local_error (error_of st) ∧ local (with_system s os) μ)).
Proof.
  intros Hs. unfold storage. rewrite (lc_store _ _ Hs), sm_unlink_spec by done. simpl.
  destruct (sys_unlink (loc oid) (system s)) as [[[]|e] os] eqn:Hu; simpl; eexists _, os; (split; [done|]).
  2:{ right. eapply status_of_error; [done|apply sys_unlink_errno|exact Hu|]. by eapply sys_unlink_error. }
  left. split; [done|]. pose proof (sys_unlink_spec _ _ _ (lc_place _ _ Hs oid) Hu) as Hv.
  destruct Hs as [Hc Hst [Hv0 Ht] Hp Ho Hl Hd Hh].
  split; simpl; rewrite ?Hv; simpl; try done.
  - split; [done|]. simpl. by rewrite Hv.
  - intros oid'. rewrite !lookup_delete. specialize (Ho oid').
    destruct (decide (oid = oid')) as [->|Hne]; [by rewrite decide_True|].
    rewrite decide_False; [done|]. intros E. apply Hne. by apply (object_location_inj sm).
  - intros oid'. rewrite !lookup_delete. specialize (Hl oid').
    destruct (decide (oid = oid')) as [->|Hne]; [by rewrite decide_True|].
    rewrite decide_False; [done|]. intros E. apply Hne. by apply (object_location_inj sm).
Qed.

Lemma local_symlink s μ target p oid :
  local s μ →
  ∃ st os, storage (λ m os, sm_symlink m target p oid os) s = ends (st, with_system s os) ∧
    ((st = OK ∧ m_links μ !! oid = None ∧
      local (with_system s os) (with_links μ (<[oid:=target]> (m_links μ)))) ∨
     (local_error (error_of st) ∧ local (with_system s os) μ)).
Proof.
  intros Hs. unfold storage. rewrite (lc_store _ _ Hs), sm_symlink_spec by done. simpl.
  destruct (sys_symlink target (loc oid) (system s)) as [[[]|e] os] eqn:Hu; simpl; eexists _, os; (split; [done|]).
  2:{ right. eapply status_of_error; [done|apply sys_symlink_errno|exact Hu|]. by eapply sys_symlink_error. }
  left. split; [done|]. destruct (sys_symlink_spec _ _ _ _ (lc_place _ _ Hs oid) Hu) as (Hnl&_&Hv).
  rewrite (lc_links _ _ Hs) in Hnl. split; [done|].
  destruct Hs as [Hc Hst [Hv0 Ht] Hp Ho Hl Hd Hh].
  split; simpl; rewrite ?Hv; simpl; try done.
  - split; [done|]. simpl. by rewrite Hv.
  - intros oid'. rewrite !lookup_insert. specialize (Hl oid').
    destruct (decide (oid = oid')) as [->|Hne]; [by rewrite decide_True|].
    rewrite decide_False; [done|]. intros E. apply Hne. by apply (object_location_inj sm).
Qed.

Lemma local_getattr s μ p oid :
  local s μ → m_links μ !! oid = None →
  ∃ st buf os, storage (λ m os, sm_getattr m p oid os) s = ends (st, buf, with_system s os) ∧
    local (with_system s os) μ ∧
    match buf with
    | Some buf => st = OK ∧ ∃ i data, m_objects μ !! oid = Some i ∧ m_data μ !! i = Some data ∧
        st_size buf = Z.of_nat (length data)
    | None => local_error (error_of st)
    end.
Proof.
  intros Hs Hl. unfold storage. rewrite (lc_store _ _ Hs), sm_getattr_spec by done. simpl.
  pose proof (sys_stat_reads (loc oid) (system s)) as Hv.
  destruct (sys_stat (loc oid) (system s)) as [[buf|e] os] eqn:Hu; simpl in *; eexists _, _, os; (split; [done|]).
  - split; [by apply local_same|]. split; [done|].
    destruct (sys_stat_spec _ _ _ _ (local_plain _ _ _ Hs Hl) Hu) as (i&data&Hi&Hd&?).
    rewrite (lc_objects _ _ Hs) in Hi. rewrite (lc_data _ _ Hs) in Hd. by exists i, data.
  - apply and_comm. eapply status_of_error; [done|apply sys_stat_errno|exact Hu|done].
Qed.

Lemma local_readlink s μ p oid size :
  local s μ → (0 ≤ size)%Z →
  ∃ st t os, storage (λ m os, sm_readlink m p oid size os) s = ends (st, t, with_system s os) ∧
    local (with_system s os) μ ∧
    ((st = OK ∧ ∃ target, m_links μ !! oid = Some target ∧ t = str_take (Z.to_nat size) target) ∨
     local_error (error_of st) ∧ ok st = false).
Proof.
  intros Hs Hsize. unfold storage. rewrite (lc_store _ _ Hs), sm_readlink_spec by done. simpl.
  pose proof (sys_readlink_reads (loc oid) size (system s)) as Hv. unfold readlink_at.
  destruct (sys_readlink (loc oid) size (system s)) as [[t|e] os] eqn:Hu; simpl in *; eexists _, _, os;
    (split; [done|]); (split; [by apply local_same|]).
  - left. split; [done|]. destruct (sys_readlink_spec _ _ _ _ _ Hsize (lc_place _ _ Hs oid) Hu) as (_&target&Ht&->).
    rewrite (lc_links _ _ Hs) in Ht. by exists target.
  - right. split; [|done]. by eapply system_error_negative, sys_readlink_errno.
Qed.

(** *** Opening and closing *)

(** The second half of [vsfs_create] and [vsfs_open]. *)
Definition open_add (path : string) (oid flags : Z) (mode : option Z) : F (Z * option Z) :=
  '(status, file) ← storage (λ m os, sm_open m path oid flags mode os);
  match file with
  | Some file =>
      if negb (ok status) then mret (error_of status, None) else
      _ ← add_file (file_fd file) file;
      mret (0%Z, Some (wrap_uint64 (file_fd file)))
  | None => mret (error_of status, None)
  end.

Lemma local_opened s μ oid flags fd os table :
  local s μ → m_links μ !! oid = None →
  sys_open (loc oid) flags table (system s) = (Ret fd, os) →
  ∃ μ', opened oid flags μ fd μ' ∧
    local {| vsfs := set_table (vsfs s) (<[fd:=new_file fd]> (fh_to_obj_map_ (vsfs s)));
             world := world s; system := os |} μ'.
Proof.
  intros Hs Hl Ho. destruct (sys_open_fds _ _ _ _ _ _ Ho) as (Hfd&Hnew&_).
  assert (fh_to_obj_map_ (vsfs s) !! fd = None) as Hnone.
  { destruct (fh_to_obj_map_ (vsfs s) !! fd) as [f|] eqn:Hf; [|done].
    destruct (proj2 (lc_table _ _ Hs) fd f Hf) as (_&_&[x Hx]). congruence. }
  assert (new_handle fd μ) as Hh by (split; [done|]; by rewrite (lc_open _ _ Hs), Hnone).
  destruct (sys_open_spec _ _ _ _ _ _ (local_plain _ _ _ Hs Hl) Ho)
    as [(i&Hi&Hv)|(Hi&Hc&i&(U1&U2&U3)&Hv)]; rewrite (lc_objects _ _ Hs) in Hi.
  - exists (open_file i fd flags μ). split; [by apply opened_old|].
    destruct Hs as [Hcl Hst [Hv0 Ht] Hp Hob Hli Hd Hop]. unfold open_file.
    split; simpl; rewrite ?Hv; try done.
    + split; [done|]. simpl. rewrite Hv. simpl. intros fd' f. rewrite !lookup_insert.
      case_decide; [intros [= <-]; subst; by eauto|apply Ht].
    + intros oid'. by destruct (has_flag flags O_TRUNC); apply Hp.
    + intros oid'. by destruct (has_flag flags O_TRUNC); apply Hob.
    + intros oid'. by destruct (has_flag flags O_TRUNC); apply Hli.
    + destruct (has_flag flags O_TRUNC); simpl; by rewrite Hd.
    + intros fh. replace (m_open (if has_flag flags O_TRUNC then _ else _)) with (m_open μ)
        by by destruct (has_flag flags O_TRUNC).
      simpl. rewrite !lookup_insert. case_decide; [done|apply Hop].
  - assert (new_local i μ) as Hli.
    { split_and!; [by rewrite <-(lc_data _ _ Hs)|intros oid'; rewrite <-(lc_objects _ _ Hs); apply U2|].
      intros fh fl Hfh. eapply U3, local_handle; [exact Hs|exact Hfh]. }
    exists (make_file oid i fd flags μ). split; [by apply opened_new|].
    destruct Hs as [Hcl Hst [Hv0 Ht] Hp Hob Hlk Hd Hop].
    split; simpl; rewrite ?Hv; simpl; try done.
    + split; [done|]. simpl. rewrite Hv. simpl. intros fd' f. rewrite !lookup_insert.
      case_decide; [intros [= <-]; subst; by eauto|apply Ht].
    + intros oid'. rewrite !lookup_insert. specialize (Hob oid').
      destruct (decide (oid = oid')) as [->|Hne]; [by rewrite decide_True|].
      rewrite decide_False; [done|]. intros E. apply Hne. by apply (object_location_inj sm).
    + by rewrite Hd.
    + intros fh. rewrite !lookup_insert. case_decide; [done|apply Hop].
Qed.

Lemma local_open s μ path oid flags mode :
  local s μ → m_links μ !! oid = None →
  ∃ r fh s', open_add path oid flags mode s = ends ((r, fh), s') ∧ world s' = world s ∧
    ((fh = None ∧ local_error r ∧ local s' μ) ∨
     ∃ h μ', fh = Some h ∧ r = 0%Z ∧ opened oid flags μ h μ' ∧ local s' μ').
Proof.
  intros Hs Hl. unfold open_add, storage, add_file, instance, put_table, mbind, fuse_bind.
  rewrite (lc_store _ _ Hs), sm_open_spec by done. simpl. unfold open_at.
  destruct (sys_open (loc oid) flags mode (system s)) as [[fd|e] os] eqn:Ho; simpl.
  - destruct (local_opened _ _ _ _ _ _ _ Hs Hl Ho) as (μ'&Hopened&Hs').
    destruct (sys_open_fds _ _ _ _ _ _ Ho) as (Hfd&Hnew&_).
    assert (wrap_uint64 fd = fd) as Hw by (apply Z.mod_small; lia).
    change (file_fd (new_file fd)) with fd. rewrite Hw.
    replace (fh_to_obj_map_ (vsfs s) !! fd) with (@None File).
    2:{ symmetry. destruct (fh_to_obj_map_ (vsfs s) !! fd) as [f|] eqn:Hf; [|done].
        destruct (proj2 (lc_table _ _ Hs) fd f Hf) as (_&_&[x Hx]). congruence. }
    simpl. eexists _, _, _. split; [done|]. split; [done|]. right. by exists fd, μ'.
  - eexists _, _, _. split; [done|]. split; [done|]. left. split; [done|].
    eapply status_of_error; [done|apply sys_open_errno|exact Ho|]. by eapply sys_open_error.
Qed.

(** Only descriptors change, and those of the table keep their files. *)
Lemma local_fds s μ os table fds open :
  local s μ → os_view os = set_fds fds (view s) →
  table_ok {| vsfs := set_table (vsfs s) table; world := world s; system := os |} →
  (∀ fh, open !! fh = match table !! fh with Some _ => fds !! fh | None => None end) →
  local {| vsfs := set_table (vsfs s) table; world := world s; system := os |} (with_open μ open).
Proof.
  intros [Hc Hst Ht Hp Ho Hl Hd Hh] Hv Ht' Hopen.
  split; simpl; rewrite ?Hv; simpl; try done.
Qed.

Lemma close_status f os st f' os' : file_close f os = (st, f', os') → (error_of st ≤ 0)%Z.
Proof.
  unfold file_close, handler_close. destruct (file_handler_ f) as [h|]; [|by intros [= <- _ _]].
  destruct (sys_close (fd_ h) os) as [[[]|e] os1] eqn:Hc; simpl; intros [= <- _ _]; [done|].
  pose proof (system_error_negative e (sys_close_errno _ _ _ _ Hc)). unfold local_error in *. lia.
Qed.

Lemma local_release s μ fh :
  local s μ → is_Some (m_open μ !! fh) →
  ∃ r s', vsfs_release fh s = ends (r, s') ∧ world s' = world s ∧ (r ≤ 0)%Z ∧
    local s' (with_open μ (delete fh (m_open μ))).
Proof.
  intros Hs [[i fl] Hh]. destruct (local_handle _ _ _ _ _ Hs Hh) as (Hf&_&_).
  pose proof (keeps_vsfs_release fh s) as Hk.
  unfold vsfs_release, close_file, instance, sys, put_table, mbind, fuse_bind in *. simpl in *.
  rewrite Hf in *. destruct (file_close (new_file fh) (system s)) as [[st f'] os1] eqn:Hc. simpl in *.
  eexists _, _. split; [done|]. split; [done|]. split; [by eapply close_status|].
  specialize (Hk _ _ (lc_table _ _ Hs) eq_refl).
  assert (only_fds (system s) (file_destroy f' os1)) as [fds Hv].
  { destruct (file_close_only _ _ _ _ _ Hc) as [f1 E1]. destruct (file_destroy_only f' os1) as [f2 E2].
    exists f2. by rewrite E2, E1. }
  apply (local_fds _ _ _ (delete fh (fh_to_obj_map_ (vsfs s))) fds); [done|done|exact Hk|].
  intros fh'. rewrite !lookup_delete. case_decide as Hne; [done|]. rewrite (lc_open _ _ Hs).
  destruct (fh_to_obj_map_ (vsfs s) !! fh'); [|done].
  destruct (file_close_other _ fh' _ _ _ _ Hc (not_eq_sym Hne)) as [Hf' <-].
  rewrite <-(file_destroy_other fh fh' f' os1 Hf' (not_eq_sym Hne)). by rewrite Hv.
Qed.

(** *** Reading and writing *)

Lemma wrap_int32_small z : (0 ≤ z < 2 ^ 31)%Z → wrap_int32 z = z.
Proof. intros. unfold wrap_int32. rewrite Z.mod_small; lia. Qed.

Lemma local_set_data s μ os d :
  local s μ → os_view os = set_data d (view s) → local (with_system s os) (with_data μ d).
Proof.
  intros [Hc Hst [Hv0 Ht] Hp Ho Hl Hd Hh] Hv. split; simpl; rewrite ?Hv; try done.
  split; [done|]. simpl. by rewrite Hv.
Qed.

Lemma local_read s μ fh size off :
  local s μ → (0 ≤ size < 2 ^ 31)%Z → (0 ≤ off)%Z →
  ∃ r bs s', vsfs_read fh size off s = ends ((r, bs), s') ∧ world s' = world s ∧ local s' μ ∧
    match m_open μ !! fh with
    | None => r = (- EBADF)%Z ∧ bs = []
    | Some (i, _) =>
        (local_error r ∧ bs = []) ∨
        (r = Z.of_nat (length bs) ∧ ∃ data, m_data μ !! i = Some data ∧
          bs `prefix_of` take (Z.to_nat size) (drop (Z.to_nat off) data) ∧
          (bs = [] → take (Z.to_nat size) (drop (Z.to_nat off) data) = []))
    end.
Proof.
  intros Hs Hsize Hoff. unfold vsfs_read, get_file, instance, sys, mbind, fuse_bind. simpl.
  destruct (m_open μ !! fh) as [[i fl]|] eqn:Hh.
  2:{ rewrite (local_closed _ _ _ Hs Hh). simpl. eexists _, _, s. by split_and!. }
  destruct (local_handle _ _ _ _ _ Hs Hh) as (->&Hfh&Hfd). simpl. rewrite wrap_int32_small by done.
  destruct (sys_pread fh size off (system s)) as [[bs|e] os] eqn:Hp; simpl; eexists _, _, _;
    (split; [done|]); (split; [done|]).
  - destruct (sys_pread_spec _ _ _ _ _ _ (proj1 Hsize) Hoff Hp) as (Hv&i'&fl'&data&Hfd'&Hd&Hpre&Hnil).
    split; [by apply local_same|]. right. rewrite Hfd in Hfd'. injection Hfd' as <- <-.
    rewrite (lc_data _ _ Hs) in Hd. split; [|by exists data]. apply wrap_int32_small.
    pose proof (prefix_length _ _ Hpre) as Hlen. rewrite length_take in Hlen. lia.
  - destruct (sys_pread_error _ _ _ _ _ _ Hp) as [He Hv]. split; [by apply local_same|].
    left. split; [unfold local_error; lia|done].
Qed.

(** One write of a file on an open handle. *)
Lemma local_pwrite s μ fh i fl buf off :
  local s μ → m_open μ !! fh = Some (i, fl) → (0 ≤ off)%Z →
  ∃ res os, file_write (new_file fh) buf off (system s) = (Some res, os) ∧
    match res with
    | Ret k => ∃ μ', wrote fh buf off μ k μ' ∧ local (with_system s os) μ' ∧
                 (0 ≤ k ≤ Z.of_nat (length buf))%Z
    | Errno e => (0 < e)%Z ∧ local (with_system s os) μ
    end.
Proof.
  intros Hs Hh Hoff. destruct (local_handle _ _ _ _ _ Hs Hh) as (_&Hfh&Hfd).
  unfold file_write, handler_write. simpl.
  destruct (sys_pwrite fh buf off (system s)) as [[k|e] os] eqn:Hp; eexists _, os; (split; [done|]).
  - destruct (sys_pwrite_spec _ _ _ _ _ _ Hoff Hp) as (Hk&i'&fl'&data&Hfd'&Hd&Hv).
    rewrite Hfd in Hfd'. injection Hfd' as <- <-. rewrite (lc_data _ _ Hs) in Hd, Hv.
    eexists. split; [by eapply wrote_some|]. split; [by apply local_set_data|done].
  - destruct (sys_pwrite_error _ _ _ _ _ _ Hp) as [He Hv]. split; [done|by apply local_same].
Qed.

Lemma local_write s μ fh buf off :
  local s μ → (Z.of_nat (length buf) < 2 ^ 31)%Z → (0 ≤ off)%Z →
  ∃ r s' μ', vsfs_write fh buf off s = ends (r, s') ∧ world s' = world s ∧ local s' μ' ∧
    ((m_open μ !! fh = None ∧ r = (- EBADF)%Z ∧ μ' = μ) ∨ (local_error r ∧ μ' = μ) ∨
     wrote fh buf off μ r μ').
Proof.
  intros Hs Hlen Hoff. unfold vsfs_write, get_file, instance, sys, get_errno, mbind, fuse_bind. simpl.
  destruct (m_open μ !! fh) as [[i fl]|] eqn:Hh.
  2:{ rewrite (local_closed _ _ _ Hs Hh). simpl. eexists _, s, μ. split_and!; auto. }
  destruct (local_handle _ _ _ _ _ Hs Hh) as (->&_&_). simpl.
  destruct (local_pwrite _ _ _ _ _ buf off Hs Hh Hoff) as ([k|e]&os&->&Hres); simpl.
  - destruct Hres as (μ'&Hw&Hs'&Hk). eexists _, _, μ'. split_and!; [done..|].
    right. right. by rewrite wrap_int32_small by lia.
  - destruct Hres as [He Hs']. eexists _, _, μ. split_and!; [done..|]. right. left.
    split; [unfold local_error; lia|done].
Qed.

Lemma wrote_open fh buf off μ k μ' : wrote fh buf off μ k μ' → m_open μ' = m_open μ.
Proof. by intros [i fl data k' ? ? ?]. Qed.

Lemma local_fragments s μ fh i fl bufs off total :
  local s μ → m_open μ !! fh = Some (i, fl) → (0 ≤ off)%Z →
  ∃ r s' μ', write_fragments (new_file fh) bufs off total s = ends (r, s') ∧ world s' = world s ∧
    local s' μ' ∧ wrote_all fh off total bufs μ r μ'.
Proof.
  intros Hs Hh Hoff. revert s μ total Hs Hh. induction bufs as [|buf bufs IH]; intros s μ total Hs Hh; simpl.
  { eexists _, s, μ. split_and!; [done..|]. constructor. }
  unfold sys, mbind, fuse_bind. simpl.
  destruct (local_pwrite _ _ _ _ _ buf off Hs Hh Hoff) as ([k|e]&os&->&Hres); simpl.
  - destruct Hres as (μ1&Hw&Hs1&_).
    destruct (IH _ _ (total + k)%Z Hs1) as (r&s'&μ'&Hrun&Hworld&Hs'&Hall); [by rewrite (wrote_open _ _ _ _ _ _ Hw)|].
    exists r, s', μ'. split_and!; [exact Hrun|exact Hworld|done|by eapply wrote_more].
  - destruct Hres as [He Hs']. eexists _, _, μ. split_and!; [done..|]. constructor. unfold local_error. lia.
Qed.

Lemma local_write_buf s μ fh bufs off :
  local s μ → (0 ≤ off)%Z →
  ∃ r s' μ', vsfs_write_buf fh bufs off s = ends (r, s') ∧ world s' = world s ∧ local s' μ' ∧
    ((m_open μ !! fh = None ∧ r = (- EINVAL)%Z ∧ μ' = μ) ∨
     (is_Some (m_open μ !! fh) ∧ wrote_all fh off 0 bufs μ r μ')).
Proof.
  intros Hs Hoff. unfold vsfs_write_buf, get_file, instance, mbind, fuse_bind. simpl.
  destruct (m_open μ !! fh) as [[i fl]|] eqn:Hh.
  2:{ rewrite (local_closed _ _ _ Hs Hh). simpl. eexists _, s, μ. split_and!; auto. }
  destruct (local_handle _ _ _ _ _ Hs Hh) as (->&_&_). simpl.
  destruct (local_fragments _ _ _ _ _ bufs off 0 Hs Hh Hoff) as (r&s'&μ'&?&?&?&?).
  exists r, s', μ'. split_and!; [done..|]. right. split; [by eexists|done].
Qed.

(** *** Calls that are passed on *)

Lemma local_on_descriptor s μ (call : Z → OS → sysret () * OS) fh :
  local s μ → (∀ fd, reads_only os_view (call fd)) → (∀ fd, sets_errno (call fd)) →
  ∃ r s', on_descriptor call fh s = ends (r, s') ∧ world s' = world s ∧ (r ≤ 0)%Z ∧ local s' μ.
Proof.
  intros Hs Hv He. unfold on_descriptor, sys, mbind, fuse_bind. simpl.
  specialize (Hv (wrap_int32 fh) (system s)). specialize (He (wrap_int32 fh) (system s)).
  destruct (call (wrap_int32 fh) (system s)) as [[[]|e] os]; simpl in *; eexists _, _;
    (split_and!; [done|done| |by apply local_same]); [done|].
  specialize (He e os eq_refl). lia.
Qed.

Lemma local_fgetattr s μ fh i fl stbuf :
  local s μ → m_open μ !! fh = Some (i, fl) →
  ∃ r st s', vsfs_fgetattr fh stbuf s = ends ((r, st), s') ∧ world s' = world s ∧ local s' μ ∧
    ((local_error r ∧ st = stbuf) ∨
     (r = 0%Z ∧ ∃ data, m_data μ !! i = Some data ∧ st_size st = Z.of_nat (length data))).
Proof.
  intros Hs Hh. destruct (local_handle _ _ _ _ _ Hs Hh) as (_&Hfh&Hfd).
  unfold vsfs_fgetattr, sys, mbind, fuse_bind. simpl. rewrite wrap_int32_small by done.
  pose proof (sys_fstat_reads fh (system s)) as Hv.
  destruct (sys_fstat fh (system s)) as [[st|e] os] eqn:Hst; simpl in *; eexists _, _, _;
    (split_and!; [done|done|by apply local_same|]).
  - right. split; [done|]. destruct (sys_fstat_spec _ _ _ _ Hst) as (i'&fl'&data&Hfd'&Hd&Hsz).
    rewrite Hfd in Hfd'. injection Hfd' as <- <-. rewrite (lc_data _ _ Hs) in Hd. by exists data.
  - left. split; [|done]. apply sys_fstat_errno in Hst. unfold local_error. lia.
Qed.

Lemma local_statfs s μ :
  local s μ →
  ∃ r st s', vsfs_statfs s = ends ((r, st), s') ∧ world s' = world s ∧ local s' μ ∧ (r ≤ 0)%Z.
Proof.
  intros Hs. unfold vsfs_statfs, storage, mbind, fuse_bind. simpl. rewrite (lc_store _ _ Hs).
  unfold object_statfs, value_of. pose proof (sys_statvfs_reads (base_path_ sm) (system s)) as Hv.
  destruct (sys_statvfs (base_path_ sm) (system s)) as [[st|e] os] eqn:Hst; simpl in *; eexists _, _, _;
    (split_and!; [done|done|by apply local_same|]); [done|].
  rewrite system_error_code_spec. apply sys_statvfs_errno in Hst. lia.
Qed.

(** [close(dup(fh))]: the duplicate is not in the table. *)
Lemma local_flush s μ fh :
  local s μ → ∃ r s', vsfs_flush fh s = ends (r, s') ∧ world s' = world s ∧ (r ≤ 0)%Z ∧ local s' μ.
Proof.
  intros Hs. pose proof (keeps_flush fh s) as Hk.
  unfold vsfs_flush, sys, mbind, fuse_bind in *. simpl in *.
  destruct (sys_dup (wrap_int32 fh) (system s)) as [d os1] eqn:Hd. simpl in *.
  destruct (sys_close _ os1) as [res os2] eqn:Hc. simpl in *.
  assert (∃ fds, os_view os2 = set_fds fds (view s) ∧
    ∀ fd x, fh_to_obj_map_ (vsfs s) !! fd = Some x → fds !! fd = os_fds (view s) !! fd) as (fds&Hv&Hfds).
  { assert (∃ fds1, os_view os1 = set_fds fds1 (view s) ∧
      fds1 = match d with Ret fd' => <[fd':=default (0,0)%Z (fds1 !! fd')]> (os_fds (view s)) 
                        | Errno _ => os_fds (view s) end ∧
      match d with Ret fd' => (0 ≤ fd')%Z ∧ os_fds (view s) !! fd' = None | _ => True end) as (fds1&Hv1&Hf1&Hd1).
    { destruct d as [fd'|e].
      - apply sys_dup_spec in Hd as (?&Hn&x&_&E). eexists. split; [exact E|].
        rewrite lookup_insert_eq. split; [done|]. split; [lia|done].
      - apply sys_dup_error in Hd as E. exists (os_fds (view s)). rewrite E. by destruct (view s). }
    assert (∀ g, g = fds1 ∨ g = delete (match d with Ret fd' => fd' | Errno _ => (-1)%Z end) fds1 →
      ∀ fd x, fh_to_obj_map_ (vsfs s) !! fd = Some x → g !! fd = os_fds (view s) !! fd) as Hg.
    { intros g Hg fd x Hx. destruct (proj2 (lc_table _ _ Hs) fd x Hx) as (_&Hfd&[y Hy]).
      assert (fds1 !! fd = os_fds (view s) !! fd) as <-.
      { rewrite Hf1. destruct d as [fd'|e]; [|done]. rewrite lookup_insert_ne; [done|].
        intros ->. destruct Hd1. congruence. }
      destruct Hg as [->| ->]; [done|]. apply lookup_delete_ne.
      destruct d as [fd'|e]; intros Heq; subst fd; [|lia]. destruct Hd1. congruence. }
    destruct res as [[]|e].
    - apply sys_close_spec in Hc as [_ E]. eexists. rewrite E, Hv1. split; [done|]. apply Hg. by right.
    - apply sys_close_error in Hc as [E|E]; eexists; rewrite E, Hv1; (split; [done|]); apply Hg; auto. }
  assert (local (with_system s os2) μ) as Hs'.
  { replace μ with (with_open μ (m_open μ)) by by destruct μ.
    replace (with_system s os2) with
      {| vsfs := set_table (vsfs s) (fh_to_obj_map_ (vsfs s)); world := world s; system := os2 |}
      by (unfold with_system; f_equal; by destruct (vsfs s)).
    apply (local_fds _ _ _ _ fds); [done|done| |].
    - destruct res; (eapply Hk; [apply (lc_table _ _ Hs)|]); unfold ends; do 4 f_equal; by destruct (vsfs s).
    - intros fh'. rewrite (lc_open _ _ Hs). destruct (fh_to_obj_map_ (vsfs s) !! fh') eqn:Hf; [|done].
      symmetry. by eapply Hfds. }
  destruct res as [[]|e]; eexists _, _; (split_and!; [done|done| |done]); [done|].
  apply sys_close_errno in Hc. lia.
Qed.
End local.
