(* ===== verification/Mounted.v ===== *)
(** * A mounted VSFS implements a file system

    The FUSE operations on a cluster of masters and an object store implement
    the specification of [MountSpec]: the simulation joins the one of
    [ClusterFiles], for the tree, with the local files the store keeps. *)

From S2P Require Import Prelude CxxString Platform Posix PathUtil ThriftUtils KVStore RangeIndex IndexManager.
From S2P Require Import PartitionManager IndexNamespace Namespace FileSystem MasterController Restart.
From S2P Require Import ServerMap ComplexQuery Client ClientIndex Storage Fuse Cluster ClusterFiles MountSpec LocalFiles.
From Stdlib Require Import Ascii Strings.Byte.

(** ** Programs on the FUSE layer *)

Section perform.
Context {M S P R I OS : Type} `{!KeyValueStore S, !ConsistentHashMap P string, !ConsistentHashMap R NodeInfo}.
Context `{!RangeIndexInterface I, !VoblaStatus, !MD5, !BoostFilesystem, !LexicalCast Z}.
Context `{!ThriftCodec FileMetadata, !ThriftCodec IndexNamespaceNode, !ThriftCodec IndexConsistentHashRing}.
Context `{!Posix OS, !StorageManager M OS}.
Context (disk : S → S) (indeterminate : Z) (now : Z) (ctx : Context) (fuel : nat).

Abbreviation St := (State M R (Cluster S P R I) OS).
Abbreviation F := (fuse St).

Definition code (m : F Z) : F fuse_reply := r ← m; mret (Code r).

(** One callback, with everything it hands back. *)
Definition perform (op : fuse_op) : F fuse_reply :=
  match op with
  | Statfs => '(r, _) ← vsfs_statfs; mret (Code r)
  | Access path flag => code (vsfs_access path flag)
  | Getattr path stbuf => '(r, stbuf) ← vsfs_getattr path stbuf; mret (Attr r stbuf)
  | Fgetattr fh stbuf => '(r, stbuf) ← vsfs_fgetattr fh stbuf; mret (Attr r stbuf)
  | Ioctl fh cmd => code (vsfs_ioctl fh cmd)
  | Utimens path atime mtime => code (vsfs_utimens path atime mtime)
  | Chmod path mode => code (vsfs_chmod path mode)
  | Chown path uid gid => code (vsfs_chown path uid gid)
  | Truncate path offset => code (vsfs_truncate path offset)
  | Opendir path => code (vsfs_opendir path)
  | Releasedir path => code (vsfs_releasedir path)
  | Readdir junk path => '(r, filled) ← vsfs_readdir now junk path; mret (Names r filled)
  | Mkdir path mode => code (vsfs_mkdir ctx fuel path mode)
  | Mknod path mode => code (vsfs_mknod ctx fuel path mode)
  | Rmdir path => code (vsfs_rmdir fuel path)
  | Create path mode flags => '(r, fh) ← vsfs_create ctx fuel path mode flags; mret (Handle r fh)
  | Open path flags => '(r, fh) ← vsfs_open path flags; mret (Handle r fh)
  | Unlink path => code (vsfs_unlink fuel path)
  | Release fh => code (vsfs_release fh)
  | Readlink path size => '(r, buf) ← vsfs_readlink path size; mret (Link r buf)
  | Read fh size offset => '(r, bs) ← vsfs_read fh size offset; mret (Bytes r bs)
  | Write fh buf offset => code (vsfs_write fh buf offset)
  | WriteBuf fh bufs off => code (vsfs_write_buf fh bufs off)
  | Flush fh => code (vsfs_flush fh)
  | Flock fh op => code (vsfs_flock fh op)
  | Lock fh cmd => code (vsfs_lock fh cmd)
  | Fsync fh => code (vsfs_fsync fh)
  | Symlink fpath link_path => code (vsfs_symlink ctx fuel fpath link_path)
  | Getxattr path name => code (vsfs_getxattr path name)
  end.

(** The clock of the masters moves on between the calls. *)
Definition tick (t : double) : F () := λ s,
  ends ((), {| vsfs := vsfs s; world := at_time (world s) t; system := system s |}).

Definition crash_master (a : RpcNodeAddress) (self : NodeInfo) (jump : nat) (r1 r2 : Z) : F () := λ s,
  ends ((), {| vsfs := vsfs s; world := restart_at disk indeterminate a self jump r1 r2 (world s);
               system := system s |}).

Fixpoint run_program (prog : program) : F (list fuse_reply) :=
  match prog with
  | Stop => mret []
  | Do t op next =>
      _ ← tick t;
      reply ← perform op;
      replies ← run_program (next reply);
      mret (reply :: replies)
  | CrashMaster a self jump r1 r2 next => _ ← crash_master a self jump r1 r2; run_program next
  end.
End perform.

(** ** The simulation *)

Section simulation.
Context {S P R I OS : Type} `{!KeyValueStore S, !KeyValueStoreSpec S, !ConsistentHashMap P string}.
Context `{!ConsistentHashMapSpec P string}.
Context `{!ConsistentHashMap R NodeInfo, !ConsistentHashMapSpec R NodeInfo, !RangeIndexInterface I}.
Context `{!VoblaStatus, !VoblaStatusSpec, !MD5, !BoostFilesystem, !BoostFilesystemSpec, !LexicalCast Z}.
Context `{!ThriftCodec FileMetadata, !ThriftCodecSpec FileMetadata}.
Context `{!ThriftCodec IndexNamespaceNode, !ThriftCodecSpec IndexNamespaceNode}.
Context `{!ThriftCodec IndexConsistentHashRing, !ThriftCodecSpec IndexConsistentHashRing}.
Context `{!Posix OS, !PosixSpec OS}.
Context (Hrel : reliable S) (c : VSFSRpcClient R) (Hring : ch_view (master_map_ c) ≠ ∅) (rest : Rest I).
Context (sm : ObjectStorageManager) (Hsm : object_valid sm).
Context (disk : S → S) (Hdisk : durable disk) (indeterminate : Z).
Context (clock : Z) (ctx : Context) (fuel : nat) (Hfuel : 0 < fuel).
Context (Haligned : aligned (owner_of c)).

Abbreviation St := (State AnyStorageManager R (Cluster S P R I) OS).
Abbreviation step := (mount_step (owner_of c) ctx).
Abbreviation perform_ := (perform clock ctx fuel).
Implicit Types (s : St) (μ : Mount) (o : fs_op) (w : Cluster S P R I).

(** The masters, with room for [k] more files, and the store are those of [μ]. *)
Definition mounted (k : nat) s μ : Prop := sync c rest k (world s) (m_tree μ) ∧ local c sm s μ.

Definition refines (k : nat) (op : fuse_op) s μ : Prop :=
  ∃ reply s' μ', perform_ op s = ends (reply, s') ∧
    step (now (world s)) op μ reply μ' ∧ mounted k s' μ'.

Lemma mounted_less k s μ : mounted (Datatypes.S k) s μ → mounted k s μ.
Proof. intros [Hs Hl]. split; [|done]. eapply sync_le; [|exact Hs]. lia. Qed.

(** A call of the client in the contract. *)
Lemma tree_simulates k s μ o :
  mounted (Datatypes.S k) s μ → mount_wf μ → op_ok o (m_tree μ) →
  ∃ oid a fs' w', fs_exec (now (world s)) oid o (m_tree μ) = (a, fs') ∧
    run_op fuel c o (world s) = ends (a, w') ∧ id_ok (owner_of c) o oid (m_tree μ) ∧
    mounted k (with_world s w') (with_tree μ fs').
Proof.
  intros [Hs Hl] Hwf Hok.
  destruct (op_simulates (hidden := λ _, False) Hrel c Hring rest fuel k _ _ o Hfuel Hs (mw_tree _ Hwf) Hok (visible_all o))
    as (oid&w'&Hrun&Hid&Hs').
  eexists oid, _, _, w'. split; [apply surjective_pairing|]. split_and!; [done..|].
  split; [done|by apply local_world].
Qed.

(** The client's call behind an operation on the tree. *)
Lemma run_create p mode uid gid w st oid w' :
  run_op fuel c (FCreate p mode uid gid) w = ends (AnId st oid, w') →
  Client.create fuel c p mode uid gid w = ends (st, oid, w').
Proof. intros Hr. apply late_bind_ends in Hr as ([[st0 o0] w0]&->&He). by injection He as -> -> ->. Qed.
Lemma run_unlink p w st oid w' :
  run_op fuel c (FUnlink p) w = ends (AnId st oid, w') → Client.unlink fuel c p w = ends (st, oid, w').
Proof. intros Hr. apply late_bind_ends in Hr as ([[st0 o0] w0]&->&He). by injection He as -> -> ->. Qed.
Lemma run_mkdir p mode uid gid w st w' :
  run_op fuel c (FMkdir p mode uid gid) w = ends (ADone st, w') →
  Client.mkdir fuel c p mode uid gid w = ends (st, w').
Proof. intros Hr. apply late_bind_ends in Hr as ([st0 w0]&->&He). by injection He as -> ->. Qed.
Lemma run_rmdir p w st w' :
  run_op fuel c (FRmdir p) w = ends (ADone st, w') → Client.rmdir fuel c p w = ends (st, w').
Proof. intros Hr. apply late_bind_ends in Hr as ([st0 w0]&->&He). by injection He as -> ->. Qed.
Lemma run_setattr p info w st w' :
  run_op fuel c (FSetattr p info) w = ends (ADone st, w') →
  ∃ x, Client.setattr c p info w = Done (st, x, w').
Proof.
  intros Hr. unfold run_op in Hr. apply late_bind_ends in Hr as ([[st0 x] w0]&Hc&He). injection He as -> ->.
  exists x. unfold ends in Hc. congruence.
Qed.
Lemma run_readdir p w st names w' :
  run_op fuel c (FReaddir p) w = ends (TheNames st names, w') → Client.readdir c p w = Done (st, names, w').
Proof.
  intros Hr. unfold run_op in Hr. apply late_bind_ends in Hr as ([[st0 x] w0]&Hc&He). injection He as -> -> ->.
  unfold ends in Hc. congruence.
Qed.
Lemma run_getattr p w st info w' :
  run_op fuel c (FGetattr p) w = ends (TheInfo st info, w') → Client.getattr c p w = Done (st, info, w').
Proof.
  intros Hr. unfold run_op in Hr. apply late_bind_ends in Hr as ([[st0 x] w0]&Hc&He). injection He as -> -> ->.
  unfold ends in Hc. congruence.
Qed.
Lemma run_object_id p w st oid w' :
  run_op fuel c (FObjectId p) w = ends (AnId st oid, w') → Client.object_id c p w = Done (st, oid, w').
Proof.
  intros Hr. unfold run_op in Hr. apply late_bind_ends in Hr as ([[st0 x] w0]&Hc&He). injection He as -> -> ->.
  unfold ends in Hc. congruence.
Qed.

(** *** Calls on the tree *)

Lemma late_run {A B} (r : run A) a (f : A → late B) : r = Done a → late_bind (Some r) f = f a.
Proof. by intros ->. Qed.

Lemma code_of_ok st : ok st = true → error_of st = 0%Z.
Proof. destruct st as [|e m|e]; simpl; [done| |done]. by intros ->%Z.eqb_eq. Qed.

(** What the callback makes of the answer of the client. *)
Lemma tree_perform s fs op o t oid a fs' w' :
  client_ (vsfs s) = c → storage_manager_ (vsfs s) = UseObject sm → tree_call ctx op = Some o → fs_exec t oid o fs = (a, fs') →
  run_op fuel c o (world s) = ends (a, w') → perform_ op s = ends (Code (answer_code a), with_world s w').
Proof.
  intros Hc Hst Ho He Hrun.
  destruct op; try done; injection Ho as <-; simpl in *;
    unfold code, vsfs_utimens, vsfs_chmod, vsfs_chown, vsfs_mkdir, vsfs_mknod, vsfs_rmdir,
      Fuse.rpc, rpc_late, storage, mbind, fuse_bind; rewrite Hc.
  1-3: destruct (fs_nodes fs !! path); injection He as <- _; apply run_setattr in Hrun as [x Hx]; by
    unfold utimens, Client.chmod, Client.chown; erewrite late_run by exact Hx.
  - destruct (fs_nodes fs !! path); injection He as <- _; apply run_mkdir in Hrun;
      rewrite Hrun; simpl; by rewrite ?Hst.
  - destruct (fs_nodes fs !! path); injection He as <- _; apply run_create in Hrun; by rewrite Hrun.
  - destruct (fs_entries fs !! path); [case_bool_decide|]; injection He as <- _; apply run_rmdir in Hrun;
      rewrite Hrun; simpl; by rewrite ?Hst.
Qed.

Lemma refines_tree k op o s μ :
  tree_call ctx op = Some o → mounted (Datatypes.S k) s μ → mount_wf μ → op_ok o (m_tree μ) → refines k op s μ.
Proof.
  intros Ho Hm Hwf Hok.
  destruct (tree_simulates k s μ o Hm Hwf Hok) as (oid&a&fs'&w'&He&Hrun&Hid&Hm').
  eexists _, _, _. split; [eapply tree_perform; [exact (lc_client _ _ _ _ (proj2 Hm))|exact (lc_store _ _ _ _ (proj2 Hm))|done..]|].
  split; [|exact Hm']. by eapply step_tree.
Qed.

(** *** Calls on handles, and those that are passed on *)

(** A callback that does not call the masters. *)
Lemma refines_local k op s μ reply s' μ' :
  mounted (Datatypes.S k) s μ → perform_ op s = ends (reply, s') → world s' = world s →
  step (now (world s)) op μ reply μ' → m_tree μ' = m_tree μ → local c sm s' μ' → refines k op s μ.
Proof.
  intros [Hs _]%mounted_less Hrun Hw Hstep Ht Hl. exists reply, s', μ'.
  split_and!; [done..|]. split; [by rewrite Hw, Ht|done].
Qed.

Lemma perform_code {A} (m : fuse St Z) (f : Z → A) s r s' :
  m s = ends (r, s') → (r ← m; mret (f r)) s = ends (f r, s').
Proof. unfold mbind, fuse_bind. by intros ->. Qed.
Lemma perform_pair {A B C} (m : fuse St (A * B)) (f : A → B → C) s a b s' :
  m s = ends ((a, b), s') → ('(a, b) ← m; mret (f a b)) s = ends (f a b, s').
Proof. unfold mbind, fuse_bind. by intros ->. Qed.

Lemma wrote_tree fh buf off μ r μ' : wrote fh buf off μ r μ' → m_tree μ' = m_tree μ.
Proof. by intros [i fl data k' ? ? ?]. Qed.
Lemma wrote_all_tree fh off total bufs μ r μ' : wrote_all fh off total bufs μ r μ' → m_tree μ' = m_tree μ.
Proof. induction 1; [done..|]. by erewrite IHwrote_all, wrote_tree. Qed.

Lemma new_path_total p : p ≠ "" → ∃ vsp, new_path p = Done vsp.
Proof.
  unfold new_path. destruct p as [|x p]; [done|]. intros _. simpl negb. cbv iota.
  destruct (find_char "?" 0 (String x p)) as [q|]; [|by eauto].
  destruct (find_char slash q (String x p)); by eauto.
Qed.

Lemma refines_idle k op s μ :
  idle_call op → mount_ok ctx op μ → mounted (Datatypes.S k) s μ → refines k op s μ.
Proof.
  intros Hidle Hok Hm. destruct op; try done.
  all: eapply (refines_local k _ s μ (Code 0) s μ);
    [done| |done|by apply step_idle|done|apply Hm].
  all: try done.
  destruct (new_path_total _ Hok) as [vsp Hvsp]. apply perform_code.
  unfold vsfs_access, parse_path, mbind, fuse_bind. rewrite Hvsp. simpl. by destruct (negb (is_query vsp)).
Qed.

Lemma refines_passed_on k op s μ :
  passed_on op → mounted (Datatypes.S k) s μ → refines k op s μ.
Proof.
  intros Hp Hm. pose proof (proj2 Hm) as Hl. destruct op; try done.
  - destruct (local_statfs c sm s μ Hl) as (r&st&s'&Hrun&Hw&Hl'&Hr).
    eapply (refines_local k _ s μ (Code r) s' μ); [done| |done|by apply step_passed_on|done|done].
    simpl. by erewrite (perform_pair _ (λ r _, Code r)).
  - destruct (local_flush c sm s μ fh Hl) as (r&s'&Hrun&Hw&Hr&Hl').
    eapply (refines_local k _ s μ (Code r) s' μ); [done| |done|by apply step_passed_on|done|done].
    by apply perform_code.
  - destruct (local_on_descriptor c sm s μ (λ fd, sys_flock fd op) fh Hl) as (r&s'&Hrun&Hw&Hr&Hl');
      [intros; apply sys_flock_reads|intros; apply sys_flock_errno|].
    eapply (refines_local k _ s μ (Code r) s' μ); [done| |done|by apply step_passed_on|done|done].
    by apply perform_code.
  - destruct (local_on_descriptor c sm s μ (λ fd, sys_fcntl_lock fd cmd) fh Hl) as (r&s'&Hrun&Hw&Hr&Hl');
      [intros; apply sys_fcntl_lock_reads|intros; apply sys_fcntl_lock_errno|].
    eapply (refines_local k _ s μ (Code r) s' μ); [done| |done|by apply step_passed_on|done|done].
    by apply perform_code.
  - destruct (local_on_descriptor c sm s μ sys_fsync fh Hl) as (r&s'&Hrun&Hw&Hr&Hl');
      [intros; apply sys_fsync_reads|intros; apply sys_fsync_errno|].
    eapply (refines_local k _ s μ (Code r) s' μ); [done| |done|by apply step_passed_on|done|done].
    by apply perform_code.
Qed.

Lemma refines_read k s μ fh size off :
  mounted (Datatypes.S k) s μ → mount_ok ctx (Read fh size off) μ → refines k (Read fh size off) s μ.
Proof.
  intros Hm [Hsize Hoff]. destruct (local_read c sm s μ fh size off (proj2 Hm) Hsize Hoff)
    as (r&bs&s'&Hrun&Hw&Hl&Hres).
  eapply (refines_local k _ s μ (Bytes r bs) s' μ); [done| |done| |done|done]; [by apply perform_pair|].
  destruct (m_open μ !! fh) as [[i fl]|] eqn:Hh; [|destruct Hres as [-> ->]; by apply step_read_closed].
  destruct Hres as [[Hr ->]|[-> (data&Hd&Hp&Hnil)]]; [by apply step_read_failed|by eapply step_read].
Qed.

Lemma refines_write k s μ fh buf off :
  mounted (Datatypes.S k) s μ → mount_ok ctx (Write fh buf off) μ → refines k (Write fh buf off) s μ.
Proof.
  intros Hm [Hlen Hoff]. destruct (local_write c sm s μ fh buf off (proj2 Hm) Hlen Hoff)
    as (r&s'&μ'&Hrun&Hw&Hl&Hres).
  eapply (refines_local k _ s μ (Code r) s' μ'); [done|by apply perform_code|done| | |done].
  - destruct Hres as [(?&->&->)|[[? ->]|?]]; [by apply step_write_closed|by apply step_write_failed|by apply step_write].
  - destruct Hres as [(?&?&->)|[[? ->]|?]]; [done|done|by eapply wrote_tree].
Qed.

Lemma refines_write_buf k s μ fh bufs off :
  mounted (Datatypes.S k) s μ → mount_ok ctx (WriteBuf fh bufs off) μ → refines k (WriteBuf fh bufs off) s μ.
Proof.
  intros Hm Hoff. destruct (local_write_buf c sm s μ fh bufs off (proj2 Hm) Hoff)
    as (r&s'&μ'&Hrun&Hw&Hl&Hres).
  eapply (refines_local k _ s μ (Code r) s' μ'); [done|by apply perform_code|done| | |done].
  - destruct Hres as [(?&->&->)|[? ?]]; [by apply step_write_buf_closed|by apply step_write_buf].
  - destruct Hres as [(?&?&->)|[? ?]]; [done|by eapply wrote_all_tree].
Qed.

Lemma refines_release k s μ fh :
  mounted (Datatypes.S k) s μ → is_Some (m_open μ !! fh) → refines k (Release fh) s μ.
Proof.
  intros Hm Hh. destruct (local_release c sm s μ fh (proj2 Hm) Hh) as (r&s'&Hrun&Hw&Hr&Hl).
  eapply (refines_local k _ s μ (Code r) s'); [done|by apply perform_code|done|by apply step_release|done|done].
Qed.

Lemma refines_fgetattr k s μ fh stbuf :
  mounted (Datatypes.S k) s μ → is_Some (m_open μ !! fh) → refines k (Fgetattr fh stbuf) s μ.
Proof.
  intros Hm [[i fl] Hh]. destruct (local_fgetattr c sm s μ fh i fl stbuf (proj2 Hm) Hh)
    as (r&st&s'&Hrun&Hw&Hl&Hres).
  eapply (refines_local k _ s μ (Attr r st) s' μ); [done|by apply perform_pair|done| |done|done].
  destruct Hres as [[? ->]|(->&data&?&?)]; [by apply step_fgetattr_failed|by eapply step_fgetattr].
Qed.

(** *** Calls that look a path up *)

Lemma new_path_ordinary p :
  ordinary p → new_path p = Done {| pp_path := p; pp_root := p; pp_query := ""; pp_result := "" |}.
Proof.
  intros [Hne Hq]. unfold new_path, find_char, find_if_from. unfold no_char in Hq. simpl str_drop. rewrite Hq.
  by destruct p.
Qed.

Lemma parse_ordinary p s :
  ordinary p → parse_path p s = ends ({| pp_path := p; pp_root := p; pp_query := ""; pp_result := "" |}, s).
Proof. intros Hp. unfold parse_path. by rewrite new_path_ordinary. Qed.

(** A question to the masters: neither they nor the tree change. *)
Lemma ask_tree k s μ o a :
  mounted (Datatypes.S k) s μ → mount_wf μ → op_ok o (m_tree μ) →
  (∀ oid, fs_exec (now (world s)) oid o (m_tree μ) = (a, m_tree μ)) →
  ∃ w', run_op fuel c o (world s) = ends (a, w') ∧ mounted k (with_world s w') μ.
Proof.
  intros Hm Hwf Hok Hread. destruct (tree_simulates k s μ o Hm Hwf Hok) as (oid&a'&fs'&w'&He&Hrun&_&Hm').
  rewrite Hread in He. injection He as <- <-. exists w'. split; [done|]. by destruct μ.
Qed.

Lemma refines_readdir k s μ junk p :
  mounted (Datatypes.S k) s μ → mount_wf μ → mount_ok ctx (Readdir junk p) μ → refines k (Readdir junk p) s μ.
Proof.
  intros Hm Hwf [Hp Habs].
  assert (∃ st names, ∀ oid, fs_exec (now (world s)) oid (FReaddir p) (m_tree μ) = (TheNames st names, m_tree μ))
    as (st&names&He) by (simpl; destruct (fs_entries (m_tree μ) !! p); eauto).
  destruct (ask_tree k s μ (FReaddir p) _ Hm Hwf Habs He) as (w'&Hrun&Hm').
  apply run_readdir in Hrun. eexists _, _, μ. split; [|split; [by eapply step_readdir|exact Hm']].
  simpl. apply perform_pair. unfold vsfs_readdir, mbind, fuse_bind. rewrite parse_ordinary by done. simpl.
  unfold rpc, rpc_late. rewrite (lc_client _ _ _ _ (proj2 Hm)), Hrun. simpl.
  destruct (fs_entries (m_tree μ) !! p) eqn:Hd; specialize (He 0%Z); simpl in He; rewrite Hd in He;
    by injection He as <- <-.
Qed.

Lemma refines_getattr k s μ p stbuf :
  mounted (Datatypes.S k) s μ → mount_wf μ → mount_ok ctx (Getattr p stbuf) μ → refines k (Getattr p stbuf) s μ.
Proof.
  intros Hm Hwf [Hp Hlink]. unfold refines. simpl perform.
  destruct (fs_nodes (m_tree μ) !! p) as [m|] eqn:Hn.
  - destruct (ask_tree k s μ (FGetattr p) (TheInfo OK (Some (info_of m))) Hm Hwf Logic.I) as (w'&Hrun&Hm');
      [by intros oid; simpl; rewrite Hn|].
    apply run_getattr in Hrun.
    assert (vsfs_getattr p stbuf s =
      (if only_tree m then ends (0%Z, tree_attr m stbuf, with_world s w') else
       ('(status, buf) ← storage (λ m' os, sm_getattr m' p (md_object_id m) os);
        match buf with
        | Some buf => if negb (ok status) then mret (error_of status, tree_attr m stbuf)
                      else mret (0%Z, set_local (tree_attr m stbuf) buf)
        | None => mret (error_of status, tree_attr m stbuf)
        end) (with_world s w'))) as He.
    { unfold vsfs_getattr, mbind, fuse_bind. rewrite parse_ordinary by done. simpl.
      unfold rpc, rpc_late. rewrite (lc_client _ _ _ _ (proj2 Hm)), Hrun. simpl. unfold tree_attr, only_tree.
      by destruct (S_ISDIR (md_mode m) || S_ISLNK (md_mode m)). }
    destruct (only_tree m) eqn:Ho.
    { eexists _, _, μ. split; [apply (perform_pair _ Attr); exact He|]. split; [by eapply step_getattr_tree|done]. }
    destruct (local_getattr c sm Hsm (with_world s w') μ p (md_object_id m) (proj2 Hm')) as (st&buf&os&Hrun'&Hl&Hb);
      [by apply (Hlink m)|].
    unfold mbind, fuse_bind in He. rewrite Hrun' in He. simpl in He.
    destruct buf as [buf|].
    + destruct Hb as (->&i&data&Hi&Hd&Hsz). eexists _, _, μ. split; [apply (perform_pair _ Attr); exact He|].
      split; [by eapply step_getattr|]. split; [apply Hm'|done].
    + eexists _, _, μ. split; [apply (perform_pair _ Attr); exact He|].
      split; [by eapply step_getattr_failed|]. split; [apply Hm'|done].
  - destruct (ask_tree k s μ (FGetattr p) (TheInfo missing None) Hm Hwf Logic.I) as (w'&Hrun&Hm');
      [by intros oid; simpl; rewrite Hn|].
    apply run_getattr in Hrun. eexists _, _, μ. split; [|split; [by eapply step_getattr_missing|exact Hm']].
    apply (perform_pair _ Attr). unfold vsfs_getattr, mbind, fuse_bind. rewrite parse_ordinary by done. simpl.
    unfold rpc, rpc_late. rewrite (lc_client _ _ _ _ (proj2 Hm)), Hrun. simpl.
    by rewrite !system_error_code_spec.
Qed.

Lemma refines_readlink k s μ p size :
  mounted (Datatypes.S k) s μ → mount_wf μ → mount_ok ctx (Readlink p size) μ → refines k (Readlink p size) s μ.
Proof.
  intros Hm Hwf [Hp Hsize]. unfold refines. simpl perform.
  destruct (fs_nodes (m_tree μ) !! p) as [m|] eqn:Hn.
  - destruct (ask_tree k s μ (FObjectId p) (AnId OK (Some (md_object_id m))) Hm Hwf Logic.I) as (w'&Hrun&Hm');
      [by intros oid; simpl; rewrite Hn|].
    apply run_object_id in Hrun.
    destruct (local_readlink c sm Hsm (with_world s w') μ p (md_object_id m) size (proj2 Hm') Hsize)
      as (st&t&os&Hrun'&Hl&Hb).
    assert (vsfs_readlink p size s =
      (if negb (ok st) then ends (error_of st, Untouched, with_system (with_world s w') os)
       else ends (0%Z, Unterminated t, with_system (with_world s w') os))) as He.
    { unfold vsfs_readlink, mbind, fuse_bind. rewrite parse_ordinary by done. simpl.
      unfold rpc, rpc_late. rewrite (lc_client _ _ _ _ (proj2 Hm)), Hrun. simpl.
      change {| vsfs := vsfs s; world := w'; system := system s |} with (with_world s w').
      simpl in Hrun'. rewrite Hrun'. simpl. by destruct (ok st). }
    destruct Hb as [(->&target&Ht&->)|[Hr Hst]]; [|rewrite Hst in He]; eexists _, _, μ;
      (split; [apply (perform_pair _ Link); exact He|]); (split; [|split; [apply Hm'|done]]);
      [by eapply step_readlink|by eapply step_readlink_failed].
  - destruct (ask_tree k s μ (FObjectId p) (AnId missing None) Hm Hwf Logic.I) as (w'&Hrun&Hm');
      [by intros oid; simpl; rewrite Hn|].
    apply run_object_id in Hrun. eexists _, _, μ. split; [|split; [by eapply step_readlink_missing|exact Hm']].
    apply (perform_pair _ Link). unfold vsfs_readlink, mbind, fuse_bind. rewrite parse_ordinary by done. simpl.
    unfold rpc, rpc_late. rewrite (lc_client _ _ _ _ (proj2 Hm)), Hrun. simpl.
    by rewrite !system_error_code_spec.
Qed.

(** *** Calls that make, open and remove files *)

(** A new file's id is not the place of a link. *)
Lemma new_id_no_link μ p mode uid gid oid t fs' oid' :
  mount_wf μ → id_ok (owner_of c) (FCreate p mode uid gid) oid (m_tree μ) →
  fs_exec t oid (FCreate p mode uid gid) (m_tree μ) = (AnId OK (Some oid'), fs') →
  oid' = oid ∧ m_objects μ !! oid = None ∧ m_links μ !! oid = None.
Proof.
  intros Hwf Hid He. apply new_file_given in He as (->&Hn&_). split; [done|].
  by eapply (new_id_unused (owner_of c)).
Qed.

(** The two answers to a creation. *)
Lemma create_answers t oid p mode uid gid fs a fs' :
  fs_exec t oid (FCreate p mode uid gid) fs = (a, fs') →
  (a = AnId OK (Some oid) ∨ (a = AnId (refused EEXIST) None ∧ fs' = fs)).
Proof. simpl. destruct (fs_nodes fs !! p); intros [= <- <-]; auto. Qed.

Lemma with_same_tree μ : with_tree μ (m_tree μ) = μ.
Proof. by destruct μ. Qed.

Lemma refines_create k s μ p mode flags :
  mounted (Datatypes.S k) s μ → mount_wf μ → mount_ok ctx (Create p mode flags) μ →
  refines k (Create p mode flags) s μ.
Proof.
  intros Hm Hwf Hok. specialize (Hok _ eq_refl).
  destruct (tree_simulates k s μ _ Hm Hwf Hok) as (oid&a&fs'&w'&He&Hrun&Hid&Hm').
  assert (∀ st id, a = AnId st id → vsfs_create ctx fuel p mode flags s =
    (if negb (ok st) then ends (error_of st, None, with_world s w')
     else open_add p (default 0%Z id) (Z.lor flags O_CREAT) (Some mode) (with_world s w'))) as Hperform.
  { intros st id ->. apply run_create in Hrun. unfold vsfs_create, rpc_late, mbind, fuse_bind.
    rewrite (lc_client _ _ _ _ (proj2 Hm)), Hrun. simpl. by destruct (ok st). }
  destruct (create_answers _ _ _ _ _ _ _ _ _ He) as [->|[-> ->]]; specialize (Hperform _ _ eq_refl).
  - destruct (new_id_no_link _ _ _ _ _ _ _ _ _ Hwf Hid He) as (_&Hno&Hnl).
    destruct (local_open c sm Hsm (with_world s w') (with_tree μ fs') p oid (Z.lor flags O_CREAT) (Some mode)
      (proj2 Hm') Hnl) as (r&fh&s'&Hopen&Hw&Hres).
    simpl in Hperform. rewrite Hopen in Hperform.
    destruct Hres as [(->&Hr&Hl)|(h&μ'&->&->&Hopened&Hl)].
    + exists (Handle r None), s', (with_tree μ fs'). split; [by apply (perform_pair _ Handle)|].
      split; [by eapply step_create_failed|]. split; [rewrite Hw; apply Hm'|done].
    + exists (Handle 0 (Some h)), s', μ'. split; [by apply (perform_pair _ Handle)|].
      inversion Hopened as [? i Hi|? i Hi ? Hnew Hnh]; subst; [simpl in Hi; congruence|].
      split; [by eapply step_create|]. split; [rewrite Hw; apply Hm'|done].
  - rewrite with_same_tree in Hm'. simpl in Hperform.
    exists (Handle (error_of (refused EEXIST)) None), (with_world s w'), μ.
    split; [by apply (perform_pair _ Handle)|]. split; [by eapply step_create_refused|done].
Qed.

Lemma refines_open k s μ p flags :
  mounted (Datatypes.S k) s μ → mount_wf μ → mount_ok ctx (Open p flags) μ → refines k (Open p flags) s μ.
Proof.
  intros Hm Hwf [(m&Hn&_) Hlink]. apply mounted_less in Hm.
  assert (Client.open c p (world s) = Done (OK, Some (md_object_id m), world s)) as Hc.
  { unfold Client.open. destruct (route c Hring p) as (node&->&Haddr). simpl. rewrite Haddr.
    rewrite (ask_owner c Hring rest k (world s) (m_tree μ) p _ (Return (md_object_id m)) (proj1 Hm)); [done|].
    intros mc [Hmm _]. unfold rpc_object_id, MasterController.object_id, Namespace.object_id. by rewrite Hmm, Hn. }
  destruct (local_open c sm Hsm (with_world s (world s)) μ p (md_object_id m) flags None)
    as (r&fh&s'&Hopen&Hw&Hres); [rewrite <-(with_same_tree μ); apply local_world, Hm|by apply Hlink|].
  assert (vsfs_open p flags s = ends (r, fh, s')) as Hperform.
  { unfold vsfs_open, Fuse.rpc, rpc_late, mbind, fuse_bind.
    by rewrite (lc_client _ _ _ _ (proj2 Hm)), Hc. }
  destruct Hres as [(->&Hr&Hl)|(h&μ'&->&->&Hopened&Hl)]; eexists _, s', _;
    (split; [apply (perform_pair _ Handle); exact Hperform|]).
  - split; [by apply step_open_failed|]. split; [rewrite Hw; apply Hm|done].
  - split; [by eapply step_open|]. split; [|done]. rewrite Hw. inversion Hopened; subst; [|apply Hm].
    unfold open_file. destruct (has_flag flags O_TRUNC); apply Hm.
Qed.

Lemma refines_unlink k s μ p :
  mounted (Datatypes.S k) s μ → mount_wf μ → mount_ok ctx (Unlink p) μ → refines k (Unlink p) s μ.
Proof.
  intros Hm Hwf Hok. destruct (tree_simulates k s μ _ Hm Hwf Hok) as (oid&a&fs'&w'&He&Hrun&Hid&Hm').
  assert (∃ id, a = AnId OK (Some id) ∧ fs_exec (now (world s)) 0 (FUnlink p) (m_tree μ) = (a, fs')) as (id&->&He').
  { destruct Hok as (m&Hn&Hf&_). simpl in He |- *. rewrite Hn, Hf in *. injection He as <- <-. eauto. }
  apply run_unlink in Hrun.
  destruct (local_unlink c sm Hsm (with_world s w') _ p id (proj2 Hm')) as (st&os&Hrun'&Hres).
  assert (vsfs_unlink fuel p s = ends (error_of st, with_system (with_world s w') os)) as Hperform.
  { unfold vsfs_unlink, rpc_late, mbind, fuse_bind. rewrite (lc_client _ _ _ _ (proj2 Hm)), Hrun. simpl.
    change {| vsfs := vsfs s; world := w'; system := system s |} with (with_world s w').
    simpl in Hrun'. by rewrite Hrun'. }
  destruct Hres as [[-> Hl]|[Hr Hl]]; eexists _, _, _;
    (split; [apply (perform_code _ Code); exact Hperform|]).
  - split; [by eapply step_unlink|]. split; [apply Hm'|done].
  - split; [by eapply step_unlink_failed|]. split; [apply Hm'|done].
Qed.

Lemma refines_symlink k s μ target p :
  mounted (Datatypes.S k) s μ → mount_wf μ → mount_ok ctx (Symlink target p) μ → refines k (Symlink target p) s μ.
Proof.
  intros Hm Hwf Hok. specialize (Hok _ eq_refl).
  destruct (tree_simulates k s μ _ Hm Hwf Hok) as (oid&a&fs'&w'&He&Hrun&Hid&Hm').
  destruct (create_answers _ _ _ _ _ _ _ _ _ He) as [->|[-> ->]]; apply run_create in Hrun.
  - destruct (new_id_no_link _ _ _ _ _ _ _ _ _ Hwf Hid He) as (_&_&Hnl).
    destruct (local_symlink c sm Hsm (with_world s w') _ target p oid (proj2 Hm')) as (st&os&Hrun'&Hres).
    assert (vsfs_symlink ctx fuel target p s = 
      ends (if negb (ok st) then error_of st else 0%Z, with_system (with_world s w') os)) as Hperform.
    { unfold vsfs_symlink, rpc_late, mbind, fuse_bind. rewrite (lc_client _ _ _ _ (proj2 Hm)), Hrun. simpl.
      change {| vsfs := vsfs s; world := w'; system := system s |} with (with_world s w').
      simpl in Hrun'. rewrite Hrun'. simpl. by destruct (ok st). }
    destruct Hres as [(->&_&Hl)|[Hr Hl]]; eexists _, _, _;
      (split; [apply (perform_code _ Code); exact Hperform|]).
    + split; [by eapply step_symlink|]. split; [apply Hm'|done].
    + replace (if negb (ok st) then error_of st else 0%Z) with (error_of st).
      2:{ destruct (ok st) eqn:Hst; [|done]. by apply code_of_ok. }
      split; [by eapply step_symlink_failed|]. split; [apply Hm'|done].
  - rewrite with_same_tree in Hm'.
    exists (Code (error_of (refused EEXIST))), (with_world s w'), μ. split; [|split; [by eapply step_symlink_refused|done]].
    apply perform_code. unfold vsfs_symlink, rpc_late, mbind, fuse_bind.
    by rewrite (lc_client _ _ _ _ (proj2 Hm)), Hrun.
Qed.

(** *** All calls, and programs *)

Lemma op_refines k op s μ :
  mounted (Datatypes.S k) s μ → mount_wf μ → mount_ok ctx op μ → refines k op s μ.
Proof.
  intros Hm Hwf Hok.
  destruct op; try (by apply refines_idle); try (by apply refines_passed_on);
    try (eapply refines_tree; [reflexivity|done|done|by apply Hok]).
  - by apply refines_getattr.
  - by apply refines_fgetattr.
  - by apply refines_readdir.
  - by apply refines_create.
  - by apply refines_open.
  - by apply refines_unlink.
  - by apply refines_release.
  - by apply refines_readlink.
  - by apply refines_read.
  - by apply refines_write.
  - by apply refines_write_buf.
  - by apply refines_symlink.
Qed.

Lemma program_refines k prog s μ :
  mounted k s μ → mount_wf μ → program_ok (owner_of c) ctx k prog μ →
  ∃ replies s' μ', run_program disk indeterminate clock ctx fuel prog s = ends (replies, s') ∧
    mount_run (owner_of c) ctx prog μ replies μ' ∧ mounted 0 s' μ' ∧ mount_wf μ'.
Proof.
  revert k s μ. induction prog as [|t op next IH|a self jump r1 r2 next IH]; intros k s μ Hm Hwf Hok.
  3: { destruct Hok as (Hjump&Hr1&Hr2&Hok).
    destruct (IH (k - jump) (with_world s (restart_at disk indeterminate a self jump r1 r2 (world s))) μ)
      as (replies&s'&μ'&Hrun&Hspec&Hm'&Hwf'); [|done|done|].
    - split; [|rewrite <-(with_same_tree μ); apply local_world, Hm].
      apply (restart_sync c rest disk indeterminate); [done..|]. eapply sync_le; [|apply Hm]. lia.
    - exists replies, s', μ'. split_and!; [exact Hrun|by constructor|done..]. }
  { exists [], s, μ. split_and!; [done|constructor| |done]. split; [|apply Hm].
    eapply sync_le; [|apply Hm]. lia. }
  destruct k as [|k]; [done|]. destruct Hok as [Hop Hnext].
  set (s1 := with_world s (at_time (world s) t)).
  assert (mounted (Datatypes.S k) s1 μ) as Hm1.
  { split; [apply Hm|]. rewrite <-(with_same_tree μ). apply local_world, Hm. }
  destruct (op_refines k op s1 μ Hm1 Hwf Hop) as (reply&s2&μ2&Hrun&Hstep&Hm2).
  destruct (IH reply k s2 μ2) as (replies&s'&μ'&Hrest&Hspec&Hm'&Hwf').
  { done. } { by eapply mount_step_wf. } { by apply Hnext. }
  exists (reply :: replies), s', μ'. split_and!; [|by econstructor|done|done].
  cbn [run_program]. unfold mbind, fuse_bind, tick. simpl.
  unfold s1, with_world in Hrun. rewrite Hrun. simpl. by rewrite Hrest.
Qed.
End simulation.

(** ** From the start of the process *)

Section session.
Context {S P R I OS : Type} `{!KeyValueStore S, !KeyValueStoreSpec S, !ConsistentHashMap P string}.
Context `{!ConsistentHashMapSpec P string}.
Context `{!ConsistentHashMap R NodeInfo, !ConsistentHashMapSpec R NodeInfo, !RangeIndexInterface I}.
Context `{!VoblaStatus, !VoblaStatusSpec, !MD5, !BoostFilesystem, !BoostFilesystemSpec, !LexicalCast Z}.
Context `{!ThriftCodec FileMetadata, !ThriftCodecSpec FileMetadata}.
Context `{!ThriftCodec IndexNamespaceNode, !ThriftCodecSpec IndexNamespaceNode}.
Context `{!ThriftCodec IndexConsistentHashRing, !ThriftCodecSpec IndexConsistentHashRing}.
Context `{!Posix OS, !PosixSpec OS}.

Abbreviation St := (State AnyStorageManager R (Cluster S P R I) OS).

(** How the process is started: [fs::absolute], the connections, and the
    options. *)
Record Site := {
  at_absolute : string → string;
  at_dial : Cluster S P R I → RpcNodeAddress → outcome () * Cluster S P R I;
  at_disk : S → S;
  at_indeterminate : Z;
  at_clock : Z;
  at_context : Context;
  at_basedir : string;
  at_mount_point : string;
  at_host : string;
  at_port : Z;
  at_dirwidth : Z;
}.
Implicit Types (e : Site) (fs : FileSystem) (w : Cluster S P R I) (os : OS).

Definition site_store e : ObjectStorageManager :=
  {| base_path_ := at_absolute e (at_basedir e); num_subdirs_ := at_dirwidth e |}.

(** The process starts with the object store, and serves the program; or it
    ends with the status of its initialisation. *)
Definition session (fuel : nat) e (prog : program) w os : late (Status + list fuse_reply * St) :=
  AWAIT (status, v, w1, os1) ⇐ fuse_init (at_absolute e) (at_dial e) (at_context e) fuel (at_dirwidth e) None
    (at_basedir e) (at_mount_point e) (at_host e) (at_port e) "object" w os;;
  match v with
  | Some v =>
      if ok status then
        AWAIT r ⇐ run_program (at_disk e) (at_indeterminate e) (at_clock e) (at_context e) fuel prog
            {| vsfs := v; world := w1; system := os1 |};;
        ends (inr r)
      else ends (inl status)
  | None => ends (inl status)
  end.

(** An object store nothing is kept in yet. *)
Record unused_store (m : ObjectStorageManager) (v : OsView) : Prop := {
  us_valid : object_valid m;
  us_base : base_path_ m ∈ os_dirs v;
  us_links p : os_links v !! (base_path_ m +:+ "/" +:+ p) = None;
  us_dirs oid : object_location m oid ∉ os_dirs v;
  us_files oid : os_files v !! object_location m oid = None;
}.

(** The root directory is made if it is not there. *)
Definition mount_of (ctx : Context) (t : double) fs (v : OsView) : Mount :=
  {| m_tree := (fs_exec t 0 (FMkdir "/" 511 (ctx_uid ctx) (ctx_gid ctx)) fs).2;
     m_objects := ∅; m_links := ∅; m_data := os_data v; m_open := ∅ |}.

Lemma root_ok uid gid fs : op_ok (FMkdir "/" 511 uid gid) fs.
Proof. split_and!; [by left|by left|by intros _; left]. Qed.

Lemma mount_of_wf {A} (owner : string → A) ctx t fs v :
  aligned owner → tree_wf fs → given_bits fs → given_once fs → mount_wf (mount_of ctx t fs v).
Proof.
  intros Ha Hwf Hb Ho.
  destruct (exec_ids owner Ha t 0 (FMkdir "/" 511 (ctx_uid ctx) (ctx_gid ctx)) fs) as [Hb' Ho']; [done..|].
  split; cbn [mount_of m_tree m_objects m_links m_open]; [apply fs_exec_wf; [done|apply root_ok|done]|done..].
Qed.

Lemma object_init_status m os st : (object_init m os).1 = st → ok st = true → st = OK.
Proof.
  unfold object_init. intros <-. generalize 0%Z. revert os.
  induction (Z.to_nat (num_subdirs_ m)) as [|left IH]; intros os i; simpl; [done|].
  destruct (create_directories _ os) as [ec os1]. destruct (Z.ltb_spec 0 ec); [|apply IH].
  simpl. intros Hec%Z.eqb_eq. lia.
Qed.

Lemma init_local m c ctx t fs w os os1 (v : VsfsFuse AnyStorageManager R) :
  unused_store m (os_view os) → object_init m os = (OK, os1) →
  client_ v = c → storage_manager_ v = UseObject m → fh_to_obj_map_ v = ∅ →
  local c m {| vsfs := v; world := w; system := os1 |} (mount_of ctx t fs (os_view os)).
Proof.
  intros [Hm Hb Hl Hd Hf] Hi Hc Hs Ht.
  assert (∀ oid, plain_at (os_view os1) (object_location m oid) ∧
    os_files (os_view os1) = os_files (os_view os) ∧ os_data (os_view os1) = os_data (os_view os)) as Hp.
  { intros oid. destruct (object_init_prepares m os os1 oid Hm Hb Hl (Hd oid) Hi) as (p&Hp&?&?&_&?).
    rewrite translate_path_location in Hp by done. by injection Hp as <-. }
  split; simpl; rewrite ?Ht; try done.
  - split; simpl; [by rewrite Hs|]. rewrite Ht. intros fd f. by rewrite lookup_empty.
  - apply Hp.
  - intros oid. rewrite lookup_empty. destruct (Hp oid) as (_&->&_). apply Hf.
  - intros oid. rewrite lookup_empty. by destruct (Hp oid) as ([_ ->]&_).
  - by destruct (Hp 0%Z) as (_&_&?).
Qed.

(** What holds before the process starts: the store is unused, the primary
    answers with a ring [c] of masters that together have the tree [fs], and
    ids that may be equal are given out by one master. *)
Record mountable (k : nat) e fs w os (c : VSFSRpcClient R) (rest : Rest I) (w1 : Cluster S P R I) : Prop := {
  mo_store : unused_store (site_store e) (os_view os);
  mo_init : Client.init (at_dial e) (Client.new_client (at_host e) (at_port e)) w = Done (OK, c, w1);
  mo_ring : ch_view (master_map_ c) ≠ ∅;
  mo_aligned : aligned (owner_of c);
  mo_sync : sync c rest k w1 fs;
  mo_tree : tree_wf fs;
  mo_bits : given_bits fs;
  mo_once : given_once fs;
}.

End session.

(** ** Witness: one master, and two that share ids *)

Section witnesses.
Import Reference ReferenceOs.
#[local] Existing Instances TestLevelDBStore.test_store TestLevelDBStore.test_store_spec.
#[local] Existing Instances RangeIndexWrapper.updates_codec RangeIndexWrapper.buffer_codec.
#[local] Existing Instances RangeIndexWrapper.types RangeIndexWrapper.casts Decimal.cast.
#[local] Existing Instances Cluster.metadata_codec Cluster.node_codec Cluster.ring_codec.
#[local] Existing Instances ClusterFiles.metadata_codec_spec ClusterFiles.node_codec_spec.
#[local] Existing Instance ClusterFiles.ring_codec_spec.

Abbreviation demo_cluster :=
  (Cluster (gmap string string) (gmap Z string) (gmap Z NodeInfo) RangeIndexObject).

Definition demo_site : @Site (gmap string string) (gmap Z string) (gmap Z NodeInfo) RangeIndexObject :=
  {| at_absolute := id; at_dial w _ := (Reply (), w);
     at_disk := id; at_indeterminate := 0; at_clock := 0;
     at_context := {| ctx_uid := 0; ctx_gid := 0; ctx_umask := 18; proc_uid := 0; proc_gid := 0 |};
     at_basedir := "/base"; at_mount_point := "/mnt"; at_host := "a"; at_port := 9876; at_dirwidth := 8 |}.
Definition demo_bytes : bytes := [x68; x65; x6c; x6c; x6f].

(** Save, load and remove a file, with the handles the calls answer; the master
    crashes in between. *)
Definition demo_program : program :=
  Do noon (Create "/f" 420 2) (λ r, match r with
  | Handle _ (Some fh) =>
      Do noon (Write fh demo_bytes 0) (λ _, Do noon (Release fh) (λ _,
      CrashMaster addr_a (node_of addr_a) 3 5 7 $
      Do noon (Open "/f" 0) (λ r, match r with
      | Handle _ (Some fh) => Do noon (Read fh 5 0) (λ _, Do noon (Unlink "/f") (λ _, Stop))
      | _ => Stop
      end)))
  | _ => Stop
  end).

Example demo_session :
  match session 1 demo_site demo_program world_a demo_os with
  | Some (Done (inr (replies, _))) => replies
  | _ => []
  end = [Handle 0 (Some 1%Z); Code 5; Code 0; Handle 0 (Some 1%Z); Bytes 5 demo_bytes; Code 0].
Proof. vm_compute. reflexivity. Qed.

Lemma demo_owner p : owner_of demo_client p = addr_a.
Proof.
  destruct (get_path_owner demo_client p) as (pos&node&_&Hpos&->); [done|].
  change (({[0%Z := node_of addr_a]} : gmap Z NodeInfo) !! pos = Some node) in Hpos.
  rewrite lookup_singleton in Hpos. case_decide; by simplify_eq.
Qed.

Lemma demo_aligned : aligned (owner_of demo_client).
Proof. intros p q _. by rewrite !demo_owner. Qed.

Lemma demo_sync_one : sync demo_client no_rest 13 world_a empty_tree.
Proof.
  split; [done|]. intros pos node Hpos.
  change (({[0%Z := node_of addr_a]} : gmap Z NodeInfo) !! pos = Some node) in Hpos.
  apply lookup_singleton_Some in Hpos as [_ <-]. exists master_a.
  split_and!; [done|eapply good_le, rooted_good; [done|by intros i (q&?&_)]| |done].
  apply (demo_kept demo_client addr_a rooted). intros q _. apply demo_owner.
Qed.

Lemma demo_unused : unused_store (site_store demo_site) demo_os.
Proof.
  split; [split; [split_and!; vm_compute; congruence|simpl; lia]|by vm_compute| | |].
  - intros p. apply lookup_empty.
  - intros oid Hin. change (object_location (site_store demo_site) oid ∈ ({["/base"]} : gset string)) in Hin.
    apply elem_of_singleton in Hin. unfold object_location in Hin. simpl in Hin. discriminate Hin.
  - intros oid. apply lookup_empty.
Qed.

Lemma demo_mountable : mountable 13 demo_site empty_tree world_a demo_os demo_client no_rest world_a.
Proof.
  split; [exact demo_unused|by vm_compute|done|exact demo_aligned|exact demo_sync_one|exact demo_tree|..].
  - intros p i Hin. by apply not_elem_of_empty in Hin.
  - intros p q i Hin. by apply not_elem_of_empty in Hin.
Qed.

(** The program stays in the contract whatever it is answered. *)
Definition file_f (μ : Mount) : Prop :=
  (∃ m, fs_nodes (m_tree μ) !! "/f" = Some m ∧ is_dir m = false) ∧ m_links μ = ∅.

Lemma handle_step_keeps ctx t op μ reply μ' :
  mount_step (owner_of demo_client) ctx t op μ reply μ' →
  match op with Write _ _ _ | Release _ | Open _ _ | Read _ _ _ => True | _ => False end → file_f μ → file_f μ'.
Proof.
  intros Hstep Hop Hf. destruct op; try done; inversion Hstep; subst; try done.
  - match goal with H : opened _ _ _ _ _ |- _ => inversion H; subst end; [|exact Hf].
    unfold open_file. case_match; exact Hf.
  - match goal with H : wrote _ _ _ _ _ _ |- _ => inversion H; subst end. exact Hf.
Qed.

Lemma write_step_keeps ctx t fh buf off μ reply μ' :
  mount_step (owner_of demo_client) ctx t (Write fh buf off) μ reply μ' → m_open μ' = m_open μ.
Proof.
  intros Hstep. inversion Hstep; subst; try done. by eapply wrote_open.
Qed.

Lemma demo_program_ok :
  program_ok (owner_of demo_client) (at_context demo_site) 12 demo_program
    (mount_of (at_context demo_site) (now world_a) empty_tree (os_view demo_os)).
Proof.
  assert (m_tree (mount_of (at_context demo_site) (now world_a) empty_tree (os_view demo_os)) = empty_tree)
    as Ht by (vm_compute; reflexivity).
  split.
  { intros o [= <-]. rewrite Ht. split_and!; [done|apply (tree_at "/" "f"); vm_compute; reflexivity
      |apply parent_there; vm_compute; reflexivity]. }
  intros reply μ1 Hstep.
  assert (match reply with
          | Handle _ (Some fh) => file_f μ1 ∧ is_Some (m_open μ1 !! fh)
          | Handle _ None => True
          | _ => False end) as Hf1.
  { inversion Hstep; subst; try done. split; [|simpl; rewrite lookup_insert_eq; eauto].
    split; [|done]. simpl. rewrite Ht in *.
    match goal with H : fs_exec _ _ _ _ = _ |- _ => injection H as <- end. eexists. split; [vm_compute; reflexivity|].
    by vm_compute. }
  destruct reply as [| | |r [fh|]| |]; [done..| |done|done|done]. destruct Hf1 as [Hf1 Ho1].
  split; [done|]. intros r2 μ2 Hstep2. pose proof (handle_step_keeps _ _ _ _ _ _ Hstep2 Logic.I Hf1) as Hf2.
  apply write_step_keeps in Hstep2. rewrite <-Hstep2 in Ho1.
  split; [exact Ho1|]. intros r3 μ3 Hstep3. pose proof (handle_step_keeps _ _ _ _ _ _ Hstep3 Logic.I Hf2) as Hf3.
  split; [lia|]. split; [by vm_compute|]. split; [by vm_compute|].
  split. { destruct Hf3 as [Hm Hl]. split; [exact Hm|]. intros m _. by rewrite Hl, lookup_empty. }
  intros r4 μ4 Hstep4. pose proof (handle_step_keeps _ _ _ _ _ _ Hstep4 Logic.I Hf3) as Hf4.
  destruct r4 as [| | |r4 [fh4|]| |]; try done.
  split; [done|]. intros r5 μ5 Hstep5. pose proof (handle_step_keeps _ _ _ _ _ _ Hstep5 Logic.I Hf4) as Hf5.
  split; [|done]. destruct Hf5 as [(m&Hm&Hd) _]. by exists m.
Qed.


(** The ring of [two_client] gives paths whose hashes have the same top bits to
    different masters: two files get the same id, and share their contents. *)
Definition shared : State AnyStorageManager (gmap Z NodeInfo) demo_cluster OsView :=
  {| vsfs := {| basedir_ := "/base"; mount_point_ := "/mnt"; storage_manager_ := UseObject demo_store;
                client_ := two_client; fh_to_obj_map_ := ∅ |};
     world := world_ab; system := demo_ready |}.
Definition mixing : program :=
  Do noon (Create "/f" 420 2) (λ _, Do noon (Write 1 demo_bytes 0) (λ _,
  Do noon (Create "/d" 420 2) (λ _, Do noon (Read 2 5 0) (λ _, Stop)))).

Example unaligned_masters_mix_files :
  host (owner_of two_client "/f") = "b" ∧ host (owner_of two_client "/d") = "a" ∧
  Z.shiftr (path_to_hash "/f") 48 = Z.shiftr (path_to_hash "/d") 48 ∧
  match run_program id 0 0 (at_context demo_site) 1 mixing shared with
  | Some (Done (replies, _)) => replies
  | _ => []
  end = [Handle 0 (Some 1%Z); Code 5; Handle 0 (Some 2%Z); Bytes 5 demo_bytes].
Proof. split_and!; vm_compute; reflexivity. Qed.

(** A file that [mknod] made has no object until it is opened with [O_CREAT]:
    removing it reports an error, although it is gone and can be made again. *)
Definition making : program :=
  Do noon (Mknod "/f" 420) (λ _, Do noon (Unlink "/f") (λ _, Do noon (Mknod "/f" 420) (λ _, Stop))).

Example unlink_after_mknod_reports_an_error :
  match session 1 demo_site making world_a demo_os with
  | Some (Done (inr (replies, _))) => replies
  | _ => []
  end = [Code 0; Code (- ENOENT); Code 0].
Proof. vm_compute. reflexivity. Qed.
End witnesses.
