(* ===== verification/Api.v ===== *)
(** * The client interface and the C++ API (client/vsfs_client.h, api/cpp/vsfs.cpp)

    [VSFSClient] is the abstract class the API and the command line tools are
    written against; [VSFSRpcClient] implements it.  [Vsfs] joins a client and
    a storage manager. *)

From S2P Require Import Prelude CxxString Platform Posix PathUtil ServerMap IndexImpl RangeIndex TypedIndex IndexInfo.
From S2P Require Import LogManager Namespace.
From S2P Require Import ComplexQuery Client ClientIndex Storage.

(** ** [VSFSClient] *)

(** [c_new] is the factory [CreateVSFSRpcClient]. *)
Class VSFSClient (C W : Type) := {
  c_new : string → Z → C;
  c_init : C → W → late (Status * C * W);
  c_mkdir : C → string → Z → Z → Z → W → late (Status * W);
  c_rmdir : C → string → W → late (Status * W);
  c_readdir : C → string → W → late (Status * option (list string) * W);
  c_create : C → string → Z → Z → Z → W → late (Status * option Z * W);
  c_open : C → string → W → late (Status * option Z * W);
  c_unlink : C → string → W → late (Status * option Z * W);
  c_getattr : C → string → Stat → W → late (Status * Stat * W);
  c_create_index : C → string → string → Z → Z → Z → Z → Z → W → late (Status * W);
  c_remove_index : C → string → string → W → late (Status * W);
  c_search : C → ComplexQuery → W → late (Status * list string * W);
  c_update : C → list IndexUpdateRequest → W → late (Status * W);
  c_get_index_infos : C → string → bool → W → late (Status * list IndexInfo * W);
}.

Section rpc_client.
Context {W R : Type} `{ClusterRpc W} {index_rpc : IndexRpc W}.
Context `{ConsistentHashMap R NodeInfo, MD5, BoostFilesystem, VoblaStatus}.
(** How to connect; how a future that was asked already answers; the size of a
    batch of updates, the order in which the threads of the pool run the
    batches, and the bound on the turns of the retry loops. *)
Context (dial : W → RpcNodeAddress → outcome () * W).
Context (second_get : Status → run Status) (batch_size : nat) (order : list nat) (fuel : nat).

Definition rpc_vsfs_client : VSFSClient (VSFSRpcClient R) W := {|
  c_new host port := {| primary_ := {| host := host; port := port |};
                        master_map_ := ch_new; index_server_map_ := ch_new |};
  c_init c w := Some (init dial c w);
  c_mkdir c path mode uid gid w := mkdir fuel c path mode uid gid w;
  c_rmdir c path w := rmdir fuel c path w;
  c_readdir c path w := Some (readdir c path w);
  c_create c path mode uid gid w := create fuel c path mode uid gid w;
  c_open c path w := Some (Client.open c path w);
  c_unlink c path w := unlink fuel c path w;
  c_getattr c path stbuf w := Some (getattr_stat c path stbuf w);
  c_create_index c root name it kt mode uid gid w := create_index fuel c root name it kt mode uid gid w;
  c_remove_index c root name w := remove_index fuel c root name w;
  c_search c q w := Some (search c q w);
  c_update c requests w := update second_get batch_size order fuel c requests w;
  c_get_index_infos c path recursive w := Some (get_index_infos c path recursive [] w);
|}.
End rpc_client.

(** ** [Vsfs] *)

(** The operations of [IndexUpdateRequest]. *)
Definition OP_INSERT : Z := 1.
Definition OP_UPDATE : Z := 2.
Definition OP_REMOVE : Z := 3.

Section vsfs.
Context {C W M OS : Type} `{VSFSClient C W, Posix OS, !StorageManager M OS}.
Context `{LexicalCast Z} (now uid gid : Z).

Record Vsfs := { api_client : C; api_storage : M }.

Definition api_connect (v : Vsfs) (w : W) : late (Status * Vsfs * W) :=
  AWAIT (status, c, w) ⇐ c_init (api_client v) w;;
  ends (status, {| api_client := c; api_storage := api_storage v |}, w).

(** The file on the raw storage is opened with [O_CREAT] alone. *)
Definition api_create (v : Vsfs) (path : string) (mode uid gid : Z) (w : W) (os : OS)
    : late (Status * option File * W * OS) :=
  AWAIT (status, id, w) ⇐ c_create (api_client v) path mode uid gid w;;
  if negb (ok status) then ends (status, None, w, os) else
  AWAIT (status, file, os) ⇐ Some (sm_open (api_storage v) path (default 0%Z id) O_CREAT (Some mode) os);;
  ends (status, file, w, os).

Definition api_unlink (v : Vsfs) (path : string) (w : W) (os : OS) : late (Status * W * OS) :=
  AWAIT (status, id, w) ⇐ c_unlink (api_client v) path w;;
  if negb (ok status) then ends (status, w, os) else
  AWAIT (status, os) ⇐ Some (sm_unlink (api_storage v) path (default 0%Z id) os);;
  ends (status, w, os).

(** [getattr] does nothing. *)
Definition api_getattr (v : Vsfs) (path : string) (stbuf : Stat) : Status * Stat := (OK, stbuf).

Definition api_mkdir (v : Vsfs) (path : string) (mode uid gid : Z) (w : W) : late (Status * W) :=
  c_mkdir (api_client v) path mode uid gid w.
Definition api_rmdir (v : Vsfs) (path : string) (w : W) : late (Status * W) :=
  c_rmdir (api_client v) path w.

Definition api_create_index (v : Vsfs) (path name : string) (index_type key_type : Z) (w : W)
    : late (Status * W) :=
  c_create_index (api_client v) path name index_type key_type 511 uid gid w.
Definition api_destroy_index (v : Vsfs) (path name : string) (w : W) : late (Status * W) :=
  c_remove_index (api_client v) path name w.

Definition update_requests (op : Z) (name : string) (pairs : list (string * string))
    : list IndexUpdateRequest :=
  (λ p, {| req_op := op; req_file_path := p.1; req_index_name := name; req_key := p.2 |}) <$> pairs.
Definition update_records (v : Vsfs) (op : Z) (name : string) (pairs : list (string * string)) (w : W)
    : late (Status * W) :=
  c_update (api_client v) (update_requests op name pairs) w.
Definition api_update_index (v : Vsfs) (name : string) (pairs : list (string * string)) (w : W) :=
  update_records v OP_UPDATE name pairs w.
Definition api_remove_index (v : Vsfs) (name : string) (pairs : list (string * string)) (w : W) :=
  update_records v OP_REMOVE name pairs w.

Definition api_search (v : Vsfs) (query : string) (w : W) : late (Status * list string * W) :=
  AWAIT (status, cq) ⇐ Some (parse now new_query query);;
  if negb (ok status) then ends (status, [], w) else
  c_search (api_client v) cq w.
End vsfs.

(** The typed [update_index<Key>] for an integer type: the keys are printed. *)
Definition typed_pairs (pairs : list (string * Z)) : list (string * string) :=
  (λ p, (p.1, to_string p.2)) <$> pairs.

(** ** Integer keys *)

(** [boost::lexical_cast] reads back what [std::to_string] prints. *)
Class KeyCastsPrint `{KeyCasts} : Prop :=
  cast_int_print t z : int_fits t z → cast_int t (to_string z) = Some z.

Section keys.
Context `{!KeyCasts, !KeyCastsPrint}.

Lemma typed_requests_lookup op name pairs i file z :
  pairs !! i = Some (file, z) →
  update_requests op name (typed_pairs pairs) !! i
  = Some {| req_op := op; req_file_path := file; req_index_name := name; req_key := to_string z |}.
Proof. intros Hi. unfold update_requests, typed_pairs. by rewrite !list_lookup_fmap, Hi. Qed.

(** The integer keys given to the C++ API reach the index.  For every pair
    of a typed [update_index] or [remove_index], whatever the index's integer
    key type that the key fits in, the record sent to the index server
    decodes there to an insertion (for a removal, to a removal) of exactly
    that key with the object id of the file. *)
Theorem api_keys_reach_index t op name (pairs : list (string * Z)) (ids : gmap nat Z) :
  op = OP_UPDATE ∨ op = OP_REMOVE →
  Forall (λ p, int_fits t p.2) pairs → map_Forall (λ _ id, int_fits INT64 id) ids →
  mapM (decode_op (key_cast := cast_int t) (oid_cast := cast_int INT64))
    (record_of_request (update_requests op name (typed_pairs pairs)) ids <$> seq 0 (length pairs))
  = Some (imap (λ i p, (bool_decide (op = OP_UPDATE), p.2, default 0%Z (ids !! i))) pairs).
Proof.
  intros Hop Hk Hid. apply mapM_Some, Forall2_same_length_lookup. split.
  { by rewrite length_fmap, length_seq, length_imap. }
  intros i r d Hr Hd. rewrite list_lookup_fmap in Hr. rewrite list_lookup_imap in Hd.
  destruct (pairs !! i) as [[file z]|] eqn:Hi; [|done]. simpl in Hd. injection Hd as <-.
  rewrite lookup_seq_lt in Hr by (by eapply lookup_lt_Some). simpl in Hr. injection Hr as <-.
  unfold record_of_request. rewrite (typed_requests_lookup op name pairs i file z Hi). simpl.
  rewrite Forall_lookup in Hk. specialize (Hk _ _ Hi). simpl in Hk.
  assert (int_fits INT64 (default 0%Z (ids !! i))) as Hfit.
  { destruct (ids !! i) as [id|] eqn:E; [by eapply Hid|]. vm_compute. split; discriminate. }
  unfold decode_op, lexical_cast. simpl. rewrite (cast_int_print t z Hk). simpl.
  rewrite (cast_int_print INT64 _ Hfit). simpl. by destruct Hop as [-> | ->].
Qed.
End keys.

Section witnesses.

(** Decimal numbers, whatever the type. *)
#[local] Instance test_print_casts : KeyCasts := {|
  cast_int _ s := result_of (stoi s); cast_float _ _ := None; cast_string s := Some s |}.

Lemma stoi_to_string z : stoi (to_string z) = Done z.
Proof.
  destruct (Z.le_gt_cases 0 z) as [Hz|Hz]; [by apply pretty_port|].
  destruct z as [|x|x]; [lia|lia|]. unfold to_string, pretty, pretty_Z, pretty_positive.
  rewrite str_app_cons, str_app_nil_l. unfold stoi. simpl. unfold pretty, pretty_N.
  rewrite decide_False by done.
  pose proof (pretty_N_go_digits (Npos x) "") as Hd.
  destruct (pretty_N_go_head (Npos x) "") as (c&s'&d&E&Hc); [left; lia|].
  rewrite E in *. simpl in Hd. rewrite Hc in *.
  replace (0 * 10 + d)%N with d in Hd by lia. by rewrite Hd.
Qed.
#[local] Instance test_print_casts_spec : KeyCastsPrint.
Proof. intros t z _. simpl. by rewrite stoi_to_string. Qed.

Lemma api_keys_reach_index_witness :
  mapM (decode_op (key_cast := cast_int INT8) (oid_cast := cast_int INT64))
    (record_of_request (update_requests OP_UPDATE "energy" (typed_pairs [("/a", -5)%Z; ("/b", 7)%Z]))
       {[0 := 42%Z; 1 := 43%Z]} <$> [0; 1])
  = Some [(true, (-5)%Z, 42%Z); (true, 7%Z, 43%Z)].
Proof.
  refine (api_keys_reach_index INT8 OP_UPDATE "energy" [("/a", -5)%Z; ("/b", 7)%Z]
    {[0 := 42%Z; 1 := 43%Z]} _ _ _).
  - by left.
  - repeat constructor; vm_compute; discriminate.
  - apply map_Forall_insert_2; [vm_compute; split; discriminate|].
    apply map_Forall_singleton. vm_compute. split; discriminate.
Defined.
End witnesses.
