(* ===== verification/Commands.v ===== *)
(** * The command line tool (ui/cli/commands.cpp, commands.h, vsfs.cpp)

    [vsfs help], [vsfs search] and [vsfs index ...].  A command parses its
    arguments with getopt_long(3), a parameter, and runs on a [VSFSClient].
    The result of a run is what it prints on the standard output, the status,
    and the new state of the cluster.  The help texts are in [CommandHelp]. *)

From S2P Require Import Prelude CxxString Platform Posix IndexInfo ComplexQuery Client ClientIndex Api.
From Stdlib Require Import Ascii.
From Equations Require Import Equations.

(** ** Arguments *)

(** [has_arg] of [struct option], and the value an option returns. *)
Inductive has_arg := no_argument | required_argument | optional_argument.
Record LongOption := { lo_name : string; lo_arg : has_arg; lo_val : Z }.
Definition opt_char (c : ascii) : Z := Z.of_N (N_of_ascii c).

(** The options getopt_long finds, one after the other, each with its argument,
    and the words that are left from [optind] on. *)
Class Getopt := getopt_long : string → list LongOption → list string → list (Z * option string) * list string.

(** [lexical_cast<int>], [lexical_cast<uint64_t>] and
    [parse_type_string_to_int] (vobla). *)
Class CommandCasts := {
  cast_i32 : string → option Z;
  cast_u64 : string → option Z;
  parse_type_string_to_int : string → Z;
}.

Record Common := { cmd_host : string; cmd_port : Z; cmd_debug : bool; cmd_verbose : option Z }.
Definition set_host (h : string) (c : Common) :=
  {| cmd_host := h; cmd_port := cmd_port c; cmd_debug := cmd_debug c; cmd_verbose := cmd_verbose c |}.
Definition set_port (p : Z) (c : Common) :=
  {| cmd_host := cmd_host c; cmd_port := p; cmd_debug := cmd_debug c; cmd_verbose := cmd_verbose c |}.
Definition set_debug (c : Common) :=
  {| cmd_host := cmd_host c; cmd_port := cmd_port c; cmd_debug := true; cmd_verbose := cmd_verbose c |}.
Definition set_verbose (v : Z) (c : Common) :=
  {| cmd_host := cmd_host c; cmd_port := cmd_port c; cmd_debug := cmd_debug c; cmd_verbose := Some v |}.

Definition kDefaultMasterHost : string := "localhost".
Definition kDefaultMasterPort : Z := 9876.
Definition kDefaultBatchSize : Z := 10000.

(** [Command::Command]; a bad port number is only logged. *)
Definition new_command `{CommandCasts} (getenv : string → option string) : Common :=
  {| cmd_host := default kDefaultMasterHost (getenv "VSFS_HOST");
     cmd_port := match getenv "VSFS_PORT" with
                 | Some env => default kDefaultMasterPort (cast_i32 env)
                 | None => kDefaultMasterPort
                 end;
     cmd_debug := false; cmd_verbose := None |}.

(** The commands. *)
Inductive IndexOp := UPDATE_OP | REMOVE_OP.
Inductive IndexSub :=
  | CreateSub (c : Common) (root name : string) (index_type key_type : Z)
  | DestroySub (c : Common) (root name : string)
  | UpdateSub (c : Common) (op : IndexOp) (name : string) (use_stdin : bool) (batch_size : Z)
      (data : gmap string (list string))
  | ListSub (c : Common) (path : string) (recursive : bool).
Inductive Command :=
  | HelpCommand (sub_command : string)
  | SearchCommand (c : Common) (query : string)
  | IndexCommand (sub : option IndexSub).

Section commands.
Context `{CommandCasts, Getopt}.
Context (getenv : string → option string).

(** A loop over the options: [None] is [return -1], [Fatal] an uncaught
    [bad_lexical_cast]. *)
Fixpoint opt_loop {A} (step : A → Z → option string → run (option A))
    (opts : list (Z * option string)) (a : A) : run (option A) :=
  match opts with
  | [] => Done (Some a)
  | (ch, optarg) :: opts' =>
      a ← step a ch optarg;
      match a with None => Done None | Some a => opt_loop step opts' a end
  end.

Definition arg (optarg : option string) : string := default "" optarg.
Definition must_cast (r : option Z) : run Z :=
  match r with Some z => Done z | None => Fatal "bad_lexical_cast" end.

(** [set_verbose_level(optarg)] *)
Definition set_verbose_level (level : option string) (c : Common) : run Common :=
  v ← match level with None => Done 0%Z | Some level => must_cast (cast_i32 level) end;
  Done (set_verbose v c).

(** The options all commands share: host and port. *)
Definition server_option (c : Common) (ch : Z) (optarg : option string) : run (option Common) :=
  if Z.eqb ch (opt_char "p") then p ← must_cast (cast_i32 (arg optarg)); Done (Some (set_port p c))
  else if Z.eqb ch (opt_char "H") then Done (Some (set_host (arg optarg) c))
  else Done None.
(** ... and verbosity and debug mode. *)
Definition common_option (debug : Z) (c : Common) (ch : Z) (optarg : option string) : run (option Common) :=
  if Z.eqb ch debug then Done (Some (set_debug c))
  else if Z.eqb ch (opt_char "v") then c ← set_verbose_level optarg c; Done (Some c)
  else server_option c ch optarg.

Definition long (name : string) (a : has_arg) (val : Z) : LongOption :=
  {| lo_name := name; lo_arg := a; lo_val := val |}.

(** [HelpCommand::parse_args]; [argv] starts with the name of the command. *)
Definition help_parse_args (argv : list string) : Z * Command :=
  match argv with
  | _ :: sub :: _ => (0%Z, HelpCommand sub)
  | _ => ((-1)%Z, HelpCommand "")
  end.

(** [SearchCommand::parse_args] *)
Definition search_longopts : list LongOption :=
  [long "help" no_argument (opt_char "h"); long "debug" no_argument 1;
   long "port" required_argument (opt_char "p"); long "host" required_argument (opt_char "H");
   long "verbose" optional_argument (opt_char "v")].
Definition search_parse_args (c : Common) (argv : list string) : run (Z * Command) :=
  let '(opts, rest) := getopt_long "hp:H:v:" search_longopts argv in
  r ← opt_loop (common_option 1) opts c;
  match r, rest with
  | Some c, query :: _ => Done (0%Z, SearchCommand c query)
  | _, _ => Done ((-1)%Z, SearchCommand c "")
  end.

(** [IndexCreateCommand::parse_args] *)
Definition create_longopts : list LongOption :=
  [long "help" no_argument (opt_char "h"); long "type" required_argument (opt_char "t");
   long "key" required_argument (opt_char "k"); long "debug" no_argument (opt_char "d");
   long "verbose" optional_argument (opt_char "v"); long "host" required_argument (opt_char "H");
   long "port" required_argument (opt_char "p")].
Definition create_step (s : Common * Z * Z) (ch : Z) (optarg : option string)
    : run (option (Common * Z * Z)) :=
  let '(c, index_type, key_type) := s in
  if Z.eqb ch (opt_char "t") then Done (Some (c, string_to_index_type (arg optarg), key_type))
  else if Z.eqb ch (opt_char "k") then Done (Some (c, index_type, parse_type_string_to_int (arg optarg)))
  else c ← common_option (opt_char "d") c ch optarg; Done (option_map (λ c, (c, index_type, key_type)) c).
Definition create_parse_args (c : Common) (argv : list string) : run (Z * IndexSub) :=
  let failed := CreateSub c "" "" 0 0 in
  let '(opts, rest) := getopt_long "ht:k:dv:H:p:" create_longopts argv in
  r ← opt_loop create_step opts (c, 0%Z, 0%Z);
  match r with
  | None => Done ((-1)%Z, failed)
  | Some (c, index_type, key_type) =>
      match rest with
      | root :: name :: _ =>
          if Z.eqb index_type (-1) || Z.eqb key_type (-1) then Done ((-1)%Z, failed)
          else Done (0%Z, CreateSub c root name index_type key_type)
      | _ => Done ((-1)%Z, failed)
      end
  end.

(** [IndexDestroyCommand::parse_args] *)
Definition destroy_longopts : list LongOption :=
  [long "help" no_argument (opt_char "h"); long "debug" no_argument (opt_char "d");
   long "verbose" optional_argument (opt_char "v"); long "host" required_argument (opt_char "H");
   long "port" required_argument (opt_char "p")].
Definition destroy_parse_args (c : Common) (argv : list string) : run (Z * IndexSub) :=
  let '(opts, rest) := getopt_long "ht:k:dv:H:p:" destroy_longopts argv in
  r ← opt_loop (common_option (opt_char "d")) opts c;
  match r, rest with
  | Some c, root :: name :: _ => Done (0%Z, DestroySub c root name)
  | _, _ => Done ((-1)%Z, DestroySub c "" "")
  end.

(** [IndexUpdateCommand::parse_args]: the words after the name of the index are
    pairs of a file and a key. *)
Definition update_longopts : list LongOption :=
  [long "help" no_argument (opt_char "h"); long "stdin" no_argument (opt_char "s");
   long "debug" no_argument (opt_char "d"); long "verbose" optional_argument (opt_char "v");
   long "host" required_argument (opt_char "H"); long "port" required_argument (opt_char "p");
   long "batch" required_argument (opt_char "b")].
Definition update_step (s : Common * bool * Z) (ch : Z) (optarg : option string)
    : run (option (Common * bool * Z)) :=
  let '(c, use_stdin, batch_size) := s in
  if Z.eqb ch (opt_char "s") then Done (Some (c, true, batch_size))
  else if Z.eqb ch (opt_char "b") then
    b ← must_cast (cast_u64 (arg optarg)); Done (Some (c, use_stdin, b))
  else c ← common_option (opt_char "d") c ch optarg; Done (option_map (λ c, (c, use_stdin, batch_size)) c).
Fixpoint add_pairs (words : list string) (data : gmap string (list string)) : gmap string (list string) :=
  match words with
  | file :: key :: words' => add_pairs words' (<[file := default [] (data !! file) ++ [key]]> data)
  | _ => data
  end.
Definition update_parse_args (c : Common) (op : IndexOp) (argv : list string) : run (Z * IndexSub) :=
  let failed := UpdateSub c op "" false kDefaultBatchSize ∅ in
  let '(opts, rest) := getopt_long "hsdv:H:p:b:" update_longopts argv in
  r ← opt_loop update_step opts (c, false, kDefaultBatchSize);
  match r, rest with
  | Some (c, use_stdin, batch_size), name :: words =>
      if Nat.odd (length words) then Done ((-1)%Z, failed)
      else Done (0%Z, UpdateSub c op name use_stdin batch_size (add_pairs words ∅))
  | _, _ => Done ((-1)%Z, failed)
  end.

(** [IndexListCommand::parse_args] *)
Definition list_longopts : list LongOption :=
  [long "help" no_argument (opt_char "h"); long "port" required_argument (opt_char "p");
   long "host" required_argument (opt_char "H"); long "recursive" no_argument (opt_char "r")].
Definition list_step (s : Common * bool) (ch : Z) (optarg : option string) : run (option (Common * bool)) :=
  if Z.eqb ch (opt_char "r") then Done (Some (s.1, true))
  else c ← server_option s.1 ch optarg; Done (option_map (λ c, (c, s.2)) c).
Definition list_parse_args (c : Common) (argv : list string) : run (Z * IndexSub) :=
  let '(opts, rest) := getopt_long "hp:H:v:r" list_longopts argv in
  r ← opt_loop list_step opts (c, false);
  match r, rest with
  | Some (c, recursive), path :: _ => Done (0%Z, ListSub c path recursive)
  | _, _ => Done ((-1)%Z, ListSub c "" false)
  end.

(** [IndexCommand::parse_args] *)
Definition index_parse_args (argv : list string) : run (Z * Command) :=
  let c := new_command getenv in
  let sub (r : run (Z * IndexSub)) := '(ret, s) ← r; Done (ret, IndexCommand (Some s)) in
  match argv with
  | _ :: ((subcmd :: _) as argv') =>
      if bool_decide (subcmd = "create") then sub (create_parse_args c argv')
      else if bool_decide (subcmd = "destroy") then sub (destroy_parse_args c argv')
      else if bool_decide (subcmd = "insert") then sub (update_parse_args c UPDATE_OP argv')
      else if bool_decide (subcmd = "remove") then sub (update_parse_args c REMOVE_OP argv')
      else if bool_decide (subcmd = "list") then sub (list_parse_args c argv')
      else Done ((-1)%Z, IndexCommand None)
  | _ => Done ((-1)%Z, IndexCommand None)
  end.

(** [Command::create_command] and [parse_args] of what it creates; [None] is an
    unknown command. *)
Definition parse_command (subcmd : string) (argv : list string) : option (run (Z * Command)) :=
  if bool_decide (subcmd = "help") || bool_decide (subcmd = "-h") || bool_decide (subcmd = "--help")
  then Some (Done (help_parse_args argv))
  else if bool_decide (subcmd = "search") then Some (search_parse_args (new_command getenv) argv)
  else if bool_decide (subcmd = "index") then Some (index_parse_args argv)
  else None.
End commands.

(** ** Running a command *)

Section runs.
Context {C W : Type} `{VSFSClient C W} `{LexicalCast Z}.
(** The time and the user; [fs::absolute]; vobla's [tokenize] and the names of
    the key types; the bound on the depth of a recursive listing. *)
Context (now uid gid : Z) (absolute : string → string) (tokenize : string → list string).
Context (key_type_string : Z → string) (fuel : nat).

Abbreviation result := (late (Status * list string * W)).

Definition with_client (c : Common) (body : C → W → result) (w : W) : result :=
  AWAIT (status, client, w) ⇐ c_init (c_new (cmd_host c) (cmd_port c)) w;;
  if negb (ok status) then ends (status, [], w) else body client w.

(** [SearchCommand::run]: the status of the search is not returned. *)
Definition search_run (c : Common) (query_ : string) (w : W) : result :=
  AWAIT (status, query) ⇐ Some (parse now new_query query_);;
  if negb (ok status) then ends (status, [], w) else
  with_client c (λ client w,
    AWAIT (_, files, w) ⇐ c_search client query w;; ends (OK, files, w)) w.

Definition create_run (c : Common) (root name : string) (index_type key_type : Z) (w : W) : result :=
  with_client c (λ client w,
    AWAIT (status, w) ⇐ c_create_index client root name index_type key_type 493 uid gid w;;
    ends (status, [], w)) w.

Definition destroy_run (c : Common) (root name : string) (w : W) : result :=
  with_client c (λ client w,
    AWAIT (status, w) ⇐ c_remove_index client root name w;; ends (status, [], w)) w.

(** *** [IndexUpdateCommand::run] *)

Definition parse_record (buf : string) : option (string * string) :=
  if str_empty buf then None
  else match tokenize buf with [path; key] => Some (path, key) | _ => None end.

Definition request_op (op : IndexOp) : Z :=
  match op with UPDATE_OP => OP_INSERT | REMOVE_OP => OP_REMOVE end.
Definition request_of (op : IndexOp) (name : string) (record : string * string) : IndexUpdateRequest :=
  {| req_op := request_op op; req_file_path := absolute record.1; req_index_name := name;
     req_key := record.2 |}.

(** The last call, for what has not been sent yet. *)
Definition send_rest (client : C) (updates : list IndexUpdateRequest) (status : Status) (w : W)
    : late (Status * W) :=
  match updates with
  | [] => ends (status, w)
  | _ => c_update client updates w
  end.

(** The loop over the lines of the standard input. *)
Fixpoint stdin_loop (client : C) (op : IndexOp) (name : string) (batch_size : Z) (lines : list string)
    (updates : list IndexUpdateRequest) (status : Status) (w : W) : late (Status * W) :=
  match lines with
  | [] => send_rest client updates status w
  | buf :: lines' =>
      if str_empty buf then stdin_loop client op name batch_size lines' updates status w
      else match parse_record buf with
           | None => ends (Err (- EINVAL) "Wrong index record format.", w)
           | Some record =>
               let updates := updates ++ [request_of op name record] in
               if (batch_size <=? Z.of_nat (length updates))%Z then
                 AWAIT (status, w) ⇐ c_update client updates w;;
                 if negb (ok status) then ends (status, w)
                 else stdin_loop client op name batch_size lines' [] status w
               else stdin_loop client op name batch_size lines' updates status w
           end
  end.

(** The records of the command line, in the order of the hash map. *)
Definition data_requests (op : IndexOp) (name : string) (data : gmap string (list string))
    : list IndexUpdateRequest :=
  map_to_list data ≫= λ p, (λ key, request_of op name (p.1, key)) <$> p.2.

Definition update_run (c : Common) (op : IndexOp) (name : string) (use_stdin : bool) (batch_size : Z)
    (data : gmap string (list string)) (stdin : list string) (w : W) : result :=
  with_client c (λ client w,
    AWAIT (status, w) ⇐ (if use_stdin then stdin_loop client op name batch_size stdin [] OK w
                         else c_update client (data_requests op name data) w);;
    ends (status, [], w)) w.

(** *** [IndexListCommand::run] *)

Definition info_line (info : IndexInfo) : string :=
  "  - " +:+ index_name_ info +:+ " (" +:+ index_type_to_string (index_type_ info) +:+ ", "
  +:+ key_type_string (key_type_ info) +:+ ")".

Definition print_infos (client : C) (path : string) (w : W) : result :=
  AWAIT (status, infos, w) ⇐ c_get_index_infos client path false w;;
  if negb (ok status) then ends (status, [], w) else
  ends (OK, (match infos with [] => [] | _ => ["Indices on: " +:+ path] end) ++ (info_line <$> infos), w).

(** The loop over the entries of a directory; [print] is the recursive call. *)
Fixpoint list_subfiles (print : string → W → result) (client : C) (path : string) (stbuf : Stat)
    (subfiles : list string) (w : W) : result :=
  match subfiles with
  | [] => ends (OK, [], w)
  | subfile :: subfiles' =>
      if bool_decide (subfile = ".vsfs") then list_subfiles print client path stbuf subfiles' w else
      let subfile_path := path +:+ "/" +:+ subfile in
      AWAIT (status, stbuf, w) ⇐ c_getattr client subfile_path stbuf w;;
      if negb (ok status) then ends (status, [], w) else
      if S_ISDIR (st_mode stbuf) && negb (S_ISLNK (st_mode stbuf)) then
        AWAIT (status, out, w) ⇐ print subfile_path w;;
        if negb (ok status) then ends (status, out, w) else
        AWAIT (status, out', w) ⇐ list_subfiles print client path stbuf subfiles' w;;
        ends (status, out ++ out', w)
      else list_subfiles print client path stbuf subfiles' w
  end.

Fixpoint print_index_info (depth : nat) (client : C) (junk : Stat) (path : string) (recursive : bool)
    (w : W) : result :=
  match depth with
  | 0 => None
  | S depth' =>
      if recursive then
        AWAIT (status, subfiles, w) ⇐ c_readdir client path w;;
        if negb (ok status) then ends (status, [], w) else
        AWAIT (status, out, w) ⇐
          list_subfiles (λ p w, print_index_info depth' client junk p recursive w) client path junk
            (default [] subfiles) w;;
        if negb (ok status) then ends (status, out, w) else
        AWAIT (status, out', w) ⇐ print_infos client path w;;
        ends (status, out ++ out', w)
      else print_infos client path w
  end.

Definition list_run (c : Common) (junk : Stat) (path : string) (recursive : bool) (w : W) : result :=
  with_client c (λ client w, print_index_info fuel client junk path recursive w) w.

(** *** [run] and [main] *)

Definition run_command (junk : Stat) (cmd : Command) (stdin : list string) (w : W) : result :=
  match cmd with
  | HelpCommand sub =>
      if str_empty sub || bool_decide (sub = "search") || bool_decide (sub = "index")
      then ends (OK, [], w) else ends (Err (-1) "Unknown command", [], w)
  | SearchCommand c query => search_run c query w
  | IndexCommand None => ends (Err (- EINVAL) "Invalid command", [], w)
  | IndexCommand (Some (CreateSub c root name it kt)) => create_run c root name it kt w
  | IndexCommand (Some (DestroySub c root name)) => destroy_run c root name w
  | IndexCommand (Some (UpdateSub c op name use_stdin batch_size data)) =>
      update_run c op name use_stdin batch_size data stdin w
  | IndexCommand (Some (ListSub c path recursive)) => list_run c junk path recursive w
  end.

(** The exit code, what is printed, and the state of the cluster; [argv] is
    without the name of the program. *)
Definition main `{CommandCasts, Getopt, VoblaStatus} (getenv : string → option string) (junk : Stat)
    (argv : list string) (stdin : list string) (w : W) : late (Z * list string * W) :=
  match argv with
  | [] => ends (1%Z, [], w)
  | subcmd :: _ =>
      match parse_command getenv subcmd argv with
      | None => ends (1%Z, [], w)
      | Some parsed =>
          AWAIT (ret, cmd) ⇐ Some parsed;;
          if negb (Z.eqb ret 0) then ends (ret, [], w) else
          AWAIT (status, out, w) ⇐ run_command junk cmd stdin w;;
          ends (error_of status, out, w)
      end
  end.
End runs.

(** ** The batches of records *)

(** Pieces of [n + 1] elements, and a last one with the rest. *)
Equations? chunks {A} (n : nat) (l : list A) : list (list A) by wf (length l) lt :=
  chunks n [] := [];
  chunks n (x :: l) := take (S n) (x :: l) :: chunks n (drop (S n) (x :: l)).
Proof. simpl. rewrite length_drop. lia. Qed.

Section chunk_lemmas.
Context {A : Type}.
Implicit Types (l : list A) (n : nat).

Lemma chunks_short n l : l ≠ [] → length l ≤ S n → chunks n l = [l].
Proof.
  destruct l as [|x l]; [done|]. intros _ Hl. simp chunks.
  rewrite take_ge, drop_ge by done. by simp chunks.
Qed.
Lemma chunks_app n b l : length b = S n → chunks n (b ++ l) = b :: chunks n l.
Proof.
  destruct b as [|x b]; [done|]. intros Hb. rewrite <-app_comm_cons. simp chunks.
  by rewrite app_comm_cons, take_app_length', drop_app_length' by done.
Qed.
Lemma chunks_concat n l : concat (chunks n l) = l.
Proof. funelim (chunks n l); simp chunks; [done|]. cbn [concat]. rewrite H. apply take_drop. Qed.
Lemma chunks_size n l b : b ∈ chunks n l → 0 < length b ≤ S n.
Proof.
  funelim (chunks n l); simp chunks; [by intros ?%elem_of_nil|].
  intros [->|Hb]%elem_of_cons; [|by apply H]. rewrite length_take. simpl. lia.
Qed.
End chunk_lemmas.

Section batch_lemmas.
Context {C W : Type} `{!VSFSClient C W}.
Context (absolute : string → string) (tokenize : string → list string).

(** One call of [update] per batch, up to the first that fails. *)
Fixpoint send_all (client : C) (batches : list (list IndexUpdateRequest)) (status : Status) (w : W)
    : late (Status * W) :=
  match batches with
  | [] => ends (status, w)
  | batch :: batches' =>
      AWAIT (status, w) ⇐ c_update client batch w;;
      if negb (ok status) then ends (status, w) else send_all client batches' status w
  end.

(** The requests of the lines that are not empty. *)
Definition line_requests (op : IndexOp) (name : string) (lines : list string)
    : option (list IndexUpdateRequest) :=
  records ← mapM (parse_record tokenize) (filter (λ l, str_empty l = false) lines);
  Some (request_of absolute op name <$> records).

Lemma send_all_last client b status w :
  send_all client [b] status w = c_update client b w.
Proof.
  simpl. destruct (c_update client b w) as [[[st w']|]|]; simpl; [|done..]. by destruct (ok st).
Qed.

Lemma stdin_loop_chunks client op name batch_size lines requests updates status w :
  line_requests op name lines = Some requests →
  length updates < S (Z.to_nat (batch_size - 1)) →
  stdin_loop absolute tokenize client op name batch_size lines updates status w
  = send_all client (chunks (Z.to_nat (batch_size - 1)) (updates ++ requests)) status w.
Proof.
  set (n := Z.to_nat (batch_size - 1)).
  revert requests updates status w. induction lines as [|buf lines IH]; intros requests updates status w Hr Hu.
  { injection Hr as <-. rewrite app_nil_r. simpl. destruct updates as [|u updates]; [by simp chunks|].
    rewrite chunks_short by (done || lia). by rewrite send_all_last. }
  unfold line_requests in Hr. rewrite filter_cons in Hr. simpl. destruct (str_empty buf) eqn:Hb.
  { rewrite decide_False in Hr by done. by apply IH. }
  rewrite decide_True in Hr by done. simpl in Hr.
  destruct (parse_record tokenize buf) as [record|] eqn:Hp; [|done]. simpl in Hr.
  destruct (mapM (parse_record tokenize) (filter _ lines)) as [records|] eqn:Hm; [|done].
  assert (requests = request_of absolute op name record :: (request_of absolute op name <$> records))
    as -> by (by injection Hr).
  assert (line_requests op name lines = Some (request_of absolute op name <$> records)) as Hl.
  { unfold line_requests. by rewrite Hm. }
  set (req := request_of absolute op name record).
  set (rest := request_of absolute op name <$> records) in *.
  assert (updates ++ req :: rest = (updates ++ [req]) ++ rest) as -> by by rewrite <-app_assoc.
  destruct (Z.leb_spec batch_size (Z.of_nat (length (updates ++ [req]))))
    as [Hfull|Hmore].
  - rewrite length_app in Hfull. simpl in Hfull.
    rewrite (chunks_app n (updates ++ [req]) rest) by (rewrite length_app; simpl; unfold n in *; lia).
    simpl.
    destruct (c_update client _ w) as [[[st w']|]|]; simpl; [|done..].
    destruct (ok st); simpl; [|done]. rewrite (IH _ [] st w' Hl); [done|simpl; lia].
  - rewrite length_app in Hmore. simpl in Hmore.
    apply IH; [done|]. rewrite length_app. simpl. unfold n in *. lia.
Qed.

(** [vsfs index insert --stdin] sends every record once, in order.  When
    all lines that are not empty parse, the tool's calls of [update] are the
    requests of the lines cut into pieces of the batch size (of one, if the
    size is 0) and a last piece with the rest, one call per piece until one
    fails; the pieces together are all the requests, in the order of the
    lines, and none is empty or larger than the batch size. *)
Theorem stdin_batches client op name batch_size lines requests w :
  line_requests op name lines = Some requests →
  ∃ batches,
    stdin_loop absolute tokenize client op name batch_size lines [] OK w = send_all client batches OK w ∧
    concat batches = requests ∧
    ∀ b, b ∈ batches → (0 < Z.of_nat (length b) ≤ Z.max 1 batch_size)%Z.
Proof.
  intros Hr. exists (chunks (Z.to_nat (batch_size - 1)) requests). split_and!.
  - rewrite (stdin_loop_chunks client op name batch_size lines requests [] OK w Hr); [done|simpl; lia].
  - apply chunks_concat.
  - intros b Hb%chunks_size. lia.
Qed.
End batch_lemmas.

(** ** The pairs of the command line *)

Section pair_lemmas.
Context (absolute : string → string).

Fixpoint word_pairs (words : list string) : list (string * string) :=
  match words with
  | file :: key :: words' => (file, key) :: word_pairs words'
  | _ => []
  end.

Definition data_pairs (data : gmap string (list string)) : list (string * string) :=
  map_to_list data ≫= λ p, pair p.1 <$> p.2.

Lemma data_pairs_insert data file keys :
  data !! file = None → data_pairs (<[file := keys]> data) ≡ₚ (pair file <$> keys) ++ data_pairs data.
Proof. intros Hf. unfold data_pairs. rewrite map_to_list_insert by done. by rewrite bind_cons. Qed.

Lemma data_pairs_add data file key :
  data_pairs (<[file := default [] (data !! file) ++ [key]]> data) ≡ₚ data_pairs data ++ [(file, key)].
Proof.
  destruct (data !! file) as [keys|] eqn:Hf; simpl.
  - rewrite <-insert_delete_eq, data_pairs_insert by apply lookup_delete_eq.
    rewrite <-(insert_delete_id data file keys Hf) at 2.
    rewrite data_pairs_insert by apply lookup_delete_eq. rewrite fmap_app. simpl. solve_Permutation.
  - rewrite data_pairs_insert by done. simpl. by rewrite Permutation_app_comm.
Qed.

Lemma add_pairs_spec words data :
  data_pairs (add_pairs words data) ≡ₚ data_pairs data ++ word_pairs words.
Proof.
  revert words data. fix IH 1. intros [|file [|key words]] data; simpl.
  - by rewrite app_nil_r.
  - by rewrite app_nil_r.
  - rewrite IH, data_pairs_add. by rewrite <-app_assoc.
Qed.

Lemma data_requests_pairs op name data :
  data_requests absolute op name data = request_of absolute op name <$> data_pairs data.
Proof.
  unfold data_requests, data_pairs. induction (map_to_list data) as [|p l IH]; [done|].
  rewrite !bind_cons, fmap_app, IH. f_equal. by rewrite <-list_fmap_compose.
Qed.

(** The pairs on the command line are sent.  When the words after the name
    of the index come in pairs, [vsfs index insert] and [vsfs index remove]
    accept them and ask for one update of all of them: each pair of a file
    and a key is there as often as it was given, with the file's absolute
    path; a word without a partner is refused. *)
Theorem command_line_pairs `{!CommandCasts, !Getopt} c op argv name words :
  getopt_long "hsdv:H:p:b:" update_longopts argv = ([], name :: words) →
  if Nat.odd (length words)
  then ∃ s, update_parse_args c op argv = Done ((-1)%Z, s)
  else ∃ data, update_parse_args c op argv = Done (0%Z, UpdateSub c op name false kDefaultBatchSize data) ∧
    data_requests absolute op name data ≡ₚ request_of absolute op name <$> word_pairs words.
Proof.
  intros Hg. unfold update_parse_args. rewrite Hg. simpl. destruct (Nat.odd (length words)); [by eexists|].
  exists (add_pairs words ∅). split; [done|]. by rewrite data_requests_pairs, add_pairs_spec.
Qed.
End pair_lemmas.

Section witnesses.

(** A client that records the updates it is given. *)
#[local] Instance recording_client : VSFSClient () (list (list IndexUpdateRequest)) := {|
  c_new _ _ := (); c_init c w := ends (OK, c, w); c_mkdir _ _ _ _ _ w := ends (OK, w);
  c_rmdir _ _ w := ends (OK, w); c_readdir _ _ w := ends (OK, None, w);
  c_create _ _ _ _ _ w := ends (OK, None, w); c_open _ _ w := ends (OK, None, w);
  c_unlink _ _ w := ends (OK, None, w); c_getattr _ _ st w := ends (OK, st, w);
  c_create_index _ _ _ _ _ _ _ _ w := ends (OK, w); c_remove_index _ _ _ w := ends (OK, w);
  c_search _ _ w := ends (OK, [], w); c_update _ requests w := ends (OK, w ++ [requests]);
  c_get_index_infos _ _ _ w := ends (OK, [], w) |}.
(** Words of one character. *)
Fixpoint one_char_words (s : string) : list string :=
  match s with
  | EmptyString => []
  | String c s' => if Ascii.is_space c then one_char_words s' else String c "" :: one_char_words s'
  end.

Definition req_xy (p k : string) : IndexUpdateRequest := request_of id UPDATE_OP "i" (p, k).

Lemma stdin_batches_witness :
  ∃ batches,
    stdin_loop id one_char_words () UPDATE_OP "i" 2 ["a 1"; ""; "b 2"; "c 3"] [] OK [] =
      send_all () batches OK [] ∧
    concat batches = [req_xy "a" "1"; req_xy "b" "2"; req_xy "c" "3"] ∧
    ∀ b, b ∈ batches → (0 < Z.of_nat (length b) ≤ Z.max 1 2)%Z.
Proof.
  refine (stdin_batches id one_char_words () UPDATE_OP "i" 2 ["a 1"; ""; "b 2"; "c 3"] _ [] _).
  vm_compute. reflexivity.
Defined.

#[local] Instance no_casts : CommandCasts := {|
  cast_i32 _ := None; cast_u64 _ := None; parse_type_string_to_int _ := (-1)%Z |}.
#[local] Instance no_options : Getopt := λ _ _ argv, ([], drop 1 argv).
Definition plain_common : Common :=
  {| cmd_host := "localhost"; cmd_port := 9876; cmd_debug := false; cmd_verbose := None |}.

Lemma command_line_pairs_witness :
  ∃ data, update_parse_args plain_common UPDATE_OP ["insert"; "i"; "a"; "1"; "a"; "2"]
          = Done (0%Z, UpdateSub plain_common UPDATE_OP "i" false kDefaultBatchSize data) ∧
    data_requests id UPDATE_OP "i" data ≡ₚ [req_xy "a" "1"; req_xy "a" "2"].
Proof.
  exact (command_line_pairs id plain_common UPDATE_OP ["insert"; "i"; "a"; "1"; "a"; "2"] "i"
    ["a"; "1"; "a"; "2"] eq_refl).
Defined.
End witnesses.
