(* ===== verification/CommandHelp.v ===== *)
(** * The help texts of the command line tool (ui/cli/commands.cpp)

    What the tool writes on the standard error: the help of every command, the
    messages about wrong arguments and about failures.  The options a help text
    names are compared with those the command takes. *)

From S2P Require Import Prelude CxxString Platform Posix Client Api Commands.
From Stdlib Require Import Ascii.

(** ** Texts *)

Definition nl : string := String (ascii_of_nat 10) "".
Definition tabs (n : nat) : string := Nat.iter n (String (ascii_of_nat 9)) "".
(** An option, its description [n] tabs later. *)
Definition option_line (opt : string) (n : nat) (text : string) : string := "  " +:+ opt +:+ tabs n +:+ text +:+ nl.
Definition further_help : string := nl +:+ "Further help:" +:+ nl +:+ "  man vsfs" +:+ nl.

Definition help_help : string :=
  "Usage: vsfs {-h|--help} command [options] [ARGS]" +:+ nl +:+ "Global Options:" +:+ nl +:+
  option_line "-h, --help" 2 "display this help information." +:+
  "Supported Commands" +:+ nl +:+
  option_line "help" 3 "print detail help on each command." +:+
  option_line "search" 2 "run complex query." +:+
  option_line "index" 3 "index files." +:+ further_help.

Definition search_help : string :=
  "Usage: vsfs search [options] QUERY" +:+ nl +:+ "Options:" +:+ nl +:+
  option_line "-h, --help" 3 "display this help information." +:+
  option_line "-d, --debug" 3 "run in debug mode." +:+
  option_line "-v, --verbose[=LEVEL]" 2 "Run in verbose mode." +:+
  option_line "-H, --host STR" 2 "set the address of the master node." +:+
  option_line "-p, --port NUM" 2 "set the port of the master node." +:+
  option_line "-r, --root PATH" 2 "sets the root path of file query." +:+
  option_line "--profile" 3 "set to profile operation." +:+ nl.

(** The lines that the subcommands of [index] share. *)
Definition server_lines : string :=
  option_line "-H, --host" 3 "Set the master address." +:+ option_line "-p, --port" 3 "Set the master port.".
Definition common_lines : string :=
  option_line "-h, --help" 3 "Show this help." +:+ option_line "--debug" 3 "Run in debug mode." +:+
  option_line "-v, --verbose[=LEVEL]" 2 "Run in verbose mode and level." +:+ server_lines.

Definition create_help : string :=
  "Usage: vsfs index create [options] DIR NAME" +:+ nl +:+ "Options:" +:+ nl +:+ common_lines +:+
  option_line "-t, --type TYPE" 2 "Set the index type (btree, hash)." +:+
  option_line "-k, --key TYPE" 2 "Set the key type ({u}int{8,16,32,64}, float, double, string)." +:+
  nl +:+ further_help.

Definition destroy_help : string :=
  "Usage: vsfs index destroy [options] DIR NAME" +:+ nl +:+ "Options:" +:+ nl +:+ common_lines +:+
  nl +:+ further_help.

Definition update_help (op : IndexOp) : string :=
  "Usage: vsfs index " +:+ (match op with UPDATE_OP => "insert" | REMOVE_OP => "remove" end) +:+
  " [options] NAME [FILE KEY]..." +:+ nl +:+ "General Options:" +:+ nl +:+ common_lines +:+
  option_line "-s, --stdin" 3 "Read indexing metadata from stdin." +:+
  option_line "-b, --batch NUM" 2 "Set the batch size to send records." +:+ nl +:+ further_help.

Definition list_help : string :=
  "Usage: vsfs index list [options] PATH" +:+ nl +:+ "Options:" +:+ nl +:+
  option_line "-h, --help" 3 "Show this help." +:+ server_lines +:+
  "  -r, --recursive" +:+ tabs 2 +:+ "Recusively list out all indices." +:+ nl +:+ further_help.

Definition index_help : string :=
  "Usage: vsfs index {create|destroy|insert|remove|stat|list} [options] ARG..." +:+ nl +:+ further_help.

(** [print_help] of a command. *)
Definition print_help (cmd : Command) : string :=
  match cmd with
  | HelpCommand _ => help_help
  | SearchCommand _ _ => search_help
  | IndexCommand None => index_help
  | IndexCommand (Some (CreateSub _ _ _ _ _)) => create_help
  | IndexCommand (Some (DestroySub _ _ _)) => destroy_help
  | IndexCommand (Some (UpdateSub _ op _ _ _ _)) => update_help op
  | IndexCommand (Some (ListSub _ _ _)) => list_help
  end.

(** [HelpCommand::run] and [usage()]. *)
Definition help_run (sub_command : string) : Status * string :=
  if str_empty sub_command then (OK, help_help)
  else if bool_decide (sub_command = "search") then (OK, search_help)
  else if bool_decide (sub_command = "index") then (OK, index_help)
  else (Err (-1) "Unknown command", "Error: unknown command: " +:+ sub_command +:+ "." +:+ nl).
Definition usage : string := (help_run "").2.

(** ** What [main] writes on the standard error

    The messages of the parsers come before the help. *)
Section main.
Context `{CommandCasts, Getopt, VoblaStatus}.
Context (getenv : string → option string).

(** [create_command]: the name of an unknown command, and the usage. *)
Definition unknown_command (subcmd : string) : string := "Error: Unknown command: " +:+ subcmd +:+ nl +:+ usage.

(** [main], for a command whose run ends with [status]. *)
Definition main_stderr (parser_messages : string) (argv : list string) (status : Status) : run string :=
  match argv with
  | [] => Done usage
  | subcmd :: _ =>
      match parse_command getenv subcmd argv with
      | None => Done (unknown_command subcmd)
      | Some parsed =>
          '(ret, cmd) ← parsed;
          if negb (Z.eqb ret 0) then
            Done (parser_messages +:+ if Z.eqb ret (-1) then print_help cmd else "")
          else
            let run_messages := match cmd with HelpCommand sub => (help_run sub).2 | _ => "" end in
            Done (parser_messages +:+ run_messages +:+
                  if ok status then "" else "Failed: " +:+ message_of status +:+ nl)
      end
  end.
End main.

(** ** The options a text names *)

Definition is_lower (c : ascii) : bool := bool_decide (97 ≤ nat_of_ascii c ≤ 122).
Fixpoint read_name (s : string) : string :=
  match s with
  | String c s' => if is_lower c then String c (read_name s') else ""
  | EmptyString => ""
  end.
(** The names after two hyphens. *)
Fixpoint documented (s : string) : list string :=
  match s with
  | String "-" ((String "-" s'') as s') =>
      match read_name s'' with EmptyString => documented s' | name => name :: documented s' end
  | String _ s' => documented s'
  | EmptyString => []
  end.

(** A text names the long options of a command, and nothing else. *)
Definition documents (text : string) (opts : list LongOption) : Prop :=
  ∀ name, name ∈ documented text ↔ name ∈ (lo_name <$> opts).

Lemma documents_dec (text : string) (opts : list LongOption) :
  forallb (λ name, bool_decide (name ∈ lo_name <$> opts)) (documented text) &&
  forallb (λ name, bool_decide (name ∈ documented text)) (lo_name <$> opts) = true →
  documents text opts.
Proof.
  rewrite andb_true_iff, !forallb_forall. setoid_rewrite bool_decide_eq_true.
  setoid_rewrite <-list_elem_of_In. intros [H1 H2] name. split; auto.
Qed.

(** ** Properties *)

(** The help of each subcommand of [index] names its long options, all of them
    and no others. *)
Theorem index_help_documents_options (op : IndexOp) :
  documents create_help create_longopts ∧ documents destroy_help destroy_longopts ∧
  documents (update_help op) update_longopts ∧ documents list_help list_longopts.
Proof. split_and!; apply documents_dec; [..|destruct op| ]; vm_compute; reflexivity. Qed.

(** The help of [search] names two options that it does not take. *)
Theorem search_help_names_missing_options :
  ∀ name, name ∈ documented search_help ∧ name ∉ lo_name <$> search_longopts ↔
    name = "root" ∨ name = "profile".
Proof.
  intros name. split.
  - intros [Hd Hn]. change (documented search_help) with
      ["help"; "debug"; "verbose"; "host"; "port"; "root"; "profile"] in Hd.
    revert Hn. simpl. set_solver.
  - intros [-> | ->]; split; vm_compute; set_solver.
Qed.

(** Only [main] prints a help text, and it prints the one of the command whose
    arguments are wrong. *)
Lemma wrong_arguments_print_help `{!CommandCasts, !Getopt, !VoblaStatus} getenv subcmd argv cmd status :
  parse_command getenv subcmd (subcmd :: argv) = Some (Done ((-1)%Z, cmd)) →
  main_stderr getenv "" (subcmd :: argv) status = Done (print_help cmd).
Proof. intros Hp. unfold main_stderr. by rewrite Hp. Qed.

Lemma missing_query_prints_search_help `{!CommandCasts, !Getopt, !VoblaStatus} getenv argv opts status :
  getopt_long "hp:H:v:" search_longopts ("search" :: argv) = (opts, []) →
  opt_loop (common_option 1) opts (new_command getenv) = Done (Some (new_command getenv)) →
  main_stderr getenv "" ("search" :: argv) status = Done search_help.
Proof.
  intros Hg Ho. apply (wrong_arguments_print_help _ _ _ (SearchCommand (new_command getenv) "")).
  unfold parse_command, search_parse_args. simpl. by rewrite Hg, Ho.
Qed.
