(* ===== verification/FuseMain.v ===== *)
(** * The FUSE process (fuse/vsfs.cpp)

    The command line of [mount.vsfs]: the table of options, what each option
    does to the options and to the arguments that are handed on to the FUSE
    library, and [main] from there to its exit code.  How the library splits the
    command line into options and words is a parameter. *)

From S2P Require Import Prelude CxxString Platform Posix Storage Client Fuse CommandHelp.

(** ** The table of options *)

Inductive opt_key := KEY_DEBUG | KEY_HELP | KEY_TRACK_ACCESS | KEY_VERSION.

(** Where the value of an option goes, or the key that is passed to
    [vsfs_opt_proc]. *)
Inductive opt_rule := SetBasedir | SetHost | SetPort | SetStorage | SetDirwidth | OptKey (k : opt_key).

Definition vsfs_opts : list (string * opt_rule) :=
  [("--basedir %s", SetBasedir); ("-b %s", SetBasedir);
   ("--host %s", SetHost); ("-H %s", SetHost);
   ("--port %d", SetPort); ("-p %d", SetPort);
   ("--storage %s", SetStorage); ("-s %s", SetStorage);
   ("-w %d", SetDirwidth); ("--dirwidth %d", SetDirwidth);
   ("--version", OptKey KEY_VERSION); ("-h", OptKey KEY_HELP); ("--help", OptKey KEY_HELP);
   ("--debug", OptKey KEY_DEBUG)].

(** ** [fuse_opt_parse] *)

(** What libfuse makes of an argument: it matches a template of the table, with
    the text that takes the place of the format, or it matches none. *)
Inductive parsed_arg := Matched (template value : string) | Word (arg : string).
Class FuseOpt := {
  (** The arguments after the name of the program, in the order in which the
      library hands them on; [None] is a malformed line. *)
  fuse_opt_split : list string → list string → option (list parsed_arg);
  (** [sscanf] of a number. *)
  scan_int : string → option Z;
}.

(** After [memset]. *)
Definition no_options : Options :=
  {| opt_basedir := None; opt_storage := None; opt_host := None; opt_port := 0; opt_dirwidth := 0 |}.

(** A template with a format stores its value; [None] is a number that cannot be
    read. *)
Definition store_option `{FuseOpt} (rule : opt_rule) (value : string) (o : Options) : option Options :=
  match rule with
  | SetBasedir => Some {| opt_basedir := Some value; opt_storage := opt_storage o; opt_host := opt_host o;
                          opt_port := opt_port o; opt_dirwidth := opt_dirwidth o |}
  | SetHost => Some {| opt_basedir := opt_basedir o; opt_storage := opt_storage o; opt_host := Some value;
                       opt_port := opt_port o; opt_dirwidth := opt_dirwidth o |}
  | SetStorage => Some {| opt_basedir := opt_basedir o; opt_storage := Some value; opt_host := opt_host o;
                          opt_port := opt_port o; opt_dirwidth := opt_dirwidth o |}
  | SetPort => n ← scan_int value;
      Some {| opt_basedir := opt_basedir o; opt_storage := opt_storage o; opt_host := opt_host o;
              opt_port := n; opt_dirwidth := opt_dirwidth o |}
  | SetDirwidth => n ← scan_int value;
      Some {| opt_basedir := opt_basedir o; opt_storage := opt_storage o; opt_host := opt_host o;
              opt_port := opt_port o; opt_dirwidth := n |}
  | OptKey _ => Some o
  end.

Definition mount_usage (program : string) : string :=
  "Usage: " +:+ program +:+ " mountpoint [options]" +:+ nl +:+ nl +:+
  "General options:" +:+ nl +:+
  "    -o opt,[opt...]" +:+ tabs 1 +:+ "mount options" +:+ nl +:+
  "    -h, --help" +:+ tabs 2 +:+ "display this help" +:+ nl +:+
  "    --version" +:+ tabs 2 +:+ "show version information" +:+ nl +:+
  "    -d, --debug" +:+ tabs 2 +:+ "run in debug mode" +:+ nl +:+ nl +:+
  "Mount options:" +:+ nl +:+
  "    -b, --basedir DIR" +:+ tabs 1 +:+ "mount target directory (required)" +:+ nl +:+
  "    -H, --host HOST" +:+ tabs 1 +:+ "masterd hostname (default: localhost)." +:+ nl +:+
  "    -p, --port NUM" +:+ tabs 1 +:+ "masterd listen port (default: 9876)" +:+ nl +:+
  "    -s, --storage NAME" +:+ tabs 1 +:+ "choose a storage manager (choices: posix, object)." +:+ nl +:+
  tabs 3 +:+ "default: posix." +:+ nl +:+
  "    -w, --dirwidth NUM" +:+ tabs 1 +:+ "the directory width for object store." +:+ nl +:+ nl.

(** What the process does to the outside. *)
Inductive mount_event :=
  | Stderr (text : string)
  | RunFuse (args : list string)      (** [fuse_main] *)
  | InitFuse (basedir mnt host : string) (port : Z) (storage : string) (dirwidth : Z).

(** [vsfs_opt_proc(key, outargs)]: [exit(1)], or the new arguments and whether
    the argument itself is kept. *)
Definition vsfs_opt_proc (key : option opt_key) (outargs : list string)
    : list mount_event + list string * bool :=
  match key with
  | Some KEY_HELP => inl [Stderr (mount_usage (default "" (head outargs))); RunFuse (outargs ++ ["-ho"])]
  | Some KEY_VERSION => inl [Stderr ("VSFS version: 0.1" +:+ nl); RunFuse (outargs ++ ["--version"])]
  | Some KEY_DEBUG => inr (outargs ++ ["-d"], false)
  | Some KEY_TRACK_ACCESS | None => inr (outargs, true)
  end.

Inductive parse_result :=
  | Exits (events : list mount_event)
  | BadLine
  | Parsed (o : Options) (args : list string).

Fixpoint process_args `{FuseOpt} (parsed : list parsed_arg) (o : Options) (outargs : list string)
    : parse_result :=
  match parsed with
  | [] => Parsed o outargs
  | Word arg :: parsed' =>
      match vsfs_opt_proc None outargs with
      | inl events => Exits events
      | inr (outargs, keep) => process_args parsed' o (if keep then outargs ++ [arg] else outargs)
      end
  | Matched template value :: parsed' =>
      match snd <$> list_find (λ r : string * opt_rule, r.1 = template) vsfs_opts with
      | None => BadLine
      | Some (_, OptKey key) =>
          match vsfs_opt_proc (Some key) outargs with
          | inl events => Exits events
          | inr (outargs, keep) => process_args parsed' o (if keep then outargs ++ [template] else outargs)
          end
      | Some (_, rule) =>
          match store_option rule value o with
          | None => BadLine
          | Some o => process_args parsed' o outargs
          end
      end
  end.

(** ** [main] *)

Section main.
Context `{FuseOpt, VoblaStatus}.

(** [init_status] is the result of [VsfsFuse::init].  That of [fuse_main] only
    decides on an empty line. *)
Definition exit_handler (events : list mount_event) (status : Status) : list mount_event * Z :=
  (events ++ (if ok status then [] else [Stderr (message_of status +:+ nl)]), error_of status).
Definition run_mount (o : Options) (args : list string) (init_status : Status) : list mount_event * Z :=
  match check_options o with
  | inl status => exit_handler [] status
  | inr (basedir, host, port, storage, dirwidth) =>
      let mnt := default "" (last args) in
      let init := InitFuse basedir mnt host port storage dirwidth in
      if ok init_status then exit_handler [init; RunFuse args] OK
      else exit_handler [init] init_status
  end.
Definition mount_main (argv : list string) (init_status : Status) : list mount_event * Z :=
  match argv with
  | [] => exit_handler [] (Err (-1) "Can not parse command line parameters")
  | program :: argv' =>
      match fuse_opt_split (vsfs_opts.*1) argv' with
      | None => exit_handler [] (Err (-1) "Can not parse command line parameters")
      | Some parsed =>
          match process_args parsed no_options [program] with
          | Exits events => (events, 1%Z)
          | BadLine => exit_handler [] (Err (-1) "Can not parse command line parameters")
          | Parsed o args => run_mount o args init_status
          end
      end
  end.
End main.

(** ** Lemmas *)

Section lemmas.
Context `{!FuseOpt, !VoblaStatus}.

(** What a part of the command line leaves for the FUSE library. *)
Definition kept (p : parsed_arg) : list string :=
  match p with
  | Word arg => [arg]
  | Matched template _ => if bool_decide (template = "--debug") then ["-d"] else []
  end.

Lemma process_args_kept parsed o outargs o' args :
  process_args parsed o outargs = Parsed o' args → args = outargs ++ (parsed ≫= kept).
Proof.
  revert o outargs. induction parsed as [|[template value|arg] parsed IH]; intros o outargs Hp.
  - injection Hp as <- <-. by rewrite app_nil_r.
  - rewrite bind_cons. cbn [process_args] in Hp.
    destruct (list_find _ vsfs_opts) as [[i [template' rule]]|] eqn:Hfind; [|done].
    apply list_find_Some in Hfind as (Hi&Ht&_). simpl in Ht. subst template'.
    assert (kept (Matched template value) = match rule with OptKey KEY_DEBUG => ["-d"] | _ => [] end ∧
      rule ≠ OptKey KEY_TRACK_ACCESS) as [-> Hrule].
    { clear -Hi. unfold vsfs_opts in Hi. do 14 (destruct i as [|i]; [by simplify_eq/=|]). done. }
    cbn [fmap option_fmap option_map snd] in Hp. destruct rule as [| | | | |[]]; cbn [vsfs_opt_proc] in Hp;
      try (destruct (store_option _ _ _); [|done]); try done; apply IH in Hp; subst args; rewrite <-?app_assoc; done.
  - cbn [process_args vsfs_opt_proc] in Hp. apply IH in Hp. subst args. by rewrite bind_cons, <-app_assoc.
Qed.

(** The options [main] checks come from the last value of each. *)
Lemma run_mount_events o args init_status :
  RunFuse args ∈ (run_mount o args init_status).1 ↔
  ok init_status = true ∧ ∃ r, check_options o = inr r.
Proof.
  unfold run_mount, exit_handler.
  destruct (check_options o) as [s|[[[[b h] p] st] d]]; [|destruct (ok init_status)]; simpl.
  - split; [|naive_solver]. case_match; [by intros ?%elem_of_nil|]. by intros ?%list_elem_of_singleton.
  - split; [by eauto|]. intros _. right. left.
  - split; [|by intros [? _]]. rewrite !elem_of_cons, elem_of_nil. naive_solver.
Qed.

(** ** Properties *)

(** The FUSE library gets the words of the command line in their order, and the
    mount point of the file system is the last of what it gets: the word [mnt]
    when only options with a value follow it, and something else when a word or
    [--debug] follows. *)
Theorem mount_point_is_last program before mnt after o args :
  process_args (before ++ Word mnt :: after) no_options [program] = Parsed o args →
  args = program :: (before ≫= kept) ++ mnt :: (after ≫= kept) ∧
  last args = Some (default mnt (last (after ≫= kept))).
Proof.
  intros ->%process_args_kept. rewrite bind_app, bind_cons. split; [done|].
  rewrite app_assoc. change ([mnt] ++ ?l) with (mnt :: l). simpl kept. rewrite (app_assoc _ [mnt]).
  rewrite last_app. destruct (last (after ≫= kept)); [done|].
  by rewrite last_app.
Qed.
End lemmas.

(** ** Examples *)

Section examples.
(** A library that knows two options. *)
#[local] Instance two_options : FuseOpt := {|
  fuse_opt_split _ argv := Some ((fix split (l : list string) :=
    match l with
    | "-b" :: v :: l => Matched "-b %s" v :: split l
    | "--debug" :: l => Matched "--debug" "" :: split l
    | w :: l => Word w :: split l
    | [] => []
    end) argv);
  scan_int _ := None |}.
#[local] Instance plain_status : VoblaStatus := {| strerror _ := ""; system_error_code e := (- e)%Z |}.

Lemma mount_point_is_last_witness :
  last ["vsfs"; "/mnt"] = Some "/mnt".
Proof.
  apply (mount_point_is_last "vsfs" [Matched "-b %s" "/data"] "/mnt" [] (default no_options (Some
    {| opt_basedir := Some "/data"; opt_storage := None; opt_host := None; opt_port := 0; opt_dirwidth := 0 |}))).
  vm_compute. reflexivity.
Defined.

(** The usage text asks for the mount point first; with [--debug] after it the
    file system takes [-d] for its mount point. *)
Theorem debug_becomes_mount_point :
  mount_main ["vsfs"; "/mnt"; "-b"; "/data"; "--debug"] OK =
  ([InitFuse "/data" "-d" "localhost" 9876 "posix" 8192; RunFuse ["vsfs"; "/mnt"; "-d"]], 0%Z).
Proof. vm_compute. reflexivity. Qed.
End examples.
