(* ===== verification/UnitTests.v ===== *)
(** * The repository's unit tests, replayed on the model

    The gtest cases of the repository, one [Example] per case, on the concrete
    instances of [Reference]: each evaluates the model's definitions and
    compares with what the test expects.  They check the translation itself,
    independently of the theorems; the comments name the test files. *)

From S2P Require Import Prelude CxxString Platform PathUtil ThriftUtils IndexImpl RangeIndex TypedIndex.
From S2P Require Import LogManager IndexInfo RangeIndexWrapper IndexManager KVStore Namespace.
From S2P Require Import IndexNamespace MTHashMap PartitionManager ServerMap ComplexQuery.

(** The results of the calls of a test: [EXPECT_TRUE(call.ok())]. *)
Definition flag {A} (r : run (Status * A)) : option bool :=
  match r with Done (st, _) => Some (ok st) | Fatal _ => None end.
(** The state after a call. *)
Definition after {A} (a : A) (r : run (Status * A)) : A :=
  match r with Done (_, a') => a' | Fatal _ => a end.

Section tests.
Import Reference.
#[local] Existing Instances TestLevelDBStore.test_store TestLevelDBStore.test_store_spec.
#[local] Existing Instances RangeIndexWrapper.updates_codec RangeIndexWrapper.buffer_codec.
#[local] Existing Instances RangeIndexWrapper.types RangeIndexWrapper.casts.
#[local] Instance metadata_codec : ThriftCodec FileMetadata := codec FileMetadata.
#[local] Instance node_codec : ThriftCodec IndexNamespaceNode := codec IndexNamespaceNode.
#[local] Existing Instance Decimal.cast.
#[local] Instance ring_codec : ThriftCodec IndexConsistentHashRing := codec (list IndexPartition).

(** ** common/path_util_test.cpp *)

Example test_split_index_path :
  split_index_path <$> ["/foo/bar/.vsfs/name"; "/foo/bar/.vsfs"; "/foo/bar/.vsfs/"; "/foo/bar/.vsfs/a"; "/.vsfs/abc"]
  = [Some ("/foo/bar", "name"); None; None; Some ("/foo/bar", "a"); Some ("/", "abc")].
Proof. vm_compute. reflexivity. Qed.

(** ** common/complex_query_test.cpp *)

Definition parsed (t : Z) (buf : string) : option ComplexQuery :=
  match ComplexQuery.parse t new_query buf with
  | Done (st, q) => if ok st then Some q else None
  | Fatal _ => None
  end.

Example test_parse_root :
  (λ q, (root_ q,
         (λ r, (ComplexQuery.lower r, upper_closed r, ComplexQuery.upper r)) <$> range_query q "mtime",
         (λ r, (ComplexQuery.upper r, lower_closed r, ComplexQuery.lower r)) <$> range_query q "size"))
    <$> parsed 0 "/a/?mtime<1d&size>=100"
  = Some ("/a", Some ("", false, to_string (24 * 60 * 60)), Some ("", true, "100")).
Proof. vm_compute. reflexivity. Qed.

Example test_parse_long_root : root_ <$> parsed 0 "/home/a/b/c/?size>1g" = Some "/home/a/b/c".
Proof. vm_compute. reflexivity. Qed.

Example test_relative_time : (is_Some (parsed 1000 "/g/?atime>-1")) ∧ is_Some (parsed 1000 "/g/?mtime<+10").
Proof. vm_compute. eauto. Qed.

Example test_global_query : root_ <$> parsed 0 "/?size>10" = Some "/".
Proof. vm_compute. reflexivity. Qed.

(** TestNamedRangeQuery and TestQueryWithSpaces *)
Example test_named_query :
  (λ q, (λ r, (lower_closed r, ComplexQuery.lower r, ComplexQuery.upper r)) <$> range_query q "energy")
    <$> omap (parsed 0) ["/home/john/?energy>=12.5"; "/home/?energy >= 12.5"]
  = [Some (true, "12.5", ""); Some (true, "12.5", "")] ∧
  (λ q, range_query q "x-axis") <$> parsed 0 "/home/john/?energy>=12.5" = Some None.
Proof. vm_compute. done. Qed.

Example test_query_names :
  (λ q, length (get_names_of_range_queries q)) <$> parsed 0 "/home/?energy>12&mtime>100" = Some 2.
Proof. vm_compute. reflexivity. Qed.

(** ** common/posix_path_test.cpp *)

Definition path_parts (p : string) : option (bool * bool * string * string * string) :=
  match new_path p with
  | Done q => Some (is_query q, is_result q, pp_root q, pp_query q, pp_result q)
  | Fatal _ => None
  end.

Example test_posix_path :
  path_parts <$> ["/"; "/home/eddyxu/?size>10"; "/home/foo/?size>100/abc.txt"]
  = [Some (false, false, "/", "", ""); Some (true, false, "/home/eddyxu", "size>10", "");
     Some (false, true, "/home/foo", "size>100", "abc.txt")].
Proof. vm_compute. reflexivity. Qed.

(** ** masterd/namespace_test.cpp *)

Definition ns0 : Namespace (gmap string string) := Namespace.new ∅ 0.
Definition created (ns : Namespace (gmap string string)) (path : string) :=
  match Namespace.create ns path 0x666 100 100 noon with
  | Done (_, _, ns') => ns'
  | Fatal _ => ns
  end.
Definition id_at (ns : Namespace (gmap string string)) (path : string) : Z :=
  default 0%Z (Namespace.object_id ns path).2.

Example test_create_file :
  let ns := created ns0 "/foo/bar" in
  ok (Namespace.object_id ns "/foo/bar").1 = true ∧
  Namespace.file_path ns (id_at ns "/foo/bar") = (OK, Some "/foo/bar") ∧
  match Namespace.create ns "/foo/bar" 0x666 100 200 noon with Done (st, _, _) => ok st | Fatal _ => true end = false.
Proof. vm_compute. done. Qed.

Definition removed (ns : Namespace (gmap string string)) (path : string) :=
  match Namespace.remove ns path with
  | Done (st, oid, ns') => Some (ok st, oid, ns')
  | Fatal _ => None
  end.

Example test_remove_file :
  let ns := created ns0 "/foo" in
  let oid := id_at ns "/foo" in
  (λ r, r.1) <$> removed ns0 "/foo/bar" = Some (false, None) ∧
  match removed ns "/foo" with
  | Some (st, found, ns') =>
      st = true ∧ found = Some oid ∧ ok (Namespace.file_path ns' oid).1 = false ∧
      ok (Namespace.object_id ns' "/foo").1 = false
  | None => False
  end.
Proof. vm_compute. done. Qed.

Definition made (ns : Namespace (gmap string string)) (path : string) :=
  after ns (Namespace.mkdir ns path 0x666 100 100 noon).
Definition entered (ns : Namespace (gmap string string)) (d n : string) :=
  after ns (Namespace.add_subfile ns d n).

Example test_make_dirs :
  flag (Namespace.mkdir ns0 "/" 0x666 100 100 noon) = Some true ∧
  flag (Namespace.mkdir (made ns0 "/") "/foo/bar" 0x666 100 100 noon) = Some true ∧
  flag (Namespace.mkdir (made (made ns0 "/") "/foo/bar") "/foo/bar" 0x666 100 100 noon) = Some false.
Proof. vm_compute. done. Qed.

Example test_remove_dirs :
  flag (Namespace.rmdir ns0 "/foo") = Some false ∧
  flag (Namespace.rmdir (made ns0 "/foo") "/foo") = Some true ∧
  match Namespace.rmdir (entered (made ns0 "/foo") "/foo" "bar") "/foo" with
  | Done (st, _) => error_of st = (- ENOTEMPTY)%Z
  | Fatal _ => False
  end.
Proof. vm_compute. done. Qed.

Example test_add_subfiles :
  let foo := made ns0 "/foo" in
  let both := entered (entered foo "/foo" "bar") "/foo" "zoo" in
  flag (Namespace.add_subfile ns0 "/foo" "bar") = Some false ∧
  flag (Namespace.add_subfile foo "/foo" "bar") = Some true ∧
  flag (Namespace.add_subfile both "/foo" "bar") = Some false ∧
  Namespace.readdir both "/foo" = (OK, ["bar"; "zoo"]).
Proof. vm_compute. done. Qed.

Example test_remove_subfiles :
  let both := entered (entered (made ns0 "/foo") "/foo" "bar") "/foo" "zoo" in
  flag (Namespace.remove_subfile both "/foo" "zoo") = Some true ∧
  Namespace.readdir (after both (Namespace.remove_subfile both "/foo" "zoo")) "/foo" = (OK, ["bar"]) ∧
  flag (Namespace.remove_subfile both "/foo" "nonexist") = Some false.
Proof. vm_compute. done. Qed.

(** TestInitialize, with fewer files; a second namespace on the same store. *)
Definition placed (ns : Namespace (gmap string string)) (d n : string) :=
  entered (created ns (fs_append d n)) d n.
Definition filled : Namespace (gmap string string) :=
  let ns := entered (entered (made (made (made ns0 "/") "/foo") "/foo/bar") "/" "foo") "/foo" "bar" in
  foldl (λ ns i, placed (placed ns "/foo" ("test" +:+ to_string (Z.of_nat i)))
                   "/foo/bar" ("bla" +:+ to_string (Z.of_nat i))) ns (seq 0 5).

Example test_namespace_init :
  match Namespace.init (Namespace.new (store_ filled) 0) with
  | Done (st, ns) =>
      ok st = true ∧ Namespace.readdir ns "/" = (OK, ["foo"]) ∧
      Namespace.readdir ns "/foo" = (OK, ["bar"; "test0"; "test1"; "test2"; "test3"; "test4"]) ∧
      Namespace.readdir ns "/foo/bar" = (OK, ["bla0"; "bla1"; "bla2"; "bla3"; "bla4"])
  | Fatal _ => False
  end.
Proof. vm_compute. done. Qed.

Example test_find_files :
  let paths := (λ i, "/test" +:+ to_string (Z.of_nat i)) <$> seq 0 10 in
  let ns := foldl created ns0 paths in
  let ids := id_at ns <$> paths in
  bool_decide (NoDup ids) = true ∧ Namespace.find_files ns (ids ++ [12345%Z]) = (OK, paths ++ [""]).
Proof. vm_compute. done. Qed.

(** TestObjectIdDistribution: an object id and the hash of its path have the
    same server. *)
Example test_object_id_distribution :
  let path := "/foo/bar/dogs/dog56" in
  let server (i : Z) := node_of {| host := ""; port := i |} in
  let part_size := ((2 ^ 63 - 1) / 4)%Z in
  let servers := (add_at (add_at (ch_new : gmap Z NodeInfo) 0 (server 0%Z)).2 part_size (server 1%Z)).2 in
  ServerMap.get servers (object_id_of path 0) = ServerMap.get servers (path_to_hash path).
Proof. vm_compute. reflexivity. Qed.

(** ** masterd/index_namespace_test.cpp *)

Definition in0 : IndexNamespace (gmap string string) := IndexNamespace.new ∅.
Definition indexed (l : list (string * string)) : IndexNamespace (gmap string string) :=
  foldl (λ ns p, after ns (IndexNamespace.insert ns p.1 p.2)) in0 l.
Definition insert_error (ns : IndexNamespace (gmap string string)) (path name : string) : option Z :=
  match IndexNamespace.insert ns path name with Done (st, _) => Some (error_of st) | Fatal _ => None end.

Example test_creates :
  (λ path, insert_error (indexed [("/foo/bar", "test")]) path "test")
    <$> ["/foo/bar"; "/foo/bar/"; "/foo/bar///"; "/"]
  = [Some (- EEXIST)%Z; Some (- EEXIST)%Z; Some (- EEXIST)%Z; Some 0%Z] ∧
  insert_error (indexed [("/", "test")]) "/" "test" = Some (- EEXIST)%Z ∧
  size (in_store_ (indexed [("/foo/bar", "test"); ("/foo/bar", "test"); ("/", "test")])) = 2.
Proof. vm_compute. done. Qed.

Example test_index_remove :
  let ns := indexed [("/foo/bar", "test0"); ("/foo/bar", "test1")] in
  let gone := after ns (IndexNamespace.remove_name ns "/foo/bar" "test0") in
  flag (IndexNamespace.remove_name ns "/foo" "test0") = Some false ∧
  flag (IndexNamespace.remove_name ns "/foo/bar" "test2") = Some false ∧
  flag (IndexNamespace.remove_name ns "/foo/bar" "test0") = Some true ∧
  (IndexNamespace.have gone "/foo/bar") <$> ["test0"; "test1"] = [Done false; Done true].
Proof. vm_compute. done. Qed.

Example test_remove_directory :
  let ns := indexed [("/foo/bar", "test0"); ("/foo/bar", "test1"); ("/foo/bar", "test2")] in
  flag (IndexNamespace.remove_path ns "/foo/bar") = Some true ∧
  (IndexNamespace.have (after ns (IndexNamespace.remove_path ns "/foo/bar")) "/foo/bar")
    <$> ["test0"; "test1"; "test2"] = [Done false; Done false; Done false].
Proof. vm_compute. done. Qed.

(** TestGet *)
Example test_find_index :
  let ns := indexed [("/foo/bar", "test"); ("/foo/bar/zoo", "nontest"); ("/", "test")] in
  (λ p, (IndexNamespace.find ns p.1 p.2).2)
    <$> [("/foo/bar/zoo/test.txt", "test"); ("/foo/bar", "test"); ("/foo/bar/zoo/test.txt", "nowhere");
         ("/foo/fruit", "test")]
  = [Some "/foo/bar"; Some "/foo/bar"; None; Some "/"].
Proof. vm_compute. reflexivity. Qed.

Example test_collect :
  let l := [("/foo/bar", "test"); ("/foo/bar/data0", "data0"); ("/foo/bar/data1", "data1");
            ("/foo/bar/data1", "test")] in
  IndexNamespace.collect (indexed l) "/foo/bar" "test" = ["/foo/bar"; "/foo/bar/data1"] ∧
  IndexNamespace.collect (indexed (l ++ [("/foo/sushi", "test")])) "/foo/bar" "test"
  = ["/foo/bar"; "/foo/bar/data1"] ∧
  IndexNamespace.collect (indexed (l ++ [("/foo/sushi", "test"); ("/foo/cdef", "cdef")])) "/foo" "test"
  = ["/foo/bar"; "/foo/bar/data1"; "/foo/sushi"].
Proof. vm_compute. done. Qed.

Example test_get_indices :
  IndexNamespace.get_indices
    (indexed [("/foo/bar", "test"); ("/foo/bar/data0", "data0"); ("/foo/bar/data1", "test")]) "/foo" true
  = ["/foo/bar/.vsfs/test"; "/foo/bar/data0/.vsfs/data0"; "/foo/bar/data1/.vsfs/test"].
Proof. vm_compute. reflexivity. Qed.

Example test_index_names :
  IndexNamespace.get_index_names
    (indexed [("/foo/bar", "abc"); ("/foo/bar", "def"); ("/foo/bar", "ghi"); ("/foo/bar", "jkl")])
    <$> ["/foo/bar"; "/foo"; "/"; "/foo/bar/zoo"]
  = [["abc"; "def"; "ghi"; "jkl"]; []; []; []].
Proof. vm_compute. reflexivity. Qed.

(** ** masterd/partition_manager_test.cpp *)

Definition pm0 : PartitionManager (gmap string string) (gmap Z string) := PartitionManager.new ∅.
Definition pm_index pm path := after pm (PartitionManager.add_index (S := gmap string string) (R := gmap Z string) 0 pm path).
Definition pm_split pm path sep :=
  after pm (PartitionManager.add_partition (S := gmap string string) (R := gmap Z string) pm path sep).

Example test_add_index :
  let path := "/home/john/.vsfs/energy" in
  let pm := pm_index pm0 path in
  flag (PartitionManager.add_index 0 pm0 path) = Some true ∧
  get_partition_path pm path 0 = path +:+ ".0" ∧ get_partition_path pm path (-1000) = path +:+ ".0" ∧
  flag (PartitionManager.add_index 0 pm path) = Some false ∧
  flag (PartitionManager.remove_index pm path) = Some true ∧
  get_partition_path (after pm (PartitionManager.remove_index pm path)) path 0 = "".
Proof. vm_compute. done. Qed.

(** TestRestoreFromDisk *)
Example test_restore :
  let pm := pm_index (pm_index (pm_split (pm_index pm0 "/test0") "/test0" 1000) "/test1") "/test2" in
  match PartitionManager.init 0 (PartitionManager.new (R := gmap Z string) (pm_store_ pm)) with
  | Done (st, pm') =>
      ok st = true ∧
      (λ p, get_partition_path pm' p.1 p.2)
        <$> [("/test0", 0%Z); ("/test0", (-100)%Z); ("/test1", 65535%Z); ("/test2", 10000%Z); ("/nonexist", 0%Z)]
      = ["/test0.0"; "/test0.1000"; "/test1.0"; "/test2.0"; ""]
  | Fatal _ => False
  end.
Proof. vm_compute. done. Qed.

Example test_all_partitions :
  let pm := foldl (λ pm i, pm_split pm "/test0" (Z.of_nat i * 1000)) (pm_index pm0 "/test0") (seq 1 10) in
  get_all_partitions pm "/test0"
  = (OK, (λ i, "/test0." +:+ to_string (Z.of_nat i * 1000)) <$> seq 0 11).
Proof. vm_compute. reflexivity. Qed.

Example test_remove_partition :
  let pm := pm_split (pm_split (pm_index pm0 "test") "test" 100) "test" 200 in
  (get_all_partitions pm "test").2 = ["test.0"; "test.100"; "test.200"] ∧
  flag (PartitionManager.remove_partition pm "test" 120) = Some false ∧
  flag (PartitionManager.remove_partition pm "test" 100) = Some true ∧
  (get_all_partitions (after pm (PartitionManager.remove_partition pm "test" 100)) "test").2
  = ["test.0"; "test.200"].
Proof. vm_compute. done. Qed.

(** ** common/server_map_test.cpp *)

Definition numbered (i : nat) : NodeInfo := node_of {| host := "node" +:+ to_string (Z.of_nat i); port := 0 |}.
Definition ten_servers : gmap Z NodeInfo :=
  foldl (λ sm i, (add_at sm (Z.of_nat i * 1000) (numbered i)).2) ∅ (seq 0 10).

Example test_remove_server :
  let sm := (add_at (∅ : gmap Z NodeInfo) 0 (numbered 1)).2 in
  ok (add_at (∅ : gmap Z NodeInfo) 0 (numbered 1)).1 = true ∧ num_nodes sm = 1 ∧
  ok (ServerMap.remove sm 0).1 = true ∧ num_nodes (ServerMap.remove sm 0).2 = 0.
Proof. vm_compute. done. Qed.

Example test_get_by_path :
  ServerMap.get_path ten_servers "/abc/def/ghi" = ServerMap.get ten_servers (path_to_hash "/abc/def/ghi").
Proof. reflexivity. Qed.

Example test_ring_as_map :
  get_ch_ring_as_map ten_servers = list_to_map ((λ i, ((Z.of_nat i * 1000)%Z, numbered i)) <$> seq 0 10).
Proof. vm_compute. reflexivity. Qed.

(** ** common/log_manager_test.cpp *)

(** Records that encode as 1024 characters, as the test's buffer. *)
#[local] Instance kilobyte : ThriftCodec nat := {
  thrift_write _ := String.concat "" (replicate 1024 "x"); thrift_read _ := Some 0 }.
Definition logged (n : nat) : LogManager nat :=
  foldl (λ lm i, (LogManager.append (Z.of_nat i) i lm).2) LogManager.new (seq 1 n).

Example test_append : log_size (logged 10) = 10.
Proof. vm_compute. reflexivity. Qed.
Example test_erase_to : log_size (LogManager.erase 50 (logged 100)) = 50.
Proof. vm_compute. reflexivity. Qed.
Example test_scan :
  (λ t, let '(st, l) := LogManager.scan t (logged 100) in (ok st, length l)) <$> [8%Z; 110%Z]
  = [(true, 8); (true, 100)].
Proof. vm_compute. reflexivity. Qed.

(** TestFlushRecords and TestFlushMultiTimes: four records at a time. *)
Fixpoint flushed (n : nat) (lm : LogManager nat) : list Z :=
  match n with
  | 0 => []
  | S n' =>
      match LogManager.flush (4 * 1024) true lm with
      | Done (_, _, lm') => last_flushed_txn_id_ lm' :: flushed n' lm'
      | Fatal _ => []
      end
  end.
Example test_flush : flushed 3 (logged 20) = [4%Z; 8%Z; 12%Z].
Proof. vm_compute. reflexivity. Qed.

(** ** index/range_index_test.cpp, index/hash_index_test.cpp *)

Definition sorted_ids (l : list Z) : list Z := elements (list_to_set l : gset Z).
Definition ids_at (key : Z) (m : gmap Z (gset Z)) : list Z := IndexImpl.search key [] m.

Example test_insert_uint64 :
  let m := foldl (λ m id, IndexImpl.insert 4%Z id m) ∅ [10; 11; 12; 12]%Z in
  bool_decide (ids_at 4%Z m ≡ₚ [10; 11; 12]%Z) = true ∧ ids_at 3%Z m = [].
Proof. vm_compute. done. Qed.

Example test_erase_values :
  let m := foldl (λ m i, IndexImpl.insert 4%Z (Z.of_nat i) m) ∅ (seq 0 10) in
  let m := foldl (λ m id, IndexImpl.erase 4%Z id m) m [1; 3; 5; 7; 9; 3]%Z in
  bool_decide (ids_at 4%Z m ≡ₚ [0; 2; 4; 6; 8]%Z) = true.
Proof. vm_compute. done. Qed.

Example test_erase_key :
  let m := foldl (λ m i, IndexImpl.insert 10%Z (Z.of_nat i) m) ∅ (seq 0 5) in
  let m := IndexImpl.insert 9%Z 9 (IndexImpl.insert 8%Z 8 m) in
  bool_decide (ids_at 10%Z m ≡ₚ [0; 1; 2; 3; 4]%Z) = true ∧ ids_at 10%Z (IndexImpl.erase_key 10%Z m) = [].
Proof. vm_compute. done. Qed.

(** The float index of the test has the keys 0.2, 0.4, ..., 1.8; here in tenths. *)
Example test_range_search :
  let m := foldl (λ m i, IndexImpl.insert (2 * Z.of_nat i)%Z (2 * Z.of_nat i)%Z m) ∅ (seq 1 9) in
  RangeIndex.search_range Z.le 8%Z false 15%Z false [] m = [8; 10; 12; 14]%Z.
Proof. vm_compute. reflexivity. Qed.

(** ** masterd/mt_hashmap_test.cpp *)

#[local] Instance string_order : UnorderedMap string string := λ m, map_to_list m.
Definition hash_of_string (s : string) : Z := path_to_hash s.
Definition entries_of (l : list string) : MTHashMap string string :=
  foldl (λ m k, (MTHashMap.insert hash_of_string m k k).2) (MTHashMap.new 16) l.

Example test_map_constructor :
  let m : MTHashMap string string := MTHashMap.new 1024 in
  MTHashMap.empty m = true ∧ size_ m = 0 ∧ bucket_size m = 1024 ∧ at_ hash_of_string m "123" = None.
Proof. vm_compute. done. Qed.

Example test_map_insert :
  let '(it, new, m) := MTHashMap.insert hash_of_string (MTHashMap.new 16) "abc" "123" in
  new = true ∧ dereference m it = Done ("abc", "123") ∧
  MTHashMap.equal (MTHashMap.begin_ m) it = true ∧
  MTHashMap.equal (MTHashMap.increment m (MTHashMap.begin_ m)) (MTHashMap.end_ m) = true.
Proof. vm_compute. done. Qed.

Example test_map_assign_and_equal :
  let m := entries_of ["1"; "2"; "3"] in
  let copy := MTHashMap.copy_from (MTHashMap.new 16) m in
  size_ copy = 3 ∧ MTHashMap.eqb m copy = true.
Proof. vm_compute. done. Qed.

Example test_map_iteration :
  let m := entries_of ["1"; "2"; "3"; "4"] in
  let cleared := MTHashMap.clear m in
  size_ m = 4 ∧
  (λ r, match r with Done l => bool_decide (l.*2 ≡ₚ ["1"; "2"; "3"; "4"]) | Fatal _ => false end)
    <$> iterate 10 m (MTHashMap.begin_ m) = Some true ∧
  size_ cleared = 0 ∧ MTHashMap.empty cleared = true ∧
  MTHashMap.equal (MTHashMap.begin_ cleared) (MTHashMap.end_ cleared) = true.
Proof. vm_compute. done. Qed.

(** ** indexd/index_manager_test.cpp, indexd/index_controller_test.cpp *)

Abbreviation manager := (IndexManager RangeIndexObject).
Definition im0 : manager := IndexManager.new_manager "".
Definition UINT64_ID : Z := 1.
Definition im_create (im : manager) root name : manager := (IndexManager.create 0 root name BTREE UINT64_ID im).2.

Example test_create_failures :
  (λ p, ok (IndexManager.create 0 p.1.1 p.1.2 p.2.1 p.2.2 im0).1)
    <$> [("", "index", (BTREE, 1%Z)); ("/abc", "", (BTREE, 1%Z)); ("/abc", "index", (HASH, 1%Z));
         ("/abc", "index", (0%Z, 1%Z)); ("/abc", "index", (10000%Z, 1%Z)); ("/home/test", "test-index", (BTREE, 1%Z))]
  = [false; false; true; false; false; true] ∧
  ok (IndexManager.create 0 "/home/test" "test-index" BTREE 1 (im_create im0 "/home/test" "test-index")).1 = false.
Proof. vm_compute. done. Qed.

Example test_create_destroy :
  let im := im_create im0 "/home/test" "index" in
  is_Some (get_range_index "/home/test" im) ∧ ok (IndexManager.destroy "/home/test" "index" im).1 = true ∧
  get_range_index "/home/test" (IndexManager.destroy "/home/test" "index" im).2 = None.
Proof. vm_compute. eauto. Qed.

(** Updates of one index with the keys and values [ks]. *)
Definition updates_for (t : Z) (root : string) (code : RpcIndexUpdateOpCode) (ks : list nat) : RpcIndexUpdate :=
  {| u_txn_id := t;
     u_updates := [{| root_path := root; list_name := "test";
                      record_updates := (λ i, let s := to_string (Z.of_nat i) in
                        {| op := code; IndexImpl.key := s; IndexImpl.value := s |}) <$> ks |}] |}.
Definition send (immediately : bool) (im : manager) (u : RpcIndexUpdate) : manager :=
  after im (IndexManager.update_all immediately u (u_updates u) im).
Definition index_size_at (root : string) (im : manager) : option nat := ri_size <$> get_range_index root im.

Example test_update_basics :
  index_size_at "/path" (send true (im_create im0 "/path" "index") (updates_for 100 "/path" INSERT (seq 0 10)))
  = Some 10.
Proof. vm_compute. reflexivity. Qed.

Example test_update_only_appends_logs :
  let im := foldl (λ im t, send false im (updates_for (Z.of_nat t) "/path" INSERT [t]))
              (im_create im0 "/path" "index") (seq 100 10) in
  index_size_at "/path" im = Some 0 ∧
  flag (merge_log_to_index "/path" 104 im) = Some true ∧
  index_size_at "/path" (after im (merge_log_to_index "/path" 104 im)) = Some 5.
Proof. vm_compute. done. Qed.

(** TestInfo, and TestMergeForAnsweringInfoRequest *)
Example test_info :
  let im := send false (im_create im0 "/foo/bar" "energy") (updates_for 100 "/foo/bar" UPDATE (seq 0 100)) in
  match IndexManager.info {| ir_txn_id := 101; ir_path := "/foo/bar"; ir_recursive := false |} im with
  | Done (st, Some i, _) =>
      ok st = true ∧ rii_path i = "/foo/bar" ∧ rii_name i = "energy" ∧ rii_type i = BTREE ∧
      rii_key_type i = UINT64_ID ∧ rii_num_records i = 100
  | _ => False
  end.
Proof. vm_compute. done. Qed.

Example test_search_after_update :
  let im := send false (im_create im0 "/foo/bar" "test") (updates_for 100 "/foo/bar" UPDATE (seq 0 100)) in
  match IndexManager.search_all
    {| cq_txn_id := 101; cq_root := "/foo/bar";
       cq_range_queries := [{| q_index_path := "/foo/bar"; q_name := "test"; q_lower := "50";
                               q_lower_open := true; q_upper := ""; q_upper_open := false |}] |} im with
  | Done (st, l, _) => ok st = true ∧ length l = 49
  | Fatal _ => False
  end.
Proof. vm_compute. done. Qed.

(** TestFlushLog and TestDisallowMergeWhenMigrate *)
Definition ten_updates : RangeIndexWrapper RangeIndexObject :=
  foldl (λ w t, after w (RangeIndexWrapper.update false (Z.of_nat t)
                           {| root_path := "/foo/bar"; list_name := "test"; record_updates := [] |} w))
    (new_wrapper 0 "/logfile" RangeIndexWrapper.empty_index true) (seq 1 10).

Example test_flush_log :
  match RangeIndexWrapper.flush_log 1000 true true ten_updates with
  | Done (st, out, _) => ok st = true ∧ 10 ≤ String.length out
  | Fatal _ => False
  end.
Proof. vm_compute. split; [done|lia]. Qed.

Example test_no_merge_when_migrating :
  flag (RangeIndexWrapper.merge 20 (set_status MIGRATING ten_updates)) = Some false ∧
  flag (RangeIndexWrapper.merge 21 (set_status NORMAL (set_status MIGRATING ten_updates))) = Some true.
Proof. vm_compute. done. Qed.
End tests.
